(** * xNVMe: the fio I/O engine and the asynchronous zoned-I/O example

    A shallow embedding of [tools/fio-engine/xnvme_fioe.c] and
    [examples/zoned_io_async.c].  Machine integers are [Z] with their
    wrap-around written out, arrays are lists read and updated by index,
    intrusive [SLIST] free lists are lists with the head in front, and the
    library calls of the asynchronous context are answered by a device whose
    choices are taken from an explicit oracle. *)

From Stdlib Require Import ZArith List Lia Bool.
From stdpp Require Import base list.
Import ListNotations.

Local Open Scope Z_scope.

(** ** Machine integers *)

Definition wrap32 (x : Z) : Z := x mod 2 ^ 32.
Definition wrap64 (x : Z) : Z := x mod 2 ^ 64.

(** Conversion of an unsigned 32-bit value to [int]. *)
Definition to_int (x : Z) : Z :=
  let y := wrap32 x in if y <? 2 ^ 31 then y else y - 2 ^ 32.

(** [x << n] and [x >> n] on [uint64_t]. *)
Definition shl64 (x n : Z) : Z := wrap64 (Z.shiftl x n).
Definition shr64 (x n : Z) : Z := Z.shiftr x n.

(** [((offset >> ssw) / nsect) * nsect]: the start LBA of the zone that holds
    the byte at [offset], on a device with [nsect] sectors per zone and
    sectors of [2 ^ ssw] bytes. *)
Definition zone_align (ssw nsect offset : Z) : Z :=
  wrap64 (shr64 offset ssw / nsect * nsect).

(** [<errno.h>] *)
Definition EIO : Z := 5.
Definition EAGAIN : Z := 11.
Definition EBUSY : Z := 16.

(** ** Zone reports: [xnvme_fioe_report_zones] *)

Module Report.

(** The enumerators of [libznd.h] that the function switches on.  The header
    is not part of the sources at hand, so their values are parameters. *)
Record znd_enum := {
  ZND_TYPE_SEQWR : Z;
  ZND_STATE_EMPTY : Z;
  ZND_STATE_IOPEN : Z;
  ZND_STATE_EOPEN : Z;
  ZND_STATE_CLOSED : Z;
  ZND_STATE_FULL : Z;
  ZND_STATE_RONLY : Z;
  ZND_STATE_OFFLINE : Z
}.

(** The labels of one [switch] are pairwise distinct (the compiler rejects
    duplicate case values). *)
Definition state_labels (c : znd_enum) : list Z :=
  [ZND_STATE_EMPTY c; ZND_STATE_IOPEN c; ZND_STATE_EOPEN c; ZND_STATE_CLOSED c;
   ZND_STATE_FULL c; ZND_STATE_RONLY c; ZND_STATE_OFFLINE c].

(** The values the NVMe Zoned Namespace command set assigns to the zone type
    and zone state fields of a zone descriptor. *)
Definition nvme_zns : znd_enum := {|
  ZND_TYPE_SEQWR := 2;
  ZND_STATE_EMPTY := 1;
  ZND_STATE_IOPEN := 2;
  ZND_STATE_EOPEN := 3;
  ZND_STATE_CLOSED := 4;
  ZND_STATE_FULL := 14;
  ZND_STATE_RONLY := 13;
  ZND_STATE_OFFLINE := 15
|}.

(** [struct znd_descr], the fields the engine reads. *)
Record znd_descr := {
  zt : Z;
  zs : Z;
  zcap : Z;
  zslba : Z;
  wp : Z
}.

(** fio's [enum zbd_zone_type] and [enum zbd_zone_cond]. *)
Inductive zbd_zone_type :=
| ZBD_ZONE_TYPE_CNV
| ZBD_ZONE_TYPE_SWR
| ZBD_ZONE_TYPE_SWP.

Inductive zbd_zone_cond :=
| ZBD_ZONE_COND_NOT_WP
| ZBD_ZONE_COND_EMPTY
| ZBD_ZONE_COND_IMP_OPEN
| ZBD_ZONE_COND_EXP_OPEN
| ZBD_ZONE_COND_CLOSED
| ZBD_ZONE_COND_READONLY
| ZBD_ZONE_COND_FULL
| ZBD_ZONE_COND_OFFLINE.

(** fio's [struct zbd_zone]. *)
Record zbd_zone := {
  z_start : Z;
  z_wp : Z;
  z_len : Z;
  z_type : zbd_zone_type;
  z_cond : zbd_zone_cond
}.

(** The [switch (descr->zs)] of the transformation loop. *)
Definition cond_of_state (c : znd_enum) (s : Z) : zbd_zone_cond :=
  if s =? ZND_STATE_EMPTY c then ZBD_ZONE_COND_EMPTY
  else if s =? ZND_STATE_IOPEN c then ZBD_ZONE_COND_IMP_OPEN
  else if s =? ZND_STATE_EOPEN c then ZBD_ZONE_COND_EXP_OPEN
  else if s =? ZND_STATE_CLOSED c then ZBD_ZONE_COND_CLOSED
  else if s =? ZND_STATE_FULL c then ZBD_ZONE_COND_FULL
  else ZBD_ZONE_COND_OFFLINE.

(** What the body of the loop leaves in [zbdz[idx]] before the type switch. *)
Definition set_extent (ssw : Z) (d : znd_descr) (z : zbd_zone) : zbd_zone :=
  {| z_start := shl64 (zslba d) ssw;
     z_len := shl64 (zcap d) ssw;
     z_wp := shl64 (wp d) ssw;
     z_type := z_type z;
     z_cond := z_cond z |}.

Definition set_type_cond (t : zbd_zone_type) (k : zbd_zone_cond) (z : zbd_zone)
  : zbd_zone :=
  {| z_start := z_start z; z_len := z_len z; z_wp := z_wp z;
     z_type := t; z_cond := k |}.

(** The loop [for (idx = 0; idx < rprt->nentries; ++idx)], entered at [idx]
    with the entries from [idx] on; the result is the value of [err] and the
    array [zbdz] at label [exit]. *)
Fixpoint transform (c : znd_enum) (ssw : Z) (ds : list znd_descr) (idx : nat)
    (zbdz : list zbd_zone) : Z * list zbd_zone :=
  match ds with
  | [] => (0, zbdz)
  | d :: ds' =>
      let zbdz1 := alter (set_extent ssw d) idx zbdz in
      if zt d =? ZND_TYPE_SEQWR c then
        transform c ssw ds' (S idx)
          (alter (set_type_cond ZBD_ZONE_TYPE_SWR (cond_of_state c (zs d))) idx zbdz1)
      else (- EIO, zbdz1)
  end.

(** The device as the function sees it: geometry, shift width and the answer
    of [znd_report_from_dev], either the entries of the report or the value of
    [errno]. *)
Record xnvme_dev := {
  geo_nsect : Z;
  geo_tbytes : Z;
  dev_ssw : Z;
  report_from_dev : Z -> Z -> Z + list znd_descr
}.

(** [rprt->nentries] *)
Definition nentries (r : list znd_descr) : Z := Z.of_nat (length r).

(** [xnvme_fioe_report_zones]: [open] is the result of [xnvme_dev_open], the
    result is the returned [int] and the caller's array. *)
Definition xnvme_fioe_report_zones (c : znd_enum) (open : option xnvme_dev)
    (offset : Z) (zbdz : list zbd_zone) (nr_zones : Z) : Z * list zbd_zone :=
  let ret (err : Z) := if err =? 0 then to_int nr_zones else err in
  match open with
  | None => (ret 0, zbdz)
  | Some dev =>
      let ssw := dev_ssw dev in
      let slba := zone_align ssw (geo_nsect dev) offset in
      match report_from_dev dev slba nr_zones with
      | inl errno => (ret (- errno), zbdz)
      | inr rprt =>
          if negb (nentries rprt =? nr_zones) then (ret 1, zbdz)
          else if offset >? geo_tbytes dev then (ret 0, zbdz)
          else
            let '(err, zbdz') := transform c ssw rprt 0 zbdz in
            (ret err, zbdz')
      end
  end.

(** The zone type passes the [switch (descr->zt)] of the loop. *)
Definition seqwr_type (c : znd_enum) (d : znd_descr) : Prop :=
  zt d = ZND_TYPE_SEQWR c.

(** Example data: a caller's array of [n] untouched entries, and devices with
    sectors of 512 bytes and zones of 8 sectors that answer every report
    request with a fixed list of entries. *)
Definition blank : zbd_zone :=
  {| z_start := 0; z_wp := 0; z_len := 0;
     z_type := ZBD_ZONE_TYPE_CNV; z_cond := ZBD_ZONE_COND_NOT_WP |}.

Definition seqwr (state slba : Z) : znd_descr :=
  {| zt := 2; zs := state; zcap := 8; zslba := slba; wp := slba |}.

Definition reporting (entries : list znd_descr) : xnvme_dev :=
  {| geo_nsect := 8; geo_tbytes := 1048576; dev_ssw := 9;
     report_from_dev := fun _ _ => inr entries |}.

End Report.

(** ** Write-pointer reset: [xnvme_fioe_reset_wp] *)

Module Reset.

(** The answer of the device to one [znd_cmd_mgmt_send(.., ZND_SEND_RESET, ..,
    XNVME_CMD_SYNC, &req)]: the returned [err] and the completion status left
    in [req].  It may depend on the zone and on how many commands were sent
    before. *)
Definition mgmt_send := nat -> Z -> Z * Z.

(** The [for] loop, entered with [zslba]; [sent] lists the zone start LBAs
    that received a command, oldest first.  [None] when the fuel runs out. *)
Fixpoint reset_loop (fuel : nat) (send : mgmt_send) (nsect last zslba : Z)
    (sent : list Z) : option (Z * list Z) :=
  match fuel with
  | O => None
  | S fuel' =>
      if zslba <=? last then
        let '(err, status) := send (length sent) zslba in
        let sent' := sent ++ [zslba] in
        if negb (err =? 0) || negb (status =? 0) then
          Some (if negb (err =? 0) then err else - EIO, sent')
        else reset_loop fuel' send nsect last (wrap64 (zslba + nsect)) sent'
      else Some (0, sent)
  end.

Definition zone_first (ssw nsect offset : Z) : Z :=
  zone_align ssw nsect offset.

Definition zone_last (ssw nsect offset length : Z) : Z :=
  zone_align ssw nsect (wrap64 (offset + length)).

(** [xnvme_fioe_reset_wp] on a device with shift width [ssw] and [nsect]
    sectors per zone: the returned [err] and the commands sent. *)
Definition xnvme_fioe_reset_wp (fuel : nat) (send : mgmt_send) (ssw nsect : Z)
    (offset length : Z) : option (Z * list Z) :=
  reset_loop fuel send nsect (zone_last ssw nsect offset length)
    (zone_first ssw nsect offset) [].

(** A device on which every reset succeeds. *)
Definition send_ok : mgmt_send := fun _ _ => (0, 0).

(** A device on which the reset of the zone at [bad] completes with a
    non-zero status. *)
Definition send_bad (bad : Z) : mgmt_send :=
  fun _ zslba => if zslba =? bad then (0, 1) else (0, 0).

(** The zone starts [z], [z + nsect], ... that do not exceed [last]. *)
Fixpoint upto (n : nat) (z nsect : Z) : list Z :=
  match n with
  | O => []
  | S n' => z :: upto n' (z + nsect) nsect
  end.

Definition targets (nsect z last : Z) : list Z :=
  if z <=? last then upto (S (Z.to_nat ((last - z) / nsect))) z nsect else [].

(** One command per target, in order, up to the first one that fails. *)
Fixpoint sweep (send : mgmt_send) (zs : list Z) (sent : list Z) : Z * list Z :=
  match zs with
  | [] => (0, sent)
  | z :: zs' =>
      let '(err, status) := send (length sent) z in
      if negb (err =? 0) || negb (status =? 0) then
        (if negb (err =? 0) then err else - EIO, sent ++ [z])
      else sweep send zs' (sent ++ [z])
  end.

(** In the words of the specification: the zone that starts at [zslba]
    overlaps the half-open byte range [[offset, offset + length)]. *)
Definition overlaps (ssw nsect offset length zslba : Z) : bool :=
  (Z.shiftl zslba ssw <? offset + length) &&
  (offset <? Z.shiftl (zslba + nsect) ssw).

End Reset.

(** ** The asynchronous context *)

Module Async.

(** Modelled from the spec: the asynchronous context of the library
    ([xnvme_async_init], the asynchronous [xnvme_cmd_read], [xnvme_cmd_write]
    and [znd_cmd_append], [xnvme_async_poke], [xnvme_async_wait]) is not among
    the sources.  A context binds a queue of [depth] slots to a device; a
    submission is accepted only while fewer than [depth] commands are
    outstanding and is answered with [-EBUSY] otherwise; [poke] reaps
    finished commands, at most [max] of them unless [max] is [0], or fails
    with a transient or hard error; [wait] returns once every outstanding
    command has completed.  Both hand the completions to the callbacks and
    return their number.  What the device decides is read from an oracle. *)

Record device := {
  (** answer to the [n]-th submission when the queue has room: [0] accepts *)
  dv_verdict : nat -> Z;
  (** at the [n]-th [poke]: has the [k]-th accepted command finished? *)
  dv_finished : nat -> nat -> bool;
  (** completion status of the [k]-th accepted command *)
  dv_status : nat -> Z;
  (** a negative value makes the [n]-th [poke] fail with it *)
  dv_poke_err : nat -> Z
}.

Section Context.
Context {H : Type}.

(** An outstanding command: its sequence number and its request handle. *)
Record command := { c_seq : nat; c_req : H }.

Record ctx := {
  depth : Z;
  inflight : list command;
  attempts : nat;
  accepted : nat;
  pokes : nat
}.

Definition xnvme_async_init (qd : Z) : ctx :=
  {| depth := qd; inflight := []; attempts := 0; accepted := 0; pokes := 0 |}.

Definition outstanding (c : ctx) : Z := Z.of_nat (length (inflight c)).

Definition submit (d : device) (c : ctx) (r : H) : ctx * Z :=
  let v := if outstanding c <? depth c then dv_verdict d (attempts c) else - EBUSY in
  if v =? 0 then
    ({| depth := depth c;
        inflight := inflight c ++ [{| c_seq := accepted c; c_req := r |}];
        attempts := S (attempts c);
        accepted := S (accepted c);
        pokes := pokes c |}, 0)
  else
    ({| depth := depth c; inflight := inflight c; attempts := S (attempts c);
        accepted := accepted c; pokes := pokes c |}, v).

(** Split the outstanding commands into those reaped, at most [budget] of the
    finished ones in submission order, and those left. *)
Fixpoint reap (fin : nat -> bool) (budget : nat) (l : list command)
  : list command * list command :=
  match l with
  | [] => ([], [])
  | x :: l' =>
      match budget with
      | S b =>
          if fin (c_seq x) then
            let '(done, rest) := reap fin b l' in (x :: done, rest)
          else
            let '(done, rest) := reap fin budget l' in (done, x :: rest)
      | O => ([], l)
      end
  end.

(** A completion as the callback receives it: the handle and its status. *)
Definition completion (d : device) (x : command) : H * Z :=
  (c_req x, dv_status d (c_seq x)).

Definition poke (d : device) (c : ctx) (max : Z) : ctx * Z * list (H * Z) :=
  let e := dv_poke_err d (pokes c) in
  if e <? 0 then
    ({| depth := depth c; inflight := inflight c; attempts := attempts c;
        accepted := accepted c; pokes := S (pokes c) |}, e, [])
  else
    let budget := if max =? 0 then length (inflight c) else Z.to_nat max in
    let '(done, rest) := reap (dv_finished d (pokes c)) budget (inflight c) in
    ({| depth := depth c; inflight := rest; attempts := attempts c;
        accepted := accepted c; pokes := S (pokes c) |},
     Z.of_nat (length done), map (completion d) done).

Definition wait (d : device) (c : ctx) : ctx * Z * list (H * Z) :=
  ({| depth := depth c; inflight := []; attempts := attempts c;
      accepted := accepted c; pokes := pokes c |},
   Z.of_nat (length (inflight c)), map (completion d) (inflight c)).

End Context.

Arguments command : clear implicits.
Arguments ctx : clear implicits.

(** Modelled from the spec: [xnvme_req_pool_alloc(&reqs, capacity)] is not
    among the sources; it allocates [capacity] request handles in one batch,
    all of them free. *)
Definition xnvme_req_pool_alloc (capacity : Z) : list nat :=
  seq 0 (Z.to_nat capacity).

(** Devices used in the examples: one that accepts every command and
    finishes none before it is waited for, and one that finishes every
    command at once. *)
Definition lazy (status : nat -> Z) : device :=
  {| dv_verdict := fun _ => 0; dv_finished := fun _ _ => false;
     dv_status := status; dv_poke_err := fun _ => 0 |}.

(** A device that finishes its first command, with status [1], as soon as
    it is poked, finishes no other command before it is waited for, and
    fails the fourth submission it receives with [-EIO]. *)
Definition faulty : device :=
  {| dv_verdict := fun n => if (n =? 3)%nat then - EIO else 0;
     dv_finished := fun _ k => (k =? 0)%nat;
     dv_status := fun k => if (k =? 0)%nat then 1 else 0;
     dv_poke_err := fun _ => 0 |}.

(** The same device when the fourth submission is answered with the
    positive value [5]. *)
Definition faulty_positive : device :=
  {| dv_verdict := fun n => if (n =? 3)%nat then 5 else 0;
     dv_finished := fun _ k => (k =? 0)%nat;
     dv_status := fun k => if (k =? 0)%nat then 1 else 0;
     dv_poke_err := fun _ => 0 |}.

(** The same device without the failing submission. *)
Definition flaky : device :=
  {| dv_verdict := fun _ => 0;
     dv_finished := fun _ k => (k =? 0)%nat;
     dv_status := fun k => if (k =? 0)%nat then 1 else 0;
     dv_poke_err := fun _ => 0 |}.

(** A device that answers every submission with [e]. *)
Definition refusing (e : Z) : device :=
  {| dv_verdict := fun _ => e; dv_finished := fun _ _ => false;
     dv_status := fun _ => 0; dv_poke_err := fun _ => 0 |}.

Definition eager (status : nat -> Z) : device :=
  {| dv_verdict := fun _ => 0; dv_finished := fun _ _ => true;
     dv_status := status; dv_poke_err := fun _ => 0 |}.

End Async.

(** ** The fio engine: [xnvme_fioe.c] *)

Module Fioe.

(** fio's [enum fio_ddir] and [enum fio_q_status], as far as the engine
    tells them apart. *)
Inductive fio_ddir := DDIR_READ | DDIR_WRITE | DDIR_OTHER (d : Z).
Inductive fio_q_status := FIO_Q_COMPLETED | FIO_Q_QUEUED | FIO_Q_BUSY.

(** fio's [struct io_u], the fields the engine touches. *)
Record io_u := {
  io_id : nat;
  io_fileno : nat;
  io_ddir : fio_ddir;
  io_offset : Z;
  io_xfer_buflen : Z;
  io_error : Z
}.

Definition set_error (e : Z) (u : io_u) : io_u :=
  {| io_id := io_id u; io_fileno := io_fileno u; io_ddir := io_ddir u;
     io_offset := io_offset u; io_xfer_buflen := io_xfer_buflen u;
     io_error := e |}.

(** [struct xnvme_req]: the handle, the pool it returns to ([req->pool], here
    the index of the file that owns the pool) and [req->async.cb_arg]. *)
Record xnvme_req := {
  req_id : nat;
  req_pool : nat;
  req_cb_arg : option io_u
}.

Definition set_cb_arg (u : io_u) (r : xnvme_req) : xnvme_req :=
  {| req_id := req_id r; req_pool := req_pool r; req_cb_arg := Some u |}.

(** [struct xnvme_fioe_fwrap]; [fw_reqs] is the free list [reqs->head]. *)
Record xnvme_fioe_fwrap := {
  fw_dev : Async.device;
  fw_ctx : Async.ctx xnvme_req;
  fw_reqs : list xnvme_req;
  fw_ssw : Z;
  fw_lba_nbytes : Z
}.

Definition set_ctx (c : Async.ctx xnvme_req) (f : xnvme_fioe_fwrap) :=
  {| fw_dev := fw_dev f; fw_ctx := c; fw_reqs := fw_reqs f;
     fw_ssw := fw_ssw f; fw_lba_nbytes := fw_lba_nbytes f |}.

Definition set_reqs (l : list xnvme_req) (f : xnvme_fioe_fwrap) :=
  {| fw_dev := fw_dev f; fw_ctx := fw_ctx f; fw_reqs := l;
     fw_ssw := fw_ssw f; fw_lba_nbytes := fw_lba_nbytes f |}.

(** [struct xnvme_fioe_data]. *)
Record xnvme_fioe_data := {
  iocq : list (option io_u);
  completed : Z;
  ecount : Z;
  prev : Z;
  cur : Z;
  nopen : Z;
  nallocated : Z;
  files : list xnvme_fioe_fwrap
}.

Definition set_files (fs : list xnvme_fioe_fwrap) (xd : xnvme_fioe_data) :=
  {| iocq := iocq xd; completed := completed xd; ecount := ecount xd;
     prev := prev xd; cur := cur xd; nopen := nopen xd;
     nallocated := nallocated xd; files := fs |}.

Definition set_prev (p : Z) (xd : xnvme_fioe_data) :=
  {| iocq := iocq xd; completed := completed xd; ecount := ecount xd;
     prev := p; cur := cur xd; nopen := nopen xd;
     nallocated := nallocated xd; files := files xd |}.

Definition set_cur (k : Z) (xd : xnvme_fioe_data) :=
  {| iocq := iocq xd; completed := completed xd; ecount := ecount xd;
     prev := prev xd; cur := k; nopen := nopen xd;
     nallocated := nallocated xd; files := files xd |}.

Definition set_completed (n : Z) (xd : xnvme_fioe_data) :=
  {| iocq := iocq xd; completed := n; ecount := ecount xd;
     prev := prev xd; cur := cur xd; nopen := nopen xd;
     nallocated := nallocated xd; files := files xd |}.

(** [SLIST_INSERT_HEAD(&req->pool->head, req, link)] *)
Definition pool_insert_head (r : xnvme_req) (xd : xnvme_fioe_data) :=
  set_files (alter (fun f => set_reqs (r :: fw_reqs f) f) (req_pool r) (files xd)) xd.

(** [cb_pool]: the completion callback of every request of the engine.  A
    request completing without a [cb_arg] would dereference [NULL]; such a
    completion only returns the handle here. *)
Definition cb_pool (xd : xnvme_fioe_data) (cpl : xnvme_req * Z) : xnvme_fioe_data :=
  let '(req, status) := cpl in
  match req_cb_arg req with
  | None => pool_insert_head req xd
  | Some u =>
      let failed := negb (status =? 0) in
      let u' := if failed then set_error EIO u else u in
      pool_insert_head req
        {| iocq := <[Z.to_nat (completed xd) := Some u']> (iocq xd);
           completed := wrap64 (completed xd + 1);
           ecount := if failed then wrap64 (ecount xd + 1) else ecount xd;
           prev := prev xd; cur := cur xd; nopen := nopen xd;
           nallocated := nallocated xd; files := files xd |}
  end.

(** [xnvme_async_poke(fwrap->dev, fwrap->ctx, max)] on [files[idx]], with the
    callbacks it runs; [None] when [idx] is outside the array. *)
Definition xnvme_async_poke (xd : xnvme_fioe_data) (idx : Z) (max : Z)
  : option (xnvme_fioe_data * Z) :=
  if idx <? 0 then None else
  match files xd !! Z.to_nat idx with
  | None => None
  | Some f =>
      let '(c, ret, cpls) := Async.poke (fw_dev f) (fw_ctx f) max in
      let xd1 := set_files (<[Z.to_nat idx := set_ctx c f]> (files xd)) xd in
      Some (fold_left cb_pool cpls xd1, ret)
  end.

(** *** [xnvme_fioe_getevents] *)

(** The state of one call: the engine data, the local [fwrap] (the index of
    the element of [files] it points to, [None] for [NULL]), the local [err]
    and, for the statements below, the devices poked so far, oldest first. *)
Record gstate := {
  g_xd : xnvme_fioe_data;
  g_fwrap : option Z;
  g_err : Z;
  g_polled : list Z
}.

(** Where control is: at the head of [for (;;)] or at the head of the inner
    [while]; or the call is over: it returned [xd->completed], it returned
    [0] after a hard error with assertions compiled out, an assertion
    aborted it, or it read outside [files]. *)
Inductive gconfig :=
| GOuter (s : gstate)
| GInner (s : gstate)
| GDone (n : Z) (s : gstate)
| GHard (s : gstate)
| GAbort (s : gstate)
| GFault (s : gstate).

Definition is_busy (err : Z) : bool := (err =? - EBUSY) || (err =? - EAGAIN).

Section GetEvents.
Variable ndebug : bool.
Variables min max : Z.

(** [int nfiles = xd->nallocated] *)
Definition nfiles (xd : xnvme_fioe_data) : Z := nallocated xd.

(** The statements before the loop. *)
Definition getevents_entry (xd : xnvme_fioe_data) (polled : list Z) : gconfig :=
  let xd1 := if prev xd =? -1 then xd else set_prev (prev xd + 1) xd in
  let enter := negb (prev xd =? -1) && (prev xd1 <? nfiles xd1) in
  let xd2 := if enter then set_cur (prev xd1) xd1 else xd1 in
  GOuter {| g_xd := set_completed 0 xd2;
            g_fwrap := if enter then Some (prev xd1) else None;
            g_err := 0;
            g_polled := polled |}.

Definition getevents_step (cfg : gconfig) : gconfig :=
  match cfg with
  | GOuter s =>
      let xd := g_xd s in
      if (if g_fwrap s is None then true else false) || (cur xd =? nfiles xd) then
        GInner {| g_xd := set_cur 0 xd; g_fwrap := Some 0; g_err := g_err s;
                  g_polled := g_polled s |}
      else GInner s
  | GInner s =>
      let xd := g_xd s in
      match g_fwrap s with
      | Some idx =>
          if (cur xd <? nfiles xd) && (0 <=? g_err s) then
            match xnvme_async_poke xd idx (wrap32 (max - completed xd)) with
            | None => GFault s
            | Some (xd1, err) =>
                let polled := g_polled s ++ [idx] in
                if (err <? 0) && negb (is_busy err) then
                  let s1 := {| g_xd := xd1; g_fwrap := Some idx; g_err := err;
                               g_polled := polled |} in
                  if ndebug then GHard s1 else GAbort s1
                else if min <=? completed xd1 then
                  GDone (completed xd1)
                    {| g_xd := set_prev (cur xd1) xd1; g_fwrap := Some idx;
                       g_err := err; g_polled := polled |}
                else
                  GInner {| g_xd := set_cur (cur xd1 + 1) xd1;
                            g_fwrap := Some (cur xd1 + 1);
                            g_err := err; g_polled := polled |}
            end
          else GOuter s
      | None => GOuter s
      end
  | _ => cfg
  end.

Definition getevents_run (fuel : nat) (cfg : gconfig) : gconfig :=
  Nat.iter fuel getevents_step cfg.

Definition result_of (cfg : gconfig) : option (Z * xnvme_fioe_data) :=
  match cfg with
  | GDone n s => Some (n, g_xd s)
  | GHard s => Some (0, g_xd s)
  | _ => None
  end.

(** [xnvme_fioe_getevents(td, min, max, NULL)]: the returned count and the
    engine data, [None] when the call has not returned within [fuel] steps
    of control (or never returns). *)
Definition xnvme_fioe_getevents (fuel : nat) (xd : xnvme_fioe_data)
  : option (Z * xnvme_fioe_data) :=
  result_of (getevents_run fuel (getevents_entry xd [])).

End GetEvents.

(** The engine data between calls: at least one file, and [prev] is [-1] or
    the index of a file. *)
Definition engine_ok (xd : xnvme_fioe_data) : Prop :=
  0 < nfiles xd /\ -1 <= prev xd < nfiles xd.

(** The device after the one recorded in [prev], wrapping to device [0]. *)
Definition next_device (xd : xnvme_fioe_data) : Z :=
  (prev xd + 1) mod nfiles xd.



(** The callbacks leave the round-robin cursor and the number of files alone. *)
Definition frame (xd xd' : xnvme_fioe_data) : Prop :=
  nallocated xd' = nallocated xd /\ prev xd' = prev xd /\ cur xd' = cur xd /\
  length (files xd') = length (files xd).


(** [n] pokes in a row, none of which fails, at the devices from [i] on
    in cyclic order, each with the room left below [max]: the engine data
    they leave. *)
Fixpoint revolve (max : Z) (n : nat) (xd : xnvme_fioe_data) (i : Z)
  : option xnvme_fioe_data :=
  match n with
  | O => Some xd
  | S n' =>
      match xnvme_async_poke xd i (wrap32 (max - completed xd)) with
      | Some (xd1, err) =>
          if err <? 0 then None else revolve max n' xd1 ((i + 1) mod nfiles xd)
      | None => None
      end
  end.

(** The same engine data with other values in [prev] and [cur]. *)
Definition retag (p k : Z) (xd : xnvme_fioe_data) : xnvme_fioe_data :=
  set_prev p (set_cur k xd).

(** The inner loop is about to poke the device [cur]. *)
Definition ready (N : Z) (s : gstate) : Prop :=
  g_fwrap s = Some (cur (g_xd s)) /\ 0 <= cur (g_xd s) < N /\
  0 <= g_err s /\ nfiles (g_xd s) = N /\
  Z.of_nat (length (files (g_xd s))) = N.

(** A file with nothing outstanding whose pokes never fail. *)
Definition quiet (f : xnvme_fioe_fwrap) : Prop :=
  Async.inflight (fw_ctx f) = [] /\ forall n, 0 <= Async.dv_poke_err (fw_dev f) n.

(** What holds throughout a call for at least one completion on quiet
    files. *)
Definition idling (cfg : gconfig) : Prop :=
  exists s, (cfg = GOuter s \/ cfg = GInner s) /\
    completed (g_xd s) = 0 /\ 0 <= g_err s /\
    Forall quiet (files (g_xd s)) /\
    nfiles (g_xd s) = Z.of_nat (length (files (g_xd s))) /\
    (forall i, g_fwrap s = Some i -> i = cur (g_xd s) /\ 0 <= i).

(** What holds of a call once [err] is negative: control is still inside
    the loops, and the devices poked so far are [polled]. *)
Definition spinning (polled : list Z) (cfg : gconfig) : Prop :=
  match cfg with
  | GOuter s | GInner s => g_err s < 0 /\ g_polled s = polled
  | _ => False
  end.

(** *** [xnvme_fioe_queue] *)

Inductive queue_result :=
| QReturn (q : fio_q_status) (u : io_u) (xd : xnvme_fioe_data)
| QAbort (u : io_u) (xd : xnvme_fioe_data)
| QFault.

(** [SLIST_FIRST] and [SLIST_REMOVE_HEAD] on the free list of [files[fileno]]. *)
Definition pool_remove_head (fileno : nat) (xd : xnvme_fioe_data)
  : option (xnvme_req * xnvme_fioe_data) :=
  match files xd !! fileno with
  | Some f =>
      match fw_reqs f with
      | r :: rest => Some (r, set_files (<[fileno := set_reqs rest f]> (files xd)) xd)
      | [] => None
      end
  | None => None
  end.

(** The asynchronous [xnvme_cmd_read] / [xnvme_cmd_write] on [files[fileno]]. *)
Definition xnvme_cmd (fileno : nat) (req : xnvme_req) (xd : xnvme_fioe_data)
  : option (Z * xnvme_fioe_data) :=
  match files xd !! fileno with
  | Some f =>
      let '(c, err) := Async.submit (fw_dev f) (fw_ctx f) req in
      Some (err, set_files (<[fileno := set_ctx c f]> (files xd)) xd)
  | None => None
  end.

(** [xnvme_fioe_queue(td, io_u)]; [syncio] is [td->io_ops->flags & FIO_SYNCIO]
    and [ndebug] tells whether [assert] is compiled out.  Taking a handle
    from an empty free list, or a file outside the array, is a fault. *)
Definition xnvme_fioe_queue (ndebug syncio : bool) (xd : xnvme_fioe_data) (u : io_u)
  : queue_result :=
  if syncio then
    if ndebug then QReturn FIO_Q_COMPLETED u xd else QAbort u xd
  else
    match pool_remove_head (io_fileno u) xd with
    | None => QFault
    | Some (req0, xd1) =>
        let req := set_cb_arg u req0 in
        let submitted :=
          match io_ddir u with
          | DDIR_READ | DDIR_WRITE => option_map Some (xnvme_cmd (io_fileno u) req xd1)
          | DDIR_OTHER _ => if ndebug then Some (Some (-1, xd1)) else Some None
          end in
        match submitted with
        | None => QFault
        | Some None => QAbort u xd1
        | Some (Some (err, xd2)) =>
            if err =? 0 then QReturn FIO_Q_QUEUED u xd2
            else if is_busy err then
              QReturn FIO_Q_BUSY u (pool_insert_head req xd2)
            else
              let xd3 := pool_insert_head req xd2 in
              let u' := set_error (Z.abs err) u in
              if ndebug then QReturn FIO_Q_COMPLETED u' xd3 else QAbort u' xd3
        end
    end.

(** The identities of the free handles of [files[fileno]], head first. *)
Definition free_handles (fileno : nat) (xd : xnvme_fioe_data) : list nat :=
  match files xd !! fileno with
  | Some f => map req_id (fw_reqs f)
  | None => []
  end.

(** *** Per-device setup in [_dev_open] *)

(** The outcome of the library calls of [_dev_open] after the device is open:
    the values returned by [xnvme_async_init], [xnvme_req_pool_alloc] and
    [xnvme_req_pool_init]. *)
Record setup_answers := {
  async_init_err : Z;
  pool_alloc_err : Z;
  pool_init_err : Z
}.


(** Every free handle points back to the pool it sits in, as
    [xnvme_req_pool_init] leaves it. *)
Definition pools_linked (xd : xnvme_fioe_data) : Prop :=
  forall (k : nat) (f : xnvme_fioe_fwrap) (r : xnvme_req),
    files xd !! k = Some f -> r ∈ fw_reqs f -> req_pool r = k.

(** The engine data that [xnvme_fioe_init] leaves when [_dev_open] succeeds
    for every file: one wrapper per device, sectors of 512 bytes. *)
Definition fwrap_init (iodepth : Z) (fileno : nat) (d : Async.device)
  : xnvme_fioe_fwrap :=
  {| fw_dev := d;
     fw_ctx := Async.xnvme_async_init iodepth;
     fw_reqs := map (fun i => {| req_id := i; req_pool := fileno; req_cb_arg := None |})
                    (Async.xnvme_req_pool_alloc (wrap32 (iodepth + 1)));
     fw_ssw := 9;
     fw_lba_nbytes := 512 |}.

Definition xnvme_fioe_init (devs : list Async.device) (iodepth : Z)
  : xnvme_fioe_data :=
  {| iocq := replicate (Z.to_nat iodepth) None;
     completed := 0; ecount := 0; prev := -1; cur := 0; nopen := 0;
     nallocated := Z.of_nat (length devs);
     files := imap (fwrap_init iodepth) devs |}.

(** An I/O unit of 4096 bytes at [offset] of file [fileno]. *)
Definition io_unit (id fileno : nat) (ddir : fio_ddir) (offset : Z) : io_u :=
  {| io_id := id; io_fileno := fileno; io_ddir := ddir; io_offset := offset;
     io_xfer_buflen := 4096; io_error := 0 |}.

(** The engine data after [queue] was called on [u], for building examples. *)
Definition queued (xd : xnvme_fioe_data) (u : io_u) : xnvme_fioe_data :=
  match xnvme_fioe_queue true false xd u with
  | QReturn _ _ xd' => xd'
  | _ => xd
  end.

(** Three devices that finish every command at once, with one read queued
    on the second and one write queued on the third. *)
Definition three_devices : xnvme_fioe_data :=
  queued (queued (xnvme_fioe_init (replicate 3 (Async.eager (fun _ => 0))) 4)
            (io_unit 0 1 DDIR_READ 0))
    (io_unit 1 2 DDIR_WRITE 4096).

(** One device with nothing outstanding. *)
Definition one_idle_device : xnvme_fioe_data :=
  xnvme_fioe_init [Async.lazy (fun _ => 0)] 4.

(** *** [xnvme_fioe_event] *)

(** The call returns the I/O unit stored in [iocq[event]] ([None] for a
    [NULL] entry), an assertion aborts it, or, with assertions compiled
    out, it reads outside the array. *)
Inductive event_result :=
| EventUnit (u : option io_u)
| EventAbort
| EventFault.

Definition xnvme_fioe_event (ndebug : bool) (xd : xnvme_fioe_data) (event : Z)
  : event_result :=
  if event <? 0 then (if ndebug then EventFault else EventAbort)
  else if negb ndebug && negb (wrap32 event <? completed xd) then EventAbort
  else
    match iocq xd !! Z.to_nat event with
    | Some u => EventUnit u
    | None => EventFault
    end.

(** Every command in flight on the file carries an I/O unit as its callback
    argument, as [queue] leaves it. *)
Definition armed (f : xnvme_fioe_fwrap) : Prop :=
  Forall (fun c => req_cb_arg (Async.c_req c) <> None) (Async.inflight (fw_ctx f)).

(** The first [completed] entries of the completion queue hold I/O units. *)
Definition filled (xd : xnvme_fioe_data) : Prop :=
  forall i, (i < Z.to_nat (completed xd))%nat -> exists u, iocq xd !! i = Some (Some u).

(** The engine data of a call that collects at most [max] completions into
    a completion queue of [len] entries. *)
Definition collecting (max : Z) (len : nat) (xd : xnvme_fioe_data) : Prop :=
  0 <= completed xd <= max /\ length (iocq xd) = len /\
  Forall armed (files xd) /\ filled xd.

Definition collect_inv (min max : Z) (len : nat) (cfg : gconfig) : Prop :=
  match cfg with
  | GOuter s | GInner s => collecting max len (g_xd s) /\ completed (g_xd s) < max
  | GDone n s => collecting max len (g_xd s) /\ n = completed (g_xd s) /\ min <= n
  | GHard s => collecting max len (g_xd s) /\ g_err s < 0 /\ is_busy (g_err s) = false
  | _ => True
  end.

(** The exit after a hard error of the poke is taken only where [assert] is
    compiled out. *)
Definition hard_inv (ndebug : bool) (cfg : gconfig) : Prop :=
  match cfg with
  | GHard _ => ndebug = true
  | _ => True
  end.

(** *** The handles of a file *)

(** The identities of the handles of a file: those on its free list and
    those attached to its commands in flight. *)
Definition file_handles (f : xnvme_fioe_fwrap) : list nat :=
  map req_id (fw_reqs f) ++
  map (fun c => req_id (Async.c_req c)) (Async.inflight (fw_ctx f)).

(** A file between two calls of the engine: its queue is within the depth
    given at [_dev_open]; its handles are those allocated there; each of
    them returns to the pool of this file; each command in flight carries
    its I/O unit. *)
Definition file_ok (iodepth : Z) (k : nat) (f : xnvme_fioe_fwrap) : Prop :=
  Async.depth (fw_ctx f) = iodepth /\
  Z.of_nat (length (Async.inflight (fw_ctx f))) <= iodepth /\
  file_handles f ≡ₚ Async.xnvme_req_pool_alloc (iodepth + 1) /\
  Forall (fun r => req_pool r = k) (fw_reqs f) /\
  Forall (fun c => req_pool (Async.c_req c) = k /\ req_cb_arg (Async.c_req c) <> None)
         (Async.inflight (fw_ctx f)).

Definition engine_inv (iodepth : Z) (xd : xnvme_fioe_data) : Prop :=
  forall k f, files xd !! k = Some f -> file_ok iodepth k f.

(** The engine data that the calls of fio can lead to after [init]: [queue]
    on asynchronous engines, and [getevents] for at most [iodepth] events,
    as many as the completion queue holds. *)
Inductive reachable (devs : list Async.device) (iodepth : Z) : xnvme_fioe_data -> Prop :=
| reach_init : reachable devs iodepth (xnvme_fioe_init devs iodepth)
| reach_queue (xd : xnvme_fioe_data) (ndebug : bool) (u : io_u)
    (q : fio_q_status) (u' : io_u) (xd' : xnvme_fioe_data) :
    reachable devs iodepth xd ->
    xnvme_fioe_queue ndebug false xd u = QReturn q u' xd' ->
    reachable devs iodepth xd'
| reach_getevents (xd : xnvme_fioe_data) (ndebug : bool) (min max : Z) (fuel : nat)
    (n : Z) (xd' : xnvme_fioe_data) :
    reachable devs iodepth xd ->
    0 < max <= iodepth -> min <= max ->
    xnvme_fioe_getevents ndebug min max fuel xd = Some (n, xd') ->
    reachable devs iodepth xd'.

(** The engine data of a configuration of [getevents]. *)
Definition gdata (cfg : gconfig) : xnvme_fioe_data :=
  match cfg with
  | GOuter s | GInner s | GDone _ s | GHard s | GAbort s | GFault s => g_xd s
  end.

(** *** The command that [queue] builds *)

(** [slba = io_u->offset >> fwrap->ssw] and
    [nlb = (io_u->xfer_buflen / fwrap->lba_nbytes) - 1]: the start LBA, a
    [uint64_t], and the zero-based number of blocks, computed in 64-bit
    unsigned arithmetic and stored in a [uint16_t]. *)
Definition queue_slba (f : xnvme_fioe_fwrap) (u : io_u) : Z :=
  shr64 (io_offset u) (fw_ssw f).

Definition queue_nlb (f : xnvme_fioe_fwrap) (u : io_u) : Z :=
  wrap64 (io_xfer_buflen u / fw_lba_nbytes f - 1) mod 2 ^ 16.

(** A device on which every poke is answered busy. *)
Definition stalled : Async.device :=
  {| Async.dv_verdict := fun _ => 0; Async.dv_finished := fun _ _ => false;
     Async.dv_status := fun _ => 0; Async.dv_poke_err := fun _ => - EBUSY |}.

(** *** The I/O units that were queued *)

(** A record of the calls of [queue] that returned [FIO_Q_QUEUED], the latest
    first: the file of the I/O unit, the handle that the call took from the
    head of the free list of that file, and the I/O unit. *)
Definition queue_log := list (nat * nat * io_u).

Definition log_queue (xd : xnvme_fioe_data) (u : io_u) (q : fio_q_status)
    (log : queue_log) : queue_log :=
  match q, head (free_handles (io_fileno u) xd) with
  | FIO_Q_QUEUED, Some id => (io_fileno u, id, u) :: log
  | _, _ => log
  end.

(** The I/O unit that the handle [id] of file [k] was last queued for. *)
Fixpoint last_queued (k id : nat) (log : queue_log) : option io_u :=
  match log with
  | [] => None
  | (k', id', u) :: log' =>
      if (k =? k')%nat && (id =? id')%nat then Some u else last_queued k id log'
  end.

(** The engine data that the calls of fio can lead to after [init], as in
    [reachable], together with the record of the I/O units queued on the
    way. *)
Inductive reachable_log (devs : list Async.device) (iodepth : Z)
  : xnvme_fioe_data -> queue_log -> Prop :=
| rlog_init : reachable_log devs iodepth (xnvme_fioe_init devs iodepth) []
| rlog_queue (xd : xnvme_fioe_data) (log : queue_log) (ndebug : bool) (u : io_u)
    (q : fio_q_status) (u' : io_u) (xd' : xnvme_fioe_data) :
    reachable_log devs iodepth xd log ->
    xnvme_fioe_queue ndebug false xd u = QReturn q u' xd' ->
    reachable_log devs iodepth xd' (log_queue xd u q log)
| rlog_getevents (xd : xnvme_fioe_data) (log : queue_log) (ndebug : bool)
    (min max : Z) (fuel : nat) (n : Z) (xd' : xnvme_fioe_data) :
    reachable_log devs iodepth xd log ->
    0 < max <= iodepth -> min <= max ->
    xnvme_fioe_getevents ndebug min max fuel xd = Some (n, xd') ->
    reachable_log devs iodepth xd' log.

(** The command carries, as its callback argument, the I/O unit that its
    handle was last queued for on file [k]. *)
Definition carries (log : queue_log) (k : nat) (c : Async.command xnvme_req) : Prop :=
  exists u, req_cb_arg (Async.c_req c) = Some u /\
            last_queued k (req_id (Async.c_req c)) log = Some u.

Definition log_inv (log : queue_log) (xd : xnvme_fioe_data) : Prop :=
  forall k f, files xd !! k = Some f -> Forall (carries log k) (Async.inflight (fw_ctx f)).

(** Every command in flight in [xd'] is in flight on the same file in
    [xd]. *)
Definition shrunk (xd xd' : xnvme_fioe_data) : Prop :=
  forall k f', files xd' !! k = Some f' ->
    exists f, files xd !! k = Some f /\
      forall c, c ∈ Async.inflight (fw_ctx f') -> c ∈ Async.inflight (fw_ctx f).

(** The record of the two calls of [queue] that lead to [three_devices]. *)
Definition three_devices_log : queue_log :=
  [(2%nat, 0%nat, io_unit 1 2 DDIR_WRITE 4096); (1%nat, 0%nat, io_unit 0 1 DDIR_READ 0)].

End Fioe.

(** ** The single-device drive loops: [zoned_io_async.c] *)

Module Zoned.

Definition DEFAULT_QD : Z := 8.

(** The three sub-commands share their text up to the command they submit
    and to the wait that only [sub_async_write] has after a submission. *)
Inductive opcode := OpRead | OpWrite | OpAppend.

(** [struct cb_args] *)
Record cb_args := {
  ecount : Z;
  completed : Z;
  submitted : Z
}.

(** What the loop does to the context, in the order it does it: a submission
    with its start LBA, payload offset, request handle and returned [err];
    a call of [xnvme_async_poke]; a call of [xnvme_async_wait]; a completion
    handed to [cb_pool]. *)
Inductive event :=
| EvSubmit (slba payload : Z) (req : nat) (err : Z)
| EvPoke
| EvWait
| EvComplete (req : nat) (status : Z).

(** The variables of a run: [sect], [payload] (as an offset into [buf]),
    [cb_args], the free list [reqs->head], the context, and the events so
    far, oldest first. *)
Record state := {
  sect : Z;
  payload : Z;
  args : cb_args;
  reqs : list nat;
  ctx : Async.ctx nat;
  trace : list event
}.

(** [cb_pool] *)
Definition cb_pool (s : state) (cpl : nat * Z) : state :=
  let '(req, status) := cpl in
  let a := args s in
  {| sect := sect s; payload := payload s;
     args := {| ecount := if negb (status =? 0) then wrap32 (ecount a + 1) else ecount a;
                completed := wrap32 (completed a + 1);
                submitted := submitted a |};
     reqs := req :: reqs s;
     ctx := ctx s;
     trace := trace s ++ [EvComplete req status] |}.

(** Where control is inside the loop: at its condition, at label [submit]
    holding [req], at label [next], or at the [xnvme_async_wait] that follows
    the loop. *)
Inductive pc := PcHead | PcSubmit (req : nat) | PcNext | PcDrain.

(** A run is under way, it took a handle from an empty free list, or the
    function returned. *)
Inductive config :=
| Run (p : pc) (s : state)
| Crash (s : state)
| Exit (ret : Z) (s : state).

(** [return err < 0 ? err : 0] *)
Definition exit_code (err : Z) : Z := if err <? 0 then err else 0.

Section Drive.
Variable op : opcode.
Variable dev : Async.device.
Variables zslba zcap lba_nbytes : Z.
(** [Some e] when [--data-output] is given and [xnvmec_buf_to_file] returns [e]. *)
Variable dump : option Z.

Definition xnvme_async_poke (s : state) (max : Z) : state * Z :=
  let '(c, ret, cpls) := Async.poke dev (ctx s) max in
  (fold_left cb_pool cpls
     {| sect := sect s; payload := payload s; args := args s; reqs := reqs s;
        ctx := c; trace := trace s ++ [EvPoke] |}, ret).

Definition xnvme_async_wait (s : state) : state * Z :=
  let '(c, ret, cpls) := Async.wait dev (ctx s) in
  (fold_left cb_pool cpls
     {| sect := sect s; payload := payload s; args := args s; reqs := reqs s;
        ctx := c; trace := trace s ++ [EvWait] |}, ret).

(** The start LBA of the command for the current [sect]. *)
Definition cmd_slba (s : state) : Z :=
  match op with
  | OpAppend => zslba
  | _ => wrap64 (zslba + sect s)
  end.

(** [xnvme_cmd_read], [xnvme_cmd_write] or [znd_cmd_append] with
    [XNVME_CMD_ASYNC]. *)
Definition xnvme_cmd (s : state) (req : nat) : state * Z :=
  let '(c, err) := Async.submit dev (ctx s) req in
  ({| sect := sect s; payload := payload s; args := args s; reqs := reqs s;
      ctx := c; trace := trace s ++ [EvSubmit (cmd_slba s) (payload s) req err] |}, err).

Definition count_submitted (s : state) : state :=
  let a := args s in
  {| sect := sect s; payload := payload s;
     args := {| ecount := ecount a; completed := completed a;
                submitted := wrap32 (submitted a + 1) |};
     reqs := reqs s; ctx := ctx s; trace := trace s |}.

(** [++sect; payload += geo->lba_nbytes] *)
Definition advance (s : state) : state :=
  {| sect := wrap64 (sect s + 1); payload := payload s + lba_nbytes;
     args := args s; reqs := reqs s; ctx := ctx s; trace := trace s |}.

Definition take_req (rest : list nat) (s : state) : state :=
  {| sect := sect s; payload := payload s; args := args s; reqs := rest;
     ctx := ctx s; trace := trace s |}.

Definition step (cfg : config) : config :=
  match cfg with
  | Run PcHead s =>
      if (sect s <? zcap) && (ecount (args s) =? 0) then
        match reqs s with
        | req :: rest => Run (PcSubmit req) (take_req rest s)
        | [] => Crash s
        end
      else Run PcDrain s
  | Run (PcSubmit req) s =>
      let '(s1, err) := xnvme_cmd s req in
      if err =? 0 then Run PcNext (count_submitted s1)
      else if (err =? - EBUSY) || (err =? - EAGAIN) then
        Run (PcSubmit req) (fst (xnvme_async_poke s1 0))
      else Exit (exit_code err) s1
  | Run PcNext s =>
      match op with
      | OpWrite =>
          let '(s1, err) := xnvme_async_wait s in
          if err <? 0 then Exit (exit_code err) s1 else Run PcHead (advance s1)
      | _ => Run PcHead (advance s)
      end
  | Run PcDrain s =>
      let '(s1, err) := xnvme_async_wait s in
      if err <? 0 then Exit (exit_code err) s1
      else if negb (ecount (args s1) =? 0) then Exit (exit_code (- EIO)) s1
      else
        match op, dump with
        | OpRead, Some e => Exit (exit_code e) s1
        | _, _ => Exit (exit_code err) s1
        end
  | _ => cfg
  end.

Definition run (fuel : nat) (cfg : config) : config := Nat.iter fuel step cfg.

(** The state in which the loop is entered, [payload = buf] and [sect = 0],
    with the context and the free list set up for queue depth [qd]. *)
Definition loop_entry (qd : Z) (pool : list nat) : config :=
  Run PcHead
    {| sect := 0; payload := 0;
       args := {| ecount := 0; completed := 0; submitted := 0 |};
       reqs := pool;
       ctx := Async.xnvme_async_init qd;
       trace := [] |}.

End Drive.

(** The outcome of the calls that precede the loop: the zone found by
    [znd_descr_from_dev] or [znd_descr_from_dev_in_state] (or their [err]),
    [errno] where [xnvme_buf_alloc] fails, and what [xnvmec_buf_fill],
    [xnvme_async_init], [xnvme_req_pool_alloc] and [xnvme_req_pool_init]
    return. *)
Record setup_answers := {
  zone_descr : Z + Z * Z;
  buf_errno : option Z;
  buf_fill_err : Z;
  async_init_err : Z;
  pool_alloc_err : Z;
  pool_init_err : Z
}.

(** [qd = cli->args.qdepth ? cli->args.qdepth : DEFAULT_QD] *)
Definition queue_depth (qdepth : Z) : Z :=
  if qdepth =? 0 then DEFAULT_QD else qdepth.

(** The part of a sub-command from its first statement to the entry of the
    loop: the zone [(zslba, zcap)], the queue depth given to
    [xnvme_async_init] and the free list, or the value returned on the way
    to label [exit]. *)
Definition setup (a : setup_answers) (qdepth : Z) : Z + (Z * Z) * Z * list nat :=
  let qd := queue_depth qdepth in
  match zone_descr a with
  | inl err => inl (exit_code err)
  | inr zone =>
      match buf_errno a with
      | Some errno => inl (exit_code (- errno))
      | None =>
          if negb (buf_fill_err a =? 0) then inl (exit_code (buf_fill_err a))
          else if negb (async_init_err a =? 0) then inl (exit_code (async_init_err a))
          else if negb (pool_alloc_err a =? 0) then inl (exit_code (pool_alloc_err a))
          else if negb (pool_init_err a =? 0) then inl (exit_code (pool_init_err a))
          else inr (zone, qd, Async.xnvme_req_pool_alloc (wrap32 (qd + 1)))
      end
  end.

(** A sub-command as a whole: the configuration reached after [fuel] steps of
    the loop. *)
Definition sub_async (op : opcode) (a : setup_answers) (dev : Async.device)
    (qdepth lba_nbytes : Z) (dump : option Z) (fuel : nat) : config :=
  match setup a qdepth with
  | inl ret =>
      Exit ret {| sect := 0; payload := 0;
                  args := {| ecount := 0; completed := 0; submitted := 0 |};
                  reqs := []; ctx := Async.xnvme_async_init 0; trace := [] |}
  | inr (zslba, zcap, qd, pool) =>
      run op dev zslba zcap lba_nbytes dump fuel (loop_entry qd pool)
  end.

Definition sub_async_read := sub_async OpRead.
Definition sub_async_write a dev qdepth lba_nbytes := sub_async OpWrite a dev qdepth lba_nbytes None.
Definition sub_async_append a dev qdepth lba_nbytes := sub_async OpAppend a dev qdepth lba_nbytes None.

(** *** Reading a trace *)

Definition is_busy (err : Z) : bool := (err =? - EBUSY) || (err =? - EAGAIN).

(** The event of a completion handed to [cb_pool]. *)
Definition cpl_event (cpl : nat * Z) : event := EvComplete cpl.1 cpl.2.

(** The number of commands outstanding at the end of a trace and the largest
    number outstanding at any point of it: an accepted submission adds one,
    a completion takes one away. *)
Definition track (np : nat * nat) (e : event) : nat * nat :=
  match e with
  | EvSubmit _ _ _ err =>
      if err =? 0 then (S np.1, Nat.max np.2 (S np.1)) else np
  | EvComplete _ _ => (Nat.pred np.1, np.2)
  | _ => np
  end.

Definition profile (tr : list event) : nat * nat := fold_left track tr (0%nat, 0%nat).
Definition outstanding_now (tr : list event) : nat := (profile tr).1.
Definition outstanding_peak (tr : list event) : nat := (profile tr).2.

(** The number of completions with a non-zero status in a trace. *)
Definition failed (e : event) : bool :=
  match e with
  | EvComplete _ status => negb (status =? 0)
  | _ => false
  end.

Definition errors (tr : list event) : nat := length (List.filter failed tr).

(** The submission that is being retried at the end of a trace: the last
    submission, if it was answered busy. *)
Definition pending_step (pend : option (Z * Z * nat)) (e : event)
  : option (Z * Z * nat) :=
  match e with
  | EvSubmit slba pl req err => if is_busy err then Some (slba, pl, req) else None
  | EvWait => None
  | _ => pend
  end.

Definition pending (tr : list event) : option (Z * Z * nat) :=
  fold_left pending_step tr None.

(** A monitor for the busy-retry protocol: after a submission answered busy
    a poke is due ([MPoke]), after the poke and the completions it reaps the
    same submission is due ([MRetry]); anything else in between is a
    violation ([MBad]). *)
Inductive mon :=
| MIdle
| MPoke (slba pl : Z) (req : nat)
| MRetry (slba pl : Z) (req : nat)
| MBad.

Definition mon_step (m : mon) (e : event) : mon :=
  match m, e with
  | MBad, _ => MBad
  | MIdle, EvSubmit a b r err => if is_busy err then MPoke a b r else MIdle
  | MIdle, _ => MIdle
  | MPoke a b r, EvPoke => MRetry a b r
  | MPoke _ _ _, _ => MBad
  | MRetry a b r, EvComplete _ _ => MRetry a b r
  | MRetry a b r, EvSubmit a' b' r' err =>
      if (a =? a') && (b =? b') && (r =? r')%nat
      then (if is_busy err then MPoke a b r else MIdle)
      else MBad
  | MRetry _ _ _, _ => MBad
  end.

Definition monitor (tr : list event) : mon := fold_left mon_step tr MIdle.

(** A monitor for what follows a failed completion: once one has been seen,
    the only submission allowed is the one pending at that moment, and
    nothing once that submission was answered otherwise than busy. *)
Inductive watch :=
| WClean (pend : option (Z * Z * nat))
| WFailed (allowed : option (Z * Z * nat))
| WBad.

Definition same_submission (x : option (Z * Z * nat)) (a b : Z) (r : nat) : bool :=
  match x with
  | Some (a', b', r') => (a =? a') && (b =? b') && (r =? r')%nat
  | None => false
  end.

Definition watch_step (w : watch) (e : event) : watch :=
  match w with
  | WBad => WBad
  | WClean pend =>
      if failed e then WFailed pend else WClean (pending_step pend e)
  | WFailed allowed =>
      match e with
      | EvSubmit a b r err =>
          if same_submission allowed a b r
          then (if is_busy err then WFailed allowed else WFailed None)
          else WBad
      | _ => WFailed allowed
      end
  end.

Definition watcher (tr : list event) : watch := fold_left watch_step tr (WClean None).

Definition is_submit (e : event) : bool :=
  match e with
  | EvSubmit _ _ _ _ => true
  | _ => false
  end.

Definition trace_of (cfg : config) : list event :=
  match cfg with
  | Run _ s | Crash s | Exit _ s => trace s
  end.

Definition state_of (cfg : config) : state :=
  match cfg with
  | Run _ s | Crash s | Exit _ s => s
  end.

(** What holds of the busy-retry protocol in every configuration of a run:
    the trace is accepted by the monitor, and a retry is due only at label
    [submit], for the very command that is about to be submitted. *)
Definition retry_inv (op : opcode) (zslba : Z) (cfg : config) : Prop :=
  match cfg with
  | Run (PcSubmit req) s =>
      monitor (trace s) = MIdle \/
      monitor (trace s) = MRetry (cmd_slba op zslba s) (payload s) req
  | _ => monitor (trace_of cfg) = MIdle
  end.

(** Where the value returned by a run comes from: success; [-EIO] for a
    non-zero error count; a submission that failed with a negative value
    other than the busy codes, its last event; or the dump of a read. *)
Definition exit_cause (op : opcode) (dump : option Z) (ret : Z) (s : state) : Prop :=
  ret = 0 \/
  (ret = - EIO /\ ecount (args s) <> 0) \/
  (ret < 0 /\ is_busy ret = false /\
   exists a b r, last (trace s) = Some (EvSubmit a b r ret)) \/
  (exists e, op = OpRead /\ dump = Some e /\ ret = exit_code e).

Definition exit_inv (op : opcode) (dump : option Z) (cfg : config) : Prop :=
  match cfg with
  | Exit ret s => exit_cause op dump ret s
  | _ => True
  end.

(** The counters of [cb_args] count events of the trace. *)
Definition count_inv (cfg : config) : Prop :=
  ecount (args (state_of cfg)) = wrap32 (Z.of_nat (errors (trace_of cfg))).

(** The trace keeps account of the context: the commands it shows as
    outstanding are those in flight. *)
Definition now_inv (cfg : config) : Prop :=
  outstanding_now (trace_of cfg) = length (Async.inflight (ctx (state_of cfg))).

(** Neither the commands in flight nor their peak exceed the queue depth. *)
Definition depth_inv (qd : Z) (cfg : config) : Prop :=
  Async.depth (ctx (state_of cfg)) = qd /\
  Z.of_nat (length (Async.inflight (ctx (state_of cfg)))) <= qd /\
  Z.of_nat (outstanding_peak (trace_of cfg)) <= qd.

(** In the write loop nothing is in flight except between a submission and
    the wait that follows it. *)
Definition write_inv (cfg : config) : Prop :=
  (outstanding_peak (trace_of cfg) <= 1)%nat /\
  match cfg with
  | Run PcNext s => (length (Async.inflight (ctx s)) <= 1)%nat
  | Run _ s => Async.inflight (ctx s) = []
  | Crash s | Exit _ s => (length (Async.inflight (ctx s)) <= 1)%nat
  end.

(** Failed completions and commands in flight together stay within the
    queue depth plus the one command accepted last; a run that took a handle
    from an empty list has seen no failure. *)
Definition load (cfg : config) : Z :=
  Z.of_nat (errors (trace_of cfg)) +
  Z.of_nat (length (Async.inflight (ctx (state_of cfg)))).

Definition bound_inv (qd : Z) (cfg : config) : Prop :=
  match cfg with
  | Run (PcSubmit _) _ => load cfg <= qd
  | Crash s => errors (trace s) = 0%nat /\ load cfg <= qd + 1
  | _ => load cfg <= qd + 1
  end.

(** How far a configuration is from the end of the run once a completion
    has failed. *)
Definition rank (cfg : config) : nat :=
  match cfg with
  | Run (PcSubmit _) _ => 4
  | Run PcNext _ => 3
  | Run PcHead _ => 2
  | Run PcDrain _ => 1
  | _ => 0
  end.

(** The device refuses a submission as busy only when its queue is full. *)
Definition honest (dev : Async.device) : Prop :=
  forall n, is_busy (Async.dv_verdict dev n) = false.

(** How a run ends after a completion has failed: with [-EIO], after a wait
    that left nothing in flight, or at once with the code of a submission
    that failed otherwise than busy. *)
Definition drained (ret : Z) (s : state) : Prop :=
  ret = - EIO /\ Async.inflight (ctx s) = [] /\
  exists t cpls, trace s = t ++ EvWait :: map cpl_event cpls.

Definition refused (ret : Z) (s : state) : Prop :=
  exists a b q e, last (trace s) = Some (EvSubmit a b q e) /\
    e <> 0 /\ is_busy e = false /\ ret = exit_code e.

Definition end_inv (cfg : config) : Prop :=
  match cfg with
  | Exit ret s => (0 < errors (trace s))%nat -> drained ret s \/ refused ret s
  | _ => True
  end.

(** What the watcher of failed completions has seen, against where control
    is: before any failure, a pending submission is the one at label
    [submit]; after a failure, either that submission is still being retried
    there, or control is past label [submit] for good. *)
Definition watch_inv (op : opcode) (zslba : Z) (cfg : config) : Prop :=
  match watcher (trace_of cfg) with
  | WBad => False
  | WClean pend =>
      match cfg with
      | Run (PcSubmit q) s => pend = None \/ pend = Some (cmd_slba op zslba s, payload s, q)
      | _ => pend = None
      end
  | WFailed allowed =>
      match cfg with
      | Run (PcSubmit q) s => allowed = Some (cmd_slba op zslba s, payload s, q)
      | Crash _ => False
      | _ => allowed = None
      end
  end.

(** No submission is pending retry. *)
Definition settled (tr : list event) : Prop :=
  watcher tr = WClean None \/ watcher tr = WFailed None.

(** In the write loop no submission follows a failed completion. *)
Definition clean_submits (tr : list event) : Prop :=
  forall pre e post, tr = pre ++ e :: post -> is_submit e = true -> errors pre = 0%nat.

Definition write_clean_inv (cfg : config) : Prop :=
  clean_submits (trace_of cfg) /\
  match cfg with
  | Run (PcSubmit _) s | Run PcNext s => errors (trace s) = 0%nat
  | _ => True
  end.

(** All of the above together. *)
Definition fail_inv (op : opcode) (zslba qd : Z) (cfg : config) : Prop :=
  now_inv cfg /\ depth_inv qd cfg /\ count_inv cfg /\ bound_inv qd cfg /\
  watch_inv op zslba cfg /\ end_inv cfg.

Definition pc_of (cfg : config) : option pc :=
  match cfg with
  | Run p _ => Some p
  | _ => None
  end.

(** Setup answers under which every call before the loop succeeds. *)
Definition setup_ok (zslba zcap : Z) : setup_answers :=
  {| zone_descr := inr (zslba, zcap); buf_errno := None; buf_fill_err := 0;
     async_init_err := 0; pool_alloc_err := 0; pool_init_err := 0 |}.

(** *** Where the handles are *)

(** The handle that the loop holds at label [submit]. *)
Definition held (cfg : config) : list nat :=
  match cfg with
  | Run (PcSubmit req) _ => [req]
  | _ => []
  end.

(** The handles of a configuration: the one held at label [submit], those on
    the free list and those attached to the commands in flight. *)
Definition handles (cfg : config) : list nat :=
  held cfg ++ reqs (state_of cfg) ++
  map Async.c_req (Async.inflight (ctx (state_of cfg))).

(** While the loop runs, the handles of the pool are all accounted for; at
    the end none has appeared that was not in the pool. *)
Definition conserved (pool : list nat) (cfg : config) : Prop :=
  match cfg with
  | Exit _ _ => handles cfg ⊆+ pool
  | _ => handles cfg ≡ₚ pool
  end.

(** *** Counting the trace *)

(** A submission that the device accepted; a completion. *)
Definition accepted (e : event) : bool :=
  match e with
  | EvSubmit _ _ _ err => err =? 0
  | _ => false
  end.

Definition is_completion (e : event) : bool :=
  match e with
  | EvComplete _ _ => true
  | _ => false
  end.

Definition n_accepted (tr : list event) : nat := length (List.filter accepted tr).
Definition n_completed (tr : list event) : nat := length (List.filter is_completion tr).

(** The counters [submitted] and [completed] of [cb_args] count the accepted
    submissions and the completions of the trace, and the difference is what
    is in flight. *)
Definition counters_inv (cfg : config) : Prop :=
  submitted (args (state_of cfg)) = wrap32 (Z.of_nat (n_accepted (trace_of cfg))) /\
  completed (args (state_of cfg)) = wrap32 (Z.of_nat (n_completed (trace_of cfg))) /\
  n_accepted (trace_of cfg) =
    (n_completed (trace_of cfg) + length (Async.inflight (ctx (state_of cfg))))%nat.

(** *** The commands of a run *)

(** The start LBA and the payload offset of the accepted submissions of a
    trace, in the order of submission. *)
Definition accepted_cmds (tr : list event) : list (Z * Z) :=
  flat_map (fun e => match e with
                     | EvSubmit slba pl _ err => if err =? 0 then [(slba, pl)] else []
                     | _ => []
                     end) tr.

(** The command for sector [i] of the zone: its start LBA, which is the zone
    start for an append, and its payload offset. *)
Definition sector_cmd (op : opcode) (zslba lba_nbytes : Z) (i : nat) : Z * Z :=
  (match op with
   | OpAppend => zslba
   | _ => wrap64 (zslba + Z.of_nat i)
   end, Z.of_nat i * lba_nbytes).

(** The number of sectors whose command has been accepted. *)
Definition sectors_done (cfg : config) : nat :=
  match cfg with
  | Run PcNext s => S (Z.to_nat (sect s))
  | _ => Z.to_nat (sect (state_of cfg))
  end.

(** [sect] stays within the zone, and is inside it while a command for it is
    being submitted. *)
Definition sect_inv (zcap : Z) (cfg : config) : Prop :=
  0 <= sect (state_of cfg) <= zcap /\
  match cfg with
  | Run (PcSubmit _) s | Run PcNext s => sect s < zcap
  | _ => True
  end.

(** The accepted submissions are the commands of the sectors done, in
    order, and [payload] points at the data of the current sector. *)
Definition cmds_inv (op : opcode) (zslba lba_nbytes : Z) (cfg : config) : Prop :=
  payload (state_of cfg) = sect (state_of cfg) * lba_nbytes /\
  accepted_cmds (trace_of cfg) =
    map (sector_cmd op zslba lba_nbytes) (seq 0 (sectors_done cfg)).

(** The loop is left for the final wait at the end of the zone or after a
    failed completion; a run that returns [0] went through the whole zone
    without a failed completion and left nothing in flight. *)
Definition finish_inv (zcap : Z) (cfg : config) : Prop :=
  match cfg with
  | Run PcDrain s => sect s = zcap \/ (0 < errors (trace s))%nat
  | Exit ret s =>
      ret = 0 ->
      sect s = zcap /\ errors (trace s) = 0%nat /\ Async.inflight (ctx s) = []
  | _ => True
  end.

(** A device that accepts every command it has room for, and on which every
    poke succeeds and finds every command in flight finished. *)
Definition responsive (dev : Async.device) : Prop :=
  (forall n, Async.dv_verdict dev n = 0) /\
  (forall n k, Async.dv_finished dev n k = true) /\
  (forall n, 0 <= Async.dv_poke_err dev n).

(** An upper bound on the steps left on a responsive device: four for each
    sector to go, two for the final wait and the return. *)
Definition distance (zcap : Z) (cfg : config) : Z :=
  match cfg with
  | Run PcHead s => 4 * (zcap - sect s) + 2
  | Run (PcSubmit _) s =>
      4 * (zcap - sect s) +
      (if Async.outstanding (ctx s) <? Async.depth (ctx s) then 0 else 1)
  | Run PcNext s => 4 * (zcap - sect s) - 1
  | Run PcDrain _ => 1
  | _ => 0
  end.

(** The value a run returns when nothing fails: [0], or what the dump of
    the data read comes to. *)
Definition clean_exit (op : opcode) (dump : option Z) : Z :=
  match op, dump with
  | OpRead, Some e => exit_code e
  | _, _ => 0
  end.

(** What holds of a run on which no completion fails and no submission is
    refused for good: the loop is left at the end of the zone, and the run
    returns the clean value with nothing in flight. *)
Definition healthy_inv (op : opcode) (dump : option Z) (zcap : Z) (cfg : config) : Prop :=
  errors (trace_of cfg) = 0%nat /\
  match cfg with
  | Run PcDrain s => sect s = zcap
  | Exit ret s =>
      ret = clean_exit op dump /\ sect s = zcap /\ Async.inflight (ctx s) = []
  | _ => True
  end.

End Zoned.

(** ** Device identifiers: the URI that [_dev_open] builds *)

Module Uri.

(** A C string: the bytes before the terminating NUL. *)
Definition cstring := list Z.

(** The strings [pci] and [pci:0]. *)
Definition pci : cstring := [112; 99; 105].
Definition pci_0 : cstring := [112; 99; 105; 58; 48].

Definition colon : Z := 58.

(** The conversion [%4[a-z]]: the longest run of at most four lower-case
    letters at the head of the input, and what follows it. *)
Definition is_lower (c : Z) : bool := (97 <=? c) && (c <=? 122).

Fixpoint span (n : nat) (s : cstring) : cstring * cstring :=
  match n, s with
  | S n', c :: s' =>
      if is_lower c then let '(run, rest) := span n' s' in (c :: run, rest)
      else ([], s)
  | _, _ => ([], s)
  end.

(** [EOF] of [<stdio.h>] *)
Definition EOF : Z := -1.

(** [sscanf(f->file_name, "%4[a-z]%1[:]", schm, sep)]: the value returned,
    and the bytes stored through [schm] and through [sep], each conversion
    storing the matched characters and a terminating NUL.  The value is the
    number of fields assigned, or [EOF] when the input ends before the first
    conversion, that is for an empty file name. *)
Record scanned := {
  fields : Z;
  schm_bytes : nat;
  sep_bytes : nat
}.

Definition sscanf_scheme (file_name : cstring) : scanned :=
  let '(run, rest) := span 4 file_name in
  match run with
  | [] =>
      match file_name with
      | [] => {| fields := EOF; schm_bytes := 0; sep_bytes := 0 |}
      | _ => {| fields := 0; schm_bytes := 0; sep_bytes := 0 |}
      end
  | _ =>
      match rest with
      | c :: _ =>
          if c =? colon
          then {| fields := 2; schm_bytes := S (length run); sep_bytes := 2 |}
          else {| fields := 1; schm_bytes := S (length run); sep_bytes := 0 |}
      | [] => {| fields := 1; schm_bytes := S (length run); sep_bytes := 0 |}
      end
  end.

(** [char sep[1]] *)
Definition sep_size : nat := 1.

(** [matches = sscanf(..) == 2; fn_has_scheme = matches == 2;] *)
Definition matches (file_name : cstring) : Z :=
  if fields (sscanf_scheme file_name) =? 2 then 1 else 0.

Definition fn_has_scheme (file_name : cstring) : Z :=
  if matches file_name =? 2 then 1 else 0.

Section Ident.
(** [XNVME_IDENT_URI_LEN], the size of [dev_uri]; the header that defines it
    is not among the sources.  It is at least 2, so that the size given to
    [snprintf] is not negative. *)
Variable URI_LEN : nat.

(** [snprintf(dev_uri, XNVME_IDENT_URI_LEN - 2, "%s:", o->be)]: at most
    [size - 1] characters are stored before the NUL. *)
Definition snprintf_be (be : cstring) : cstring :=
  take (URI_LEN - 2 - 1) (be ++ [colon]).

(** [strncat(dest, src, n)] appends at most [n] characters of [src] and
    then a NUL. *)
Definition strncat (dest src : cstring) (n : nat) : cstring := dest ++ take n src.

(** What [dev_uri], zero-filled at first, holds before the [strncat]. *)
Definition uri_prefix (be : option cstring) (file_name : cstring) : cstring :=
  match be with
  | Some b => if fn_has_scheme file_name =? 0 then snprintf_be b else []
  | None => []
  end.

(** The string that [_dev_open] passes to [xnvme_dev_open]. *)
Definition dev_uri (be : option cstring) (file_name : cstring) : cstring :=
  let prefix := uri_prefix be file_name in
  strncat prefix file_name (URI_LEN - length prefix).

(** The bytes of [dev_uri] written to, the NUL included. *)
Definition uri_bytes (be : option cstring) (file_name : cstring) : nat :=
  S (length (dev_uri be file_name)).

End Ident.

End Uri.

(** ** Setting up and tearing down the engine: [init], [cleanup], [open],
    [close] *)

Module Lifecycle.

(** The calls that acquire or release a resource, with the pointers they
    are given: a device handle, a context and a request pool are named after
    the file they were acquired for, [None] is [NULL]. *)
Inductive call :=
| DevOpen (k : nat)
| AsyncInit (k : nat)
| PoolAlloc (k : nat)
| AsyncTerm (dev ctx : option nat)
| PoolFree (reqs : option nat)
| DevClose (dev : option nat).

(** [struct xnvme_fioe_fwrap], the pointers. *)
Record fwrap := {
  fio_file : option nat;
  dev : option nat;
  ctx : option nat;
  reqs : option nat
}.

(** A wrapper after [memset(.., 0, ..)]. *)
Definition zeroed : fwrap :=
  {| fio_file := None; dev := None; ctx := None; reqs := None |}.

(** [struct xnvme_fioe_data], without the completion queue. *)
Record data := {
  prev : Z;
  nopen : Z;
  nallocated : Z;
  files : list fwrap
}.

Definition set_file (k : nat) (w : fwrap) (xd : data) : data :=
  {| prev := prev xd; nopen := nopen xd; nallocated := nallocated xd;
     files := <[k := w]> (files xd) |}.

(** A file of the job: [f->fileno], and what the library answers when the
    device of the file is set up: whether [xnvme_dev_open] returns a handle,
    and the values returned by [xnvme_async_init], [xnvme_req_pool_alloc]
    and [xnvme_req_pool_init]. *)
Record fio_file_t := {
  fileno : Z;
  open_ok : bool;
  async_init_err : Z;
  pool_alloc_err : Z;
  pool_init_err : Z
}.

(** [_dev_open(td, f)]: the returned value, the engine data and the calls
    made; [None] where [&xd->files[f->fileno]] is outside the array.
    [be_too_long] is [o->be && strlen(o->be) > XNVME_IDENT_SCHM_LEN].  A
    library call that fails leaves the pointer it was to fill as it was. *)
Definition _dev_open (be_too_long : bool) (xd : data) (f : fio_file_t)
    (tr : list call) : option (Z * data * list call) :=
  if be_too_long then Some (1, xd, tr)
  else if fileno f >? to_int (nallocated xd) then Some (1, xd, tr)
  else if fileno f <? 0 then None
  else
    let k := Z.to_nat (fileno f) in
    match files xd !! k with
    | None => None
    | Some w =>
        if negb (open_ok f) then
          Some (1, set_file k {| fio_file := fio_file w; dev := None; ctx := ctx w;
                                 reqs := reqs w |} xd, tr)
        else
          let w1 := {| fio_file := fio_file w; dev := Some k; ctx := ctx w;
                       reqs := reqs w |} in
          let tr1 := tr ++ [DevOpen k] in
          if negb (async_init_err f =? 0) then Some (1, set_file k w1 xd, tr1)
          else
            let w2 := {| fio_file := fio_file w; dev := Some k; ctx := Some k;
                         reqs := reqs w |} in
            let tr2 := tr1 ++ [AsyncInit k] in
            if negb (pool_alloc_err f =? 0) then Some (1, set_file k w2 xd, tr2)
            else
              let w3 := {| fio_file := fio_file w; dev := Some k; ctx := Some k;
                           reqs := Some k |} in
              let tr3 := tr2 ++ [PoolAlloc k] in
              if negb (pool_init_err f =? 0) then Some (1, set_file k w3 xd, tr3)
              else
                Some (0, set_file k {| fio_file := Some k; dev := Some k; ctx := Some k;
                                       reqs := Some k |} xd, tr3)
    end.

(** The loop [for_each_file(td, f, i)] of [init] over the files of the
    job. *)
Fixpoint init_loop (be_too_long : bool) (fs : list fio_file_t) (xd : data)
    (tr : list call) : option (Z * data * list call) :=
  match fs with
  | [] => Some (0, xd, tr)
  | f :: fs' =>
      match _dev_open be_too_long xd f tr with
      | None => None
      | Some (ret, xd1, tr1) =>
          if negb (ret =? 0) then Some (1, xd1, tr1)
          else
            init_loop be_too_long fs'
              {| prev := prev xd1; nopen := nopen xd1;
                 nallocated := wrap64 (nallocated xd1 + 1); files := files xd1 |} tr1
      end
  end.

(** What [init] reads of the thread: [td->o.use_thread], whether
    [td->io_ops] is set, [td->o.nr_files], and whether [malloc] returns
    memory for the engine data. *)
Record thread := {
  use_thread : bool;
  io_ops_set : bool;
  nr_files : Z;
  malloc_ok : bool;
  be_too_long : bool
}.

(** [xnvme_fioe_init(td)]: the returned value, [td->io_ops_data] ([None]
    while it is not set) and the calls made. *)
Definition xnvme_fioe_init (td : thread) (fs : list fio_file_t)
  : option (Z * option data * list call) :=
  if negb (use_thread td) then Some (1, None, [])
  else if negb (io_ops_set td) then Some (1, None, [])
  else if negb (malloc_ok td) then Some (1, None, [])
  else
    let xd := {| prev := -1; nopen := 0; nallocated := 0;
                 files := replicate (Z.to_nat (nr_files td)) zeroed |} in
    match init_loop (be_too_long td) fs xd [] with
    | None => None
    | Some (ret, xd1, tr) =>
        if negb (ret =? 0) then Some (1, Some xd1, tr)
        else if negb (nallocated xd1 =? nr_files td) then Some (1, Some xd1, tr)
        else Some (0, Some xd1, tr)
    end.

(** [_dev_close(td, fwrap)] *)
Definition _dev_close (w : fwrap) (tr : list call) : fwrap * list call :=
  let tr1 := if dev w is Some _ then tr ++ [AsyncTerm (dev w) (ctx w)] else tr in
  (zeroed, tr1 ++ [PoolFree (reqs w); DevClose (dev w)]).

(** The loop of [cleanup] from [i] on, for [n] more files. *)
Fixpoint cleanup_loop (n : nat) (i : nat) (ws : list fwrap) (tr : list call)
  : option (list fwrap * list call) :=
  match n with
  | O => Some (ws, tr)
  | S n' =>
      match ws !! i with
      | None => None
      | Some w =>
          let '(w', tr') := _dev_close w tr in
          cleanup_loop n' (S i) (<[i := w']> ws) tr'
      end
  end.

(** [xnvme_fioe_cleanup(td)]: the wrappers as they are when the engine data
    is freed, and the calls made. *)
Definition xnvme_fioe_cleanup (xd : data) (tr : list call)
  : option (list fwrap * list call) :=
  cleanup_loop (Z.to_nat (nallocated xd)) 0 (files xd) tr.

(** [xnvme_fioe_open(td, f)] for the file [f] with number [fileno]: the
    returned value and the engine data; [None] where [xd->files[f->fileno]]
    is outside the array. *)
Definition xnvme_fioe_open (xd : data) (f : nat) (fileno : Z) : option (Z * data) :=
  if fileno >? to_int (nallocated xd) then Some (1, xd)
  else if fileno <? 0 then None
  else
    match files xd !! Z.to_nat fileno with
    | None => None
    | Some w =>
        if decide (fio_file w = Some f) then
          Some (0, {| prev := prev xd; nopen := wrap64 (nopen xd + 1);
                      nallocated := nallocated xd; files := files xd |})
        else Some (1, xd)
    end.

(** [xnvme_fioe_close(td, f)] *)
Definition xnvme_fioe_close (xd : data) : Z * data :=
  (0, {| prev := prev xd; nopen := wrap64 (nopen xd - 1);
         nallocated := nallocated xd; files := files xd |}).

(** What a sequence of calls leaves acquired: the resources that a call
    acquired and no later call released. *)
Definition track_step (acquired released : call -> option nat) (acc : list nat)
    (c : call) : list nat :=
  match acquired c, released c with
  | Some k, _ => acc ++ [k]
  | None, Some k => List.filter (fun j => negb (j =? k)%nat) acc
  | None, None => acc
  end.

Definition track (acquired released : call -> option nat) (tr : list call)
  : list nat :=
  fold_left (track_step acquired released) tr [].

(** The device handles left open: returned by [xnvme_dev_open] and not given
    to [xnvme_dev_close] since; likewise the contexts and the request
    pools. *)
Definition open_devs : list call -> list nat :=
  track (fun c => match c with DevOpen k => Some k | _ => None end)
        (fun c => match c with DevClose d => d | _ => None end).

Definition live_ctxs : list call -> list nat :=
  track (fun c => match c with AsyncInit k => Some k | _ => None end)
        (fun c => match c with AsyncTerm _ c => c | _ => None end).

Definition live_pools : list call -> list nat :=
  track (fun c => match c with PoolAlloc k => Some k | _ => None end)
        (fun c => match c with PoolFree r => r | _ => None end).

(** The files of a job numbered [0], [1], ... in the order of the loop, for
    all of which the setup succeeds. *)
Definition good_file (k : nat) : fio_file_t :=
  {| fileno := Z.of_nat k; open_ok := true; async_init_err := 0;
     pool_alloc_err := 0; pool_init_err := 0 |}.

Definition good_files (n : nat) : list fio_file_t := map good_file (seq 0 n).

(** A file for which the device is opened and a later step fails. *)
Definition half_open (f : fio_file_t) : Prop :=
  open_ok f = true /\
  (async_init_err f <> 0 \/ pool_alloc_err f <> 0 \/ pool_init_err f <> 0).

(** The wrapper of file [k] when [_dev_open] has succeeded. *)
Definition wrapped (k : nat) : fwrap :=
  {| fio_file := Some k; dev := Some k; ctx := Some k; reqs := Some k |}.

(** The calls of a successful [_dev_open] and of [_dev_close] for file
    [k]. *)
Definition setup_calls (k : nat) : list call := [DevOpen k; AsyncInit k; PoolAlloc k].
Definition teardown_calls (k : nat) : list call :=
  [AsyncTerm (Some k) (Some k); PoolFree (Some k); DevClose (Some k)].

(** The wrappers of the engine data when the first [k] of [k + r] files are
    set up. *)
Definition partial_files (k r : nat) : list fwrap :=
  map wrapped (seq 0 k) ++ replicate r zeroed.

(** The engine data after two files were set up. *)
Definition two_files : data :=
  {| prev := -1; nopen := 0; nallocated := 2; files := map wrapped (seq 0 2) |}.

Definition thread_ok (n : nat) : thread :=
  {| use_thread := true; io_ops_set := true; nr_files := Z.of_nat n;
     malloc_ok := true; be_too_long := false |}.

(** ** [xnvme_fioe_get_zoned_model] *)

(** The enumerators of [libxnvme.h] and of fio that the function compares
    with.  The headers are not part of the sources at hand, so their values
    are parameters. *)
Record enums := {
  XNVME_GEO_UNKNOWN : Z;
  XNVME_GEO_CONVENTIONAL : Z;
  XNVME_GEO_ZONED : Z;
  FIO_TYPE_BLOCK : Z;
  FIO_TYPE_CHAR : Z
}.

(** [enum zbd_zoned_model] of fio. *)
Inductive zbd_zoned_model := ZBD_IGNORE | ZBD_NONE | ZBD_HOST_MANAGED | ZBD_HOST_AWARE.

Definition EINVAL : Z := 22.

(** [xnvme_fioe_get_zoned_model(td, f, model)] for file [k] of type
    [filetype]: the returned value, [*model] and the calls made.  [geo_type]
    is [xnvme_dev_get_geo(dev)->type] when [xnvme_dev_open] returns a
    handle, [None] when it returns [NULL]. *)
Definition xnvme_fioe_get_zoned_model (c : enums) (k : nat) (filetype : Z)
    (geo_type : option Z) (model : zbd_zoned_model)
  : Z * zbd_zoned_model * list call :=
  if negb (filetype =? FIO_TYPE_BLOCK c) && negb (filetype =? FIO_TYPE_CHAR c) then
    (0, ZBD_IGNORE, [])
  else
    match geo_type with
    | None => (1, model, [])
    | Some t =>
        if t =? XNVME_GEO_UNKNOWN c then (0, ZBD_NONE, [DevOpen k; DevClose (Some k)])
        else if t =? XNVME_GEO_CONVENTIONAL c then
          (0, ZBD_NONE, [DevOpen k; DevClose (Some k)])
        else if t =? XNVME_GEO_ZONED c then
          (0, ZBD_HOST_MANAGED, [DevOpen k; DevClose (Some k)])
        else (- EINVAL, ZBD_NONE, [DevOpen k])
    end.

End Lifecycle.

(** * Properties *)

(** ** Zone reports *)

Section ReportFacts.
Import Report.
Variable c : znd_enum.
Variable ssw : Z.

(** The loop never touches the entries below the index it is entered at. *)
Lemma transform_below (ds : list znd_descr) :
  forall (idx : nat) (zbdz : list zbd_zone) (j : nat),
    (j < idx)%nat -> (transform c ssw ds idx zbdz).2 !! j = zbdz !! j.
Proof.
  induction ds as [|d ds IH]; intros idx zbdz j Hj; simpl; [reflexivity|].
  destruct (zt d =? ZND_TYPE_SEQWR c).
  - rewrite IH by lia.
    rewrite !list_lookup_alter_ne by lia. reflexivity.
  - simpl. rewrite list_lookup_alter_ne by lia. reflexivity.
Qed.

(** An entry that the loop reaches with a valid zone type is written in
    full, whatever follows it in the report. *)
Lemma transform_entry (ds : list znd_descr) :
  forall (idx : nat) (zbdz : list zbd_zone) (i : nat) (d : znd_descr),
    ds !! i = Some d ->
    Forall (seqwr_type c) (take (S i) ds) ->
    (idx + i < length zbdz)%nat ->
    exists z0, zbdz !! (idx + i)%nat = Some z0 /\
      (transform c ssw ds idx zbdz).2 !! (idx + i)%nat =
        Some (set_type_cond ZBD_ZONE_TYPE_SWR (cond_of_state c (zs d))
                (set_extent ssw d z0)).
Proof.
  induction ds as [|e ds IH]; intros idx zbdz i d Hd Hty Hlen; [discriminate|].
  destruct i as [|i].
  - simpl in Hd. injection Hd as ->.
    apply Forall_cons in Hty as [Hd _]. unfold seqwr_type in Hd.
    destruct (lookup_lt_is_Some_2 zbdz idx) as [z0 Hz0]; [lia|].
    exists z0. rewrite Nat.add_0_r. split; [exact Hz0|].
    simpl. rewrite Hd, Z.eqb_refl.
    rewrite transform_below by lia.
    rewrite !list_lookup_alter_eq, Hz0. reflexivity.
  - simpl in Hd. rewrite firstn_cons in Hty.
    apply Forall_cons in Hty as [He Hty]. unfold seqwr_type in He.
    simpl. rewrite He, Z.eqb_refl.
    destruct (IH (S idx)
                (alter (set_type_cond ZBD_ZONE_TYPE_SWR (cond_of_state c (zs e))) idx
                   (alter (set_extent ssw e) idx zbdz)) i d Hd Hty) as [z0 [Hz0 Hout]].
    { rewrite !length_alter. lia. }
    replace (idx + S i)%nat with (S idx + i)%nat by lia.
    exists z0. split; [|exact Hout].
    rewrite !list_lookup_alter_ne in Hz0 by lia. exact Hz0.
Qed.

(** With valid zone types throughout, the loop leaves [err] at [0]. *)
Lemma transform_no_error (ds : list znd_descr) :
  forall (idx : nat) (zbdz : list zbd_zone),
    Forall (seqwr_type c) ds -> (transform c ssw ds idx zbdz).1 = 0.
Proof.
  induction ds as [|d ds IH]; intros idx zbdz Hty; simpl; [reflexivity|].
  apply Forall_cons in Hty as [Hd Hty]. unfold seqwr_type in Hd.
  rewrite Hd, Z.eqb_refl. apply IH, Hty.
Qed.

End ReportFacts.

Section ReportClaims.
Import Report.

(** The [switch (descr->zs)] as a table, for pairwise distinct labels. *)
Lemma cond_of_state_table (c : znd_enum) (s : Z) :
  NoDup (state_labels c) ->
  (s = ZND_STATE_EMPTY c -> cond_of_state c s = ZBD_ZONE_COND_EMPTY) /\
  (s = ZND_STATE_IOPEN c -> cond_of_state c s = ZBD_ZONE_COND_IMP_OPEN) /\
  (s = ZND_STATE_EOPEN c -> cond_of_state c s = ZBD_ZONE_COND_EXP_OPEN) /\
  (s = ZND_STATE_CLOSED c -> cond_of_state c s = ZBD_ZONE_COND_CLOSED) /\
  (s = ZND_STATE_FULL c -> cond_of_state c s = ZBD_ZONE_COND_FULL) /\
  (s = ZND_STATE_RONLY c -> cond_of_state c s = ZBD_ZONE_COND_OFFLINE) /\
  (s = ZND_STATE_OFFLINE c -> cond_of_state c s = ZBD_ZONE_COND_OFFLINE) /\
  (s ∉ state_labels c -> cond_of_state c s = ZBD_ZONE_COND_OFFLINE).
Proof.
  intros Hnd. unfold state_labels in *.
  repeat (apply NoDup_cons in Hnd as [? Hnd]).
  rewrite ?not_elem_of_cons in *. unfold cond_of_state.
  repeat split; intros Hs; try subst s;
    repeat match goal with
           | |- context [?a =? ?b] => destruct (Z.eqb_spec a b)
           end; try reflexivity; exfalso; intuition congruence.
Qed.

(** C1 (counterexample).  With the state values of the NVMe Zoned Namespace
    command set, a report whose first entry carries the undefined raw state
    [5] is not rejected: the call returns the number of zones asked for and
    the entry comes out in condition Offline. *)
Lemma report_zones_accepts_undefined_state :
  (5 ∉ state_labels nvme_zns) /\
  xnvme_fioe_report_zones nvme_zns (Some (reporting [seqwr 5 0; seqwr 1 8])) 0
      (replicate 2 blank) 2 =
    (2, [ {| z_start := 0; z_wp := 0; z_len := 4096;
             z_type := ZBD_ZONE_TYPE_SWR; z_cond := ZBD_ZONE_COND_OFFLINE |};
          {| z_start := 4096; z_wp := 4096; z_len := 4096;
             z_type := ZBD_ZONE_TYPE_SWR; z_cond := ZBD_ZONE_COND_EMPTY |} ]).
Proof.
  split; [|vm_compute; reflexivity].
  unfold state_labels; simpl. rewrite !not_elem_of_cons.
  repeat split; try discriminate. apply not_elem_of_nil.
Qed.

(** C1 (amended).  For every entry of the report that the transformation
    loop of [report_zones] processes, the device-reported zone state is
    mapped as Empty to Empty, ImplicitlyOpen to ImplicitOpen, ExplicitlyOpen
    to ExplicitOpen, Closed to Closed, Full to Full, ReadOnly to Offline,
    Offline to Offline, and any other raw state value is mapped to Offline as
    well; no state value makes the call fail: with valid zone types
    throughout it returns the number of zones asked for. *)
Theorem report_zones_state_mapping (c : znd_enum) (dev : xnvme_dev)
    (offset nr_zones : Z) (zbdz : list zbd_zone) (rprt : list znd_descr)
    (i : nat) (d : znd_descr) :
  NoDup (state_labels c) ->
  report_from_dev dev (zone_align (dev_ssw dev) (geo_nsect dev) offset) nr_zones
    = inr rprt ->
  nentries rprt = nr_zones ->
  offset <= geo_tbytes dev ->
  (length rprt <= length zbdz)%nat ->
  rprt !! i = Some d ->
  Forall (seqwr_type c) (take (S i) rprt) ->
  let out := xnvme_fioe_report_zones c (Some dev) offset zbdz nr_zones in
  (exists z, out.2 !! i = Some z /\
     (zs d = ZND_STATE_EMPTY c -> z_cond z = ZBD_ZONE_COND_EMPTY) /\
     (zs d = ZND_STATE_IOPEN c -> z_cond z = ZBD_ZONE_COND_IMP_OPEN) /\
     (zs d = ZND_STATE_EOPEN c -> z_cond z = ZBD_ZONE_COND_EXP_OPEN) /\
     (zs d = ZND_STATE_CLOSED c -> z_cond z = ZBD_ZONE_COND_CLOSED) /\
     (zs d = ZND_STATE_FULL c -> z_cond z = ZBD_ZONE_COND_FULL) /\
     (zs d = ZND_STATE_RONLY c -> z_cond z = ZBD_ZONE_COND_OFFLINE) /\
     (zs d = ZND_STATE_OFFLINE c -> z_cond z = ZBD_ZONE_COND_OFFLINE) /\
     (zs d ∉ state_labels c -> z_cond z = ZBD_ZONE_COND_OFFLINE)) /\
  (Forall (seqwr_type c) rprt -> out.1 = to_int nr_zones).
Proof.
  intros Hnd Hrep Hn Hoff Hlen Hd Hty out. subst out.
  unfold xnvme_fioe_report_zones. rewrite Hrep.
  replace (nentries rprt =? nr_zones) with true by (symmetry; apply Z.eqb_eq, Hn).
  replace (offset >? geo_tbytes dev) with false
    by (symmetry; rewrite Z.gtb_ltb; apply Z.ltb_ge, Hoff).
  simpl negb. cbv iota.
  pose proof (transform_entry c (dev_ssw dev) rprt 0 zbdz i d Hd Hty) as He.
  pose proof (transform_no_error c (dev_ssw dev) rprt 0 zbdz) as Hok.
  destruct (transform c (dev_ssw dev) rprt 0 zbdz) as [err zbdz'] eqn:Ht.
  simpl in *. split.
  - destruct He as [z0 [_ Hz]].
    { apply lookup_lt_Some in Hd. lia. }
    eexists. split; [exact Hz|]. simpl.
    apply cond_of_state_table, Hnd.
  - intros Hall. rewrite (Hok Hall). reflexivity.
Qed.

Lemma report_zones_state_mapping_witness :
  let out := xnvme_fioe_report_zones nvme_zns
               (Some (reporting [seqwr 5 0; seqwr 1 8])) 0 (replicate 2 blank) 2 in
  (exists z, out.2 !! 0%nat = Some z /\
     (5 = 1 -> z_cond z = ZBD_ZONE_COND_EMPTY) /\
     (5 = 2 -> z_cond z = ZBD_ZONE_COND_IMP_OPEN) /\
     (5 = 3 -> z_cond z = ZBD_ZONE_COND_EXP_OPEN) /\
     (5 = 4 -> z_cond z = ZBD_ZONE_COND_CLOSED) /\
     (5 = 14 -> z_cond z = ZBD_ZONE_COND_FULL) /\
     (5 = 13 -> z_cond z = ZBD_ZONE_COND_OFFLINE) /\
     (5 = 15 -> z_cond z = ZBD_ZONE_COND_OFFLINE) /\
     (5 ∉ state_labels nvme_zns -> z_cond z = ZBD_ZONE_COND_OFFLINE)) /\
  (Forall (seqwr_type nvme_zns) [seqwr 5 0; seqwr 1 8] -> out.1 = to_int 2).
Proof.
  apply (report_zones_state_mapping nvme_zns (reporting [seqwr 5 0; seqwr 1 8]) 0 2
           (replicate 2 blank) [seqwr 5 0; seqwr 1 8] 0 (seqwr 5 0)).
  - unfold state_labels; simpl. repeat (apply NoDup_cons; split);
      [rewrite ?not_elem_of_cons; repeat split; try discriminate; apply not_elem_of_nil ..
      | apply NoDup_nil; exact I].
  - reflexivity.
  - reflexivity.
  - vm_compute; discriminate.
  - simpl; lia.
  - reflexivity.
  - simpl. repeat constructor.
Defined.

(** A report whose number of entries differs from [nr_zones] makes the call
    leave the array alone and return [1]. *)
Lemma report_zones_mismatch (c : znd_enum) (dev : xnvme_dev)
    (offset nr_zones : Z) (zbdz : list zbd_zone) (rprt : list znd_descr) :
  report_from_dev dev (zone_align (dev_ssw dev) (geo_nsect dev) offset) nr_zones
    = inr rprt ->
  nentries rprt <> nr_zones ->
  xnvme_fioe_report_zones c (Some dev) offset zbdz nr_zones = (1, zbdz).
Proof.
  intros Hrep Hn. unfold xnvme_fioe_report_zones. rewrite Hrep.
  apply Z.eqb_neq in Hn. rewrite Hn. reflexivity.
Qed.

(** C8.  One zone is asked for and the device reports none: the call returns
    [1] and leaves the array untouched, and [1] is also what it returns when
    the device reports the one zone and the entry is transformed. *)
Theorem report_zones_mismatch_returns_one :
  xnvme_fioe_report_zones nvme_zns (Some (reporting [])) 0 [blank] 1 = (1, [blank]) /\
  xnvme_fioe_report_zones nvme_zns (Some (reporting [seqwr 1 0])) 0 [blank] 1 =
    (1, [ {| z_start := 0; z_wp := 0; z_len := 4096;
             z_type := ZBD_ZONE_TYPE_SWR; z_cond := ZBD_ZONE_COND_EMPTY |} ]).
Proof. split; vm_compute; reflexivity. Qed.

End ReportClaims.

(** ** Write-pointer reset *)

Section ResetFacts.
Import Reset.
Variable send : mgmt_send.
Variables nsect last : Z.
Hypothesis nsect_pos : 0 < nsect.

Lemma targets_above (z : Z) : last < z -> targets nsect z last = [].
Proof.
  intros Hz. unfold targets.
  destruct (Z.leb_spec z last); [lia | reflexivity].
Qed.

Lemma targets_cons (z : Z) :
  z <= last -> targets nsect z last = z :: targets nsect (z + nsect) last.
Proof.
  intros Hz. unfold targets.
  destruct (Z.leb_spec z last); [|lia].
  destruct (Z.leb_spec (z + nsect) last) as [Hn|Hn].
  - replace ((last - z) / nsect) with ((last - (z + nsect)) / nsect + 1).
    + rewrite Z2Nat.inj_add by (try apply Z.div_pos; lia).
      rewrite Nat.add_comm. reflexivity.
    + replace (last - z) with (last - (z + nsect) + 1 * nsect) by lia.
      rewrite Z.div_add by lia. reflexivity.
  - rewrite Z.div_small by lia. reflexivity.
Qed.

(** The loop is a sweep over the zone starts from the one it is entered with
    up to and including [last]. *)
Lemma reset_loop_sweep (n : nat) :
  forall (z : Z) (sent : list Z) (fuel : nat),
    0 <= z -> last + nsect < 2 ^ 64 ->
    length (targets nsect z last) = n -> (n < fuel)%nat ->
    reset_loop fuel send nsect last z sent =
      Some (sweep send (targets nsect z last) sent).
Proof.
  induction n as [|n IH]; intros z sent fuel Hz Hmax Hn Hfuel;
    (destruct fuel as [|fuel]; [lia|]); simpl.
  - destruct (Z.leb_spec z last) as [Hle|Hgt].
    + rewrite targets_cons in Hn by exact Hle. discriminate.
    + rewrite targets_above by exact Hgt. reflexivity.
  - destruct (Z.leb_spec z last) as [Hle|Hgt].
    + rewrite targets_cons in * by exact Hle. simpl.
      destruct (send (length sent) z) as [err status].
      destruct (negb (err =? 0) || negb (status =? 0)); [reflexivity|].
      assert (Hw : wrap64 (z + nsect) = z + nsect)
        by (unfold wrap64; apply Z.mod_small; lia).
      rewrite Hw. apply IH; try lia. simpl in Hn. lia.
    + rewrite targets_above in Hn by exact Hgt. discriminate.
Qed.

End ResetFacts.

Section ResetClaims.
Import Reset.

(** [reset_wp] sends one command to every zone start from the zone of
    [offset] up to and including the zone of [offset + length], in ascending
    order, and stops at the first command that fails. *)
Lemma reset_wp_sweep (send : mgmt_send) (ssw nsect offset length : Z) (fuel : nat) :
  0 < nsect ->
  zone_last ssw nsect offset length + nsect < 2 ^ 64 ->
  (Datatypes.length (targets nsect (zone_first ssw nsect offset)
             (zone_last ssw nsect offset length)) < fuel)%nat ->
  xnvme_fioe_reset_wp fuel send ssw nsect offset length =
    Some (sweep send (targets nsect (zone_first ssw nsect offset)
                        (zone_last ssw nsect offset length)) []).
Proof.
  intros Hn Hmax Hfuel. unfold xnvme_fioe_reset_wp.
  eapply reset_loop_sweep; try eassumption; try reflexivity.
  unfold zone_first, zone_align, wrap64. apply Z.mod_pos_bound. lia.
Qed.

(** C5.  On a device with sectors of 512 bytes and zones of 8 sectors,
    [reset_wp(offset = 0, length = 4096)] covers exactly the first zone, yet
    the loop sends a reset to the zone at LBA 0 and to the zone at LBA 8,
    which does not overlap the byte range [[0, 4096)]. *)
Theorem reset_wp_resets_zone_past_range :
  xnvme_fioe_reset_wp 3 send_ok 9 8 0 4096 = Some (0, [0; 8]) /\
  overlaps 9 8 0 4096 0 = true /\
  overlaps 9 8 0 4096 8 = false.
Proof. repeat split; vm_compute; reflexivity. Qed.

(** Where the reset of a zone fails, the zones before it have been reset,
    the failure is returned and no later zone receives a command. *)
Example reset_wp_stops_at_first_failure :
  xnvme_fioe_reset_wp 4 (send_bad 8) 9 8 0 (3 * 4096 - 1) = Some (- EIO, [0; 8]).
Proof. vm_compute; reflexivity. Qed.

End ResetClaims.

(** ** Request pools *)

Section PoolClaims.





End PoolClaims.

(** ** The engine's [queue] *)

Section QueueClaims.
Import Fioe.

(** Taking the head off the free list of a file and putting it back, with
    whatever happened to the context of that file in between, leaves the
    handles of every free list as they were. *)
Lemma pool_insert_head_restores (xd : xnvme_fioe_data) (n : nat)
    (f : xnvme_fioe_fwrap) (r req : xnvme_req) (rest : list xnvme_req)
    (c : Async.ctx xnvme_req) (fs : list xnvme_fioe_fwrap) (xd2 : xnvme_fioe_data) :
  files xd !! n = Some f ->
  fw_reqs f = r :: rest ->
  req_pool req = n -> req_id req = req_id r ->
  files xd2 = <[n := set_ctx c (set_reqs rest f)]> fs ->
  length fs = length (files xd) ->
  (forall k, k <> n -> fs !! k = files xd !! k) ->
  (forall k, free_handles k (pool_insert_head req xd2) = free_handles k xd) /\
  exists f', files (pool_insert_head req xd2) !! n = Some f' /\ fw_reqs f' = req :: rest.
Proof.
  intros Hf Hr Hp Hid Hfs Hlen Hother.
  assert (Hn : (n < length fs)%nat)
    by (rewrite Hlen; eapply lookup_lt_Some; exact Hf).
  assert (Hat : files (pool_insert_head req xd2) !! n =
                Some (set_reqs (req :: rest) (set_ctx c (set_reqs rest f)))).
  { unfold pool_insert_head; simpl. rewrite Hp, Hfs.
    rewrite list_lookup_alter_eq, list_lookup_insert_eq by exact Hn. reflexivity. }
  split.
  - intros k. unfold free_handles.
    destruct (decide (k = n)) as [->|Hk].
    + rewrite Hat, Hf, Hr. simpl. rewrite Hid. reflexivity.
    + unfold pool_insert_head; simpl. rewrite Hp, Hfs.
      rewrite list_lookup_alter_ne, list_lookup_insert_ne by congruence.
      rewrite Hother by exact Hk. reflexivity.
  - eexists. split; [exact Hat | reflexivity].
Qed.

(** The free lists that [xnvme_fioe_init] sets up are linked to their files. *)
Lemma init_pools_linked (devs : list Async.device) (iodepth : Z) :
  pools_linked (xnvme_fioe_init devs iodepth).
Proof.
  intros k f r Hf Hr. simpl in Hf.
  rewrite list_lookup_imap in Hf.
  destruct (devs !! k) as [d|]; [|discriminate].
  injection Hf as <-. simpl in Hr.
  apply list_elem_of_fmap in Hr as [i [-> _]]. reflexivity.
Qed.

(** C10.  When [queue] returns anything but Queued, every free list holds
    the handles it held before the call, in the same order; where a handle
    was taken (the call got past the check for synchronous engines), it is
    back at the head of the free list of the file, now carrying the I/O unit
    as its callback argument. *)
Theorem queue_failure_returns_handle (ndebug syncio : bool)
    (xd : xnvme_fioe_data) (u : io_u)
    (q : fio_q_status) (u' : io_u) (xd' : xnvme_fioe_data) :
  pools_linked xd ->
  xnvme_fioe_queue ndebug syncio xd u = QReturn q u' xd' ->
  q <> FIO_Q_QUEUED ->
  (forall k, free_handles k xd' = free_handles k xd) /\
  (syncio = false ->
   exists f r rest f',
     files xd !! io_fileno u = Some f /\ fw_reqs f = r :: rest /\
     files xd' !! io_fileno u = Some f' /\ fw_reqs f' = set_cb_arg u r :: rest).
Proof.
  intros Hlinked Hq Hnq. unfold xnvme_fioe_queue in Hq.
  destruct syncio.
  { destruct ndebug; [|discriminate]. injection Hq as _ _ <-.
    split; [reflexivity | discriminate]. }
  unfold pool_remove_head in Hq.
  destruct (files xd !! io_fileno u) as [f|] eqn:Hf; [|discriminate].
  destruct (fw_reqs f) as [|r rest] eqn:Hr; [discriminate|].
  assert (Hp : req_pool (set_cb_arg u r) = io_fileno u).
  { simpl. eapply Hlinked; [exact Hf|]. rewrite Hr. apply list_elem_of_here. }
  assert (Hn : (io_fileno u < length (files xd))%nat)
    by (eapply lookup_lt_Some; exact Hf).
  set (xd1 := set_files (<[io_fileno u := set_reqs rest f]> (files xd)) xd) in *.
  assert (Hrestore : forall c fs xd2,
             files xd2 = <[io_fileno u := set_ctx c (set_reqs rest f)]> fs ->
             length fs = length (files xd) ->
             (forall k, k <> io_fileno u -> fs !! k = files xd !! k) ->
             (forall k, free_handles k (pool_insert_head (set_cb_arg u r) xd2)
                        = free_handles k xd) /\
             (false = false ->
              exists f0 r0 rest0 f',
                Some f = Some f0 /\ fw_reqs f0 = r0 :: rest0 /\
                files (pool_insert_head (set_cb_arg u r) xd2) !! io_fileno u = Some f' /\
                fw_reqs f' = set_cb_arg u r0 :: rest0)).
  { intros c fs xd2 Hfs Hlen Hother.
    destruct (pool_insert_head_restores xd (io_fileno u) f r (set_cb_arg u r) rest
                c fs xd2 Hf Hr Hp eq_refl Hfs Hlen Hother) as [Hfree [f' [Hat Hreqs]]].
    split; [exact Hfree|]. intros _. exists f, r, rest, f'. auto. }
  destruct (io_ddir u) eqn:Hd.
  1,2: unfold xnvme_cmd in Hq; simpl in Hq;
       rewrite list_lookup_insert_eq in Hq by exact Hn;
       destruct (Async.submit (fw_dev (set_reqs rest f)) (fw_ctx (set_reqs rest f))
                   (set_cb_arg u r)) as [c err] eqn:Hsub; simpl in Hq;
       destruct (err =? 0); [injection Hq as <- _ _; congruence|];
       assert (Hfs : files (set_files (<[io_fileno u := set_ctx c (set_reqs rest f)]>
                               (files xd1)) xd1)
                     = <[io_fileno u := set_ctx c (set_reqs rest f)]>
                         (<[io_fileno u := set_reqs rest f]> (files xd)))
         by reflexivity;
       assert (Hlen : length (<[io_fileno u := set_reqs rest f]> (files xd))
                      = length (files xd)) by apply length_insert;
       assert (Hother : forall k, k <> io_fileno u ->
                  <[io_fileno u := set_reqs rest f]> (files xd) !! k = files xd !! k)
         by (intros k Hk; apply list_lookup_insert_ne; congruence);
       destruct (is_busy err);
       [ injection Hq as _ _ <-; exact (Hrestore _ _ _ Hfs Hlen Hother)
       | destruct ndebug; [|discriminate];
         injection Hq as _ _ <-; exact (Hrestore _ _ _ Hfs Hlen Hother) ].
  destruct ndebug; [|discriminate]. simpl in Hq.
  injection Hq as _ _ <-.
  apply (Hrestore (fw_ctx f) (files xd)).
  - simpl. destruct f; reflexivity.
  - reflexivity.
  - reflexivity.
Qed.

Lemma queue_failure_returns_handle_witness :
  let xd := xnvme_fioe_init [Async.refusing (- EBUSY)] 2 in
  let u := io_unit 0 0 DDIR_READ 0 in
  match xnvme_fioe_queue true false xd u with
  | QReturn q _ xd' =>
      q = FIO_Q_BUSY /\
      (forall k, free_handles k xd' = free_handles k xd) /\
      (false = false ->
       exists f r rest f',
         files xd !! io_fileno u = Some f /\ fw_reqs f = r :: rest /\
         files xd' !! io_fileno u = Some f' /\ fw_reqs f' = set_cb_arg u r :: rest)
  | _ => False
  end.
Proof.
  intros xd u.
  pose proof (queue_failure_returns_handle true false xd u) as T.
  destruct (xnvme_fioe_queue true false xd u) as [q u' xd'| |] eqn:E;
    try (vm_compute in E; discriminate).
  assert (Hq : q = FIO_Q_BUSY) by (vm_compute in E; congruence).
  split; [exact Hq|].
  apply (T q u' xd').
  - apply init_pools_linked.
  - reflexivity.
  - rewrite Hq. discriminate.
Defined.

End QueueClaims.

(** ** The engine's [getevents] *)

Section GetEventsFrame.
Import Fioe.

Lemma cb_pool_frame (xd : xnvme_fioe_data) (cpl : xnvme_req * Z) :
  frame xd (cb_pool xd cpl).
Proof.
  destruct cpl as [req status]. unfold cb_pool, frame, pool_insert_head.
  destruct (req_cb_arg req); simpl; rewrite length_alter; auto.
Qed.

Lemma fold_cb_pool_frame (cpls : list (xnvme_req * Z)) :
  forall xd, frame xd (fold_left cb_pool cpls xd).
Proof.
  induction cpls as [|cpl cpls IH]; intros xd; simpl.
  - unfold frame; auto.
  - destruct (cb_pool_frame xd cpl) as (H1 & H2 & H3 & H4).
    destruct (IH (cb_pool xd cpl)) as (I1 & I2 & I3 & I4).
    unfold frame. repeat split; congruence.
Qed.

Lemma poke_frame (xd : xnvme_fioe_data) (idx max : Z) (xd1 : xnvme_fioe_data) (e : Z) :
  xnvme_async_poke xd idx max = Some (xd1, e) -> frame xd xd1.
Proof.
  unfold xnvme_async_poke. destruct (idx <? 0); [discriminate|].
  destruct (files xd !! Z.to_nat idx) as [f|]; [|discriminate].
  destruct (Async.poke (fw_dev f) (fw_ctx f) max) as [[c ret] cpls].
  intros H; injection H as <- _.
  destruct (fold_cb_pool_frame cpls
              (set_files (<[Z.to_nat idx := set_ctx c f]> (files xd)) xd))
    as (H1 & H2 & H3 & H4).
  simpl in *. rewrite length_insert in H4. unfold frame; auto.
Qed.


End GetEventsFrame.

Section GetEventsOrder.
Import Fioe.
Variable ndebug : bool.
Variables min max : Z.
Variable N : Z.
Variable start : Z.
Variable before : list Z.
Hypothesis N_pos : 0 < N.




End GetEventsOrder.

Section GetEventsClaims.
Import Fioe.



End GetEventsClaims.

Section GetEventsIdle.
Import Fioe.
Variable ndebug : bool.
Variables min max : Z.
Hypothesis min_pos : 1 <= min.

(** Poking a quiet file completes nothing and leaves the file quiet. *)
Lemma poke_quiet (xd : xnvme_fioe_data) (i : Z) (m : Z) :
  Forall quiet (files xd) -> 0 <= i < Z.of_nat (length (files xd)) ->
  exists xd1, xnvme_async_poke xd i m = Some (xd1, 0) /\
    completed xd1 = completed xd /\ Forall quiet (files xd1) /\
    cur xd1 = cur xd /\ nallocated xd1 = nallocated xd /\
    length (files xd1) = length (files xd).
Proof.
  intros Hq Hi. unfold xnvme_async_poke.
  destruct (Z.ltb_spec i 0); [lia|].
  destruct (lookup_lt_is_Some_2 (files xd) (Z.to_nat i)) as [f Hf]; [lia|].
  rewrite Hf.
  assert (Hquiet : quiet f) by (eapply Forall_lookup_1; eassumption).
  destruct Hquiet as [Hin Herr].
  unfold Async.poke. specialize (Herr (Async.pokes (fw_ctx f))).
  destruct (Z.ltb_spec (Async.dv_poke_err (fw_dev f) (Async.pokes (fw_ctx f))) 0); [lia|].
  rewrite Hin. simpl. eexists. split; [reflexivity|]. simpl.
  rewrite length_insert. repeat split; try reflexivity.
  apply Forall_insert; [exact Hq|].
  split; [reflexivity|]. simpl. eapply Forall_lookup_1 in Hq; [|exact Hf]. apply Hq.
Qed.

Lemma idling_step (cfg : gconfig) :
  idling cfg -> idling (getevents_step ndebug min max cfg).
Proof.
  intros (s & Hcfg & Hc & He & Hq & Hn & Hfw).
  destruct Hcfg as [-> | ->]; simpl.
  - destruct ((if g_fwrap s is None then true else false) || (cur (g_xd s) =? nfiles (g_xd s))).
    + eexists. split; [right; reflexivity|]. simpl.
      repeat split; try assumption; try (injection H as <-; simpl; lia).
    + exists s. split; [right; reflexivity|]. auto 10.
  - destruct (g_fwrap s) as [i|] eqn:Hf.
    2:{ exists s. split; [left; reflexivity|]. rewrite Hf. auto 10. }
    destruct (Hfw i eq_refl) as [-> Hi0].
    destruct (Z.ltb_spec (cur (g_xd s)) (nfiles (g_xd s))) as [Hlt|Hge]; simpl.
    2:{ exists s. split; [left; reflexivity|]. rewrite Hf. auto 10. }
    destruct (Z.leb_spec 0 (g_err s)) as [_|]; [simpl|lia].
    destruct (poke_quiet (g_xd s) (cur (g_xd s)) (wrap32 (max - completed (g_xd s))) Hq)
      as (xd1 & -> & Hc1 & Hq1 & Hcur1 & Hn1 & Hl1); [lia|].
    simpl. destruct (Z.leb_spec min (completed xd1)) as [Hm|Hm]; [lia|].
    eexists. split; [right; reflexivity|]. simpl.
    unfold nfiles in *; simpl.
    repeat split; try assumption; try lia; try congruence;
      try (injection H as <-; lia).
Qed.

(** A call for at least one completion never returns while every file is
    quiet, whatever the number of revolutions. *)
Lemma getevents_idle_never_returns (xd : xnvme_fioe_data) (fuel : nat) :
  Forall quiet (files xd) ->
  nfiles xd = Z.of_nat (length (files xd)) ->
  -1 <= prev xd ->
  xnvme_fioe_getevents ndebug min max fuel xd = None.
Proof.
  intros Hq Hn Hp. unfold xnvme_fioe_getevents.
  assert (H : idling (getevents_run ndebug min max fuel (getevents_entry xd []))).
  { induction fuel as [|fuel IH]; simpl; [|apply idling_step, IH].
    unfold getevents_entry. eexists. split; [left; reflexivity|]. simpl.
    unfold nfiles in *.
    destruct (prev xd =? -1) eqn:Hm; simpl.
    - repeat split; try assumption; try lia; discriminate.
    - apply Z.eqb_neq in Hm.
      destruct (prev xd + 1 <? nallocated xd); simpl;
        repeat split; try assumption; try lia; try discriminate;
        try (injection H as <-; lia). }
  destruct H as (s & [-> | ->] & _); reflexivity.
Qed.

(** [err] is assigned by the poke only, and the inner [while] is entered
    only with [err >= 0]: once a poke has answered busy below [min]
    completions, the call goes round [for (;;)] without poking again. *)
Lemma spinning_step (polled : list Z) (cfg : gconfig) :
  spinning polled cfg -> spinning polled (getevents_step ndebug min max cfg).
Proof.
  destruct cfg as [s|s| | | |]; simpl; try tauto; intros [Herr Hp].
  - destruct ((if g_fwrap s is None then true else false) ||
              (cur (g_xd s) =? nfiles (g_xd s))); simpl; auto.
  - destruct (g_fwrap s) as [idx|]; simpl; [|auto].
    destruct (Z.leb_spec 0 (g_err s)) as [|_]; [lia|].
    rewrite andb_false_r. simpl. auto.
Qed.

Lemma busy_poke_spins (s : gstate) (idx : Z) (xd1 : xnvme_fioe_data) (err : Z)
    (fuel : nat) :
  g_fwrap s = Some idx -> cur (g_xd s) < nfiles (g_xd s) -> 0 <= g_err s ->
  xnvme_async_poke (g_xd s) idx (wrap32 (max - completed (g_xd s))) = Some (xd1, err) ->
  is_busy err = true -> completed xd1 < min ->
  spinning (g_polled s ++ [idx]) (getevents_run ndebug min max (S fuel) (GInner s)) /\
  result_of (getevents_run ndebug min max (S fuel) (GInner s)) = None.
Proof.
  intros Hf Hcur Herr Hpoke Hbusy Hmin.
  assert (Hs : spinning (g_polled s ++ [idx])
                 (getevents_run ndebug min max (S fuel) (GInner s))).
  { unfold getevents_run. rewrite Nat.iter_succ_r.
    assert (H1 : spinning (g_polled s ++ [idx]) (getevents_step ndebug min max (GInner s))).
    { simpl. rewrite Hf.
      destruct (Z.ltb_spec (cur (g_xd s)) (nfiles (g_xd s))); [|lia].
      destruct (Z.leb_spec 0 (g_err s)); [|lia]. simpl.
      rewrite Hpoke, Hbusy. rewrite andb_false_r.
      destruct (Z.leb_spec min (completed xd1)); [lia|]. simpl.
      split; [|reflexivity].
      unfold is_busy, EBUSY, EAGAIN in Hbusy. apply orb_true_iff in Hbusy.
      destruct Hbusy as [H2|H2]; apply Z.eqb_eq in H2; lia. }
    revert H1. generalize (getevents_step ndebug min max (GInner s)).
    induction fuel as [|n IH]; intros c Hc; [exact Hc|].
    rewrite Nat.iter_succ_r. apply IH, spinning_step, Hc. }
  split; [exact Hs|].
  destruct (getevents_run ndebug min max (S fuel) (GInner s)); simpl in Hs; try tauto;
    reflexivity.
Qed.

End GetEventsIdle.

Section GetEventsProgress.
Import Fioe.
Variable ndebug : bool.
Variables min max : Z.

(** The pokes neither read nor write [prev] and [cur]. *)
Lemma cb_pool_retag (p k : Z) (xd : xnvme_fioe_data) (cpl : xnvme_req * Z) :
  cb_pool (retag p k xd) cpl = retag p k (cb_pool xd cpl).
Proof.
  destruct cpl as [req status]. unfold cb_pool.
  destruct (req_cb_arg req); reflexivity.
Qed.

Lemma fold_cb_pool_retag (p k : Z) (cpls : list (xnvme_req * Z)) :
  forall xd, fold_left cb_pool cpls (retag p k xd)
             = retag p k (fold_left cb_pool cpls xd).
Proof.
  induction cpls as [|cpl cpls IH]; intros xd; simpl; [reflexivity|].
  rewrite cb_pool_retag. apply IH.
Qed.

Lemma poke_retag (p k : Z) (xd : xnvme_fioe_data) (i m : Z) :
  xnvme_async_poke (retag p k xd) i m =
    match xnvme_async_poke xd i m with
    | Some (xd1, e) => Some (retag p k xd1, e)
    | None => None
    end.
Proof.
  unfold xnvme_async_poke. destruct (i <? 0); [reflexivity|]. simpl.
  destruct (files xd !! Z.to_nat i) as [f|]; [|reflexivity].
  destruct (Async.poke (fw_dev f) (fw_ctx f) m) as [[c ret] cpls].
  change (set_files (<[Z.to_nat i := set_ctx c f]> (files xd)) (retag p k xd))
    with (retag p k (set_files (<[Z.to_nat i := set_ctx c f]> (files xd)) xd)).
  rewrite fold_cb_pool_retag. reflexivity.
Qed.

Lemma poke_retag_eq (p k : Z) (xd xr : xnvme_fioe_data) (i m : Z) :
  xd = retag p k xr ->
  xnvme_async_poke xd i m =
    match xnvme_async_poke xr i m with
    | Some (xd1, e) => Some (retag p k xd1, e)
    | None => None
    end.
Proof. intros ->. apply poke_retag. Qed.

Lemma revolve_S (n : nat) (xd : xnvme_fioe_data) (i : Z) :
  revolve max (S n) xd i =
    match xnvme_async_poke xd i (wrap32 (max - completed xd)) with
    | Some (xd1, err) =>
        if err <? 0 then None else revolve max n xd1 ((i + 1) mod nfiles xd)
    | None => None
    end.
Proof. reflexivity. Qed.

(** Once a call has returned, further steps change nothing. *)
Lemma getevents_run_done (fuel : nat) (n : Z) (s : gstate) :
  getevents_run ndebug min max fuel (GDone n s) = GDone n s.
Proof. induction fuel as [|fuel IH]; simpl; [|rewrite IH]; reflexivity. Qed.

Lemma getevents_run_add (a b : nat) (cfg : gconfig) :
  getevents_run ndebug min max (a + b) cfg =
    getevents_run ndebug min max a (getevents_run ndebug min max b cfg).
Proof. unfold getevents_run. apply Nat.iter_add. Qed.

(** From a state in which the inner loop is about to poke device [cur]: if
    the next [k + 1] pokes succeed and the count reaches [min] with the last
    of them and not before, the call returns that count within [3 k + 1]
    steps of control. *)
Lemma ready_returns (N : Z) (k : nat) :
  forall (s : gstate) (xr : xnvme_fioe_data) (p c : Z) (xk : xnvme_fioe_data),
    0 < N -> ready N s -> g_xd s = retag p c xr ->
    revolve max (S k) xr (cur (g_xd s)) = Some xk ->
    min <= completed xk ->
    (forall j xj, (1 <= j <= k)%nat ->
       revolve max j xr (cur (g_xd s)) = Some xj -> completed xj < min) ->
    exists s' p' c',
      getevents_run ndebug min max (3 * k + 1) (GInner s) = GDone (completed xk) s' /\
      g_xd s' = retag p' c' xk /\
      p' = (cur (g_xd s) + Z.of_nat k) mod N /\
      length (g_polled s') = (length (g_polled s) + S k)%nat.
Proof.
  induction k as [|k IH]; intros s xr p c xk HN Hready Hxd Hrev Hmin Hbelow.
  - destruct Hready as (Hfw & Hcur & Herr & Hnf & Hlen).
    simpl in Hrev. simpl. rewrite Hfw.
    destruct (Z.ltb_spec (cur (g_xd s)) (nfiles (g_xd s))); [|lia].
    destruct (Z.leb_spec 0 (g_err s)); [|lia]. simpl.
    assert (Hc : completed (g_xd s) = completed xr) by (rewrite Hxd; reflexivity).
    rewrite Hc. rewrite (poke_retag_eq p c (g_xd s) xr _ _ Hxd).
    destruct (xnvme_async_poke xr (cur (g_xd s)) (wrap32 (max - completed xr)))
      as [[x1 e]|] eqn:Hpoke; [|discriminate].
    destruct (Z.ltb_spec e 0) as [|He]; [discriminate|].
    injection Hrev as ->. simpl.
    destruct (Z.leb_spec min (completed xk)); [|lia].
    eexists _, _, _. split; [reflexivity|]. simpl.
    split; [reflexivity|]. split.
    + rewrite Hxd. simpl. rewrite Z.add_0_r, Z.mod_small; [reflexivity|].
      rewrite Hxd in Hcur. simpl in Hcur. lia.
    + rewrite length_app. simpl. lia.
  - pose proof Hready as (Hfw & Hcur & Herr & Hnf & Hlen).
    assert (Hc : completed (g_xd s) = completed xr) by (rewrite Hxd; reflexivity).
    assert (Hnr : nfiles xr = N) by (rewrite <- Hnf, Hxd; reflexivity).
    rewrite revolve_S in Hrev.
    destruct (xnvme_async_poke xr (cur (g_xd s)) (wrap32 (max - completed xr)))
      as [[x1 e]|] eqn:Hpoke; [|discriminate].
    destruct (Z.ltb_spec e 0) as [|He]; [discriminate|].
    assert (Hx1 : completed x1 < min).
    { apply (Hbelow 1%nat x1); [lia|]. simpl. rewrite Hpoke.
      destruct (Z.ltb_spec e 0); [lia|reflexivity]. }
    destruct (poke_frame _ _ _ _ _ Hpoke) as (F1 & F2 & F3 & F4).
    (* the step that pokes *)
    assert (Hstep : getevents_step ndebug min max (GInner s) =
              GInner {| g_xd := retag p (cur (g_xd s) + 1) x1;
                        g_fwrap := Some (cur (g_xd s) + 1);
                        g_err := e;
                        g_polled := g_polled s ++ [cur (g_xd s)] |}).
    { simpl. rewrite Hfw.
      destruct (Z.ltb_spec (cur (g_xd s)) (nfiles (g_xd s))); [|lia].
      destruct (Z.leb_spec 0 (g_err s)); [|lia]. simpl.
      rewrite Hc. rewrite (poke_retag_eq p c (g_xd s) xr _ _ Hxd), Hpoke.
      destruct (Z.ltb_spec e 0); [lia|]. simpl.
      destruct (Z.leb_spec min (completed x1)); [lia|].
      rewrite Hxd. reflexivity. }
    (* the state ready for the next poke, and the steps that lead to it *)
    set (nxt := (cur (g_xd s) + 1) mod N).
    set (s1 := {| g_xd := retag p nxt x1; g_fwrap := Some nxt; g_err := e;
                  g_polled := g_polled s ++ [cur (g_xd s)] |}).
    assert (Hto : getevents_run ndebug min max 3 (GInner s) = GInner s1 \/
                  getevents_run ndebug min max 1 (GInner s) = GInner s1).
    { destruct (Z.eq_dec (cur (g_xd s) + 1) N) as [Heq|Hne].
      - left.
        change (getevents_run ndebug min max 3 (GInner s))
          with (getevents_step ndebug min max (getevents_step ndebug min max
                  (getevents_step ndebug min max (GInner s)))).
        rewrite Hstep.
        assert (Hn1 : nallocated x1 = N) by (unfold nfiles in Hnr; congruence).
        cbn -[Z.add Z.ltb Z.eqb Z.leb]. unfold nfiles; cbn -[Z.add Z.ltb Z.eqb Z.leb].
        rewrite Hn1.
        destruct (Z.ltb_spec (cur (g_xd s) + 1) N); [lia|].
        cbn -[Z.add Z.ltb Z.eqb Z.leb].
        destruct (Z.eqb_spec (cur (g_xd s) + 1) N); [|lia].
        unfold s1, nxt. rewrite Heq, ?Hn1, ?Z.eqb_refl, Z.mod_same by lia.
        reflexivity.
      - right.
        change (getevents_run ndebug min max 1 (GInner s))
          with (getevents_step ndebug min max (GInner s)).
        rewrite Hstep.
        unfold s1, nxt. rewrite Z.mod_small by lia. reflexivity. }
    assert (Hready1 : ready N s1).
    { assert (Hlr : Z.of_nat (length (files xr)) = N)
        by (rewrite <- Hlen, Hxd; reflexivity).
      unfold ready, s1, nxt, nfiles; simpl. unfold nfiles in Hnr.
      pose proof (Z.mod_pos_bound (cur (g_xd s) + 1) N HN).
      repeat split; try reflexivity; try lia; try congruence. }
    assert (Hcur1 : cur (g_xd s1) = (cur (g_xd s) + 1) mod nfiles xr)
      by (rewrite Hnr; reflexivity).
    destruct (IH s1 x1 p nxt xk HN Hready1 eq_refl) as (s' & p' & c' & Hrun & Hxd' & Hp' & Hl').
    { rewrite Hcur1. exact Hrev. }
    { exact Hmin. }
    { intros j xj Hj Hrj. apply (Hbelow (S j) xj); [lia|].
      simpl. rewrite Hpoke. destruct (Z.ltb_spec e 0); [lia|].
      rewrite <- Hcur1. exact Hrj. }
    exists s', p', c'.
    split; [|split; [exact Hxd'|split]].
    + destruct Hto as [Hto|Hto].
      * replace (3 * S k + 1)%nat with ((3 * k + 1) + 3)%nat by lia.
        rewrite getevents_run_add, Hto. exact Hrun.
      * replace (3 * S k + 1)%nat with (2 + ((3 * k + 1) + 1))%nat by lia.
        rewrite getevents_run_add, getevents_run_add, Hto, Hrun.
        apply getevents_run_done.
    + rewrite Hp'. simpl. unfold nxt.
      rewrite Z.add_mod_idemp_l by lia. f_equal. lia.
    + rewrite Hl'. simpl. rewrite length_app. simpl. lia.
Qed.

End GetEventsProgress.

Section GetEventsTermination.
Import Fioe.

(** The first step of a call leaves the inner loop about to poke the device
    after the one recorded in [prev]. *)
Lemma entry_ready (ndebug : bool) (min max : Z) (xd : xnvme_fioe_data)
    (polled : list Z) :
  engine_ok xd -> Z.of_nat (length (files xd)) = nfiles xd ->
  exists s1 p c,
    getevents_step ndebug min max (getevents_entry xd polled) = GInner s1 /\
    ready (nfiles xd) s1 /\
    g_xd s1 = retag p c (set_completed 0 xd) /\
    cur (g_xd s1) = next_device xd /\
    g_polled s1 = polled.
Proof.
  intros [Hpos Hprev] Hlen. unfold getevents_entry, next_device, nfiles in *.
  destruct (Z.eqb_spec (prev xd) (-1)) as [Hm|Hm]; simpl.
  - eexists _, (prev xd), 0. split; [reflexivity|].
    unfold ready, nfiles; simpl. rewrite Hm. simpl.
    repeat split; try reflexivity; try lia; try assumption.
    destruct xd; simpl in *; subst; reflexivity.
  - destruct (Z.ltb_spec (prev xd + 1) (nallocated xd)) as [Hlt|Hge]; simpl.
    + unfold nfiles; simpl.
      destruct (Z.eqb_spec (prev xd + 1) (nallocated xd)); [lia|].
      eexists _, (prev xd + 1), (prev xd + 1). split; [reflexivity|].
      unfold ready, nfiles; simpl. rewrite Z.mod_small by lia.
      repeat split; try reflexivity; try lia; assumption.
    + eexists _, (prev xd + 1), 0. split; [reflexivity|].
      unfold ready, nfiles; simpl.
      replace (prev xd + 1) with (nallocated xd) by lia.
      rewrite Z.mod_same by lia.
      repeat split; try reflexivity; try lia; assumption.
Qed.

(** C3 (counterexample).  One device with nothing outstanding and a call for
    at least one completion: the device is polled round after round and the
    call does not return, however many steps it is given. *)
Lemma getevents_never_returns_when_idle :
  ~ exists fuel, xnvme_fioe_getevents true 1 4 fuel one_idle_device <> None.
Proof.
  intros [fuel H]. apply H.
  apply getevents_idle_never_returns.
  - lia.
  - repeat constructor. intros n. simpl. lia.
  - reflexivity.
  - simpl. lia.
Qed.

(** C3 (amended).  A call of [get_events(min, max)] whose pokes succeed
    returns as soon as at least [min] completions have been collected: it
    pokes the devices in cyclic order from the one after [prev] on, checks
    the count after every poke, and returns the count with the first poke
    that brings it to [min], after at most three tests of a loop condition
    per poke; the device of that poke is recorded in [prev]. *)
Theorem getevents_returns_at_min (ndebug : bool) (min max : Z)
    (xd : xnvme_fioe_data) (k : nat) (xk : xnvme_fioe_data) (fuel : nat) :
  engine_ok xd ->
  Z.of_nat (length (files xd)) = nfiles xd ->
  revolve max (S k) (set_completed 0 xd) (next_device xd) = Some xk ->
  min <= completed xk ->
  (forall j xj, (1 <= j <= k)%nat ->
     revolve max j (set_completed 0 xd) (next_device xd) = Some xj ->
     completed xj < min) ->
  (3 * k + 2 <= fuel)%nat ->
  exists c,
    xnvme_fioe_getevents ndebug min max fuel xd =
      Some (completed xk,
            retag ((next_device xd + Z.of_nat k) mod nfiles xd) c xk).
Proof.
  intros Hok Hlen Hrev Hmin Hbelow Hfuel.
  pose proof Hok as [Hpos _].
  destruct (entry_ready ndebug min max xd [] Hok Hlen)
    as (s1 & p & c & Hstep & Hready & Hxd & Hcur & Hpolled).
  destruct (ready_returns ndebug min max (nfiles xd) k s1 (set_completed 0 xd) p c xk
              Hpos Hready Hxd) as (s' & p' & c' & Hrun & Hxd' & Hp' & _).
  { rewrite Hcur. exact Hrev. }
  { exact Hmin. }
  { intros j xj Hj. rewrite Hcur. apply Hbelow, Hj. }
  exists c'. unfold xnvme_fioe_getevents.
  replace fuel with ((fuel - (3 * k + 2)) + ((3 * k + 1) + 1))%nat by lia.
  rewrite (getevents_run_add ndebug min max (fuel - (3 * k + 2)) (3 * k + 1 + 1)).
  rewrite (getevents_run_add ndebug min max (3 * k + 1) 1).
  change (getevents_run ndebug min max 1 (getevents_entry xd []))
    with (getevents_step ndebug min max (getevents_entry xd [])).
  rewrite Hstep, Hrun, getevents_run_done. simpl.
  rewrite Hxd', Hp', Hcur. reflexivity.
Qed.

Lemma getevents_returns_at_min_witness :
  exists c xk,
    Fioe.completed xk = 1 /\
    xnvme_fioe_getevents true 1 4 5 three_devices =
      Some (Fioe.completed xk,
            retag ((next_device three_devices + Z.of_nat 1) mod nfiles three_devices) c xk).
Proof.
  destruct (revolve 4 2 (set_completed 0 three_devices) (next_device three_devices))
    as [xk|] eqn:Hrev; [|vm_compute in Hrev; discriminate].
  assert (Hc : Fioe.completed xk = 1).
  { vm_compute in Hrev. injection Hrev as <-. reflexivity. }
  destruct (getevents_returns_at_min true 1 4 three_devices 1 xk 5) as [c Hc'].
  - vm_compute. repeat split; discriminate.
  - reflexivity.
  - exact Hrev.
  - rewrite Hc. lia.
  - intros j xj Hj Hr. assert (j = 1%nat) by lia. subst j.
    vm_compute in Hr. injection Hr as <-. simpl. lia.
  - lia.
  - exists c, xk. split; [exact Hc | exact Hc'].
Defined.


End GetEventsTermination.

(** ** The asynchronous context *)

Section AsyncFacts.
Context {H : Type}.
Variable d : Async.device.

Lemma reap_partition (fin : nat -> bool) (l : list (Async.command H)) :
  forall budget,
    (length (Async.reap fin budget l).1 + length (Async.reap fin budget l).2
     = length l)%nat.
Proof.
  induction l as [|x l IH]; intros budget; simpl; [reflexivity|].
  destruct budget as [|b]; [simpl; lia|].
  destruct (fin (Async.c_seq x)).
  - specialize (IH b). destruct (Async.reap fin b l). simpl in *. lia.
  - specialize (IH (S b)). destruct (Async.reap fin (S b) l). simpl in *. lia.
Qed.

(** A submission is accepted only into a queue with room, and joins the
    commands in flight; a refused one changes nothing in flight. *)
Lemma submit_facts (c : Async.ctx H) (r : H) :
  let a := Async.submit d c r in
  Async.depth a.1 = Async.depth c /\
  (a.2 = 0 ->
   Async.outstanding c < Async.depth c /\
   length (Async.inflight a.1) = S (length (Async.inflight c))) /\
  (a.2 <> 0 -> Async.inflight a.1 = Async.inflight c) /\
  (Async.outstanding c < Async.depth c -> a.2 = Async.dv_verdict d (Async.attempts c)) /\
  (Async.depth c <= Async.outstanding c -> a.2 = - EBUSY).
Proof.
  unfold Async.submit.
  destruct (Z.ltb_spec (Async.outstanding c) (Async.depth c)) as [Hroom|Hfull].
  - destruct (Z.eqb_spec (Async.dv_verdict d (Async.attempts c)) 0) as [Hv|Hv]; simpl.
    + rewrite length_app. simpl. repeat split; try lia; try congruence.
    + repeat split; try lia; try congruence.
  - change (- EBUSY =? 0) with false. simpl.
    repeat split; try lia; try congruence; discriminate.
Qed.

(** A poke takes its completions out of the commands in flight. *)
Lemma poke_facts_ctx (c : Async.ctx H) (m : Z) :
  let a := Async.poke d c m in
  Async.depth a.1.1 = Async.depth c /\
  (length a.2 + length (Async.inflight a.1.1) = length (Async.inflight c))%nat.
Proof.
  unfold Async.poke.
  destruct (Async.dv_poke_err d (Async.pokes c) <? 0); simpl; [auto|].
  pose proof (reap_partition (Async.dv_finished d (Async.pokes c)) (Async.inflight c)
                (if m =? 0 then length (Async.inflight c) else Z.to_nat m)) as Hp.
  destruct (Async.reap (Async.dv_finished d (Async.pokes c))
              (if m =? 0 then length (Async.inflight c) else Z.to_nat m)
              (Async.inflight c)) as [done rest].
  simpl in *. rewrite length_map. auto.
Qed.

(** A wait completes every command in flight. *)
Lemma wait_facts_ctx (c : Async.ctx H) :
  let a := Async.wait d c in
  Async.depth a.1.1 = Async.depth c /\ Async.inflight a.1.1 = [] /\
  length a.2 = length (Async.inflight c).
Proof.
  unfold Async.wait. simpl. rewrite length_map. auto.
Qed.

End AsyncFacts.

(** ** The drive loops *)

Section ZonedTraces.
Import Zoned.

(** *** The callbacks *)

Lemma fold_cb_pool_trace (cpls : list (nat * Z)) :
  forall s, trace (fold_left cb_pool cpls s) = trace s ++ map cpl_event cpls.
Proof.
  induction cpls as [|[req status] cpls IH]; intros s; simpl.
  - rewrite app_nil_r. reflexivity.
  - rewrite IH. simpl. rewrite <- app_assoc. reflexivity.
Qed.

Lemma fold_cb_pool_same (cpls : list (nat * Z)) :
  forall s, let s' := fold_left cb_pool cpls s in
    sect s' = sect s /\ payload s' = payload s /\ ctx s' = ctx s /\
    submitted (args s') = submitted (args s) /\
    length (reqs s') = (length cpls + length (reqs s))%nat.
Proof.
  induction cpls as [|[req status] cpls IH]; intros s; simpl.
  - repeat split; reflexivity.
  - destruct (IH (cb_pool s (req, status))) as (H1 & H2 & H3 & H4 & H5).
    simpl in *. repeat split; try assumption. rewrite H5. lia.
Qed.

(** *** The monitors on a trace that grows at its end *)

Lemma monitor_app (tr ev : list event) :
  monitor (tr ++ ev) = fold_left mon_step ev (monitor tr).
Proof. apply fold_left_app. Qed.

Lemma mon_bad (tr : list event) : fold_left mon_step tr MBad = MBad.
Proof. induction tr as [|e tr IH]; simpl; [reflexivity | exact IH]. Qed.

Lemma mon_idle_completions (cpls : list (nat * Z)) :
  fold_left mon_step (map cpl_event cpls) MIdle = MIdle.
Proof. induction cpls as [|c cpls IH]; simpl; [reflexivity | exact IH]. Qed.

Lemma mon_retry_completions (a b : Z) (r : nat) (cpls : list (nat * Z)) :
  fold_left mon_step (map cpl_event cpls) (MRetry a b r) = MRetry a b r.
Proof. induction cpls as [|c cpls IH]; simpl; [reflexivity | exact IH]. Qed.

Lemma same_args (a b a' b' : Z) (r r' : nat) :
  (a =? a') && (b =? b') && (r =? r')%nat = true -> a = a' /\ b = b' /\ r = r'.
Proof.
  rewrite !andb_true_iff, !Z.eqb_eq, Nat.eqb_eq. tauto.
Qed.

Lemma same_args_refl (a b : Z) (r : nat) :
  (a =? a) && (b =? b) && (r =? r)%nat = true.
Proof. rewrite !Z.eqb_refl, Nat.eqb_refl. reflexivity. Qed.

(** While the retry of a submission is due, an accepted trace shows
    completions and then that submission, or ends. *)
Lemma mon_retry_shape (t : list event) (a b : Z) (r : nat) (m : mon) :
  fold_left mon_step t (MRetry a b r) = m -> m <> MBad ->
  exists cpls rest, t = map cpl_event cpls ++ rest /\
    ((rest = [] /\ m = MRetry a b r) \/
     exists err' rest', rest = EvSubmit a b r err' :: rest').
Proof.
  revert m. induction t as [|e t IH]; intros m Hm Hok; simpl in Hm.
  - exists [], []. split; [reflexivity|]. left. auto.
  - destruct e as [a' b' r' err'| | |q st]; simpl in Hm;
      try (rewrite mon_bad in Hm; congruence).
    + destruct ((a =? a') && (b =? b') && (r =? r')%nat) eqn:Heq;
        [|rewrite mon_bad in Hm; congruence].
      apply same_args in Heq as (<- & <- & <-).
      exists [], (EvSubmit a b r err' :: t). split; [reflexivity|].
      right. eauto.
    + destruct (IH m Hm Hok) as (cpls & rest & -> & Hrest).
      exists ((q, st) :: cpls), rest. split; [reflexivity | exact Hrest].
Qed.

(** What an accepted trace shows after a submission answered busy. *)
Lemma mon_busy_shape (pre post : list event) (a b : Z) (r : nat) (err : Z) (m : mon) :
  monitor (pre ++ EvSubmit a b r err :: post) = m -> m <> MBad ->
  is_busy err = true ->
  (post = [] /\ m = MPoke a b r) \/
  exists cpls rest, post = EvPoke :: map cpl_event cpls ++ rest /\
    ((rest = [] /\ m = MRetry a b r) \/
     exists err' rest', rest = EvSubmit a b r err' :: rest').
Proof.
  intros Hm Hok Hbusy. rewrite monitor_app in Hm. simpl in Hm.
  assert (Hstep : mon_step (monitor pre) (EvSubmit a b r err) = MPoke a b r \/
                  mon_step (monitor pre) (EvSubmit a b r err) = MBad).
  { destruct (monitor pre) as [|a0 b0 r0|a0 b0 r0|]; simpl; rewrite ?Hbusy; auto.
    destruct ((a0 =? a) && (b0 =? b) && (r0 =? r)%nat) eqn:Heq; auto.
    apply same_args in Heq as (-> & -> & ->). auto. }
  destruct Hstep as [Hs|Hs]; rewrite Hs in Hm; [|rewrite mon_bad in Hm; congruence].
  destruct post as [|e post]; simpl in Hm; [left; auto|].
  right. destruct e; simpl in Hm; try (rewrite mon_bad in Hm; congruence).
  destruct (mon_retry_shape post a b r m Hm Hok) as (cpls & rest & -> & Hrest).
  exists cpls, rest. auto.
Qed.

(** *** Commands outstanding along a trace *)

Lemma profile_app (tr ev : list event) :
  profile (tr ++ ev) = fold_left track ev (profile tr).
Proof. apply fold_left_app. Qed.

Lemma track_completions (cpls : list (nat * Z)) :
  forall np, fold_left track (map cpl_event cpls) np = ((np.1 - length cpls)%nat, np.2).
Proof.
  induction cpls as [|c cpls IH]; intros [n p]; simpl.
  - rewrite Nat.sub_0_r. reflexivity.
  - rewrite IH. simpl. f_equal. lia.
Qed.

Lemma track_peak_mono (ev : list event) :
  forall np, (np.2 <= (fold_left track ev np).2)%nat.
Proof.
  induction ev as [|e ev IH]; intros [n p]; simpl; [lia|].
  etransitivity; [|apply IH].
  destruct e as [a b r err| | |q st]; simpl; try lia.
  destruct (err =? 0); simpl; lia.
Qed.

(** Before an accepted submission, the commands outstanding are fewer than
    the peak of the whole trace. *)
Lemma peak_bounds_accepted (pre post : list event) (a b : Z) (r : nat) :
  (S (outstanding_now pre) <= outstanding_peak (pre ++ EvSubmit a b r 0 :: post))%nat.
Proof.
  unfold outstanding_peak, outstanding_now.
  rewrite profile_app. simpl.
  etransitivity; [|apply track_peak_mono]. simpl. lia.
Qed.

(** *** Counting failed completions *)

Lemma errors_app (tr ev : list event) :
  errors (tr ++ ev) = (errors tr + errors ev)%nat.
Proof. unfold errors. rewrite List.filter_app, length_app. reflexivity. Qed.

Lemma wrap32_succ (x : Z) : wrap32 (wrap32 x + 1) = wrap32 (x + 1).
Proof. unfold wrap32. apply Z.add_mod_idemp_l. lia. Qed.

Lemma fold_cb_pool_ecount (cpls : list (nat * Z)) :
  forall (s : state) (E : Z),
    ecount (args s) = wrap32 E ->
    ecount (args (fold_left cb_pool cpls s)) =
      wrap32 (E + Z.of_nat (errors (map cpl_event cpls))).
Proof.
  induction cpls as [|[req status] cpls IH]; intros s E HE.
  - simpl. rewrite Z.add_0_r. exact HE.
  - change (fold_left cb_pool ((req, status) :: cpls) s)
      with (fold_left cb_pool cpls (cb_pool s (req, status))).
    change (map cpl_event ((req, status) :: cpls))
      with (EvComplete req status :: map cpl_event cpls).
    assert (Hcb : ecount (args (cb_pool s (req, status))) =
                  wrap32 (E + (if negb (status =? 0) then 1 else 0))).
    { unfold cb_pool; cbn [args ecount].
      destruct (negb (status =? 0));
        [rewrite HE; apply wrap32_succ | rewrite Z.add_0_r; exact HE]. }
    rewrite (IH _ _ Hcb). f_equal. unfold errors. cbn [List.filter failed].
    destruct (negb (status =? 0)); cbn [length]; lia.
Qed.

Lemma errors_completions (cpls : list (nat * Z)) :
  (errors (map cpl_event cpls) <= length cpls)%nat.
Proof.
  unfold errors. etransitivity; [apply List.filter_length_le|].
  rewrite length_map. reflexivity.
Qed.

Lemma errors_snoc_other (tr : list event) (e : event) :
  failed e = false -> errors (tr ++ [e]) = errors tr.
Proof.
  intros He. rewrite errors_app. unfold errors at 2. simpl. rewrite He. simpl. lia.
Qed.

(** A 32-bit counter that has counted fewer than [2 ^ 32] events is zero
    only if there were none. *)
Lemma wrap32_zero (n : nat) :
  Z.of_nat n < 2 ^ 32 -> wrap32 (Z.of_nat n) = 0 -> n = 0%nat.
Proof.
  unfold wrap32. intros Hn Hz. rewrite Z.mod_small in Hz by lia. lia.
Qed.

(** *** The watcher of failed completions *)

Lemma watcher_app (tr ev : list event) :
  watcher (tr ++ ev) = fold_left watch_step ev (watcher tr).
Proof. apply fold_left_app. Qed.

Lemma watch_bad (tr : list event) : fold_left watch_step tr WBad = WBad.
Proof. induction tr as [|e tr IH]; simpl; [reflexivity | exact IH]. Qed.

Lemma watch_failed_completions (al : option (Z * Z * nat)) (cpls : list (nat * Z)) :
  fold_left watch_step (map cpl_event cpls) (WFailed al) = WFailed al.
Proof. induction cpls as [|c cpls IH]; simpl; [reflexivity | exact IH]. Qed.

Lemma watch_clean_completions (pend : option (Z * Z * nat)) (cpls : list (nat * Z)) :
  fold_left watch_step (map cpl_event cpls) (WClean pend) =
    if (errors (map cpl_event cpls) =? 0)%nat then WClean pend else WFailed pend.
Proof.
  induction cpls as [|[q st] cpls IH]; [reflexivity|].
  change (map cpl_event ((q, st) :: cpls)) with (EvComplete q st :: map cpl_event cpls).
  cbn [fold_left watch_step failed pending_step]. unfold errors. cbn [List.filter failed].
  destruct (negb (st =? 0)).
  - rewrite watch_failed_completions. reflexivity.
  - exact IH.
Qed.

(** Before the first failed completion the watcher follows the pending
    submission. *)
Lemma watch_clean (tr : list event) :
  forall pend, errors tr = 0%nat ->
    fold_left watch_step tr (WClean pend) = WClean (fold_left pending_step tr pend).
Proof.
  induction tr as [|e tr IH]; intros pend He; [reflexivity|].
  unfold errors in He. cbn [List.filter] in He.
  destruct (failed e) eqn:Hf; [discriminate|].
  cbn [fold_left watch_step]. rewrite Hf. apply IH. exact He.
Qed.

Lemma errors_single (e : event) :
  errors [e] = if failed e then 1%nat else 0%nat.
Proof. unfold errors. simpl. destruct (failed e); reflexivity. Qed.

(** The watcher has seen a failure exactly when the trace shows one. *)
Lemma watcher_errors (tr : list event) :
  match watcher tr with
  | WClean _ => errors tr = 0%nat
  | WFailed _ => (0 < errors tr)%nat
  | WBad => True
  end.
Proof.
  induction tr as [|e tr IH] using rev_ind; [reflexivity|].
  rewrite watcher_app, errors_app, errors_single. cbn [fold_left].
  destruct (watcher tr) as [pend|al|]; cbn [watch_step]; [| |exact I].
  - destruct (failed e); lia.
  - destruct e as [a b q err| | |q st]; try lia.
    destruct (same_submission al a b q); [|exact I].
    destruct (is_busy err); lia.
Qed.

Lemma same_submission_refl (a b : Z) (q : nat) :
  same_submission (Some (a, b, q)) a b q = true.
Proof. apply same_args_refl. Qed.

Lemma same_submission_eq (x : option (Z * Z * nat)) (a b : Z) (q : nat) :
  same_submission x a b q = true -> x = Some (a, b, q).
Proof.
  destruct x as [[[a' b'] q']|]; [|discriminate]. simpl.
  intros H. apply same_args in H as (-> & -> & ->). reflexivity.
Qed.

(** After a failed completion an accepted trace only repeats the allowed
    submission, and shows no submission once it was answered otherwise than
    busy. *)
Lemma watch_failed_shape (post : list event) :
  forall (x : option (Z * Z * nat)) (w : watch),
    fold_left watch_step post (WFailed x) = w -> w <> WBad ->
    (forall a b q e, In (EvSubmit a b q e) post -> x = Some (a, b, q)) /\
    (forall p1 a b q e p2, post = p1 ++ EvSubmit a b q e :: p2 ->
       is_busy e = false -> forall y, In y p2 -> is_submit y = false).
Proof.
  induction post as [|ev post IH]; intros x w Hw Hok.
  - split; [intros a b q e []|]. intros [|y0 p1] a b q e p2 Heq; discriminate.
  - assert (Hstep : exists x', watch_step (WFailed x) ev = WFailed x' /\
              (forall a b q e, ev = EvSubmit a b q e ->
                 x = Some (a, b, q) /\ x' = if is_busy e then x else None) /\
              (is_submit ev = false -> x' = x)).
    { destruct ev as [a b q e| | |q st]; simpl in *;
        try (exists x; split; [reflexivity | split; [intros; discriminate | reflexivity]]).
      destruct (same_submission x a b q) eqn:Hs.
      - apply same_submission_eq in Hs.
        exists (if is_busy e then x else None).
        split; [destruct (is_busy e); reflexivity|].
        split; [|discriminate].
        intros a0 b0 q0 e0 Heq. injection Heq as <- <- <- <-. auto.
      - rewrite watch_bad in Hw. congruence. }
    destruct Hstep as (x' & Hx' & Hsub & Hother).
    cbn [fold_left] in Hw. rewrite Hx' in Hw.
    destruct (IH x' w Hw Hok) as [IH1 IH2].
    split.
    + intros a b q e [-> | Hin].
      * apply (Hsub a b q e eq_refl).
      * pose proof (IH1 a b q e Hin) as Hx.
        destruct ev as [a0 b0 q0 e0| | |q0 st0];
          try (rewrite (Hother eq_refl) in Hx; exact Hx).
        destruct (Hsub a0 b0 q0 e0 eq_refl) as [Hx0 Hx1].
        destruct (is_busy e0); congruence.
    + intros p1 a b q e p2 Heq Hb y Hy.
      destruct p1 as [|ev1 p1]; simpl in Heq; injection Heq as -> ->.
      * destruct (Hsub a b q e eq_refl) as [_ Hx1]. rewrite Hb in Hx1. subst x'.
        destruct y as [a1 b1 q1 e1| | |]; try reflexivity.
        specialize (IH1 a1 b1 q1 e1 Hy). discriminate.
      * eapply IH2; eauto.
Qed.

Lemma settled_wait (tr : list event) (cpls : list (nat * Z)) :
  settled tr -> settled (tr ++ EvWait :: map cpl_event cpls).
Proof.
  unfold settled.
  change (tr ++ EvWait :: map cpl_event cpls) with (tr ++ [EvWait] ++ map cpl_event cpls).
  rewrite watcher_app, fold_left_app.
  intros [-> | ->]; cbn [fold_left watch_step failed pending_step].
  - rewrite watch_clean_completions.
    destruct (errors (map cpl_event cpls) =? 0)%nat; auto.
  - rewrite watch_failed_completions. auto.
Qed.

Lemma completions_not_submits (first : event) (cpls : list (nat * Z)) :
  is_submit first = false ->
  forall e, In e (first :: map cpl_event cpls) -> is_submit e = false.
Proof.
  intros Hf e [<- | Hin]; [exact Hf|].
  apply in_map_iff in Hin as ([q st] & <- & _). reflexivity.
Qed.

Lemma snoc_split {A : Type} (tr : list A) (e : A) (pre : list A) (x : A) (post : list A) :
  tr ++ [e] = pre ++ x :: post ->
  (post = [] /\ pre = tr /\ x = e) \/
  (exists post', post = post' ++ [e] /\ tr = pre ++ x :: post').
Proof.
  intros H. destruct post as [|y post] using rev_ind.
  - left. apply (app_inj_tail tr pre e x) in H as [-> ->]. auto.
  - right. exists post.
    change (pre ++ x :: post ++ [y]) with (pre ++ (x :: post) ++ [y]) in H.
    rewrite app_assoc in H. apply app_inj_tail in H as [-> ->]. auto.
Qed.

Lemma clean_submits_snoc (tr : list event) (e : event) :
  clean_submits tr -> (is_submit e = true -> errors tr = 0%nat) ->
  clean_submits (tr ++ [e]).
Proof.
  intros Hc He pre x post Heq Hx.
  apply snoc_split in Heq as [(_ & -> & ->) | (post' & _ & ->)].
  - apply He, Hx.
  - eapply Hc; [reflexivity | exact Hx].
Qed.

Lemma clean_submits_app (tr ev : list event) :
  clean_submits tr -> (forall e, In e ev -> is_submit e = false) ->
  clean_submits (tr ++ ev).
Proof.
  intros Hc. induction ev as [|e ev IH] using rev_ind; intros Hev.
  - rewrite app_nil_r. exact Hc.
  - rewrite app_assoc. apply clean_submits_snoc.
    + apply IH. intros y Hy. apply Hev, in_or_app. auto.
    + intros He. rewrite Hev in He; [discriminate|]. apply in_or_app. right. left. reflexivity.
Qed.

End ZonedTraces.

#[local] Arguments Zoned.xnvme_async_wait : simpl never.
#[local] Arguments Zoned.xnvme_async_poke : simpl never.
#[local] Arguments Zoned.xnvme_cmd : simpl never.

Section ZonedSteps.
Import Zoned.
Variable op : opcode.
Variable dev : Async.device.
Variables zslba zcap lba_nbytes : Z.
Variable dump : option Z.

#[local] Abbreviation step := (Zoned.step op dev zslba zcap lba_nbytes dump).
#[local] Abbreviation run := (Zoned.run op dev zslba zcap lba_nbytes dump).

(** *** What the three calls into the context leave behind *)

Lemma cmd_facts (s : state) (req : nat) :
  let r := xnvme_cmd op dev zslba s req in
  let a := Async.submit dev (ctx s) req in
  trace r.1 = trace s ++ [EvSubmit (cmd_slba op zslba s) (payload s) req a.2] /\
  ctx r.1 = a.1 /\ r.2 = a.2 /\
  sect r.1 = sect s /\ payload r.1 = payload s /\ args r.1 = args s /\
  reqs r.1 = reqs s.
Proof.
  unfold xnvme_cmd. destruct (Async.submit dev (ctx s) req) as [c err].
  simpl. repeat split; reflexivity.
Qed.

Lemma poke_facts (s : state) (m : Z) :
  let r := xnvme_async_poke dev s m in
  let a := Async.poke dev (ctx s) m in
  trace r.1 = trace s ++ EvPoke :: map cpl_event a.2 /\
  ctx r.1 = a.1.1 /\ r.2 = a.1.2 /\
  sect r.1 = sect s /\ payload r.1 = payload s /\
  submitted (args r.1) = submitted (args s) /\
  length (reqs r.1) = (length a.2 + length (reqs s))%nat.
Proof.
  unfold xnvme_async_poke.
  destruct (Async.poke dev (ctx s) m) as [[c ret] cpls]. simpl.
  rewrite fold_cb_pool_trace. simpl. rewrite <- app_assoc. simpl.
  match goal with |- context [fold_left cb_pool cpls ?s0] =>
    destruct (fold_cb_pool_same cpls s0) as (H1 & H2 & H3 & H4 & H5) end.
  simpl in *. repeat split; assumption.
Qed.

Lemma wait_facts (s : state) :
  let r := xnvme_async_wait dev s in
  let a := Async.wait dev (ctx s) in
  trace r.1 = trace s ++ EvWait :: map cpl_event a.2 /\
  ctx r.1 = a.1.1 /\ r.2 = a.1.2 /\
  sect r.1 = sect s /\ payload r.1 = payload s /\
  submitted (args r.1) = submitted (args s) /\
  length (reqs r.1) = (length a.2 + length (reqs s))%nat.
Proof.
  unfold xnvme_async_wait.
  destruct (Async.wait dev (ctx s)) as [[c ret] cpls]. simpl.
  rewrite fold_cb_pool_trace. simpl. rewrite <- app_assoc. simpl.
  match goal with |- context [fold_left cb_pool cpls ?s0] =>
    destruct (fold_cb_pool_same cpls s0) as (H1 & H2 & H3 & H4 & H5) end.
  simpl in *. repeat split; assumption.
Qed.

(** [xnvme_async_wait] returns a count, never an error. *)
Lemma wait_nonneg (s : state) : 0 <= (xnvme_async_wait dev s).2.
Proof.
  destruct (wait_facts s) as (_ & _ & -> & _). simpl. lia.
Qed.

Lemma wait_drains (s : state) : Async.inflight (ctx (xnvme_async_wait dev s).1) = [].
Proof.
  destruct (wait_facts s) as (_ & -> & _). reflexivity.
Qed.

Lemma busy_nonzero (err : Z) :
  (err =? - EBUSY) || (err =? - EAGAIN) = true -> is_busy err = true /\ err <> 0.
Proof.
  intros H. split; [exact H|]. intros ->. discriminate.
Qed.

(** *** The steps, one by one *)

Lemma step_head (s : state) :
  step (Run PcHead s) =
    if (sect s <? zcap) && (ecount (args s) =? 0) then
      match reqs s with
      | req :: rest => Run (PcSubmit req) (take_req rest s)
      | [] => Crash s
      end
    else Run PcDrain s.
Proof. reflexivity. Qed.

Lemma step_submit (req : nat) (s : state) :
  step (Run (PcSubmit req) s) =
    let '(s1, err) := xnvme_cmd op dev zslba s req in
    if err =? 0 then Run PcNext (count_submitted s1)
    else if (err =? - EBUSY) || (err =? - EAGAIN) then
      Run (PcSubmit req) (xnvme_async_poke dev s1 0).1
    else Exit (exit_code err) s1.
Proof. reflexivity. Qed.

Lemma step_next (s : state) :
  step (Run PcNext s) =
    match op with
    | OpWrite =>
        let '(s1, err) := xnvme_async_wait dev s in
        if err <? 0 then Exit (exit_code err) s1
        else Run PcHead (advance lba_nbytes s1)
    | _ => Run PcHead (advance lba_nbytes s)
    end.
Proof. reflexivity. Qed.

Lemma step_drain (s : state) :
  step (Run PcDrain s) =
    let '(s1, err) := xnvme_async_wait dev s in
    if err <? 0 then Exit (exit_code err) s1
    else if negb (ecount (args s1) =? 0) then Exit (exit_code (- EIO)) s1
    else
      match op, dump with
      | OpRead, Some e => Exit (exit_code e) s1
      | _, _ => Exit (exit_code err) s1
      end.
Proof. reflexivity. Qed.

Lemma run_S (fuel : nat) (cfg : config) :
  run (S fuel) cfg = step (run fuel cfg).
Proof. reflexivity. Qed.

Lemma run_add (a b : nat) (cfg : config) :
  run (a + b) cfg = run a (run b cfg).
Proof. unfold Zoned.run. apply Nat.iter_add. Qed.

Lemma run_exit (fuel : nat) (ret : Z) (s : state) :
  run fuel (Exit ret s) = Exit ret s.
Proof. induction fuel as [|fuel IH]; [reflexivity|]. rewrite run_S, IH. reflexivity. Qed.

(** *** Commands in flight *)

(** The trace and the context after each of the three calls. *)
Lemma cmd_now (s : state) (req : nat) :
  now_inv (Run PcHead s) ->
  let r := xnvme_cmd op dev zslba s req in
  now_inv (Run PcHead r.1) /\
  Async.depth (ctx r.1) = Async.depth (ctx s) /\
  (r.2 = 0 ->
   Z.of_nat (length (Async.inflight (ctx s))) < Async.depth (ctx s) /\
   length (Async.inflight (ctx r.1)) = S (length (Async.inflight (ctx s))) /\
   profile (trace r.1) =
     (S (outstanding_now (trace s)),
      Nat.max (outstanding_peak (trace s)) (S (outstanding_now (trace s))))) /\
  (r.2 <> 0 ->
   Async.inflight (ctx r.1) = Async.inflight (ctx s) /\
   profile (trace r.1) = profile (trace s)).
Proof.
  unfold now_inv; cbn [trace_of state_of]. intros Hnow.
  destruct (cmd_facts s req) as (Ht & Hc & He & _). cbv zeta in *.
  destruct (submit_facts dev (ctx s) req) as (Hd & Hacc & Hrej & _). cbv zeta in *.
  rewrite Ht, Hc, He, profile_app. unfold outstanding_now, outstanding_peak.
  rewrite profile_app. cbn [fold_left track].
  destruct (Z.eqb_spec (Async.submit dev (ctx s) req).2 0) as [Hz|Hnz].
  - destruct (Hacc Hz) as [Hroom Hlen]. unfold Async.outstanding in Hroom.
    cbn [fst snd]. unfold outstanding_now in Hnow.
    repeat split; try assumption; try congruence; try lia.
    all: intros; try contradiction; try congruence.
  - rewrite (Hrej Hnz). unfold outstanding_now in Hnow.
    repeat split; try assumption; try congruence.
    all: intros; try contradiction; try congruence.
Qed.

Lemma poke_now (s : state) (m : Z) :
  now_inv (Run PcHead s) ->
  let r := xnvme_async_poke dev s m in
  now_inv (Run PcHead r.1) /\
  Async.depth (ctx r.1) = Async.depth (ctx s) /\
  (length (Async.inflight (ctx r.1)) <= length (Async.inflight (ctx s)))%nat /\
  outstanding_peak (trace r.1) = outstanding_peak (trace s).
Proof.
  unfold now_inv; cbn [trace_of state_of]. intros Hnow.
  destruct (poke_facts s m) as (Ht & Hc & _). cbv zeta in *.
  destruct (poke_facts_ctx dev (ctx s) m) as (Hd & Hlen). cbv zeta in *.
  rewrite Ht, Hc. unfold outstanding_now, outstanding_peak.
  change (trace s ++ EvPoke :: map cpl_event (Async.poke dev (ctx s) m).2)
    with (trace s ++ [EvPoke] ++ map cpl_event (Async.poke dev (ctx s) m).2).
  rewrite profile_app, fold_left_app. cbn [fold_left track].
  rewrite track_completions.
  cbn [fst snd]. unfold outstanding_now in Hnow. rewrite Hnow.
  repeat split; try assumption; lia.
Qed.

Lemma wait_now (s : state) :
  let r := xnvme_async_wait dev s in
  now_inv (Run PcHead s) ->
  now_inv (Run PcHead r.1) /\
  Async.depth (ctx r.1) = Async.depth (ctx s) /\
  Async.inflight (ctx r.1) = [] /\
  outstanding_peak (trace r.1) = outstanding_peak (trace s).
Proof.
  unfold now_inv; cbn [trace_of state_of]. intros Hnow.
  destruct (wait_facts s) as (Ht & Hc & _). cbv zeta in *.
  destruct (wait_facts_ctx dev (ctx s)) as (Hd & Hnil & Hlen). cbv zeta in *.
  rewrite Ht, Hc. unfold outstanding_now, outstanding_peak.
  change (trace s ++ EvWait :: map cpl_event (Async.wait dev (ctx s)).2)
    with (trace s ++ [EvWait] ++ map cpl_event (Async.wait dev (ctx s)).2).
  rewrite profile_app, fold_left_app. cbn [fold_left track].
  rewrite track_completions.
  cbn [fst snd]. unfold outstanding_now in Hnow. rewrite Hnow, Hnil, Hlen.
  repeat split; try assumption. simpl. lia.
Qed.

Lemma now_inv_step (cfg : config) : now_inv cfg -> now_inv (step cfg).
Proof.
  destruct cfg as [[|req| |] s|s|ret s]; try (intros; assumption);
    [rewrite step_head | rewrite step_submit | rewrite step_next | rewrite step_drain];
    intros H.
  - destruct ((sect s <? zcap) && (ecount (args s) =? 0)); [|exact H].
    destruct (reqs s) as [|r rest]; exact H.
  - destruct (cmd_now s req H) as (H1 & _).
    destruct (xnvme_cmd op dev zslba s req) as [s1 err]. cbn [fst snd] in *.
    destruct (err =? 0); [exact H1|].
    destruct ((err =? - EBUSY) || (err =? - EAGAIN)); [|exact H1].
    apply (poke_now s1 0 H1).
  - destruct op; try exact H.
    destruct (wait_now s H) as (H1 & _).
    destruct (xnvme_async_wait dev s) as [s1 err]. cbn [fst snd] in *.
    destruct (err <? 0); exact H1.
  - destruct (wait_now s H) as (H1 & _).
    destruct (xnvme_async_wait dev s) as [s1 err]. cbn [fst snd] in *.
    destruct (err <? 0); [exact H1|].
    destruct (negb (ecount (args s1) =? 0)); [exact H1|].
    destruct op, dump; exact H1.
Qed.

Lemma depth_inv_step (qd : Z) (cfg : config) :
  0 <= qd -> now_inv cfg -> depth_inv qd cfg -> depth_inv qd (step cfg).
Proof.
  intros Hqd.
  destruct cfg as [[|req| |] s|s|ret s]; try (intros; assumption);
    [rewrite step_head | rewrite step_submit | rewrite step_next | rewrite step_drain];
    unfold depth_inv; cbn [trace_of state_of]; intros Hnow (Hd & Hlen & Hpeak).
  - destruct ((sect s <? zcap) && (ecount (args s) =? 0)); [|auto].
    destruct (reqs s) as [|r rest]; cbn [trace_of state_of]; auto.
  - destruct (cmd_now s req Hnow) as (H1 & Hd1 & Hacc & Hrej).
    destruct (xnvme_cmd op dev zslba s req) as [s1 err]. cbn [fst snd] in *.
    unfold now_inv in Hnow; cbn [trace_of state_of] in Hnow.
    destruct (Z.eqb_spec err 0) as [Hz|Hnz].
    + destruct (Hacc Hz) as (Hroom & Hl & Hp). cbn [trace_of state_of count_submitted ctx trace].
      unfold outstanding_peak. rewrite Hp, Hl. cbn [snd].
      fold (outstanding_peak (trace s)). rewrite Hnow. lia.
    + destruct (Hrej Hnz) as (Hl & Hp).
      assert (Hs1 : Async.depth (ctx s1) = qd /\
                    Z.of_nat (length (Async.inflight (ctx s1))) <= qd /\
                    Z.of_nat (outstanding_peak (trace s1)) <= qd).
      { unfold outstanding_peak. rewrite Hp, Hl. repeat split; [congruence|assumption..]. }
      destruct ((err =? - EBUSY) || (err =? - EAGAIN)); [|exact Hs1].
      destruct (poke_now s1 0 H1) as (_ & Hd2 & Hl2 & Hp2).
      cbn [trace_of state_of]. rewrite Hd2, Hp2. destruct Hs1 as (? & ? & ?).
      repeat split; [assumption|lia|assumption].
  - destruct op; cbn [trace_of state_of advance ctx trace]; auto.
    destruct (wait_now s Hnow) as (_ & Hd1 & Hl1 & Hp1).
    destruct (xnvme_async_wait dev s) as [s1 err]. cbn [fst snd] in *.
    destruct (err <? 0); cbn [trace_of state_of advance ctx trace];
      rewrite Hd1, Hl1, Hp1; simpl; repeat split; (assumption || lia).
  - destruct (wait_now s Hnow) as (_ & Hd1 & Hl1 & Hp1).
    destruct (xnvme_async_wait dev s) as [s1 err]. cbn [fst snd] in *.
    assert (Hs1 : Async.depth (ctx s1) = qd /\
                  Z.of_nat (length (Async.inflight (ctx s1))) <= qd /\
                  Z.of_nat (outstanding_peak (trace s1)) <= qd).
    { rewrite Hd1, Hl1, Hp1; simpl; repeat split; (assumption || lia). }
    destruct (err <? 0); [exact Hs1|].
    destruct (negb (ecount (args s1) =? 0)); [exact Hs1|].
    destruct op, dump; exact Hs1.
Qed.

Lemma write_inv_step (cfg : config) :
  op = OpWrite -> now_inv cfg -> write_inv cfg -> write_inv (step cfg).
Proof.
  intros Hop.
  destruct cfg as [[|req| |] s|s|ret s]; try (intros; assumption);
    [rewrite step_head | rewrite step_submit | rewrite step_next | rewrite step_drain];
    unfold write_inv; cbn [trace_of state_of]; intros Hnow (Hpeak & Hfl).
  - destruct ((sect s <? zcap) && (ecount (args s) =? 0)); [|auto].
    destruct (reqs s) as [|r rest]; cbn [trace_of state_of take_req ctx trace].
    + rewrite Hfl. simpl. split; [assumption | lia].
    + auto.
  - destruct (cmd_now s req Hnow) as (H1 & Hd1 & Hacc & Hrej).
    destruct (xnvme_cmd op dev zslba s req) as [s1 err]. cbn [fst snd] in *.
    unfold now_inv in Hnow; cbn [trace_of state_of] in Hnow.
    rewrite Hfl in Hnow. simpl in Hnow.
    destruct (Z.eqb_spec err 0) as [Hz|Hnz].
    + destruct (Hacc Hz) as (Hroom & Hl & Hp).
      cbn [trace_of state_of count_submitted ctx trace].
      unfold outstanding_peak. rewrite Hp, Hl, Hfl, Hnow. cbn [snd length].
      fold (outstanding_peak (trace s)). lia.
    + destruct (Hrej Hnz) as (Hl & Hp).
      assert (Hs1 : (outstanding_peak (trace s1) <= 1)%nat /\
                    Async.inflight (ctx s1) = []).
      { unfold outstanding_peak. rewrite Hp, Hl. auto. }
      destruct Hs1 as [Hp1 Hl1].
      destruct ((err =? - EBUSY) || (err =? - EAGAIN)).
      * destruct (poke_now s1 0 H1) as (_ & _ & Hl2 & Hp2).
        cbn [trace_of state_of]. rewrite Hp2. split; [assumption|].
        rewrite Hl1 in Hl2. simpl in Hl2.
        apply length_zero_iff_nil. lia.
      * cbn [trace_of state_of]. rewrite Hl1. simpl. split; [assumption | lia].
  - rewrite Hop.
    destruct (wait_now s Hnow) as (_ & _ & Hl1 & Hp1).
    destruct (xnvme_async_wait dev s) as [s1 err]. cbn [fst snd] in *.
    destruct (err <? 0); cbn [trace_of state_of advance ctx trace];
      rewrite Hl1, Hp1; simpl; split; (assumption || lia || reflexivity).
  - destruct (wait_now s Hnow) as (_ & _ & Hl1 & Hp1).
    destruct (xnvme_async_wait dev s) as [s1 err]. cbn [fst snd] in *.
    assert (Hs1 : (outstanding_peak (trace s1) <= 1)%nat /\
                  (length (Async.inflight (ctx s1)) <= 1)%nat).
    { rewrite Hl1, Hp1; simpl; split; (assumption || lia). }
    destruct (err <? 0); [exact Hs1|].
    destruct (negb (ecount (args s1) =? 0)); [exact Hs1|].
    destruct op, dump; exact Hs1.
Qed.

(** *** The error count *)

Lemma poke_ecount (s : state) (m : Z) (E : Z) :
  ecount (args s) = wrap32 E ->
  ecount (args (xnvme_async_poke dev s m).1) =
    wrap32 (E + Z.of_nat (errors (map cpl_event (Async.poke dev (ctx s) m).2))).
Proof.
  intros HE. unfold xnvme_async_poke.
  destruct (Async.poke dev (ctx s) m) as [[c ret] cpls]. simpl.
  apply fold_cb_pool_ecount. exact HE.
Qed.

Lemma wait_ecount (s : state) (E : Z) :
  ecount (args s) = wrap32 E ->
  ecount (args (xnvme_async_wait dev s).1) =
    wrap32 (E + Z.of_nat (errors (map cpl_event (Async.wait dev (ctx s)).2))).
Proof.
  intros HE. unfold xnvme_async_wait.
  destruct (Async.wait dev (ctx s)) as [[c ret] cpls]. simpl.
  apply fold_cb_pool_ecount. exact HE.
Qed.

Lemma count_inv_wait (s : state) :
  count_inv (Run PcHead s) ->
  ecount (args (xnvme_async_wait dev s).1) =
    wrap32 (Z.of_nat (errors (trace (xnvme_async_wait dev s).1))).
Proof.
  unfold count_inv; cbn [state_of trace_of]. intros H.
  destruct (wait_facts s) as (Ht & _). cbv zeta in Ht. rewrite Ht.
  rewrite (wait_ecount s _ H).
  change (trace s ++ EvWait :: map cpl_event (Async.wait dev (ctx s)).2)
    with (trace s ++ [EvWait] ++ map cpl_event (Async.wait dev (ctx s)).2).
  rewrite !errors_app. f_equal. change (errors [EvWait]) with 0%nat. lia.
Qed.

Lemma count_inv_step (cfg : config) : count_inv cfg -> count_inv (step cfg).
Proof.
  destruct cfg as [[|req| |] s|s|ret s]; try (intros; assumption);
    [rewrite step_head | rewrite step_submit | rewrite step_next | rewrite step_drain];
    intros H.
  - destruct ((sect s <? zcap) && (ecount (args s) =? 0)); [|exact H].
    destruct (reqs s) as [|r rest]; exact H.
  - destruct (cmd_facts s req) as (Ht & Hc & He & Hs & Hp & Ha & Hr).
    destruct (xnvme_cmd op dev zslba s req) as [s1 err] eqn:Hcmd. simpl in *.
    assert (H1 : ecount (args s1) = wrap32 (Z.of_nat (errors (trace s1)))).
    { rewrite Ha, Ht, errors_app. unfold count_inv in H; simpl in H. rewrite H.
      f_equal. change (errors [EvSubmit (cmd_slba op zslba s) (payload s) req
                                 (Async.submit dev (ctx s) req).2]) with 0%nat. lia. }
    destruct (err =? 0); [exact H1|].
    destruct ((err =? - EBUSY) || (err =? - EAGAIN)); [|exact H1].
    unfold count_inv; simpl.
    destruct (poke_facts s1 0) as (Ht' & _). rewrite Ht'.
    rewrite (poke_ecount s1 0 _ H1).
    change (trace s1 ++ EvPoke :: map cpl_event (Async.poke dev (ctx s1) 0).2)
      with (trace s1 ++ [EvPoke] ++ map cpl_event (Async.poke dev (ctx s1) 0).2).
    rewrite !errors_app. f_equal. change (errors [EvPoke]) with 0%nat. lia.
  - destruct op; try exact H.
    pose proof (count_inv_wait s H) as Hw.
    destruct (xnvme_async_wait dev s) as [s1 err]. simpl in Hw.
    destruct (err <? 0); exact Hw.
  - pose proof (count_inv_wait s H) as Hw.
    destruct (xnvme_async_wait dev s) as [s1 err]. simpl in Hw.
    destruct (err <? 0); [exact Hw|].
    destruct (negb (ecount (args s1) =? 0)); [exact Hw|].
    destruct op, dump; exact Hw.
Qed.

(** *** Where the returned value comes from *)

Lemma exit_inv_step (cfg : config) : exit_inv op dump cfg -> exit_inv op dump (step cfg).
Proof.
  destruct cfg as [[|req| |] s|s|ret s]; try (intros; assumption);
    [rewrite step_head | rewrite step_submit | rewrite step_next | rewrite step_drain];
    intros _.
  - destruct ((sect s <? zcap) && (ecount (args s) =? 0)); [|exact I].
    destruct (reqs s) as [|r rest]; exact I.
  - destruct (cmd_facts s req) as (Ht & _ & He & _).
    destruct (xnvme_cmd op dev zslba s req) as [s1 err] eqn:Hcmd. simpl in Ht, He.
    destruct (err =? 0); [exact I|].
    destruct ((err =? - EBUSY) || (err =? - EAGAIN)) eqn:Hb; [exact I|].
    simpl. unfold exit_cause, exit_code.
    destruct (Z.ltb_spec err 0); [|left; reflexivity].
    right. right. left. split; [assumption|]. split; [exact Hb|].
    rewrite Ht, <- He. eexists _, _, _. apply last_snoc.
  - destruct op; try exact I.
    pose proof (wait_nonneg s) as Hw.
    destruct (xnvme_async_wait dev s) as [s1 err]. simpl in Hw.
    destruct (Z.ltb_spec err 0); [lia | exact I].
  - pose proof (wait_nonneg s) as Hw.
    destruct (xnvme_async_wait dev s) as [s1 err]. simpl in Hw.
    destruct (Z.ltb_spec err 0); [lia|].
    destruct (Z.eqb_spec (ecount (args s1)) 0) as [He|He]; simpl.
    + assert (Hz : exit_code err = 0)
        by (unfold exit_code; destruct (Z.ltb_spec err 0); [lia | reflexivity]).
      destruct op, dump; simpl; unfold exit_cause; rewrite ?Hz; eauto 10.
    + unfold exit_cause. right. left. split; [reflexivity | exact He].
Qed.

(** *** The busy-retry protocol *)

Lemma retry_inv_step (cfg : config) :
  retry_inv op zslba cfg -> retry_inv op zslba (step cfg).
Proof.
  destruct cfg as [[|req| |] s|s|ret s]; try (intros; assumption);
    [rewrite step_head | rewrite step_submit | rewrite step_next | rewrite step_drain];
    unfold retry_inv at 1; cbn [trace_of].
  - (* loop condition *)
    intros H. destruct ((sect s <? zcap) && (ecount (args s) =? 0)); [|exact H].
    destruct (reqs s) as [|r rest]; [exact H|]. left. exact H.
  - (* submit *)
    intros H.
    destruct (cmd_facts s req) as (Ht & Hc & He & Hs & Hp & Ha & Hr).
    destruct (xnvme_cmd op dev zslba s req) as [s1 err] eqn:Hcmd. simpl in *.
    assert (Hmon : monitor (trace s1) =
                   if is_busy err then MPoke (cmd_slba op zslba s) (payload s) req
                   else MIdle).
    { rewrite Ht, monitor_app. simpl. rewrite He.
      destruct H as [-> | ->]; simpl; [reflexivity|].
      rewrite same_args_refl. reflexivity. }
    destruct (Z.eqb_spec err 0) as [->|Hne].
    + simpl. exact Hmon.
    + destruct ((err =? - EBUSY) || (err =? - EAGAIN)) eqn:Hb.
      * apply busy_nonzero in Hb as [Hb _]. rewrite Hb in Hmon.
        destruct (poke_facts s1 0) as (Ht' & _ & _ & Hs' & Hp' & _).
        simpl. right. rewrite Ht'.
        change (trace s1 ++ EvPoke :: map cpl_event (Async.poke dev (ctx s1) 0).2)
          with (trace s1 ++ [EvPoke] ++ map cpl_event (Async.poke dev (ctx s1) 0).2).
        rewrite !monitor_app, Hmon. simpl.
        rewrite mon_retry_completions.
        unfold cmd_slba. rewrite Hs', Hp', Hs, Hp. reflexivity.
      * simpl. unfold is_busy in Hmon. rewrite Hb in Hmon. exact Hmon.
  - (* next *)
    intros H. destruct op; try exact H.
    destruct (wait_facts s) as (Ht & _).
    destruct (xnvme_async_wait dev s) as [s1 err]. simpl in *.
    assert (Hm : monitor (trace s1) = MIdle).
    { rewrite Ht.
      change (trace s ++ EvWait :: map cpl_event (Async.wait dev (ctx s)).2)
        with (trace s ++ [EvWait] ++ map cpl_event (Async.wait dev (ctx s)).2).
      rewrite !monitor_app, H. simpl. apply mon_idle_completions. }
    destruct (err <? 0); simpl; exact Hm.
  - (* drain *)
    intros H.
    destruct (wait_facts s) as (Ht & _).
    destruct (xnvme_async_wait dev s) as [s1 err]. simpl in *.
    assert (Hm : monitor (trace s1) = MIdle).
    { rewrite Ht.
      change (trace s ++ EvWait :: map cpl_event (Async.wait dev (ctx s)).2)
        with (trace s ++ [EvWait] ++ map cpl_event (Async.wait dev (ctx s)).2).
      rewrite !monitor_app, H. simpl. apply mon_idle_completions. }
    destruct (err <? 0); [exact Hm|].
    destruct (negb (ecount (args s1) =? 0)); [exact Hm|].
    destruct op, dump; exact Hm.
Qed.

Lemma retry_inv_run (fuel : nat) (cfg : config) :
  retry_inv op zslba cfg -> retry_inv op zslba (run fuel cfg).
Proof.
  intros H. induction fuel as [|fuel IH]; simpl; [exact H|].
  apply retry_inv_step, IH.
Qed.

Lemma count_inv_run (fuel : nat) (cfg : config) :
  count_inv cfg -> count_inv (run fuel cfg).
Proof.
  intros H. induction fuel as [|fuel IH]; simpl; [exact H|].
  apply count_inv_step, IH.
Qed.

Lemma exit_inv_run (fuel : nat) (cfg : config) :
  exit_inv op dump cfg -> exit_inv op dump (run fuel cfg).
Proof.
  intros H. induction fuel as [|fuel IH]; simpl; [exact H|].
  apply exit_inv_step, IH.
Qed.

(** *** After a failed completion *)

Lemma cmd_errors (s : state) (req : nat) :
  errors (trace (xnvme_cmd op dev zslba s req).1) = errors (trace s).
Proof.
  destruct (cmd_facts s req) as (Ht & _). cbv zeta in Ht.
  rewrite Ht. apply errors_snoc_other. reflexivity.
Qed.

Lemma poke_load (s : state) (m : Z) :
  let r := xnvme_async_poke dev s m in
  (errors (trace s) <= errors (trace r.1))%nat /\
  load (Run PcHead r.1) <= load (Run PcHead s) /\
  (Async.inflight (ctx s) = [] -> errors (trace r.1) = errors (trace s)).
Proof.
  destruct (poke_facts s m) as (Ht & Hc & _). cbv zeta in *.
  destruct (poke_facts_ctx dev (ctx s) m) as (_ & Hlen). cbv zeta in *.
  pose proof (errors_completions (Async.poke dev (ctx s) m).2) as Hle.
  unfold load; cbn [trace_of state_of]. rewrite Ht, Hc.
  change (trace s ++ EvPoke :: map cpl_event (Async.poke dev (ctx s) m).2)
    with (trace s ++ [EvPoke] ++ map cpl_event (Async.poke dev (ctx s) m).2).
  rewrite !errors_app, errors_single. cbn [failed].
  repeat split; try lia.
  intros Hnil. rewrite Hnil in Hlen. simpl in Hlen. lia.
Qed.

Lemma wait_load (s : state) :
  let r := xnvme_async_wait dev s in
  (errors (trace s) <= errors (trace r.1))%nat /\
  load (Run PcHead r.1) <= load (Run PcHead s) /\
  Async.inflight (ctx r.1) = [] /\
  (exists cpls, trace r.1 = trace s ++ EvWait :: map cpl_event cpls) /\
  0 <= r.2.
Proof.
  destruct (wait_facts s) as (Ht & Hc & Hr & _). cbv zeta in *.
  destruct (wait_facts_ctx dev (ctx s)) as (_ & Hnil & Hlen). cbv zeta in *.
  pose proof (errors_completions (Async.wait dev (ctx s)).2) as Hle.
  unfold load; cbn [trace_of state_of]. rewrite Ht, Hc, Hnil, Hr.
  change (trace s ++ EvWait :: map cpl_event (Async.wait dev (ctx s)).2)
    with (trace s ++ [EvWait] ++ map cpl_event (Async.wait dev (ctx s)).2).
  rewrite !errors_app, errors_single. cbn [failed].
  repeat split; try lia; try (cbn [length]; lia).
  - eexists. reflexivity.
  - unfold Async.wait; cbn [fst snd]; lia.
Qed.

Section Bounded.
Variable qd : Z.
Hypothesis qd_range : 0 <= qd < 2 ^ 32 - 1.

(** With fewer than [2 ^ 32] failures counted, the loop condition sees that
    there was one. *)
Lemma ecount_zero (cfg : config) :
  count_inv cfg -> load cfg <= qd + 1 ->
  (ecount (args (state_of cfg)) =? 0) = (errors (trace_of cfg) =? 0)%nat.
Proof.
  unfold count_inv, load. intros Hc Hl. rewrite Hc.
  destruct (Nat.eqb_spec (errors (trace_of cfg)) 0) as [Hz|Hnz].
  - rewrite Hz. reflexivity.
  - apply Z.eqb_neq. intros Hw. apply Hnz. apply wrap32_zero; [lia | exact Hw].
Qed.

Lemma bound_load (cfg : config) : bound_inv qd cfg -> load cfg <= qd + 1.
Proof.
  destruct cfg as [[|req| |] s|s|ret s]; unfold bound_inv; try tauto. lia.
Qed.

(** *** The watcher along a run *)

Lemma settled_inv (cfg : config) :
  match cfg with
  | Run (PcSubmit _) _ | Crash _ => False
  | _ => True
  end ->
  (watch_inv op zslba cfg <-> settled (trace_of cfg)).
Proof.
  unfold watch_inv, settled.
  destruct cfg as [[|req| |] s|s|ret s]; try contradiction; intros _;
    cbn [trace_of]; destruct (watcher (trace s)) as [pend|al|];
    (split; [intros H; try contradiction; subst; auto
            | intros [H | H]; try discriminate; injection H as ->; reflexivity]).
Qed.

Lemma watch_inv_step (cfg : config) :
  count_inv cfg -> bound_inv qd cfg -> watch_inv op zslba cfg ->
  watch_inv op zslba (step cfg).
Proof.
  intros Hcount Hbound Hw.
  pose proof (ecount_zero cfg Hcount (bound_load cfg Hbound)) as Hec.
  destruct cfg as [[|req| |] s|s|ret s]; try assumption;
    [rewrite step_head | rewrite step_submit | rewrite step_next | rewrite step_drain];
    cbn [trace_of state_of] in Hec.
  - (* loop condition *)
    apply (settled_inv (Run PcHead s) I) in Hw. cbn [trace_of] in Hw.
    destruct (sect s <? zcap); cbn [andb];
      [|apply (settled_inv (Run PcDrain s) I); exact Hw].
    rewrite Hec. destruct (Nat.eqb_spec (errors (trace s)) 0) as [Hz|Hnz];
      [|apply (settled_inv (Run PcDrain s) I); exact Hw].
    pose proof (watcher_errors (trace s)) as He.
    destruct Hw as [Hw | Hw]; rewrite Hw in He; [|lia].
    destruct (reqs s) as [|r rest]; unfold watch_inv;
      cbn [trace_of take_req trace]; rewrite Hw; auto.
  - (* submit *)
    destruct (cmd_facts s req) as (Ht & _ & Herr & Hs & Hp & _). cbv zeta in *.
    destruct (xnvme_cmd op dev zslba s req) as [s1 err]. cbn [fst snd] in *.
    rewrite <- Herr in Ht. clear Herr.
    set (a := cmd_slba op zslba s) in *. set (b := payload s) in *.
    assert (Hw1 : watcher (trace s1) =
                  match watcher (trace s) with
                  | WClean _ => WClean (if is_busy err then Some (a, b, req) else None)
                  | WFailed _ =>
                      if is_busy err then WFailed (Some (a, b, req)) else WFailed None
                  | WBad => WBad
                  end).
    { rewrite Ht, watcher_app. cbn [fold_left].
      unfold watch_inv in Hw. cbn [trace_of] in Hw.
      destruct (watcher (trace s)) as [pend|al|]; [reflexivity | | reflexivity].
      subst al. fold a b. cbn [watch_step]. rewrite same_submission_refl. reflexivity. }
    assert (Hlive : watcher (trace s) <> WBad).
    { unfold watch_inv in Hw. cbn [trace_of] in Hw.
      destruct (watcher (trace s)); [discriminate | discriminate | contradiction]. }
    destruct (Z.eqb_spec err 0) as [->|Hnz].
    + apply (settled_inv (Run PcNext (count_submitted s1)) I).
      unfold settled. cbn [trace_of count_submitted trace]. rewrite Hw1.
      change (is_busy 0) with false.
      destruct (watcher (trace s)); auto. contradiction.
    + destruct ((err =? - EBUSY) || (err =? - EAGAIN)) eqn:Hb.
      * fold (is_busy err) in Hb. rewrite Hb in Hw1.
        destruct (poke_facts s1 0) as (Ht' & _ & _ & Hs' & Hp' & _). cbv zeta in *.
        unfold watch_inv. cbn [trace_of]. rewrite Ht'.
        change (trace s1 ++ EvPoke :: map cpl_event (Async.poke dev (ctx s1) 0).2)
          with (trace s1 ++ [EvPoke] ++ map cpl_event (Async.poke dev (ctx s1) 0).2).
        rewrite watcher_app, fold_left_app, Hw1.
        assert (Hsame : (cmd_slba op zslba (xnvme_async_poke dev s1 0).1,
                         payload (xnvme_async_poke dev s1 0).1, req) = (a, b, req)).
        { unfold cmd_slba, a, b. unfold cmd_slba. rewrite Hs', Hp', Hs, Hp. reflexivity. }
        rewrite Hsame.
        destruct (watcher (trace s)); [| |contradiction];
          cbn [fold_left watch_step failed pending_step].
        -- rewrite watch_clean_completions.
           destruct (errors (map cpl_event (Async.poke dev (ctx s1) 0).2) =? 0)%nat; auto.
        -- rewrite watch_failed_completions. reflexivity.
      * fold (is_busy err) in Hb. rewrite Hb in Hw1.
        apply (settled_inv (Exit (exit_code err) s1) I).
        unfold settled. cbn [trace_of]. rewrite Hw1.
        destruct (watcher (trace s)); auto. contradiction.
  - (* next *)
    apply (settled_inv (Run PcNext s) I) in Hw. cbn [trace_of] in Hw.
    destruct op; try (apply (settled_inv (Run PcHead (advance lba_nbytes s)) I); exact Hw).
    destruct (wait_load s) as (_ & _ & _ & [cpls Ht] & _).
    destruct (xnvme_async_wait dev s) as [s1 err]. cbn [fst snd] in *.
    assert (Hs1 : settled (trace s1)) by (rewrite Ht; apply settled_wait, Hw).
    destruct (err <? 0).
    + apply (settled_inv (Exit (exit_code err) s1) I). exact Hs1.
    + apply (settled_inv (Run PcHead (advance lba_nbytes s1)) I). exact Hs1.
  - (* drain *)
    apply (settled_inv (Run PcDrain s) I) in Hw. cbn [trace_of] in Hw.
    destruct (wait_load s) as (_ & _ & _ & [cpls Ht] & _).
    destruct (xnvme_async_wait dev s) as [s1 err]. cbn [fst snd] in *.
    assert (Hs1 : settled (trace s1)) by (rewrite Ht; apply settled_wait, Hw).
    destruct (err <? 0); [apply (settled_inv (Exit (exit_code err) s1) I); exact Hs1|].
    destruct (negb (ecount (args s1) =? 0));
      [apply (settled_inv (Exit (exit_code (- EIO)) s1) I); exact Hs1|].
    destruct op, dump;
      match goal with |- watch_inv _ _ ?c => apply (settled_inv c I) end; exact Hs1.
Qed.

Lemma bound_inv_step (cfg : config) :
  depth_inv qd cfg -> count_inv cfg -> bound_inv qd cfg -> bound_inv qd (step cfg).
Proof.
  intros Hdepth Hcount Hbound.
  pose proof (ecount_zero cfg Hcount (bound_load cfg Hbound)) as Hec.
  destruct cfg as [[|req| |] s|s|ret s]; try assumption;
    [rewrite step_head | rewrite step_submit | rewrite step_next | rewrite step_drain];
    unfold bound_inv, load in Hbound; cbn [trace_of state_of] in Hbound, Hec.
  - destruct Hdepth as (_ & Hlen & _). cbn [state_of] in Hlen.
    destruct (sect s <? zcap); cbn [andb];
      [|unfold bound_inv, load; cbn [trace_of state_of]; exact Hbound].
    rewrite Hec. destruct (Nat.eqb_spec (errors (trace s)) 0) as [Hz|Hnz];
      [|unfold bound_inv, load; cbn [trace_of state_of]; exact Hbound].
    destruct (reqs s) as [|r rest]; unfold bound_inv, load;
      cbn [trace_of state_of take_req trace ctx];
      rewrite Hz; [split; [reflexivity|] |]; lia.
  - pose proof (cmd_errors s req) as He.
    destruct (cmd_facts s req) as (_ & Hc & Herr & _). cbv zeta in *.
    destruct (submit_facts dev (ctx s) req) as (_ & Hacc & Hrej & _). cbv zeta in *.
    destruct (xnvme_cmd op dev zslba s req) as [s1 err]. cbn [fst snd] in *.
    subst err.
    destruct (Z.eqb_spec (Async.submit dev (ctx s) req).2 0) as [Hz|Hnz].
    + destruct (Hacc Hz) as [_ Hl]. unfold bound_inv, load.
      cbn [trace_of state_of count_submitted trace ctx]. rewrite He, Hc, Hl. lia.
    + specialize (Hrej Hnz).
      assert (H1 : Z.of_nat (errors (trace s1)) +
                   Z.of_nat (length (Async.inflight (ctx s1))) <= qd)
        by (rewrite He, Hc, Hrej; exact Hbound).
      destruct (((Async.submit dev (ctx s) req).2 =? - EBUSY) ||
                ((Async.submit dev (ctx s) req).2 =? - EAGAIN)).
      * destruct (poke_load s1 0) as (_ & Hl & _). unfold load in Hl.
        unfold bound_inv, load. cbn [trace_of state_of] in *. lia.
      * unfold bound_inv, load. cbn [trace_of state_of]. lia.
  - destruct op; try (unfold bound_inv, load;
                      cbn [trace_of state_of advance trace ctx]; exact Hbound).
    destruct (wait_load s) as (_ & Hl & _). unfold load in Hl.
    destruct (xnvme_async_wait dev s) as [s1 err]. cbn [fst snd trace_of state_of] in *.
    destruct (err <? 0); unfold bound_inv, load;
      cbn [trace_of state_of advance trace ctx]; lia.
  - destruct (wait_load s) as (_ & Hl & _). unfold load in Hl.
    destruct (xnvme_async_wait dev s) as [s1 err]. cbn [fst snd trace_of state_of] in *.
    destruct (err <? 0); [unfold bound_inv, load; cbn [trace_of state_of]; lia|].
    destruct (negb (ecount (args s1) =? 0));
      [unfold bound_inv, load; cbn [trace_of state_of]; lia|].
    destruct op, dump; unfold bound_inv, load; cbn [trace_of state_of]; lia.
Qed.

(** *** How a run ends after a failure *)

Lemma end_inv_step (cfg : config) :
  count_inv cfg -> bound_inv qd cfg -> end_inv cfg -> end_inv (step cfg).
Proof.
  intros Hcount Hbound Hend.
  destruct cfg as [[|req| |] s|s|ret s]; try assumption;
    [rewrite step_head | rewrite step_submit | rewrite step_next | rewrite step_drain].
  - destruct ((sect s <? zcap) && (ecount (args s) =? 0)); [|exact I].
    destruct (reqs s); exact I.
  - destruct (cmd_facts s req) as (Ht & _ & Herr & _). cbv zeta in *.
    destruct (xnvme_cmd op dev zslba s req) as [s1 err]. cbn [fst snd] in *.
    rewrite <- Herr in Ht.
    destruct (Z.eqb_spec err 0) as [Hz|Hnz]; [exact I|].
    destruct ((err =? - EBUSY) || (err =? - EAGAIN)) eqn:Hb; [exact I|].
    intros _. right. exists (cmd_slba op zslba s), (payload s), req, err.
    rewrite Ht. split; [apply last_snoc|]. auto.
  - destruct op; try exact I.
    destruct (wait_load s) as (_ & _ & _ & _ & Hret).
    destruct (xnvme_async_wait dev s) as [s1 err]. cbn [fst snd] in *.
    destruct (Z.ltb_spec err 0); [lia | exact I].
  - pose proof (count_inv_wait s Hcount) as Hc1.
    destruct (wait_load s) as (_ & Hl & Hnil & [cpls Ht] & Hret).
    destruct (xnvme_async_wait dev s) as [s1 err]. cbn [fst snd] in *.
    destruct (Z.ltb_spec err 0); [lia|].
    assert (Hec : (ecount (args s1) =? 0) = (errors (trace s1) =? 0)%nat).
    { apply (ecount_zero (Run PcHead s1)); [exact Hc1|].
      pose proof (bound_load _ Hbound) as Hb. unfold load in *.
      cbn [trace_of state_of] in *. lia. }
    rewrite Hec.
    destruct (Nat.eqb_spec (errors (trace s1)) 0) as [Hz|Hnz]; cbn [negb].
    + destruct op, dump; intros Hpos; lia.
    + intros _. left. split; [reflexivity|]. split; [exact Hnil|]. eauto.
Qed.

(** *** The write loop *)

Lemma write_clean_inv_step (cfg : config) :
  op = OpWrite -> write_inv cfg -> count_inv cfg -> bound_inv qd cfg ->
  write_clean_inv cfg -> write_clean_inv (step cfg).
Proof.
  intros Hop [_ Hfl] Hcount Hbound [Hclean Herrs].
  pose proof (ecount_zero cfg Hcount (bound_load cfg Hbound)) as Hec.
  destruct cfg as [[|req| |] s|s|ret s]; try (split; assumption);
    [rewrite step_head | rewrite step_submit | rewrite step_next | rewrite step_drain];
    cbn [trace_of state_of] in *.
  - destruct (sect s <? zcap); cbn [andb]; [|split; [exact Hclean | exact I]].
    rewrite Hec. destruct (Nat.eqb_spec (errors (trace s)) 0) as [Hz|Hnz];
      [|split; [exact Hclean | exact I]].
    destruct (reqs s); split; (exact Hclean || exact Hz || exact I).
  - pose proof (cmd_errors s req) as He.
    destruct (cmd_facts s req) as (Ht & Hc & Herr & _). cbv zeta in *.
    destruct (submit_facts dev (ctx s) req) as (_ & _ & Hrej & _). cbv zeta in *.
    destruct (xnvme_cmd op dev zslba s req) as [s1 err]. cbn [fst snd] in *.
    assert (Hc1 : clean_submits (trace s1)).
    { rewrite Ht. apply clean_submits_snoc; [exact Hclean | intros _; exact Herrs]. }
    destruct (Z.eqb_spec err 0) as [Hz|Hnz].
    + split; [exact Hc1|]. cbn [count_submitted trace]. congruence.
    + destruct ((err =? - EBUSY) || (err =? - EAGAIN)); [|split; [exact Hc1 | exact I]].
      destruct (poke_facts s1 0) as (Ht' & _). cbv zeta in *.
      destruct (poke_load s1 0) as (_ & _ & Hsame).
      split; cbn [trace_of].
      * rewrite Ht'. apply clean_submits_app; [exact Hc1|].
        apply completions_not_submits. reflexivity.
      * rewrite Hsame; [congruence|]. rewrite Hc, Hrej; [exact Hfl | congruence].
  - rewrite Hop.
    destruct (wait_load s) as (_ & _ & _ & [cpls Ht] & _).
    destruct (xnvme_async_wait dev s) as [s1 err]. cbn [fst snd] in *.
    assert (Hc1 : clean_submits (trace s1)).
    { rewrite Ht. apply clean_submits_app; [exact Hclean|].
      apply completions_not_submits. reflexivity. }
    destruct (err <? 0); split; (exact Hc1 || exact I).
  - destruct (wait_load s) as (_ & _ & _ & [cpls Ht] & _).
    destruct (xnvme_async_wait dev s) as [s1 err]. cbn [fst snd] in *.
    assert (Hc1 : clean_submits (trace s1)).
    { rewrite Ht. apply clean_submits_app; [exact Hclean|].
      apply completions_not_submits. reflexivity. }
    destruct (err <? 0); [split; [exact Hc1 | exact I]|].
    destruct (negb (ecount (args s1) =? 0)); [split; [exact Hc1 | exact I]|].
    destruct op, dump; split; (exact Hc1 || exact I).
Qed.

(** *** Towards the end of the run *)

Lemma errors_step (cfg : config) :
  (errors (trace_of cfg) <= errors (trace_of (step cfg)))%nat.
Proof.
  destruct cfg as [[|req| |] s|s|ret s]; try reflexivity;
    [rewrite step_head | rewrite step_submit | rewrite step_next | rewrite step_drain].
  - destruct ((sect s <? zcap) && (ecount (args s) =? 0)); [|reflexivity].
    destruct (reqs s); reflexivity.
  - pose proof (cmd_errors s req) as He.
    destruct (xnvme_cmd op dev zslba s req) as [s1 err]. cbn [fst snd] in *.
    destruct (err =? 0); [cbn [trace_of count_submitted trace]; lia|].
    destruct ((err =? - EBUSY) || (err =? - EAGAIN)); [|cbn [trace_of]; lia].
    destruct (poke_load s1 0) as (Hle & _). cbn [trace_of]. lia.
  - destruct op; try reflexivity.
    destruct (wait_load s) as (Hle & _).
    destruct (xnvme_async_wait dev s) as [s1 err]. cbn [fst snd] in *.
    destruct (err <? 0); cbn [trace_of advance trace]; lia.
  - destruct (wait_load s) as (Hle & _).
    destruct (xnvme_async_wait dev s) as [s1 err]. cbn [fst snd] in *.
    destruct (err <? 0); [cbn [trace_of]; lia|].
    destruct (negb (ecount (args s1) =? 0)); [cbn [trace_of]; lia|].
    destruct op, dump; cbn [trace_of]; lia.
Qed.

(** After a failure every step brings the run closer to its end, on a
    device that refuses as busy only when its queue is full. *)
Lemma rank_step (cfg : config) :
  honest dev -> depth_inv qd cfg -> count_inv cfg -> bound_inv qd cfg ->
  (0 < errors (trace_of cfg))%nat ->
  (rank (step cfg) < rank cfg)%nat \/ rank cfg = 0%nat.
Proof.
  intros Hhonest Hdepth Hcount Hbound Hpos.
  pose proof (ecount_zero cfg Hcount (bound_load cfg Hbound)) as Hec.
  destruct cfg as [[|req| |] s|s|ret s]; try (right; reflexivity); left;
    [rewrite step_head | rewrite step_submit | rewrite step_next | rewrite step_drain];
    cbn [trace_of state_of] in *.
  - rewrite Hec. destruct (Nat.eqb_spec (errors (trace s)) 0); [lia|].
    rewrite andb_false_r. simpl. lia.
  - destruct (cmd_facts s req) as (_ & _ & Herr & _). cbv zeta in *.
    destruct (submit_facts dev (ctx s) req) as (_ & _ & _ & Hroom & _). cbv zeta in *.
    destruct Hdepth as (Hd & _). cbn [state_of] in Hd.
    unfold bound_inv, load in Hbound. cbn [trace_of state_of] in Hbound.
    assert (Hv : (xnvme_cmd op dev zslba s req).2 = Async.dv_verdict dev (Async.attempts (ctx s))).
    { rewrite Herr. apply Hroom. unfold Async.outstanding. lia. }
    destruct (xnvme_cmd op dev zslba s req) as [s1 err]. cbn [fst snd] in *.
    destruct (err =? 0); [simpl; lia|].
    pose proof (Hhonest (Async.attempts (ctx s))) as Hb. rewrite <- Hv in Hb.
    unfold is_busy in Hb. rewrite Hb. simpl. lia.
  - destruct op; try (simpl; lia).
    destruct (xnvme_async_wait dev s) as [s1 err].
    destruct (err <? 0); simpl; lia.
  - destruct (xnvme_async_wait dev s) as [s1 err].
    destruct (err <? 0); [simpl; lia|].
    destruct (negb (ecount (args s1) =? 0)); [simpl; lia|].
    destruct op, dump; simpl; lia.
Qed.

(** *** All invariants along a run *)

Lemma fail_inv_step (cfg : config) :
  fail_inv op zslba qd cfg -> fail_inv op zslba qd (step cfg).
Proof.
  intros (Hnow & Hdepth & Hcount & Hbound & Hwatch & Hend).
  repeat split.
  - apply now_inv_step, Hnow.
  - apply depth_inv_step; [lia | exact Hnow | exact Hdepth].
  - apply depth_inv_step; [lia | exact Hnow | exact Hdepth].
  - apply depth_inv_step; [lia | exact Hnow | exact Hdepth].
  - apply count_inv_step, Hcount.
  - apply bound_inv_step; assumption.
  - apply watch_inv_step; assumption.
  - apply end_inv_step; assumption.
Qed.

Lemma fail_inv_run (fuel : nat) (cfg : config) :
  fail_inv op zslba qd cfg -> fail_inv op zslba qd (run fuel cfg).
Proof.
  intros H. induction fuel as [|fuel IH]; [exact H|].
  rewrite run_S. apply fail_inv_step, IH.
Qed.

Lemma fail_inv_entry (pool : list nat) : fail_inv op zslba qd (loop_entry qd pool).
Proof.
  unfold fail_inv, now_inv, depth_inv, count_inv, bound_inv, watch_inv, end_inv, load.
  change (trace_of (loop_entry qd pool)) with (@nil event).
  cbn [state_of loop_entry ctx args ecount Async.xnvme_async_init Async.depth
       Async.inflight length].
  change (outstanding_peak []) with 0%nat. change (outstanding_now []) with 0%nat.
  change (errors []) with 0%nat. change (watcher []) with (WClean None).
  repeat split; try reflexivity; lia.
Qed.

(** Once a completion has failed, the run is over within [rank] steps. *)
Lemma exit_within (k : nat) :
  forall cfg, honest dev -> fail_inv op zslba qd cfg ->
    (0 < errors (trace_of cfg))%nat -> (rank cfg <= k)%nat ->
    exists ret s', run k cfg = Exit ret s'.
Proof.
  induction k as [|k IH]; intros cfg Hh Hinv Hpos Hrank.
  - pose proof Hinv as (_ & _ & _ & Hbound & _).
    destruct cfg as [[|req| |] s|s|ret s]; simpl in Hrank; try lia.
    + destruct Hbound as [Hz _]. cbn [trace_of] in Hpos. lia.
    + eauto.
  - unfold Zoned.run. rewrite Nat.iter_succ_r. fold (run k (step cfg)).
    pose proof Hinv as (_ & Hdepth & Hcount & Hbound & _).
    apply IH; [exact Hh | apply fail_inv_step, Hinv | |].
    + pose proof (errors_step cfg). lia.
    + destruct (rank_step cfg Hh Hdepth Hcount Hbound Hpos) as [Hlt | Hz]; [lia|].
      destruct cfg as [[|req| |] s|s|ret s]; simpl in Hz; try lia; simpl; lia.
Qed.

End Bounded.

Lemma now_inv_run (fuel : nat) (cfg : config) :
  now_inv cfg -> now_inv (run fuel cfg).
Proof.
  intros H. induction fuel as [|fuel IH]; simpl; [exact H|].
  apply now_inv_step, IH.
Qed.

Lemma depth_inv_run (qd : Z) (fuel : nat) (cfg : config) :
  0 <= qd -> now_inv cfg -> depth_inv qd cfg -> depth_inv qd (run fuel cfg).
Proof.
  intros Hqd Hn H. induction fuel as [|fuel IH]; simpl; [exact H|].
  apply depth_inv_step; [exact Hqd | apply now_inv_run, Hn | exact IH].
Qed.

Lemma write_inv_run (fuel : nat) (cfg : config) :
  op = OpWrite -> now_inv cfg -> write_inv cfg -> write_inv (run fuel cfg).
Proof.
  intros Hop Hn H. induction fuel as [|fuel IH]; simpl; [exact H|].
  apply write_inv_step; [exact Hop | apply now_inv_run, Hn | exact IH].
Qed.

End ZonedSteps.

Section Pipelining.
Import Zoned.
Variable op : opcode.
Variable status : nat -> Z.
Variables zslba zcap lba_nbytes : Z.
Variable dump : option Z.
Variable qd : Z.
Variable pool : list nat.
Hypothesis not_write : op <> OpWrite.
Hypothesis zcap_range : zcap < 2 ^ 64.

#[local] Abbreviation lazy_run :=
  (Zoned.run op (Async.lazy status) zslba zcap lba_nbytes dump).

(** On a device that accepts every command and finishes none before it is
    waited for, the read and the append loop submit one command after the
    other: after [j] iterations, [j] commands are in flight. *)
Lemma lazy_fill (j : nat) :
  Z.of_nat j <= qd -> Z.of_nat j <= zcap -> (j <= length pool)%nat ->
  exists s, lazy_run (3 * j) (loop_entry qd pool) = Run PcHead s /\
    sect s = Z.of_nat j /\ ecount (args s) = 0 /\ reqs s = drop j pool /\
    Async.depth (ctx s) = qd /\ length (Async.inflight (ctx s)) = j /\
    profile (trace s) = (j, j).
Proof.
  induction j as [|j IH]; intros Hqd Hcap Hpool.
  - eexists. split; [reflexivity|]. simpl. rewrite drop_0. auto 10.
  - destruct IH as (s & Hrun & Hsect & Hec & Hreqs & Hdepth & Hfl & Hprof); try lia.
    replace (3 * S j)%nat with (3 + 3 * j)%nat by lia.
    rewrite run_add, Hrun.
    change (lazy_run 3 (Run PcHead s))
      with (Zoned.step op (Async.lazy status) zslba zcap lba_nbytes dump
              (Zoned.step op (Async.lazy status) zslba zcap lba_nbytes dump
                 (Zoned.step op (Async.lazy status) zslba zcap lba_nbytes dump
                    (Run PcHead s)))).
    (* the loop condition holds and a handle is free *)
    rewrite step_head, Hsect, Hec.
    destruct (Z.ltb_spec (Z.of_nat j) zcap); [|lia]. cbn [andb Z.eqb].
    destruct (reqs s) as [|r rest] eqn:Hr.
    { exfalso. apply (f_equal length) in Hreqs. rewrite length_drop in Hreqs.
      simpl in Hreqs. lia. }
    assert (Hrest : rest = drop (S j) pool).
    { assert (Hd : drop 1 (drop j pool) = rest) by (rewrite <- Hreqs; reflexivity).
      rewrite drop_drop in Hd. rewrite <- Hd. f_equal. lia. }
    (* the submission is accepted *)
    rewrite step_submit.
    set (s0 := take_req rest s).
    assert (Hnow0 : now_inv (Run PcHead s0)).
    { unfold now_inv, outstanding_now; cbn [trace_of state_of s0 take_req trace ctx].
      rewrite Hprof, Hfl. reflexivity. }
    destruct (cmd_now op (Async.lazy status) zslba s0 r Hnow0) as (_ & Hd1 & Hacc & _).
    destruct (cmd_facts op (Async.lazy status) zslba s0 r) as (_ & _ & He & Hs1 & _ & Ha1 & Hr1).
    destruct (submit_facts (Async.lazy status) (ctx s0) r) as (_ & _ & _ & Hroom & _).
    cbv zeta in *.
    assert (Herr : (xnvme_cmd op (Async.lazy status) zslba s0 r).2 = 0).
    { rewrite He, Hroom; [reflexivity|].
      unfold Async.outstanding; cbn [s0 take_req ctx]. rewrite Hdepth, Hfl. lia. }
    destruct (Hacc Herr) as (_ & Hl1 & Hp1).
    destruct (xnvme_cmd op (Async.lazy status) zslba s0 r) as [s1 err].
    cbn [fst snd] in *. clear He Hroom. subst err. cbn [Z.eqb].
    (* no wait: the next iteration begins *)
    rewrite step_next.
    exists (advance lba_nbytes (count_submitted s1)). split.
    { destruct op; [reflexivity | contradiction | reflexivity]. }
    cbn [advance count_submitted sect args ecount reqs ctx trace].
    rewrite Hs1, Ha1, Hr1, Hd1, Hl1, Hp1.
    cbn [s0 take_req sect args reqs ctx trace].
    unfold outstanding_now, outstanding_peak. rewrite Hprof, Hsect, Hfl.
    cbn [fst snd].
    repeat split; try assumption.
    + unfold wrap64. rewrite Z.mod_small by lia. lia.
    + f_equal. lia.
Qed.

End Pipelining.

Section PipelineClaim.
Import Zoned.

Lemma loop_entry_now (qd : Z) (pool : list nat) : now_inv (loop_entry qd pool).
Proof. reflexivity. Qed.

(** C2 (counterexample).  The append loop at queue depth 2 on a device that
    finishes nothing before it is waited for: the second append is submitted
    while the first is still outstanding, and two appends are in flight
    before the loop waits. *)
Lemma append_does_not_wait :
  trace_of (sub_async_append (setup_ok 0 2) (Async.lazy (fun _ => 0)) 2 512 8) =
    [EvSubmit 0 0 0 0; EvSubmit 0 512 1 0; EvWait; EvComplete 0 0; EvComplete 1 0] /\
  outstanding_peak
    (trace_of (sub_async_append (setup_ok 0 2) (Async.lazy (fun _ => 0)) 2 512 8)) = 2%nat.
Proof. split; vm_compute; reflexivity. Qed.

(** C2 (amended).  In every drive loop at most [qd] commands are outstanding
    at any time.  The write loop waits for the completion of each write
    before it submits the next: at most one write is outstanding, none at
    the moment a write is accepted, none whenever control is at label
    [submit].  The read loop and the append loop do not wait between
    submissions: on a device that finishes nothing before it is waited for,
    they reach [qd] commands outstanding. *)
Theorem write_waits_others_pipeline (op : opcode) (dev : Async.device)
    (zslba zcap lba_nbytes : Z) (dump : option Z) (qd : Z) (pool : list nat)
    (fuel : nat) (status : nat -> Z) :
  1 <= qd ->
  let cfg := run op dev zslba zcap lba_nbytes dump fuel (loop_entry qd pool) in
  Z.of_nat (outstanding_peak (trace_of cfg)) <= qd /\
  (op = OpWrite ->
   (outstanding_peak (trace_of cfg) <= 1)%nat /\
   (forall pre a b r post,
      trace_of cfg = pre ++ EvSubmit a b r 0 :: post -> outstanding_now pre = 0%nat) /\
   (forall r s, cfg = Run (PcSubmit r) s -> Async.inflight (ctx s) = [])) /\
  (op <> OpWrite -> qd <= zcap < 2 ^ 64 -> qd <= Z.of_nat (length pool) ->
   exists n,
     Z.of_nat (outstanding_peak
                 (trace_of (run op (Async.lazy status) zslba zcap lba_nbytes dump n
                              (loop_entry qd pool)))) = qd).
Proof.
  intros Hqd cfg.
  assert (Hdepth : depth_inv qd cfg).
  { apply depth_inv_run; [lia | apply loop_entry_now|].
    unfold depth_inv.
    change (outstanding_peak (trace_of (loop_entry qd pool))) with 0%nat.
    cbn [state_of loop_entry ctx Async.xnvme_async_init Async.depth Async.inflight length].
    lia. }
  split; [apply Hdepth|]. split.
  - intros Hop.
    assert (Hw : write_inv cfg).
    { apply write_inv_run; [exact Hop | apply loop_entry_now|].
      unfold write_inv.
      change (outstanding_peak (trace_of (loop_entry qd pool))) with 0%nat.
      split; [lia | reflexivity]. }
    clearbody cfg. destruct Hw as [Hpeak Hfl].
    split; [exact Hpeak|]. split.
    + intros pre a b r post Htr.
      pose proof (peak_bounds_accepted pre post a b r) as Hb.
      rewrite <- Htr in Hb. lia.
    + intros r s ->. exact Hfl.
  - intros Hop [Hcap Hmax] Hpool.
    destruct (lazy_fill op status zslba zcap lba_nbytes dump qd pool Hop Hmax
                (Z.to_nat qd)) as (s & Hrun & _ & _ & _ & _ & _ & Hprof); try lia.
    exists (3 * Z.to_nat qd)%nat. rewrite Hrun. simpl.
    unfold outstanding_peak. rewrite Hprof. simpl. lia.
Qed.

Lemma write_waits_others_pipeline_witness :
  exists n,
    Z.of_nat (outstanding_peak
                (trace_of (run OpAppend (Async.lazy (fun _ => 0)) 0 4 512 None n
                             (loop_entry 2 [0; 1; 2]%nat)))) = 2.
Proof.
  apply (proj2 (proj2 (write_waits_others_pipeline OpAppend (Async.eager (fun _ => 0))
                         0 4 512 None 2 [0; 1; 2]%nat 0 (fun _ => 0)
                         ltac:(lia)))).
  - discriminate.
  - lia.
  - simpl. lia.
Defined.

End PipelineClaim.

Section FailureClaim.
Import Zoned.

(** C6.  The read loop at queue depth 2: two reads are in flight when the
    third is refused as busy; the poke that follows reaps the first read
    with a non-zero status; the loop then submits the third read again, the
    device fails that submission with [-EIO], and the run returns at once
    through [goto exit]: a submission was issued after the failed
    completion, the context was never waited on, and the second read is
    still in flight when the function returns. *)
Lemma failed_completion_without_drain :
  let cfg := sub_async_read (setup_ok 0 4) Async.faulty 2 512 None 12 in
  trace_of cfg =
    [EvSubmit 0 0 0 0; EvSubmit 1 512 1 0; EvSubmit 2 1024 2 (- EBUSY); EvPoke;
     EvComplete 0 1; EvSubmit 2 1024 2 (- EIO)] /\
  (exists s, cfg = Exit (- EIO) s) /\
  length (Async.inflight (ctx (state_of cfg))) = 1%nat /\
  ~ In EvWait (trace_of cfg).
Proof.
  vm_compute. repeat split; [eexists; reflexivity|].
  intros H. repeat (destruct H as [H|H]; [discriminate|]). exact H.
Qed.

(** When the device answers the retried submission with a positive value,
    the same run returns 0 although a completion has failed, again without
    a wait and with a read in flight: [return err < 0 ? err : 0]. *)
Lemma failed_completion_reported_as_success :
  let cfg := sub_async_read (setup_ok 0 4) Async.faulty_positive 2 512 None 12 in
  trace_of cfg =
    [EvSubmit 0 0 0 0; EvSubmit 1 512 1 0; EvSubmit 2 1024 2 (- EBUSY); EvPoke;
     EvComplete 0 1; EvSubmit 2 1024 2 5] /\
  (exists s, cfg = Exit 0 s) /\
  length (Async.inflight (ctx (state_of cfg))) = 1%nat /\
  ~ In EvWait (trace_of cfg).
Proof.
  vm_compute. repeat split; [eexists; reflexivity|].
  intros H. repeat (destruct H as [H|H]; [discriminate|]). exact H.
Qed.

(** What the loops do keep of the protocol.  Once a completion has carried
    a non-zero status, the loop starts no further iteration: the only
    submission that still appears is the one that was pending retry when
    that completion was reaped, repeated until the device answers it
    otherwise than busy, and none in the write loop.  On a device that
    refuses as busy only when its queue is full the run is then over within
    four steps: either that submission failed and the run returned at once
    with [exit_code] of its answer, without waiting (never in the write
    loop), or the loop waited on the context, nothing is left in flight, and
    the run returns [-EIO]. *)
Theorem failed_completion_ends_run (op : opcode) (dev : Async.device)
    (zslba zcap lba_nbytes : Z) (dump : option Z) (qd : Z) (pool : list nat)
    (fuel : nat) :
  0 <= qd < 2 ^ 32 - 1 ->
  let cfg := run op dev zslba zcap lba_nbytes dump fuel (loop_entry qd pool) in
  (forall pre r st post,
     trace_of cfg = pre ++ EvComplete r st :: post -> st <> 0 ->
     errors pre = 0%nat ->
     (forall a b q e, In (EvSubmit a b q e) post -> pending pre = Some (a, b, q)) /\
     (forall p1 a b q e p2, post = p1 ++ EvSubmit a b q e :: p2 ->
        is_busy e = false -> forall y, In y p2 -> is_submit y = false)) /\
  (op = OpWrite ->
   forall pre e post,
     trace_of cfg = pre ++ e :: post -> is_submit e = true -> errors pre = 0%nat) /\
  (honest dev -> (0 < errors (trace_of cfg))%nat ->
   exists ret s',
     run op dev zslba zcap lba_nbytes dump (4 + fuel) (loop_entry qd pool) = Exit ret s' /\
     (drained ret s' \/ op <> OpWrite /\ refused ret s')).
Proof.
  intros Hqd cfg.
  assert (Hinv : fail_inv op zslba qd cfg)
    by (apply fail_inv_run; [exact Hqd | apply fail_inv_entry, Hqd]).
  assert (Hw : op = OpWrite -> forall n,
            write_clean_inv (run op dev zslba zcap lba_nbytes dump n (loop_entry qd pool))).
  { intros Hop n. induction n as [|n IH].
    - split; [|exact I]. intros p x q Heq. destruct p; discriminate.
    - rewrite run_S.
      pose proof (fail_inv_run op dev zslba zcap lba_nbytes dump qd Hqd n _
                    (fail_inv_entry op zslba qd Hqd pool)) as (Hn & _ & Hc & Hb & _).
      apply (write_clean_inv_step op dev zslba zcap lba_nbytes dump qd Hqd);
        try assumption.
      apply write_inv_run; [exact Hop | apply loop_entry_now|].
      unfold write_inv.
      change (outstanding_peak (trace_of (loop_entry qd pool))) with 0%nat.
      split; [lia | reflexivity]. }
  split; [|split].
  - intros pre r st post Htr Hst Hpre.
    destruct Hinv as (_ & _ & _ & _ & Hwatch & _).
    unfold watch_inv in Hwatch. rewrite Htr in Hwatch.
    change (pre ++ EvComplete r st :: post)
      with (pre ++ [EvComplete r st] ++ post) in Hwatch.
    rewrite watcher_app, fold_left_app in Hwatch.
    unfold watcher in Hwatch. rewrite (watch_clean pre None Hpre) in Hwatch.
    fold (pending pre) in Hwatch.
    cbn [fold_left watch_step failed] in Hwatch.
    apply Z.eqb_neq in Hst. rewrite Hst in Hwatch. cbn [negb] in Hwatch.
    eapply watch_failed_shape; [reflexivity|].
    intros Hbad. rewrite Hbad in Hwatch. exact Hwatch.
  - intros Hop pre e post Htr He.
    destruct (Hw Hop fuel) as [Hclean _]. eapply Hclean; eassumption.
  - intros Hh Hpos.
    destruct (exit_within op dev zslba zcap lba_nbytes dump qd Hqd 4 cfg Hh Hinv Hpos)
      as (ret & s' & Hrun).
    { destruct cfg as [[|req| |] s|s|ret s]; simpl; lia. }
    assert (Hfull : run op dev zslba zcap lba_nbytes dump (4 + fuel) (loop_entry qd pool)
                    = Exit ret s') by (rewrite run_add; exact Hrun).
    exists ret, s'. split; [exact Hfull|].
    assert (Hmono : forall k c, (errors (trace_of c) <=
               errors (trace_of (run op dev zslba zcap lba_nbytes dump k c)))%nat).
    { intros k c. induction k as [|k IHk]; [reflexivity|].
      rewrite run_S. etransitivity; [exact IHk|]. apply errors_step. }
    specialize (Hmono 4%nat cfg). rewrite Hrun in Hmono. cbn [trace_of] in Hmono.
    assert (Hend : fail_inv op zslba qd (Exit ret s')).
    { rewrite <- Hrun. apply fail_inv_run; assumption. }
    destruct Hend as (_ & _ & _ & _ & _ & Hend).
    destruct Hend as [Hd | Hr]; [lia | left; exact Hd | right].
    split; [|exact Hr].
    intros Hop. destruct Hr as (a & b & q & e & Hlast & _).
    apply last_Some in Hlast as [t Ht].
    destruct (Hw Hop (4 + fuel)%nat) as [Hclean _].
    rewrite Hfull in Hclean. cbn [trace_of] in Hclean.
    pose proof (Hclean t (EvSubmit a b q e) [] Ht eq_refl) as Hzero.
    rewrite Ht, errors_snoc_other in Hmono by reflexivity. lia.
Qed.

Lemma failed_completion_ends_run_witness :
  exists ret s',
    run OpRead Async.flaky 0 4 512 None (4 + 8) (loop_entry 2 [0; 1; 2]%nat) = Exit ret s' /\
    (drained ret s' \/ OpRead <> OpWrite /\ refused ret s').
Proof.
  apply (proj2 (proj2 (failed_completion_ends_run OpRead Async.flaky 0 4 512 None 2
                         [0; 1; 2]%nat 8 ltac:(lia)))).
  - intros n. reflexivity.
  - vm_compute. lia.
Defined.

End FailureClaim.

Section RetryClaim.
Import Zoned.

(** C7.  In every configuration of a run of a drive loop: a submission that
    was answered Busy or Retry is followed in the trace by a poke, by the
    completions the poke reaps, and then by the same submission (same start
    LBA, same payload, same request handle), or the loop stands at label
    [submit] about to issue it; the error count counts failed completions
    only; and the value returned is [0], [-EIO] for a non-zero error count,
    the negative value of a submission that failed otherwise than busy, or
    the result of the dump of a read, never the busy answer of a
    submission. *)
Theorem busy_submission_poked_then_retried (op : opcode) (dev : Async.device)
    (zslba zcap lba_nbytes : Z) (dump : option Z) (qd : Z) (pool : list nat)
    (fuel : nat) :
  let cfg := run op dev zslba zcap lba_nbytes dump fuel (loop_entry qd pool) in
  (forall pre a b r err post,
     trace_of cfg = pre ++ EvSubmit a b r err :: post ->
     is_busy err = true ->
     exists cpls rest, post = EvPoke :: map cpl_event cpls ++ rest /\
       ((rest = [] /\ cfg = Run (PcSubmit r) (state_of cfg) /\
         cmd_slba op zslba (state_of cfg) = a /\ payload (state_of cfg) = b) \/
        exists err' rest', rest = EvSubmit a b r err' :: rest')) /\
  ecount (args (state_of cfg)) = wrap32 (Z.of_nat (errors (trace_of cfg))) /\
  (forall ret s, cfg = Exit ret s ->
     exit_cause op dump ret s /\ (dump = None -> is_busy ret = false)).
Proof.
  intros cfg.
  assert (Hretry : retry_inv op zslba cfg) by (apply retry_inv_run; reflexivity).
  assert (Hcount : count_inv cfg) by (apply count_inv_run; reflexivity).
  assert (Hexit : exit_inv op dump cfg) by (apply exit_inv_run; exact I).
  clearbody cfg.
  split; [|split; [exact Hcount|]].
  - intros pre a b r err post Htr Hbusy.
    assert (Hok : monitor (trace_of cfg) <> MBad /\
                  forall a' b' r', monitor (trace_of cfg) <> MPoke a' b' r').
    { destruct cfg as [[|req| |] s|s|ret s]; simpl in Hretry; cbn [trace_of];
        try (rewrite Hretry; split; [|intros]; discriminate).
      destruct Hretry as [-> | ->]; (split; [|intros]; discriminate). }
    destruct Hok as [Hbad Hpoke].
    destruct (mon_busy_shape pre post a b r err _ (f_equal monitor (eq_sym Htr))
                Hbad Hbusy)
      as [[_ Hm] | (cpls & rest & -> & Hrest)]; [exfalso; eapply Hpoke; exact Hm|].
    exists cpls, rest. split; [reflexivity|].
    destruct Hrest as [[-> Hm] | Hnext]; [left | right; exact Hnext].
    split; [reflexivity|].
    destruct cfg as [[|req| |] s|s|ret s]; simpl in Hretry, Hm;
      try congruence.
    destruct Hretry as [Hr | Hr]; rewrite Hr in Hm; [discriminate|].
    injection Hm as <- <- <-. auto.
  - intros ret s Hcfg. rewrite Hcfg in Hexit. simpl in Hexit.
    split; [exact Hexit|]. intros Hdump.
    destruct Hexit as [-> | [[-> _] | [(_ & Hb & _) | (e & _ & He & _)]]];
      [reflexivity | reflexivity | exact Hb | congruence].
Qed.

Lemma busy_submission_poked_then_retried_witness :
  exists cpls rest,
    [EvPoke; EvComplete 0 0; EvSubmit 1 512 1 0; EvWait; EvComplete 1 0] =
      EvPoke :: map cpl_event cpls ++ rest /\
    ((rest = [] /\
      run OpRead (Async.eager (fun _ => 0)) 0 2 512 None 12 (loop_entry 1 [0; 1]%nat) =
        Run (PcSubmit 1)
          (state_of (run OpRead (Async.eager (fun _ => 0)) 0 2 512 None 12
                       (loop_entry 1 [0; 1]%nat))) /\
      cmd_slba OpRead 0
        (state_of (run OpRead (Async.eager (fun _ => 0)) 0 2 512 None 12
                     (loop_entry 1 [0; 1]%nat))) = 1 /\
      payload (state_of (run OpRead (Async.eager (fun _ => 0)) 0 2 512 None 12
                           (loop_entry 1 [0; 1]%nat))) = 512) \/
     exists err' rest', rest = EvSubmit 1 512 1 err' :: rest').
Proof.
  apply (proj1 (busy_submission_poked_then_retried OpRead (Async.eager (fun _ => 0))
                  0 2 512 None 1 [0; 1]%nat 12)
           [EvSubmit 0 0 0 0] 1 512 1%nat (- EBUSY)).
  - vm_compute. reflexivity.
  - reflexivity.
Defined.

End RetryClaim.

(** * Further properties *)

(** ** Zone reports: the caller's array *)

Section ReportArray.
Import Report.
Variable c : znd_enum.
Variable ssw : Z.

(** The loop keeps the length of the caller's array. *)
Lemma transform_length (ds : list znd_descr) :
  forall (idx : nat) (zbdz : list zbd_zone),
    length (transform c ssw ds idx zbdz).2 = length zbdz.
Proof.
  induction ds as [|d ds IH]; intros idx zbdz; simpl; [reflexivity|].
  destruct (zt d =? ZND_TYPE_SEQWR c); simpl.
  - rewrite IH, !length_alter. reflexivity.
  - apply length_alter.
Qed.

(** The loop never touches the entries past the end of the report. *)
Lemma transform_above (ds : list znd_descr) :
  forall (idx : nat) (zbdz : list zbd_zone) (j : nat),
    (idx + length ds <= j)%nat -> (transform c ssw ds idx zbdz).2 !! j = zbdz !! j.
Proof.
  induction ds as [|d ds IH]; intros idx zbdz j Hj; simpl in *; [reflexivity|].
  destruct (zt d =? ZND_TYPE_SEQWR c); simpl.
  - rewrite IH by lia. rewrite !list_lookup_alter_ne by lia. reflexivity.
  - rewrite list_lookup_alter_ne by lia. reflexivity.
Qed.

(** At the first descriptor with an invalid zone type the loop has written
    the extent of that entry and leaves with [-EIO]. *)
Lemma transform_invalid (pre : list znd_descr) (d : znd_descr) (post : list znd_descr) :
  forall (idx : nat) (zbdz : list zbd_zone),
    Forall (seqwr_type c) pre -> zt d <> ZND_TYPE_SEQWR c ->
    transform c ssw (pre ++ d :: post) idx zbdz =
      (- EIO, alter (set_extent ssw d) (idx + length pre)%nat
                (transform c ssw pre idx zbdz).2).
Proof.
  induction pre as [|e pre IH]; intros idx zbdz Hpre Hd; simpl.
  - apply Z.eqb_neq in Hd. rewrite Hd, Nat.add_0_r. reflexivity.
  - apply Forall_cons in Hpre as [He Hpre]. unfold seqwr_type in He.
    rewrite He, Z.eqb_refl. rewrite IH by assumption.
    replace (S idx + length pre)%nat with (idx + S (length pre))%nat by lia.
    reflexivity.
Qed.

End ReportArray.

Section ReportMore.
Import Report.

(** X1.  A report of [nr_zones] sequential-write-required zones at an offset
    within the device: the call returns [nr_zones]; entry [i] of the
    caller's array holds the start LBA, the capacity (as the zone length)
    and the write pointer of descriptor [i], each shifted from sectors to
    bytes in 64-bit arithmetic, the type sequential-write-required and the
    mapped condition; the entries past the report are left as they were. *)
Theorem report_zones_fills_array (c : znd_enum) (dev : xnvme_dev)
    (offset nr_zones : Z) (zbdz : list zbd_zone) (rprt : list znd_descr) :
  report_from_dev dev (zone_align (dev_ssw dev) (geo_nsect dev) offset) nr_zones
    = inr rprt ->
  nentries rprt = nr_zones ->
  offset <= geo_tbytes dev ->
  (length rprt <= length zbdz)%nat ->
  Forall (seqwr_type c) rprt ->
  let out := xnvme_fioe_report_zones c (Some dev) offset zbdz nr_zones in
  out.1 = to_int nr_zones /\
  length out.2 = length zbdz /\
  (forall i d, rprt !! i = Some d ->
     out.2 !! i = Some {| z_start := shl64 (zslba d) (dev_ssw dev);
                          z_wp := shl64 (wp d) (dev_ssw dev);
                          z_len := shl64 (zcap d) (dev_ssw dev);
                          z_type := ZBD_ZONE_TYPE_SWR;
                          z_cond := cond_of_state c (zs d) |}) /\
  (forall j, (length rprt <= j)%nat -> out.2 !! j = zbdz !! j).
Proof.
  intros Hrep Hn Hoff Hlen Hty out. subst out.
  unfold xnvme_fioe_report_zones. rewrite Hrep.
  replace (nentries rprt =? nr_zones) with true by (symmetry; apply Z.eqb_eq, Hn).
  replace (offset >? geo_tbytes dev) with false
    by (symmetry; rewrite Z.gtb_ltb; apply Z.ltb_ge, Hoff).
  simpl negb. cbv iota.
  pose proof (transform_no_error c (dev_ssw dev) rprt 0 zbdz Hty) as Hok.
  pose proof (transform_length c (dev_ssw dev) rprt 0 zbdz) as Hl.
  pose proof (fun j => transform_above c (dev_ssw dev) rprt 0 zbdz j) as Hab.
  pose proof (fun i d => transform_entry c (dev_ssw dev) rprt 0 zbdz i d) as Hen.
  destruct (transform c (dev_ssw dev) rprt 0 zbdz) as [err zbdz'].
  simpl in *. subst err.
  split; [reflexivity|]. split; [exact Hl|]. split.
  - intros i d Hd.
    destruct (Hen i d Hd) as [z0 [_ Hz]].
    + apply Forall_take, Hty.
    + apply lookup_lt_Some in Hd. lia.
    + rewrite Hz. reflexivity.
  - intros j Hj. apply Hab. exact Hj.
Qed.

(** X2.  A report whose first descriptor with another zone type than
    sequential-write-required is at index [length pre]: the call returns
    [-EIO], yet the caller's array has been written up to that point: the
    entries before are transformed in full, the entry of the offending
    descriptor has its start, length and write pointer overwritten and keeps
    its old type and condition, the entries after it are untouched. *)
Theorem report_zones_invalid_type (c : znd_enum) (dev : xnvme_dev)
    (offset nr_zones : Z) (zbdz : list zbd_zone)
    (pre : list znd_descr) (d : znd_descr) (post : list znd_descr) :
  report_from_dev dev (zone_align (dev_ssw dev) (geo_nsect dev) offset) nr_zones
    = inr (pre ++ d :: post) ->
  nentries (pre ++ d :: post) = nr_zones ->
  offset <= geo_tbytes dev ->
  (length (pre ++ d :: post) <= length zbdz)%nat ->
  Forall (seqwr_type c) pre ->
  zt d <> ZND_TYPE_SEQWR c ->
  let out := xnvme_fioe_report_zones c (Some dev) offset zbdz nr_zones in
  out.1 = - EIO /\
  (forall i e, pre !! i = Some e ->
     out.2 !! i = Some {| z_start := shl64 (zslba e) (dev_ssw dev);
                          z_wp := shl64 (wp e) (dev_ssw dev);
                          z_len := shl64 (zcap e) (dev_ssw dev);
                          z_type := ZBD_ZONE_TYPE_SWR;
                          z_cond := cond_of_state c (zs e) |}) /\
  (exists z0, zbdz !! length pre = Some z0 /\
     out.2 !! length pre = Some {| z_start := shl64 (zslba d) (dev_ssw dev);
                                   z_wp := shl64 (wp d) (dev_ssw dev);
                                   z_len := shl64 (zcap d) (dev_ssw dev);
                                   z_type := z_type z0;
                                   z_cond := z_cond z0 |}) /\
  (forall j, (length pre < j)%nat -> out.2 !! j = zbdz !! j).
Proof.
  intros Hrep Hn Hoff Hlen Hty Hd out. subst out.
  unfold xnvme_fioe_report_zones. rewrite Hrep.
  replace (nentries (pre ++ d :: post) =? nr_zones) with true
    by (symmetry; apply Z.eqb_eq, Hn).
  replace (offset >? geo_tbytes dev) with false
    by (symmetry; rewrite Z.gtb_ltb; apply Z.ltb_ge, Hoff).
  simpl negb. cbv iota.
  rewrite (transform_invalid c (dev_ssw dev) pre d post 0 zbdz Hty Hd).
  rewrite length_app in Hlen. simpl in Hlen.
  change (- EIO =? 0) with false. cbv iota. cbn [fst snd Nat.add].
  split; [reflexivity|]. split; [|split].
  - intros i e He.
    assert (Hi : (i < length pre)%nat) by (eapply lookup_lt_Some; exact He).
    rewrite list_lookup_alter_ne by lia.
    destruct (transform_entry c (dev_ssw dev) pre 0 zbdz i e He) as [z0 [_ Hz]].
    + apply Forall_take, Hty.
    + lia.
    + simpl in Hz. rewrite Hz. reflexivity.
  - destruct (lookup_lt_is_Some_2 zbdz (length pre)) as [z0 Hz0]; [lia|].
    exists z0. split; [exact Hz0|].
    rewrite list_lookup_alter_eq.
    rewrite (transform_above c (dev_ssw dev) pre 0 zbdz (length pre)) by (simpl; lia).
    rewrite Hz0. reflexivity.
  - intros j Hj. rewrite list_lookup_alter_ne by lia.
    apply transform_above. simpl. lia.
Qed.

(** X3.  Where the call leaves before the transformation loop, the caller's
    array is returned as it came.  Of these paths, the failure to open the
    device and the offset past the end of the device return [nr_zones], the
    value of a report that was transformed; a failed report returns
    [-errno]. *)
Theorem report_zones_array_untouched (c : znd_enum) (offset nr_zones : Z)
    (zbdz : list zbd_zone) :
  xnvme_fioe_report_zones c None offset zbdz nr_zones = (to_int nr_zones, zbdz) /\
  (forall dev errno,
     report_from_dev dev (zone_align (dev_ssw dev) (geo_nsect dev) offset) nr_zones
       = inl errno ->
     errno <> 0 ->
     xnvme_fioe_report_zones c (Some dev) offset zbdz nr_zones = (- errno, zbdz)) /\
  (forall dev rprt,
     report_from_dev dev (zone_align (dev_ssw dev) (geo_nsect dev) offset) nr_zones
       = inr rprt ->
     nentries rprt = nr_zones -> geo_tbytes dev < offset ->
     xnvme_fioe_report_zones c (Some dev) offset zbdz nr_zones = (to_int nr_zones, zbdz)).
Proof.
  split; [reflexivity|]. split.
  - intros dev errno Hrep Hne. unfold xnvme_fioe_report_zones. rewrite Hrep.
    destruct (Z.eqb_spec (- errno) 0); [lia | reflexivity].
  - intros dev rprt Hrep Hn Hoff. unfold xnvme_fioe_report_zones. rewrite Hrep.
    apply Z.eqb_eq in Hn. rewrite Hn. simpl negb. cbv iota.
    replace (offset >? geo_tbytes dev) with true
      by (symmetry; rewrite Z.gtb_ltb; apply Z.ltb_lt, Hoff).
    reflexivity.
Qed.



Lemma report_zones_fills_array_witness :
  let out := xnvme_fioe_report_zones nvme_zns
               (Some (reporting [seqwr 1 0; seqwr 14 8])) 0 (replicate 3 blank) 2 in
  out.1 = to_int 2 /\
  length out.2 = length (replicate 3 blank) /\
  (forall i d, [seqwr 1 0; seqwr 14 8] !! i = Some d ->
     out.2 !! i = Some {| z_start := shl64 (zslba d) 9;
                          z_wp := shl64 (wp d) 9;
                          z_len := shl64 (zcap d) 9;
                          z_type := ZBD_ZONE_TYPE_SWR;
                          z_cond := cond_of_state nvme_zns (zs d) |}) /\
  (forall j, (2 <= j)%nat -> out.2 !! j = replicate 3 blank !! j).
Proof.
  apply (report_zones_fills_array nvme_zns (reporting [seqwr 1 0; seqwr 14 8]) 0 2
           (replicate 3 blank) [seqwr 1 0; seqwr 14 8]).
  - reflexivity.
  - reflexivity.
  - vm_compute; discriminate.
  - simpl; lia.
  - repeat constructor.
Defined.

Lemma report_zones_invalid_type_witness :
  let bad := {| zt := 1; zs := 1; zcap := 8; zslba := 8; wp := 8 |} in
  let out := xnvme_fioe_report_zones nvme_zns
               (Some (reporting [seqwr 1 0; bad; seqwr 1 16])) 0 (replicate 3 blank) 3 in
  out.1 = - EIO /\
  (forall i e, [seqwr 1 0] !! i = Some e ->
     out.2 !! i = Some {| z_start := shl64 (zslba e) 9;
                          z_wp := shl64 (wp e) 9;
                          z_len := shl64 (zcap e) 9;
                          z_type := ZBD_ZONE_TYPE_SWR;
                          z_cond := cond_of_state nvme_zns (zs e) |}) /\
  (exists z0, replicate 3 blank !! 1%nat = Some z0 /\
     out.2 !! 1%nat = Some {| z_start := shl64 (zslba bad) 9;
                              z_wp := shl64 (wp bad) 9;
                              z_len := shl64 (zcap bad) 9;
                              z_type := z_type z0;
                              z_cond := z_cond z0 |}) /\
  (forall j, (1 < j)%nat -> out.2 !! j = replicate 3 blank !! j).
Proof.
  intros bad.
  apply (report_zones_invalid_type nvme_zns (reporting [seqwr 1 0; bad; seqwr 1 16]) 0 3
           (replicate 3 blank) [seqwr 1 0] bad [seqwr 1 16]).
  - reflexivity.
  - reflexivity.
  - vm_compute; discriminate.
  - simpl; lia.
  - repeat constructor.
  - vm_compute; discriminate.
Defined.

End ReportMore.

(** ** Write-pointer reset: the zones reached *)

Section ResetSweep.
Import Reset.
Variable send : mgmt_send.
Variables nsect : Z.
Hypothesis nsect_pos : 0 < nsect.

Lemma upto_map (n : nat) :
  forall z, upto n z nsect = map (fun k => z + Z.of_nat k * nsect) (seq 0 n).
Proof.
  induction n as [|n IH]; intros z; [reflexivity|].
  cbn [upto seq map]. f_equal; [lia|].
  rewrite IH, <- seq_shift, map_map. apply map_ext. intros k. lia.
Qed.

Lemma targets_map (z last : Z) :
  z <= last ->
  targets nsect z last =
    map (fun k => z + Z.of_nat k * nsect) (seq 0 (S (Z.to_nat ((last - z) / nsect)))).
Proof.
  intros Hz. unfold targets. destruct (Z.leb_spec z last); [|lia]. apply upto_map.
Qed.

(** A sweep in which every command succeeds reaches every target. *)
Lemma sweep_all_ok (zs : list Z) :
  forall sent,
    (forall k z, zs !! k = Some z -> send (length sent + k)%nat z = (0, 0)) ->
    sweep send zs sent = (0, sent ++ zs).
Proof.
  induction zs as [|z zs IH]; intros sent Hok; simpl.
  - rewrite app_nil_r. reflexivity.
  - pose proof (Hok 0%nat z eq_refl) as H0. rewrite Nat.add_0_r in H0. rewrite H0. simpl.
    rewrite IH.
    + rewrite <- app_assoc. reflexivity.
    + intros k y Hy. rewrite length_app. simpl.
      replace (length sent + 1 + k)%nat with (length sent + S k)%nat by lia.
      apply Hok. exact Hy.
Qed.

(** A sweep stops at the first command that fails. *)
Lemma sweep_first_failure (pre : list Z) (z : Z) (post : list Z) (err status : Z) :
  forall sent,
    (forall k y, pre !! k = Some y -> send (length sent + k)%nat y = (0, 0)) ->
    send (length sent + length pre)%nat z = (err, status) ->
    err <> 0 \/ status <> 0 ->
    sweep send (pre ++ z :: post) sent =
      (if err =? 0 then - EIO else err, sent ++ pre ++ [z]).
Proof.
  induction pre as [|y pre IH]; intros sent Hok Hz Hbad; simpl.
  - rewrite Nat.add_0_r in Hz. simpl in Hz. rewrite Hz.
    destruct (Z.eqb_spec err 0) as [He|He]; simpl.
    + destruct (Z.eqb_spec status 0); [lia | reflexivity].
    + reflexivity.
  - pose proof (Hok 0%nat y eq_refl) as H0. rewrite Nat.add_0_r in H0. rewrite H0. simpl.
    rewrite IH with (sent := sent ++ [y]).
    + rewrite <- app_assoc. reflexivity.
    + intros k x Hx. rewrite length_app. simpl.
      replace (length sent + 1 + k)%nat with (length sent + S k)%nat by lia.
      apply Hok. exact Hx.
    + rewrite length_app. simpl. simpl in Hz.
      replace (length sent + 1 + length pre)%nat with (length sent + S (length pre))%nat by lia.
      exact Hz.
    + exact Hbad.
Qed.



End ResetSweep.

Section AlignFacts.

Lemma zone_align_facts (ssw nsect offset : Z) :
  0 <= ssw -> 0 < nsect -> 0 <= offset < 2 ^ 64 ->
  exists m, 0 <= m /\ zone_align ssw nsect offset = m * nsect /\
    m * nsect * 2 ^ ssw <= offset < (m + 1) * nsect * 2 ^ ssw.
Proof.
  intros Hs Hn Ho. unfold zone_align, shr64.
  rewrite Z.shiftr_div_pow2 by exact Hs.
  assert (Hp : 0 < 2 ^ ssw) by (apply Z.pow_pos_nonneg; lia).
  set (q := offset / 2 ^ ssw).
  assert (Hq : 0 <= q) by (apply Z.div_pos; lia).
  assert (Hq1 : q * 2 ^ ssw <= offset < (q + 1) * 2 ^ ssw).
  { pose proof (Z.div_mod offset (2 ^ ssw) ltac:(lia)) as Hdm.
    pose proof (Z.mod_pos_bound offset (2 ^ ssw) Hp). fold q in Hdm. nia. }
  assert (Hm : 0 <= q / nsect) by (apply Z.div_pos; lia).
  assert (Hz : q / nsect * nsect <= q /\ q < q / nsect * nsect + nsect).
  { pose proof (Z.div_mod q nsect ltac:(lia)) as Hdm.
    pose proof (Z.mod_pos_bound q nsect Hn). nia. }
  assert (Hw : wrap64 (q / nsect * nsect) = q / nsect * nsect).
  { unfold wrap64. apply Z.mod_small. nia. }
  exists (q / nsect). rewrite Hw. split; [exact Hm|]. split; [reflexivity|]. nia.
Qed.

(** X4.  [((offset >> ssw) / nsect) * nsect] is the start LBA of the zone
    that holds the byte at [offset]: a multiple of the zone size, not past
    the byte, and less than one zone before it. *)
Theorem zone_align_is_zone_start (ssw nsect offset : Z) :
  0 <= ssw -> 0 < nsect -> 0 <= offset < 2 ^ 64 ->
  let z := zone_align ssw nsect offset in
  (nsect | z) /\ 0 <= z /\
  z * 2 ^ ssw <= offset < (z + nsect) * 2 ^ ssw.
Proof.
  intros Hs Hn Ho z. subst z.
  destruct (zone_align_facts ssw nsect offset Hs Hn Ho) as (m & Hm & -> & Hb).
  split; [exists m; reflexivity|]. split; [nia|].
  assert (Hp : 0 < 2 ^ ssw) by (apply Z.pow_pos_nonneg; lia). nia.
Qed.

Lemma zone_align_is_zone_start_witness :
  let z := zone_align 9 8 5000 in
  (8 | z) /\ 0 <= z /\ z * 2 ^ 9 <= 5000 < (z + 8) * 2 ^ 9.
Proof. apply (zone_align_is_zone_start 9 8 5000); lia. Defined.

End AlignFacts.

Section ResetMore.
Import Reset.

(** The zone of [offset] and the zone of [offset + length], as multiples of
    the zone size. *)
Lemma reset_range (ssw nsect offset length : Z) :
  0 <= ssw -> 0 < nsect -> 0 <= offset -> 0 <= length -> offset + length < 2 ^ 64 ->
  exists m l, 0 <= m <= l /\
    zone_first ssw nsect offset = m * nsect /\
    zone_last ssw nsect offset length = l * nsect /\
    m * nsect * 2 ^ ssw <= offset < (m + 1) * nsect * 2 ^ ssw /\
    l * nsect * 2 ^ ssw <= offset + length < (l + 1) * nsect * 2 ^ ssw.
Proof.
  intros Hs Hn Ho Hl Hmax. unfold zone_first, zone_last.
  assert (Hw : wrap64 (offset + length) = offset + length)
    by (unfold wrap64; apply Z.mod_small; lia).
  rewrite Hw.
  destruct (zone_align_facts ssw nsect offset Hs Hn ltac:(lia)) as (m & Hm & -> & Hmb).
  destruct (zone_align_facts ssw nsect (offset + length) Hs Hn ltac:(lia))
    as (l & Hl0 & -> & Hlb).
  exists m, l. repeat split; try lia.
  assert (Hp : 0 < 2 ^ ssw) by (apply Z.pow_pos_nonneg; lia).
  assert (m < l + 1); [|lia]. nia.
Qed.


(** X5.  A reset over a byte range that does not wrap, on a device on which
    every reset succeeds: the call returns [0] after one command to each
    zone start from the zone of [offset] up to and including the zone of
    [offset + length], in ascending order, the zone size apart. *)
Theorem reset_wp_resets_each_zone (send : mgmt_send) (ssw nsect offset length : Z)
    (fuel : nat) :
  0 <= ssw -> 0 < nsect -> 0 <= offset -> 0 <= length -> offset + length < 2 ^ 64 ->
  let first := zone_first ssw nsect offset in
  let last := zone_last ssw nsect offset length in
  let n := S (Z.to_nat ((last - first) / nsect)) in
  last + nsect < 2 ^ 64 ->
  (forall k z, send k z = (0, 0)) ->
  (n < fuel)%nat ->
  first <= last /\
  xnvme_fioe_reset_wp fuel send ssw nsect offset length =
    Some (0, map (fun k => first + Z.of_nat k * nsect) (seq 0 n)).
Proof.
  intros Hs Hn Ho Hl Hmax first last n Hlast Hok Hfuel.
  destruct (reset_range ssw nsect offset length Hs Hn Ho Hl Hmax)
    as (m & l & Hml & Hf & Hla & _).
  assert (Hle : first <= last) by (subst first last; rewrite Hf, Hla; nia).
  split; [exact Hle|].
  assert (Ht : targets nsect first last =
               map (fun k => first + Z.of_nat k * nsect) (seq 0 n))
    by (apply targets_map; assumption).
  rewrite reset_wp_sweep; try assumption.
  - fold first last. rewrite Ht. rewrite sweep_all_ok; [reflexivity|].
    intros k z _. apply Hok.
  - fold first last. rewrite Ht, length_map, length_seq. exact Hfuel.
Qed.

(** X6.  Where the command to the [j]-th zone of the sweep is the first to
    fail, the call returns the error of the command, or [-EIO] where the
    command itself returned [0] and its completion carries a status; the
    zones before have been reset and no zone after it receives a command. *)
Theorem reset_wp_failure_ends_sweep (send : mgmt_send) (ssw nsect offset length : Z)
    (fuel j : nat) (err status : Z) :
  0 <= ssw -> 0 < nsect -> 0 <= offset -> 0 <= length -> offset + length < 2 ^ 64 ->
  let first := zone_first ssw nsect offset in
  let last := zone_last ssw nsect offset length in
  let n := S (Z.to_nat ((last - first) / nsect)) in
  last + nsect < 2 ^ 64 ->
  (j < n)%nat ->
  (forall k, (k < j)%nat -> send k (first + Z.of_nat k * nsect) = (0, 0)) ->
  send j (first + Z.of_nat j * nsect) = (err, status) ->
  err <> 0 \/ status <> 0 ->
  (n < fuel)%nat ->
  xnvme_fioe_reset_wp fuel send ssw nsect offset length =
    Some (if err =? 0 then - EIO else err,
          map (fun k => first + Z.of_nat k * nsect) (seq 0 (S j))).
Proof.
  intros Hs Hn Ho Hl Hmax first last n Hlast Hj Hok Hbad Hne Hfuel.
  destruct (reset_range ssw nsect offset length Hs Hn Ho Hl Hmax)
    as (m & l & Hml & Hf & Hla & _).
  assert (Hle : first <= last) by (subst first last; rewrite Hf, Hla; nia).
  set (f := fun k : nat => first + Z.of_nat k * nsect).
  assert (Ht : targets nsect first last = map f (seq 0 n))
    by (apply targets_map; assumption).
  rewrite reset_wp_sweep; try assumption.
  2:{ fold first last. rewrite Ht, length_map, length_seq. exact Hfuel. }
  fold first last. rewrite Ht.
  assert (Hsplit : map f (seq 0 n) =
                   map f (seq 0 j) ++ f j :: map f (seq (S j) (n - S j))).
  { replace n with (j + S (n - S j))%nat at 1 by lia.
    rewrite seq_app, map_app. reflexivity. }
  assert (Hhead : map f (seq 0 (S j)) = map f (seq 0 j) ++ [f j])
    by (rewrite seq_S, map_app; reflexivity).
  rewrite Hsplit, Hhead.
  rewrite (sweep_first_failure send (map f (seq 0 j)) (f j) _ err status []).
  - reflexivity.
  - intros k y Hy. simpl.
    rewrite list_lookup_fmap in Hy.
    destruct (seq 0 j !! k) as [i|] eqn:Hi; [|discriminate].
    apply lookup_seq in Hi as [-> Hk]. injection Hy as <-. apply Hok. exact Hk.
  - simpl. rewrite length_map, length_seq. exact Hbad.
  - exact Hne.
Qed.


Lemma reset_wp_resets_each_zone_witness :
  let first := zone_first 9 8 0 in
  let last := zone_last 9 8 0 8191 in
  let n := S (Z.to_nat ((last - first) / 8)) in
  first <= last /\
  xnvme_fioe_reset_wp 5 send_ok 9 8 0 8191 =
    Some (0, map (fun k => first + Z.of_nat k * 8) (seq 0 n)).
Proof.
  apply (reset_wp_resets_each_zone send_ok 9 8 0 8191 5); try lia.
  - vm_compute; reflexivity.
  - reflexivity.
  - vm_compute; lia.
Defined.

Lemma reset_wp_failure_ends_sweep_witness :
  let first := zone_first 9 8 0 in
  xnvme_fioe_reset_wp 5 (send_bad 8) 9 8 0 (3 * 4096 - 1) =
    Some (if 0 =? 0 then - EIO else 0,
          map (fun k => first + Z.of_nat k * 8) (seq 0 2)).
Proof.
  apply (reset_wp_failure_ends_sweep (send_bad 8) 9 8 0 (3 * 4096 - 1) 5 1 0 1);
    try lia.
  - vm_compute; reflexivity.
  - vm_compute; lia.
  - intros k Hk. replace k with 0%nat by lia. reflexivity.
  - reflexivity.
  - vm_compute; lia.
Defined.


End ResetMore.

(** ** The drive loops: handles, counters and the commands of a run *)
Section AsyncHandles.
Context {H : Type}.
Variable d : Async.device.

Lemma reap_perm (fin : nat -> bool) (l : list (Async.command H)) :
  forall budget,
    (Async.reap fin budget l).1 ++ (Async.reap fin budget l).2 ≡ₚ l.
Proof.
  induction l as [|x l IH]; intros budget; simpl; [reflexivity|].
  destruct budget as [|b]; [reflexivity|].
  destruct (fin (Async.c_seq x)).
  - specialize (IH b). destruct (Async.reap fin b l). simpl in *. rewrite IH. reflexivity.
  - specialize (IH (S b)). destruct (Async.reap fin (S b) l). simpl in *.
    rewrite <- Permutation_middle. rewrite IH. reflexivity.
Qed.

(** The handles of the completions of a poke, together with those of the
    commands it leaves in flight, are the handles that were in flight. *)
Lemma poke_handles_ctx (c : Async.ctx H) (m : Z) :
  let a := Async.poke d c m in
  map fst a.2 ++ map Async.c_req (Async.inflight a.1.1)
    ≡ₚ map Async.c_req (Async.inflight c).
Proof.
  unfold Async.poke.
  destruct (Async.dv_poke_err d (Async.pokes c) <? 0); simpl; [reflexivity|].
  pose proof (reap_perm (Async.dv_finished d (Async.pokes c)) (Async.inflight c)
                (if m =? 0 then length (Async.inflight c) else Z.to_nat m)) as Hp.
  destruct (Async.reap (Async.dv_finished d (Async.pokes c))
              (if m =? 0 then length (Async.inflight c) else Z.to_nat m)
              (Async.inflight c)) as [done rest].
  simpl in *. rewrite map_map. simpl.
  rewrite <- map_app. rewrite Hp. reflexivity.
Qed.

Lemma wait_handles_ctx (c : Async.ctx H) :
  let a := Async.wait d c in
  map fst a.2 = map Async.c_req (Async.inflight c) /\ Async.inflight a.1.1 = [].
Proof.
  unfold Async.wait. simpl. rewrite map_map. split; reflexivity.
Qed.

Lemma submit_handles (c : Async.ctx H) (r : H) :
  let a := Async.submit d c r in
  (a.2 = 0 ->
   map Async.c_req (Async.inflight a.1) = map Async.c_req (Async.inflight c) ++ [r]) /\
  (a.2 <> 0 -> Async.inflight a.1 = Async.inflight c).
Proof.
  unfold Async.submit.
  destruct ((if Async.outstanding c <? Async.depth c
             then Async.dv_verdict d (Async.attempts c) else - EBUSY) =? 0) eqn:Hv;
    simpl.
  - split; [|congruence]. intros _. rewrite map_app. reflexivity.
  - split; [|reflexivity]. intros Hz. apply Z.eqb_neq in Hv. contradiction.
Qed.

End AsyncHandles.

Section ZonedHandles.
Import Zoned.
Variable op : opcode.
Variable dev : Async.device.
Variables zslba zcap lba_nbytes : Z.
Variable dump : option Z.

#[local] Abbreviation step := (Zoned.step op dev zslba zcap lba_nbytes dump).
#[local] Abbreviation run := (Zoned.run op dev zslba zcap lba_nbytes dump).

Lemma fold_cb_pool_reqs (cpls : list (nat * Z)) :
  forall s, reqs (fold_left cb_pool cpls s) = rev (map fst cpls) ++ reqs s.
Proof.
  induction cpls as [|[req status] cpls IH]; intros s; simpl; [reflexivity|].
  rewrite IH. simpl. rewrite <- app_assoc. reflexivity.
Qed.

Lemma poke_handles (s : state) (m : Z) :
  let r := xnvme_async_poke dev s m in
  reqs r.1 ++ map Async.c_req (Async.inflight (ctx r.1))
    ≡ₚ reqs s ++ map Async.c_req (Async.inflight (ctx s)).
Proof.
  pose proof (poke_handles_ctx dev (ctx s) m) as Hp. cbv zeta in *.
  destruct (poke_facts dev s m) as (_ & Hc & _). cbv zeta in Hc. rewrite Hc.
  unfold xnvme_async_poke.
  destruct (Async.poke dev (ctx s) m) as [[c ret] cpls]. cbn [fst snd] in *.
  rewrite fold_cb_pool_reqs. cbn [reqs].
  rewrite <- Hp, <- Permutation_rev. solve_Permutation.
Qed.

Lemma wait_handles (s : state) :
  let r := xnvme_async_wait dev s in
  reqs r.1 ++ map Async.c_req (Async.inflight (ctx r.1))
    ≡ₚ reqs s ++ map Async.c_req (Async.inflight (ctx s)).
Proof.
  destruct (wait_handles_ctx dev (ctx s)) as [Hm Hnil]. cbv zeta in *.
  destruct (wait_facts dev s) as (_ & Hc & _). cbv zeta in Hc. rewrite Hc, Hnil.
  unfold xnvme_async_wait.
  destruct (Async.wait dev (ctx s)) as [[c ret] cpls]. cbn [fst snd] in *.
  rewrite fold_cb_pool_reqs. cbn [reqs map]. rewrite app_nil_r, Hm.
  rewrite <- Permutation_rev. apply Permutation_app_comm.
Qed.

Lemma cmd_handles (s : state) (req : nat) :
  let r := xnvme_cmd op dev zslba s req in
  reqs r.1 = reqs s /\
  (r.2 = 0 ->
   map Async.c_req (Async.inflight (ctx r.1))
     = map Async.c_req (Async.inflight (ctx s)) ++ [req]) /\
  (r.2 <> 0 -> Async.inflight (ctx r.1) = Async.inflight (ctx s)).
Proof.
  destruct (cmd_facts op dev zslba s req) as (_ & Hc & He & _ & _ & _ & Hr).
  destruct (submit_handles dev (ctx s) req) as [Hacc Hrej]. cbv zeta in *.
  rewrite Hc, He. auto.
Qed.

Lemma conserved_step (pool : list nat) (cfg : config) :
  conserved pool cfg -> conserved pool (step cfg).
Proof.
  destruct cfg as [[|req| |] s|s|ret s]; try (intros; assumption);
    [rewrite step_head | rewrite step_submit | rewrite step_next | rewrite step_drain];
    unfold conserved, handles; cbn [held state_of app]; intros H.
  - destruct ((sect s <? zcap) && (ecount (args s) =? 0)); [|exact H].
    destruct (reqs s) as [|r rest] eqn:Hr; cbn [held state_of take_req reqs ctx app].
    + rewrite Hr. exact H.
    + exact H.
  - destruct (cmd_handles s req) as (Hr & Hacc & Hrej).
    pose proof (fun m => poke_handles (xnvme_cmd op dev zslba s req).1 m) as Hpoke.
    destruct (xnvme_cmd op dev zslba s req) as [s1 err]. cbn [fst snd] in *.
    destruct (Z.eqb_spec err 0) as [Hz|Hnz].
    + cbn [held state_of count_submitted reqs ctx app].
      rewrite Hr, (Hacc Hz), <- H.
      rewrite app_assoc. symmetry. apply Permutation_cons_append.
    + destruct ((err =? - EBUSY) || (err =? - EAGAIN)).
      * cbn [held state_of app]. specialize (Hpoke 0). cbv zeta in Hpoke.
        rewrite Hpoke, Hr, (Hrej Hnz). exact H.
      * cbn [held state_of app]. rewrite Hr, (Hrej Hnz), <- H.
        apply submseteq_cons. reflexivity.
  - destruct op; cbn [held state_of advance reqs ctx app]; try exact H.
    pose proof (wait_handles s) as Hw. cbv zeta in Hw.
    destruct (xnvme_async_wait dev s) as [s1 err]. cbn [fst snd] in *.
    destruct (err <? 0); cbn [held state_of advance reqs ctx app]; rewrite Hw, H; reflexivity.
  - pose proof (wait_handles s) as Hw. cbv zeta in Hw.
    destruct (xnvme_async_wait dev s) as [s1 err]. cbn [fst snd] in *.
    assert (Hs1 : reqs s1 ++ map Async.c_req (Async.inflight (ctx s1)) ⊆+ pool)
      by (rewrite Hw, H; reflexivity).
    destruct (err <? 0); [exact Hs1|].
    destruct (negb (ecount (args s1) =? 0)); [exact Hs1|].
    destruct op, dump; exact Hs1.
Qed.

Lemma conserved_run (pool : list nat) (fuel : nat) (cfg : config) :
  conserved pool cfg -> conserved pool (run fuel cfg).
Proof.
  intros H. induction fuel as [|fuel IH]; [exact H|].
  rewrite run_S. apply conserved_step, IH.
Qed.

Lemma conserved_entry (qd : Z) (pool : list nat) : conserved pool (loop_entry qd pool).
Proof.
  unfold conserved, handles. simpl. rewrite app_nil_r. reflexivity.
Qed.

End ZonedHandles.

Section ZonedCounters.
Import Zoned.
Variable op : opcode.
Variable dev : Async.device.
Variables zslba zcap lba_nbytes : Z.
Variable dump : option Z.

#[local] Abbreviation step := (Zoned.step op dev zslba zcap lba_nbytes dump).
#[local] Abbreviation run := (Zoned.run op dev zslba zcap lba_nbytes dump).

Lemma n_accepted_app (tr ev : list event) :
  n_accepted (tr ++ ev) = (n_accepted tr + n_accepted ev)%nat.
Proof. unfold n_accepted. rewrite List.filter_app, length_app. reflexivity. Qed.

Lemma n_completed_app (tr ev : list event) :
  n_completed (tr ++ ev) = (n_completed tr + n_completed ev)%nat.
Proof. unfold n_completed. rewrite List.filter_app, length_app. reflexivity. Qed.

Lemma n_accepted_single (e : event) :
  n_accepted [e] = if accepted e then 1%nat else 0%nat.
Proof. unfold n_accepted. simpl. destruct (accepted e); reflexivity. Qed.

Lemma n_completed_single (e : event) :
  n_completed [e] = if is_completion e then 1%nat else 0%nat.
Proof. unfold n_completed. simpl. destruct (is_completion e); reflexivity. Qed.

Lemma n_accepted_completions (first : event) (cpls : list (nat * Z)) :
  accepted first = false ->
  n_accepted (first :: map cpl_event cpls) = 0%nat.
Proof.
  intros Hf. unfold n_accepted. cbn [List.filter]. rewrite Hf.
  induction cpls as [|[r st] cpls IH]; [reflexivity|exact IH].
Qed.

Lemma n_completed_completions (first : event) (cpls : list (nat * Z)) :
  is_completion first = false ->
  n_completed (first :: map cpl_event cpls) = length cpls.
Proof.
  intros Hf. unfold n_completed. cbn [List.filter]. rewrite Hf.
  induction cpls as [|[r st] cpls IH]; [reflexivity|].
  cbn [map cpl_event List.filter is_completion length]. rewrite IH. reflexivity.
Qed.

Lemma fold_cb_pool_completed (cpls : list (nat * Z)) :
  forall s n,
    completed (args s) = wrap32 (Z.of_nat n) ->
    completed (args (fold_left cb_pool cpls s)) = wrap32 (Z.of_nat (n + length cpls)).
Proof.
  induction cpls as [|[req status] cpls IH]; intros s n Hn.
  - rewrite Nat.add_0_r. exact Hn.
  - change (fold_left cb_pool ((req, status) :: cpls) s)
      with (fold_left cb_pool cpls (cb_pool s (req, status))).
    rewrite (IH _ (S n)).
    + cbn [length]. f_equal. lia.
    + cbn [cb_pool args completed]. rewrite Hn, wrap32_succ. f_equal. lia.
Qed.

Lemma poke_completed (s : state) (m : Z) (n : nat) :
  completed (args s) = wrap32 (Z.of_nat n) ->
  completed (args (xnvme_async_poke dev s m).1) =
    wrap32 (Z.of_nat (n + length (Async.poke dev (ctx s) m).2)).
Proof.
  intros Hn. unfold xnvme_async_poke.
  destruct (Async.poke dev (ctx s) m) as [[c ret] cpls]. cbn [fst snd].
  apply fold_cb_pool_completed. exact Hn.
Qed.

Lemma wait_completed (s : state) (n : nat) :
  completed (args s) = wrap32 (Z.of_nat n) ->
  completed (args (xnvme_async_wait dev s).1) =
    wrap32 (Z.of_nat (n + length (Async.wait dev (ctx s)).2)).
Proof.
  intros Hn. unfold xnvme_async_wait.
  destruct (Async.wait dev (ctx s)) as [[c ret] cpls]. cbn [fst snd].
  apply fold_cb_pool_completed. exact Hn.
Qed.

(** The counters across a poke and across a wait. *)
Lemma counters_poke (s : state) (m : Z) :
  counters_inv (Run PcHead s) -> counters_inv (Run PcHead (xnvme_async_poke dev s m).1).
Proof.
  unfold counters_inv; cbn [trace_of state_of]. intros (Hs & Hc & Hn).
  destruct (poke_facts dev s m) as (Ht & Hx & _ & _ & _ & Hsub & _). cbv zeta in *.
  destruct (poke_facts_ctx dev (ctx s) m) as (_ & Hlen). cbv zeta in *.
  rewrite (poke_completed s m _ Hc), Ht, Hx, Hsub, n_accepted_app, n_completed_app.
  rewrite n_accepted_completions, n_completed_completions by reflexivity.
  rewrite Nat.add_0_r. repeat split; [exact Hs | lia].
Qed.

Lemma counters_wait (s : state) :
  counters_inv (Run PcHead s) -> counters_inv (Run PcHead (xnvme_async_wait dev s).1).
Proof.
  unfold counters_inv; cbn [trace_of state_of]. intros (Hs & Hc & Hn).
  destruct (wait_facts dev s) as (Ht & Hx & _ & _ & _ & Hsub & _). cbv zeta in *.
  destruct (wait_facts_ctx dev (ctx s)) as (_ & Hnil & Hlen). cbv zeta in *.
  rewrite (wait_completed s _ Hc), Ht, Hx, Hsub, n_accepted_app, n_completed_app.
  rewrite n_accepted_completions, n_completed_completions by reflexivity.
  rewrite Nat.add_0_r, Hnil, Hlen. cbn [length]. repeat split; [exact Hs | lia].
Qed.

Lemma counters_inv_step (cfg : config) : counters_inv cfg -> counters_inv (step cfg).
Proof.
  destruct cfg as [[|req| |] s|s|ret s]; try (intros; assumption);
    [rewrite step_head | rewrite step_submit | rewrite step_next | rewrite step_drain];
    intros H.
  - destruct ((sect s <? zcap) && (ecount (args s) =? 0)); [|exact H].
    destruct (reqs s) as [|r rest]; exact H.
  - pose proof (fun m => counters_poke (xnvme_cmd op dev zslba s req).1 m) as Hpoke.
    destruct (cmd_facts op dev zslba s req) as (Ht & Hc & He & _ & _ & Ha & _).
    destruct (submit_facts dev (ctx s) req) as (_ & Hacc & Hrej & _). cbv zeta in *.
    destruct (xnvme_cmd op dev zslba s req) as [s1 err]. cbn [fst snd] in *.
    unfold counters_inv in H; cbn [trace_of state_of] in H. destruct H as (Hs & Hcm & Hn).
    assert (Hmid : err <> 0 -> counters_inv (Run PcHead s1)).
    { intros Hnz. unfold counters_inv; cbn [trace_of state_of].
      rewrite Ht, Hc, Ha, n_accepted_app, n_completed_app, (Hrej ltac:(congruence)).
      rewrite n_accepted_single, n_completed_single. cbn [accepted is_completion].
      rewrite <- He. apply Z.eqb_neq in Hnz. rewrite Hnz.
      rewrite !Nat.add_0_r. auto. }
    destruct (Z.eqb_spec err 0) as [Hz|Hnz].
    + unfold counters_inv; cbn [trace_of state_of count_submitted args submitted completed ctx trace].
      destruct (Hacc ltac:(congruence)) as [_ Hl].
      rewrite Ht, Hc, Ha, n_accepted_app, n_completed_app, Hl.
      rewrite n_accepted_single, n_completed_single. cbn [accepted is_completion].
      rewrite <- He, Hz. cbn [Z.eqb]. rewrite Hs, wrap32_succ, Nat.add_0_r.
      repeat split; [f_equal; lia | exact Hcm | lia].
    + destruct ((err =? - EBUSY) || (err =? - EAGAIN)).
      * apply Hpoke, Hmid, Hnz.
      * apply Hmid, Hnz.
  - destruct op; try exact H.
    pose proof (counters_wait s H) as Hw.
    destruct (xnvme_async_wait dev s) as [s1 err]. cbn [fst snd] in *.
    destruct (err <? 0); exact Hw.
  - pose proof (counters_wait s H) as Hw.
    destruct (xnvme_async_wait dev s) as [s1 err]. cbn [fst snd] in *.
    destruct (err <? 0); [exact Hw|].
    destruct (negb (ecount (args s1) =? 0)); [exact Hw|].
    destruct op, dump; exact Hw.
Qed.

Lemma counters_inv_run (fuel : nat) (cfg : config) :
  counters_inv cfg -> counters_inv (run fuel cfg).
Proof.
  intros H. induction fuel as [|fuel IH]; [exact H|].
  rewrite run_S. apply counters_inv_step, IH.
Qed.

End ZonedCounters.

Section ZonedProgress.
Import Zoned.
Variable op : opcode.
Variable dev : Async.device.
Variables zslba zcap lba_nbytes : Z.
Variable dump : option Z.
Hypothesis zcap_range : 0 <= zcap < 2 ^ 64.

#[local] Abbreviation step := (Zoned.step op dev zslba zcap lba_nbytes dump).
#[local] Abbreviation run := (Zoned.run op dev zslba zcap lba_nbytes dump).

Lemma sect_inv_step (cfg : config) : sect_inv zcap cfg -> sect_inv zcap (step cfg).
Proof.
  destruct cfg as [[|req| |] s|s|ret s]; try (intros; assumption);
    [rewrite step_head | rewrite step_submit | rewrite step_next | rewrite step_drain];
    unfold sect_inv; cbn [state_of]; intros [Hs Hlt].
  - destruct (Z.ltb_spec (sect s) zcap); cbn [andb]; [|auto].
    destruct (ecount (args s) =? 0); [|auto].
    destruct (reqs s) as [|r rest]; cbn [state_of take_req sect]; auto.
  - destruct (cmd_facts op dev zslba s req) as (_ & _ & _ & Hs1 & _).
    pose proof (fun m => poke_facts dev (xnvme_cmd op dev zslba s req).1 m) as Hp.
    destruct (xnvme_cmd op dev zslba s req) as [s1 err]. cbn [fst snd] in *.
    destruct (err =? 0); [cbn [state_of count_submitted sect]; rewrite Hs1; auto|].
    destruct ((err =? - EBUSY) || (err =? - EAGAIN)).
    + destruct (Hp 0) as (_ & _ & _ & Hs2 & _). cbn [state_of]. rewrite Hs2, Hs1. auto.
    + cbn [state_of]. rewrite Hs1. auto.
  - assert (Hw : wrap64 (sect s + 1) = sect s + 1)
      by (unfold wrap64; apply Z.mod_small; lia).
    destruct op; cbn [state_of advance sect]; rewrite ?Hw; try (split; [lia | exact I]).
    destruct (wait_facts dev s) as (_ & _ & _ & Hs1 & _). cbv zeta in Hs1.
    destruct (xnvme_async_wait dev s) as [s1 err]. cbn [fst snd] in *.
    destruct (err <? 0); cbn [state_of advance sect]; rewrite Hs1, ?Hw; split; (lia || exact I).
  - destruct (wait_facts dev s) as (_ & _ & _ & Hs1 & _). cbv zeta in Hs1.
    destruct (xnvme_async_wait dev s) as [s1 err]. cbn [fst snd] in *.
    assert (H1 : 0 <= sect s1 <= zcap /\ True) by (rewrite Hs1; auto).
    destruct (err <? 0); [exact H1|].
    destruct (negb (ecount (args s1) =? 0)); [exact H1|].
    destruct op, dump; exact H1.
Qed.

Lemma accepted_cmds_app (tr ev : list event) :
  accepted_cmds (tr ++ ev) = accepted_cmds tr ++ accepted_cmds ev.
Proof. unfold accepted_cmds. apply flat_map_app. Qed.

Lemma accepted_cmds_completions (first : event) (cpls : list (nat * Z)) :
  accepted first = false ->
  accepted_cmds (first :: map cpl_event cpls) = [].
Proof.
  intros Hf. unfold accepted_cmds. cbn [flat_map].
  assert (Hc : flat_map (fun e => match e with
                     | EvSubmit slba pl _ err => if err =? 0 then [(slba, pl)] else []
                     | _ => []
                     end) (map cpl_event cpls) = []).
  { induction cpls as [|[r st] cpls IH]; [reflexivity|exact IH]. }
  rewrite Hc, app_nil_r.
  destruct first as [a b r err| | |r st]; try reflexivity.
  simpl in Hf. rewrite Hf. reflexivity.
Qed.

Lemma accepted_cmds_length (tr : list event) :
  length (accepted_cmds tr) = n_accepted tr.
Proof.
  unfold accepted_cmds, n_accepted.
  induction tr as [|e tr IH]; [reflexivity|].
  cbn [flat_map List.filter]. rewrite length_app, IH.
  destruct e as [a b r err| | |r st]; try reflexivity.
  cbn [accepted]. destruct (err =? 0); reflexivity.
Qed.

Lemma cmds_inv_step (cfg : config) :
  sect_inv zcap cfg ->
  cmds_inv op zslba lba_nbytes cfg -> cmds_inv op zslba lba_nbytes (step cfg).
Proof.
  destruct cfg as [[|req| |] s|s|ret s]; try (intros; assumption);
    [rewrite step_head | rewrite step_submit | rewrite step_next | rewrite step_drain];
    unfold sect_inv, cmds_inv; cbn [state_of trace_of sectors_done];
    intros [Hs Hlt] [Hp Hc].
  - destruct ((sect s <? zcap) && (ecount (args s) =? 0)); [|auto].
    destruct (reqs s) as [|r rest]; cbn [state_of trace_of sectors_done take_req sect payload trace]; auto.
  - destruct (cmd_facts op dev zslba s req) as (Ht & _ & He & Hs1 & Hp1 & _).
    pose proof (fun m => poke_facts dev (xnvme_cmd op dev zslba s req).1 m) as Hpk.
    destruct (xnvme_cmd op dev zslba s req) as [s1 err]. cbn [fst snd] in *.
    rewrite <- He in Ht.
    assert (Hmid : err <> 0 ->
              payload s1 = sect s1 * lba_nbytes /\
              accepted_cmds (trace s1) =
                map (sector_cmd op zslba lba_nbytes) (seq 0 (Z.to_nat (sect s1)))).
    { intros Hnz. rewrite Ht, Hs1, Hp1, accepted_cmds_app.
      unfold accepted_cmds at 2. cbn [flat_map]. apply Z.eqb_neq in Hnz. rewrite Hnz.
      rewrite !app_nil_r. auto. }
    destruct (Z.eqb_spec err 0) as [Hz|Hnz].
    + cbn [state_of trace_of sectors_done count_submitted sect payload trace].
      rewrite Ht, Hs1, Hp1, accepted_cmds_app, Hc, seq_S, map_app.
      split; [exact Hp|]. f_equal.
      unfold accepted_cmds. cbn [flat_map map]. rewrite Hz. cbn [Z.eqb app].
      unfold sector_cmd, cmd_slba. rewrite Nat.add_0_l, Z2Nat.id by lia. rewrite Hp.
      destruct op; reflexivity.
    + destruct ((err =? - EBUSY) || (err =? - EAGAIN)); [|apply Hmid, Hnz].
      destruct (Hmid Hnz) as [Hp2 Hc2].
      destruct (Hpk 0) as (Ht3 & _ & _ & Hs3 & Hp3 & _).
      cbn [state_of trace_of sectors_done].
      rewrite Ht3, Hs3, Hp3, accepted_cmds_app, accepted_cmds_completions by reflexivity.
      rewrite app_nil_r. auto.
  - assert (Hw : wrap64 (sect s + 1) = sect s + 1)
      by (unfold wrap64; apply Z.mod_small; lia).
    assert (Hn : Z.to_nat (sect s + 1) = S (Z.to_nat (sect s))) by lia.
    destruct op; cbn [state_of trace_of sectors_done advance sect payload trace];
      rewrite ?Hw, ?Hn; try (split; [lia | exact Hc]).
    destruct (wait_facts dev s) as (Ht1 & _ & Hr1 & Hs1 & Hp1 & _). cbv zeta in *.
    pose proof (wait_nonneg dev s) as Hnn.
    destruct (xnvme_async_wait dev s) as [s1 err]. cbn [fst snd] in *.
    destruct (Z.ltb_spec err 0); [lia|].
    cbn [state_of trace_of sectors_done advance sect payload trace].
    rewrite Ht1, Hs1, Hp1, Hw, Hn, accepted_cmds_app, accepted_cmds_completions
      by reflexivity.
    rewrite app_nil_r. split; [lia | exact Hc].
  - destruct (wait_facts dev s) as (Ht1 & _ & _ & Hs1 & Hp1 & _). cbv zeta in *.
    destruct (xnvme_async_wait dev s) as [s1 err]. cbn [fst snd] in *.
    assert (H1 : payload s1 = sect s1 * lba_nbytes /\
                 accepted_cmds (trace s1) =
                   map (sector_cmd op zslba lba_nbytes) (seq 0 (Z.to_nat (sect s1)))).
    { rewrite Ht1, Hs1, Hp1, accepted_cmds_app, accepted_cmds_completions by reflexivity.
      rewrite app_nil_r. auto. }
    destruct (err <? 0); [exact H1|].
    destruct (negb (ecount (args s1) =? 0)); [exact H1|].
    destruct op, dump; exact H1.
Qed.

End ZonedProgress.

Section ZonedFinish.
Import Zoned.
Variable op : opcode.
Variable dev : Async.device.
Variables zslba zcap lba_nbytes : Z.
Variable dump : option Z.
Variable qd : Z.
Hypothesis qd_range : 0 <= qd < 2 ^ 32 - 1.
Hypothesis verdict_sign : forall n, Async.dv_verdict dev n <= 0.

#[local] Abbreviation step := (Zoned.step op dev zslba zcap lba_nbytes dump).
#[local] Abbreviation run := (Zoned.run op dev zslba zcap lba_nbytes dump).

Lemma finish_inv_step (cfg : config) :
  sect_inv zcap cfg -> count_inv cfg -> bound_inv qd cfg ->
  finish_inv zcap cfg -> finish_inv zcap (step cfg).
Proof.
  intros Hsect Hcount Hbound Hfin.
  destruct cfg as [[|req| |] s|s|ret s]; try assumption;
    [rewrite step_head | rewrite step_submit | rewrite step_next | rewrite step_drain].
  - destruct Hsect as [Hs _]. cbn [state_of] in Hs.
    unfold count_inv in Hcount; cbn [state_of trace_of] in Hcount.
    destruct (Z.ltb_spec (sect s) zcap) as [Hlt|Hge]; cbn [andb].
    + destruct (Z.eqb_spec (ecount (args s)) 0) as [Hz|Hnz].
      * destruct (reqs s); exact I.
      * right. destruct (errors (trace s)); [|lia].
        exfalso. apply Hnz. rewrite Hcount. reflexivity.
    + left. lia.
  - destruct (cmd_facts op dev zslba s req) as (_ & _ & Herr & _).
    destruct (submit_facts dev (ctx s) req) as (_ & _ & _ & Hroom & Hfull).
    cbv zeta in *.
    destruct (xnvme_cmd op dev zslba s req) as [s1 err]. cbn [fst snd] in *.
    destruct (Z.eqb_spec err 0) as [Hz|Hnz]; [exact I|].
    destruct ((err =? - EBUSY) || (err =? - EAGAIN)); [exact I|].
    intros Hret. exfalso.
    assert (Hneg : err < 0).
    { destruct (Z.lt_ge_cases (Async.outstanding (ctx s)) (Async.depth (ctx s))) as [H|H].
      - rewrite Herr, (Hroom H) in *. specialize (verdict_sign (Async.attempts (ctx s))). lia.
      - rewrite Herr, (Hfull H). unfold EBUSY. lia. }
    unfold exit_code in Hret. destruct (Z.ltb_spec err 0); lia.
  - destruct op; try exact I.
    pose proof (wait_nonneg dev s) as Hnn.
    destruct (xnvme_async_wait dev s) as [s1 err]. cbn [fst snd] in *.
    destruct (Z.ltb_spec err 0); [lia | exact I].
  - pose proof (count_inv_wait dev s Hcount) as Hc1.
    destruct (wait_load dev s) as (Hmono & Hl & Hnil & _ & Hret).
    destruct (wait_facts dev s) as (_ & _ & _ & Hs1 & _). cbv zeta in *.
    destruct (xnvme_async_wait dev s) as [s1 err]. cbn [fst snd] in *.
    destruct (Z.ltb_spec err 0); [lia|].
    assert (Hec : (ecount (args s1) =? 0) = (errors (trace s1) =? 0)%nat).
    { apply (ecount_zero qd qd_range (Run PcHead s1)); [exact Hc1|].
      pose proof (bound_load qd qd_range _ Hbound) as Hb. unfold load in *.
      cbn [trace_of state_of] in *. lia. }
    rewrite Hec.
    destruct (Nat.eqb_spec (errors (trace s1)) 0) as [Hz|Hnz]; cbn [negb].
    + assert (Hdone : sect s1 = zcap /\ errors (trace s1) = 0%nat /\
                      Async.inflight (ctx s1) = []).
      { split; [|split; assumption]. rewrite Hs1.
        destruct Hfin as [Hf|Hf]; [exact Hf | lia]. }
      destruct op, dump; intros _; exact Hdone.
    + intros Hret0. discriminate.
Qed.

End ZonedFinish.

Section ZonedClaims.
Import Zoned.

(** On its way round the loop, control at the loop head finds a free
    handle. *)
Lemma head_has_handle (qd : Z) (pool : list nat) (s : state) :
  qd + 1 <= Z.of_nat (length pool) ->
  conserved pool (Run PcHead s) -> depth_inv qd (Run PcHead s) -> reqs s <> [].
Proof.
  unfold conserved, handles, depth_inv; cbn [held state_of app].
  intros Hpool Hc (_ & Hlen & _) Hnil.
  apply Permutation_length in Hc. rewrite Hnil, length_app, length_map in Hc.
  cbn [length] in Hc. lia.
Qed.

Lemma entry_depth (qd : Z) (pool : list nat) :
  0 <= qd -> depth_inv qd (loop_entry qd pool).
Proof.
  intros Hqd. unfold depth_inv.
  change (outstanding_peak (trace_of (loop_entry qd pool))) with 0%nat.
  cbn [state_of loop_entry ctx Async.xnvme_async_init Async.depth Async.inflight length].
  lia.
Qed.

(** X8.  In every configuration of a run of a drive loop the handles of the
    pool are accounted for: the handle held at label [submit], the free
    list and the handles of the commands in flight together are a
    rearrangement of the pool; after the return they are part of it (the
    handle of a submission that failed for good is on neither list).  With
    a pool of distinct handles, no handle is free and in flight at once, or
    attached to two commands in flight. *)
Theorem handles_conserved (op : opcode) (dev : Async.device)
    (zslba zcap lba_nbytes : Z) (dump : option Z) (qd : Z) (pool : list nat)
    (fuel : nat) :
  let cfg := run op dev zslba zcap lba_nbytes dump fuel (loop_entry qd pool) in
  match cfg with
  | Exit _ _ => handles cfg ⊆+ pool
  | _ => handles cfg ≡ₚ pool
  end /\
  (NoDup pool -> NoDup (handles cfg)).
Proof.
  intros cfg.
  assert (Hc : conserved pool cfg) by (apply conserved_run, conserved_entry).
  split; [exact Hc|].
  intros Hnd. clearbody cfg. unfold conserved in Hc.
  destruct cfg as [p s|s|ret s].
  - rewrite Hc. exact Hnd.
  - rewrite Hc. exact Hnd.
  - apply submseteq_Permutation in Hc as [k Hk]. rewrite Hk in Hnd.
    apply NoDup_app in Hnd as [Hnd _]. exact Hnd.
Qed.

(** X9.  With at least [qd + 1] handles in the pool, the loop never takes a
    handle from an empty free list: when control is at the loop head, at
    most [qd] handles are attached to commands in flight, so one is free. *)
Theorem pool_never_empty (op : opcode) (dev : Async.device)
    (zslba zcap lba_nbytes : Z) (dump : option Z) (qd : Z) (pool : list nat)
    (fuel : nat) :
  0 <= qd -> qd + 1 <= Z.of_nat (length pool) ->
  forall s, run op dev zslba zcap lba_nbytes dump fuel (loop_entry qd pool) <> Crash s.
Proof.
  intros Hqd Hpool. induction fuel as [|fuel IH]; intros s; [discriminate|].
  rewrite run_S.
  pose proof (conserved_run op dev zslba zcap lba_nbytes dump pool fuel _
                (conserved_entry qd pool)) as Hc.
  pose proof (depth_inv_run op dev zslba zcap lba_nbytes dump qd fuel _ Hqd
                (loop_entry_now qd pool) (entry_depth qd pool Hqd)) as Hd.
  destruct (run op dev zslba zcap lba_nbytes dump fuel (loop_entry qd pool))
    as [[|req| |] s0|s0|ret s0] eqn:Hrun.
  - rewrite step_head.
    destruct ((sect s0 <? zcap) && (ecount (args s0) =? 0)); [|discriminate].
    destruct (reqs s0) as [|r rest] eqn:Hr; [|discriminate].
    exfalso. exact (head_has_handle qd pool s0 Hpool Hc Hd Hr).
  - rewrite step_submit.
    destruct (xnvme_cmd op dev zslba s0 req) as [s1 err].
    destruct (err =? 0); [discriminate|].
    destruct ((err =? - EBUSY) || (err =? - EAGAIN)); discriminate.
  - rewrite step_next. destruct op; try discriminate.
    destruct (xnvme_async_wait dev s0) as [s1 err].
    destruct (err <? 0); discriminate.
  - rewrite step_drain.
    destruct (xnvme_async_wait dev s0) as [s1 err].
    destruct (err <? 0); [discriminate|].
    destruct (negb (ecount (args s1) =? 0)); [discriminate|].
    destruct op, dump; discriminate.
  - exfalso. exact (IH s0 eq_refl).
  - discriminate.
Qed.

(** X10.  The loop itself does not check the free list: with only [qd]
    handles, on a device that completes nothing before it is waited for and
    a zone of more than [qd] sectors, the read loop and the append loop fill
    the queue and then take a handle from the empty list. *)
Theorem spare_handle_is_needed (op : opcode) (status : nat -> Z)
    (zslba zcap lba_nbytes : Z) (dump : option Z) (qd : Z) (pool : list nat) :
  op <> OpWrite -> 0 <= qd -> qd < zcap < 2 ^ 64 ->
  Z.of_nat (length pool) = qd ->
  exists s,
    run op (Async.lazy status) zslba zcap lba_nbytes dump (S (3 * length pool))
      (loop_entry qd pool) = Crash s /\
    reqs s = [] /\ outstanding_now (trace s) = length pool.
Proof.
  intros Hop Hqd Hcap Hpool.
  destruct (lazy_fill op status zslba zcap lba_nbytes dump qd pool Hop
              ltac:(lia) (length pool))
    as (s & Hrun & Hsect & Hec & Hreqs & _ & _ & Hprof); try lia.
  exists s. rewrite run_S, Hrun, step_head, Hsect, Hec.
  destruct (Z.ltb_spec (Z.of_nat (length pool)) zcap); [|lia]. cbn [andb Z.eqb].
  rewrite drop_all in Hreqs. rewrite Hreqs.
  split; [reflexivity|]. split; [reflexivity|].
  unfold outstanding_now. rewrite Hprof. reflexivity.
Qed.

(** X11.  In every configuration of a run, [cb_args.submitted] is the
    number of accepted submissions and [cb_args.completed] the number of
    completions so far (as 32-bit counters), and the accepted submissions
    are the completions and the commands in flight; with nothing in flight
    the two counters agree. *)
Theorem counters_account (op : opcode) (dev : Async.device)
    (zslba zcap lba_nbytes : Z) (dump : option Z) (qd : Z) (pool : list nat)
    (fuel : nat) :
  let cfg := run op dev zslba zcap lba_nbytes dump fuel (loop_entry qd pool) in
  let s := state_of cfg in
  submitted (args s) = wrap32 (Z.of_nat (n_accepted (trace s))) /\
  completed (args s) = wrap32 (Z.of_nat (n_completed (trace s))) /\
  n_accepted (trace s) = (n_completed (trace s) + length (Async.inflight (ctx s)))%nat /\
  (Async.inflight (ctx s) = [] -> completed (args s) = submitted (args s)).
Proof.
  intros cfg s.
  assert (H : counters_inv cfg).
  { apply counters_inv_run. unfold counters_inv. simpl. auto. }
  unfold counters_inv in H. subst s.
  replace (trace (state_of cfg)) with (trace_of cfg) by (destruct cfg; reflexivity).
  destruct H as (Hs & Hc & Hn). repeat split; try assumption.
  intros Hnil. rewrite Hnil in Hn. cbn [length] in Hn.
  rewrite Hs, Hc, Hn, Nat.add_0_r. reflexivity.
Qed.

(** X12.  A run that returns [0], on a device whose refusals are negative
    codes, went through the whole zone: the accepted submissions are, in
    order, one command per sector [0 .. zcap - 1], at start LBA
    [zslba + sector] (the zone start for every append) with the payload
    [sector * lba_nbytes] bytes into the buffer; each of them completed, none
    with an error, and nothing is left in flight. *)
Theorem clean_run_covers_zone (op : opcode) (dev : Async.device)
    (zslba zcap lba_nbytes : Z) (dump : option Z) (qd : Z) (pool : list nat)
    (fuel : nat) (s : state) :
  0 <= qd < 2 ^ 32 - 1 -> 0 <= zcap < 2 ^ 64 ->
  (forall n, Async.dv_verdict dev n <= 0) ->
  run op dev zslba zcap lba_nbytes dump fuel (loop_entry qd pool) = Exit 0 s ->
  accepted_cmds (trace s) =
    map (sector_cmd op zslba lba_nbytes) (seq 0 (Z.to_nat zcap)) /\
  n_completed (trace s) = Z.to_nat zcap /\
  errors (trace s) = 0%nat /\
  Async.inflight (ctx s) = [] /\
  sect s = zcap.
Proof.
  intros Hqd Hcap Hver Hrun.
  assert (Hall : forall n,
            let cfg := run op dev zslba zcap lba_nbytes dump n (loop_entry qd pool) in
            sect_inv zcap cfg /\ cmds_inv op zslba lba_nbytes cfg /\ finish_inv zcap cfg).
  { induction n as [|n IH].
    - repeat split; simpl; try lia.
    - destruct IH as (Hs & Hc & Hf). cbv zeta. rewrite run_S.
      pose proof (fail_inv_run op dev zslba zcap lba_nbytes dump qd Hqd n _
                    (fail_inv_entry op zslba qd Hqd pool)) as (_ & _ & Hcount & Hbound & _).
      split; [apply sect_inv_step; assumption|].
      split; [apply cmds_inv_step; assumption|].
      apply (finish_inv_step op dev zslba zcap lba_nbytes dump qd Hqd Hver); assumption. }
  destruct (Hall fuel) as (_ & [_ Hcmds] & Hfin).
  pose proof (counters_inv_run op dev zslba zcap lba_nbytes dump fuel (loop_entry qd pool))
    as Hcnt.
  rewrite Hrun in Hcmds, Hfin, Hcnt.
  cbn [trace_of state_of sectors_done] in Hcmds.
  destruct (Hfin eq_refl) as (Hsect & Herr & Hnil).
  rewrite Hsect in Hcmds.
  destruct Hcnt as (_ & _ & Hn); [unfold counters_inv; simpl; auto|].
  cbn [trace_of state_of] in Hn. rewrite Hnil in Hn. cbn [length] in Hn.
  repeat split; try assumption.
  rewrite Nat.add_0_r in Hn. rewrite <- Hn, <- accepted_cmds_length, Hcmds.
  rewrite length_map, length_seq. reflexivity.
Qed.

End ZonedClaims.

Section ZonedTermination.
Import Zoned.
Variable op : opcode.
Variable dev : Async.device.
Variables zslba zcap lba_nbytes : Z.
Variable dump : option Z.
Variable qd : Z.
Variable pool : list nat.
Hypothesis zcap_range : 0 <= zcap < 2 ^ 64.
Hypothesis qd_pos : 1 <= qd.
Hypothesis pool_size : qd + 1 <= Z.of_nat (length pool).
Hypothesis dev_responsive : responsive dev.

#[local] Abbreviation step := (Zoned.step op dev zslba zcap lba_nbytes dump).
#[local] Abbreviation run := (Zoned.run op dev zslba zcap lba_nbytes dump).

Lemma reap_all {H : Type} (fin : nat -> bool) (l : list (Async.command H)) :
  (forall k, fin k = true) -> Async.reap fin (length l) l = (l, []).
Proof.
  intros Hfin. induction l as [|x l IH]; [reflexivity|].
  cbn [length Async.reap]. rewrite Hfin, IH. reflexivity.
Qed.

(** On a responsive device a poke without a limit empties the queue. *)
Lemma poke_empties (s : state) :
  Async.inflight (ctx (xnvme_async_poke dev s 0).1) = [] /\
  Async.depth (ctx (xnvme_async_poke dev s 0).1) = Async.depth (ctx s).
Proof.
  destruct dev_responsive as (_ & Hfin & Hpoke).
  destruct (poke_facts dev s 0) as (_ & Hc & _). cbv zeta in Hc. rewrite Hc.
  unfold Async.poke.
  destruct (Z.ltb_spec (Async.dv_poke_err dev (Async.pokes (ctx s))) 0) as [Hlt|_].
  { specialize (Hpoke (Async.pokes (ctx s))). lia. }
  change (0 =? 0) with true. cbv iota.
  rewrite reap_all by (intros k; apply Hfin). split; reflexivity.
Qed.

(** What a run on a responsive device keeps: [sect] within the zone, the
    queue within its depth, the handles accounted for, and a handle free
    whenever one is taken. *)
Lemma live_step (cfg : config) :
  sect_inv zcap cfg /\ now_inv cfg /\ depth_inv qd cfg /\ conserved pool cfg /\
  (forall s, cfg <> Crash s) ->
  (sect_inv zcap (step cfg) /\ now_inv (step cfg) /\ depth_inv qd (step cfg) /\
   conserved pool (step cfg) /\ (forall s, step cfg <> Crash s)) /\
  match cfg with
  | Run _ _ => distance zcap (step cfg) < distance zcap cfg
  | _ => True
  end.
Proof.
  intros (Hsect & Hnow & Hdepth & Hcons & Hlive).
  split.
  { split; [apply sect_inv_step; assumption|].
    split; [apply now_inv_step; assumption|].
    split; [apply depth_inv_step; [lia|assumption..]|].
    split; [apply conserved_step; assumption|].
    destruct cfg as [[|req| |] s|s|ret s]; intros s'.
    - rewrite step_head.
      destruct ((sect s <? zcap) && (ecount (args s) =? 0)); [|discriminate].
      destruct (reqs s) as [|r rest] eqn:Hr; [|discriminate].
      exfalso. exact (head_has_handle qd pool s pool_size Hcons Hdepth Hr).
    - rewrite step_submit.
      destruct (xnvme_cmd op dev zslba s req) as [s1 err].
      destruct (err =? 0); [discriminate|].
      destruct ((err =? - EBUSY) || (err =? - EAGAIN)); discriminate.
    - rewrite step_next. destruct op; try discriminate.
      destruct (xnvme_async_wait dev s) as [s1 err].
      destruct (err <? 0); discriminate.
    - rewrite step_drain.
      destruct (xnvme_async_wait dev s) as [s1 err].
      destruct (err <? 0); [discriminate|].
      destruct (negb (ecount (args s1) =? 0)); [discriminate|].
      destruct op, dump; discriminate.
    - exfalso. exact (Hlive s eq_refl).
    - discriminate. }
  destruct cfg as [[|req| |] s|s|ret s]; try exact I;
    destruct Hsect as [Hs Hlt]; cbn [state_of] in Hs.
  - rewrite step_head.
    destruct ((sect s <? zcap) && (ecount (args s) =? 0)); [|simpl; lia].
    destruct (reqs s) as [|r rest] eqn:Hr.
    { exfalso. exact (head_has_handle qd pool s pool_size Hcons Hdepth Hr). }
    cbn [distance take_req sect ctx].
    destruct (Async.outstanding (ctx s) <? Async.depth (ctx s)); lia.
  - rewrite step_submit.
    destruct dev_responsive as (Hver & _).
    destruct (cmd_facts op dev zslba s req) as (_ & Hc & He & Hs1 & _).
    destruct (submit_facts dev (ctx s) req) as (Hd1 & _ & Hrej & Hroom & Hfull).
    pose proof (poke_empties (xnvme_cmd op dev zslba s req).1) as Hpk.
    pose proof (poke_facts dev (xnvme_cmd op dev zslba s req).1 0) as Hpf.
    cbv zeta in *.
    destruct (xnvme_cmd op dev zslba s req) as [s1 err]. cbn [fst snd] in *.
    destruct Hdepth as (Hdq & _). cbn [state_of] in Hdq.
    cbn [distance].
    destruct (Z.ltb_spec (Async.outstanding (ctx s)) (Async.depth (ctx s))) as [Hr|Hf].
    + rewrite He, (Hroom Hr), Hver. cbn [Z.eqb distance count_submitted sect].
      rewrite Hs1. lia.
    + rewrite He, (Hfull Hf). change (- EBUSY =? 0) with false.
      change ((- EBUSY =? - EBUSY) || (- EBUSY =? - EAGAIN)) with true. cbv iota.
      cbn [distance]. destruct Hpk as [Hnil Hdp].
      destruct Hpf as (_ & _ & _ & Hs2 & _).
      unfold Async.outstanding. rewrite Hnil, Hdp, Hc, Hd1, Hdq, Hs2, Hs1.
      cbn [length]. destruct (Z.ltb_spec (Z.of_nat 0) qd); lia.
  - rewrite step_next.
    assert (Hw : wrap64 (sect s + 1) = sect s + 1)
      by (unfold wrap64; apply Z.mod_small; lia).
    destruct op; cbn [distance advance sect]; rewrite ?Hw; try lia.
    pose proof (wait_nonneg dev s) as Hnn.
    destruct (wait_facts dev s) as (_ & _ & _ & Hs1 & _). cbv zeta in Hs1.
    destruct (xnvme_async_wait dev s) as [s1 err]. cbn [fst snd] in *.
    destruct (Z.ltb_spec err 0); [lia|].
    cbn [distance advance sect]. rewrite Hs1, Hw. lia.
  - rewrite step_drain.
    destruct (xnvme_async_wait dev s) as [s1 err].
    destruct (err <? 0); [simpl; lia|].
    destruct (negb (ecount (args s1) =? 0)); [simpl; lia|].
    destruct op, dump; simpl; lia.
Qed.

Lemma terminates_within (k : nat) :
  forall cfg,
    sect_inv zcap cfg /\ now_inv cfg /\ depth_inv qd cfg /\ conserved pool cfg /\
    (forall s, cfg <> Crash s) ->
    distance zcap cfg <= Z.of_nat k ->
    exists ret s, run k cfg = Exit ret s.
Proof.
  induction k as [|k IH]; intros cfg Hinv Hdist.
  - destruct Hinv as ([Hs Hlt] & _ & _ & _ & Hlive).
    destruct cfg as [[|req| |] s|s|ret s]; cbn [distance state_of] in *; try lia.
    + destruct (Async.outstanding (ctx s) <? Async.depth (ctx s)); lia.
    + exfalso. exact (Hlive s eq_refl).
    + eauto.
  - unfold Zoned.run. rewrite Nat.iter_succ_r. fold (run k (step cfg)).
    destruct (live_step cfg Hinv) as [Hinv' Hdec].
    apply IH; [exact Hinv'|].
    destruct cfg as [p s|s|ret s]; [lia | |].
    + destruct Hinv as (_ & _ & _ & _ & Hlive). exfalso. exact (Hlive s eq_refl).
    + simpl. lia.
Qed.

End ZonedTermination.

Section ZonedTerminationClaim.
Import Zoned.

Lemma responsive_exit (op : opcode) (dev : Async.device)
    (zslba zcap lba_nbytes : Z) (dump : option Z) (qd : Z) (pool : list nat) :
  1 <= qd -> 0 <= zcap < 2 ^ 64 -> qd + 1 <= Z.of_nat (length pool) ->
  responsive dev ->
  exists ret s,
    run op dev zslba zcap lba_nbytes dump (Z.to_nat (4 * zcap + 2)) (loop_entry qd pool)
      = Exit ret s.
Proof.
  intros Hqd Hcap Hpool Hdev.
  apply (terminates_within op dev zslba zcap lba_nbytes dump qd pool Hcap Hqd Hpool Hdev).
  - split; [split; [simpl; lia | exact I]|].
    split; [apply loop_entry_now|].
    split; [apply entry_depth; lia|].
    split; [apply conserved_entry | discriminate].
  - simpl. lia.
Qed.

(** X13.  On a device that accepts every command it has room for and that
    has finished every command in flight whenever it is poked, a run with a
    queue depth of at least one returns within [4 * zcap + 2] steps of
    control: at most four per sector (take a handle, a refused submission
    with the poke that empties the queue, the accepted submission, the
    advance) and two for the final wait and the return. *)
Theorem responsive_run_terminates (op : opcode) (dev : Async.device)
    (zslba zcap lba_nbytes : Z) (dump : option Z) (qd : Z) (pool : list nat) :
  1 <= qd -> 0 <= zcap < 2 ^ 64 -> qd + 1 <= Z.of_nat (length pool) ->
  responsive dev ->
  forall fuel, (Z.to_nat (4 * zcap + 2) <= fuel)%nat ->
  exists ret s,
    run op dev zslba zcap lba_nbytes dump fuel (loop_entry qd pool) = Exit ret s.
Proof.
  intros Hqd Hcap Hpool Hdev fuel Hfuel.
  destruct (responsive_exit op dev zslba zcap lba_nbytes dump qd pool Hqd Hcap Hpool Hdev)
    as (ret & s & Hrun).
  exists ret, s.
  replace fuel with ((fuel - Z.to_nat (4 * zcap + 2)) + Z.to_nat (4 * zcap + 2))%nat by lia.
  rewrite run_add, Hrun. apply run_exit.
Qed.

End ZonedTerminationClaim.

Section ZonedHealthy.
Import Zoned.
Variable op : opcode.
Variable dev : Async.device.
Variables zslba zcap lba_nbytes : Z.
Variable dump : option Z.
Hypothesis dev_responsive : responsive dev.
Hypothesis dev_healthy : forall k, Async.dv_status dev k = 0.

#[local] Abbreviation step := (Zoned.step op dev zslba zcap lba_nbytes dump).
#[local] Abbreviation run := (Zoned.run op dev zslba zcap lba_nbytes dump).

Lemma errors_healthy (l : list (Async.command nat)) :
  errors (map cpl_event (map (Async.completion dev) l)) = 0%nat.
Proof.
  induction l as [|x l IH]; [reflexivity|].
  cbn [map]. change (?e :: ?t) with ([e] ++ t). rewrite errors_app, IH, errors_single.
  unfold cpl_event, Async.completion. cbn [snd failed]. rewrite dev_healthy. reflexivity.
Qed.

Lemma poke_healthy (s : state) (m : Z) :
  errors (trace (xnvme_async_poke dev s m).1) = errors (trace s).
Proof.
  destruct (poke_facts dev s m) as (Ht & _). cbv zeta in Ht. rewrite Ht.
  change (trace s ++ EvPoke :: map cpl_event (Async.poke dev (ctx s) m).2)
    with (trace s ++ [EvPoke] ++ map cpl_event (Async.poke dev (ctx s) m).2).
  rewrite !errors_app, errors_single. cbn [failed].
  assert (H : errors (map cpl_event (Async.poke dev (ctx s) m).2) = 0%nat).
  { unfold Async.poke.
    destruct (Async.dv_poke_err dev (Async.pokes (ctx s)) <? 0); [reflexivity|].
    destruct (Async.reap (Async.dv_finished dev (Async.pokes (ctx s)))
                (if m =? 0 then length (Async.inflight (ctx s)) else Z.to_nat m)
                (Async.inflight (ctx s))) as [done rest].
    cbn [snd]. apply errors_healthy. }
  rewrite H. lia.
Qed.

Lemma wait_healthy (s : state) :
  errors (trace (xnvme_async_wait dev s).1) = errors (trace s).
Proof.
  destruct (wait_facts dev s) as (Ht & _). cbv zeta in Ht. rewrite Ht.
  change (trace s ++ EvWait :: map cpl_event (Async.wait dev (ctx s)).2)
    with (trace s ++ [EvWait] ++ map cpl_event (Async.wait dev (ctx s)).2).
  rewrite !errors_app, errors_single. cbn [failed].
  unfold Async.wait. cbn [snd]. rewrite errors_healthy. lia.
Qed.

Lemma healthy_inv_step (cfg : config) :
  sect_inv zcap cfg -> count_inv cfg ->
  healthy_inv op dump zcap cfg -> healthy_inv op dump zcap (step cfg).
Proof.
  intros Hsect Hcount Hh.
  destruct cfg as [[|req| |] s|s|ret s]; try assumption;
    [rewrite step_head | rewrite step_submit | rewrite step_next | rewrite step_drain];
    destruct Hh as [Herr Hend]; cbn [trace_of] in Herr;
    unfold count_inv in Hcount; cbn [state_of trace_of] in Hcount;
    rewrite Herr in Hcount; change (wrap32 (Z.of_nat 0)) with 0 in Hcount.
  - destruct Hsect as [Hs _]. cbn [state_of] in Hs. rewrite Hcount. cbn [Z.eqb].
    rewrite andb_true_r.
    destruct (Z.ltb_spec (sect s) zcap).
    + destruct (reqs s); split; try exact Herr; exact I.
    + split; [exact Herr | lia].
  - destruct dev_responsive as (Hver & _).
    pose proof (cmd_errors op dev zslba s req) as He1.
    destruct (cmd_facts op dev zslba s req) as (_ & _ & He & _).
    destruct (submit_facts dev (ctx s) req) as (_ & _ & _ & Hroom & Hfull).
    pose proof (poke_healthy (xnvme_cmd op dev zslba s req).1 0) as Hp.
    cbv zeta in *.
    destruct (xnvme_cmd op dev zslba s req) as [s1 err]. cbn [fst snd] in *.
    rewrite Herr in He1.
    destruct (Z.lt_ge_cases (Async.outstanding (ctx s)) (Async.depth (ctx s))) as [Hr|Hf].
    + rewrite He, (Hroom Hr), Hver. cbn [Z.eqb]. split; [exact He1 | exact I].
    + rewrite He, (Hfull Hf). change (- EBUSY =? 0) with false.
      change ((- EBUSY =? - EBUSY) || (- EBUSY =? - EAGAIN)) with true. cbv iota.
      split; [|exact I]. cbn [trace_of]. rewrite Hp. exact He1.
  - destruct op; try (split; [exact Herr | exact I]).
    pose proof (wait_nonneg dev s) as Hnn.
    pose proof (wait_healthy s) as Hw.
    destruct (xnvme_async_wait dev s) as [s1 err]. cbn [fst snd] in *.
    destruct (Z.ltb_spec err 0); [lia|].
    split; [|exact I]. cbn [trace_of advance trace]. rewrite Hw. exact Herr.
  - pose proof (wait_nonneg dev s) as Hnn.
    pose proof (wait_healthy s) as Hw.
    pose proof (wait_drains dev s) as Hnil.
    pose proof (count_inv_wait dev s) as Hc1.
    destruct (wait_facts dev s) as (_ & _ & _ & Hs1 & _). cbv zeta in Hs1.
    destruct (xnvme_async_wait dev s) as [s1 err]. cbn [fst snd] in *.
    destruct (Z.ltb_spec err 0); [lia|].
    rewrite Hc1, Hw, Herr
      by (unfold count_inv; cbn [state_of trace_of]; rewrite Herr; exact Hcount).
    change (wrap32 (Z.of_nat 0) =? 0) with true. cbn [negb].
    assert (Hret : exit_code err = 0)
      by (unfold exit_code; destruct (Z.ltb_spec err 0); [lia | reflexivity]).
    assert (Hrest : sect s1 = zcap /\ Async.inflight (ctx s1) = [])
      by (rewrite Hs1; auto).
    unfold healthy_inv, clean_exit.
    destruct op, dump; cbn [trace_of]; rewrite Hw, ?Hret; auto.
Qed.

End ZonedHealthy.

Section ZonedHealthyClaim.
Import Zoned.

(** X14.  On such a device, when every command completes with status zero,
    the run returns [0] (for a read with [--data-output], what the dump of
    the data comes to) after one command per sector of the zone, in order,
    each of them completed, with nothing left in flight. *)
Theorem healthy_run_succeeds (op : opcode) (dev : Async.device)
    (zslba zcap lba_nbytes : Z) (dump : option Z) (qd : Z) (pool : list nat) :
  1 <= qd -> 0 <= zcap < 2 ^ 64 -> qd + 1 <= Z.of_nat (length pool) ->
  responsive dev -> (forall k, Async.dv_status dev k = 0) ->
  exists s,
    run op dev zslba zcap lba_nbytes dump (Z.to_nat (4 * zcap + 2)) (loop_entry qd pool)
      = Exit (clean_exit op dump) s /\
    accepted_cmds (trace s) =
      map (sector_cmd op zslba lba_nbytes) (seq 0 (Z.to_nat zcap)) /\
    n_completed (trace s) = Z.to_nat zcap /\
    errors (trace s) = 0%nat /\
    Async.inflight (ctx s) = [].
Proof.
  intros Hqd Hcap Hpool Hdev Hst.
  assert (Hall : forall n,
            let cfg := run op dev zslba zcap lba_nbytes dump n (loop_entry qd pool) in
            sect_inv zcap cfg /\ count_inv cfg /\ cmds_inv op zslba lba_nbytes cfg /\
            counters_inv cfg /\ healthy_inv op dump zcap cfg).
  { induction n as [|n IH].
    - repeat split; simpl; try lia.
    - destruct IH as (Hs & Hc & Hm & Hn & Hh). cbv zeta. rewrite run_S.
      split; [apply sect_inv_step; assumption|].
      split; [apply count_inv_step; assumption|].
      split; [apply cmds_inv_step; assumption|].
      split; [apply counters_inv_step; assumption|].
      apply healthy_inv_step; assumption. }
  destruct (responsive_exit op dev zslba zcap lba_nbytes dump qd pool Hqd Hcap Hpool Hdev)
    as (ret & s & Hrun).
  destruct (Hall (Z.to_nat (4 * zcap + 2))) as (_ & _ & [_ Hcmds] & Hcnt & Hh).
  rewrite Hrun in Hcmds, Hcnt, Hh.
  destruct Hh as (Herr & -> & Hsect & Hnil). cbn [trace_of] in Herr.
  cbn [trace_of state_of sectors_done] in Hcmds. rewrite Hsect in Hcmds.
  destruct Hcnt as (_ & _ & Hn). cbn [trace_of state_of] in Hn.
  rewrite Hnil in Hn. cbn [length] in Hn. rewrite Nat.add_0_r in Hn.
  exists s. repeat split; try assumption.
  rewrite <- Hn, <- accepted_cmds_length, Hcmds, length_map, length_seq. reflexivity.
Qed.

End ZonedHealthyClaim.

Section DriveLoopWitnesses.
Import Zoned.

Lemma responsive_eager (status : nat -> Z) : responsive (Async.eager status).
Proof. repeat split; intros; simpl; (reflexivity || lia). Qed.

Lemma pool_never_empty_witness :
  match run OpRead (Async.lazy (fun _ => 0)) 0 4 512 None 7
          (loop_entry 2 [0; 1; 2]%nat) with
  | Crash _ => False
  | _ => True
  end.
Proof.
  destruct (run OpRead (Async.lazy (fun _ => 0)) 0 4 512 None 7
              (loop_entry 2 [0; 1; 2]%nat)) as [p s|s|ret s] eqn:E; try exact I.
  apply (pool_never_empty OpRead (Async.lazy (fun _ => 0)) 0 4 512 None 2
           [0; 1; 2]%nat 7 ltac:(lia) ltac:(simpl; lia) s E).
Defined.

Lemma spare_handle_is_needed_witness :
  exists s,
    run OpAppend (Async.lazy (fun _ => 0)) 0 4 512 None (S (3 * length [0; 1]%nat))
      (loop_entry 2 [0; 1]%nat) = Crash s /\
    reqs s = [] /\ outstanding_now (trace s) = length [0; 1]%nat.
Proof.
  apply (spare_handle_is_needed OpAppend (fun _ => 0) 0 4 512 None 2 [0; 1]%nat);
    [discriminate | lia | lia | reflexivity].
Defined.

Lemma clean_run_covers_zone_witness :
  match run OpWrite (Async.eager (fun _ => 0)) 0 2 512 None 10
          (loop_entry 1 [0; 1]%nat) with
  | Exit ret s =>
      ret = 0 /\
      accepted_cmds (trace s) = map (sector_cmd OpWrite 0 512) (seq 0 (Z.to_nat 2)) /\
      n_completed (trace s) = Z.to_nat 2 /\
      errors (trace s) = 0%nat /\
      Async.inflight (ctx s) = [] /\
      sect s = 2
  | _ => False
  end.
Proof.
  pose proof (clean_run_covers_zone OpWrite (Async.eager (fun _ => 0)) 0 2 512 None 1
                [0; 1]%nat 10) as T.
  destruct (run OpWrite (Async.eager (fun _ => 0)) 0 2 512 None 10
              (loop_entry 1 [0; 1]%nat)) as [p s|s|ret s] eqn:E;
    try (vm_compute in E; discriminate).
  assert (Hret : ret = 0) by (vm_compute in E; congruence).
  split; [exact Hret|]. subst ret.
  apply T; [lia | lia | intros n; simpl; lia | reflexivity].
Defined.

Lemma responsive_run_terminates_witness :
  exists ret s,
    run OpRead (Async.eager (fun _ => 1)) 0 2 512 None 10 (loop_entry 1 [0; 1]%nat)
      = Exit ret s.
Proof.
  apply (responsive_run_terminates OpRead (Async.eager (fun _ => 1)) 0 2 512 None 1
           [0; 1]%nat); [lia | lia | simpl; lia | apply responsive_eager | vm_compute; lia].
Defined.

Lemma healthy_run_succeeds_witness :
  exists s,
    run OpAppend (Async.eager (fun _ => 0)) 8 2 512 None (Z.to_nat (4 * 2 + 2))
      (loop_entry 1 [0; 1]%nat) = Exit (clean_exit OpAppend None) s /\
    accepted_cmds (trace s) = map (sector_cmd OpAppend 8 512) (seq 0 (Z.to_nat 2)) /\
    n_completed (trace s) = Z.to_nat 2 /\
    errors (trace s) = 0%nat /\
    Async.inflight (ctx s) = [].
Proof.
  apply (healthy_run_succeeds OpAppend (Async.eager (fun _ => 0)) 8 2 512 None 1
           [0; 1]%nat); [lia | lia | simpl; lia | apply responsive_eager | reflexivity].
Defined.

End DriveLoopWitnesses.

(** ** The engine: events, handles and the commands of [queue] *)

Section AsyncReap.
Context {H : Type}.

Lemma reap_length (fin : nat -> bool) (l : list (Async.command H)) :
  forall budget, (length (Async.reap fin budget l).1 <= budget)%nat.
Proof.
  induction l as [|x l IH]; intros budget; simpl; [lia|].
  destruct budget as [|b]; [simpl; lia|].
  destruct (fin (Async.c_seq x)).
  - specialize (IH b). destruct (Async.reap fin b l). simpl in *. lia.
  - specialize (IH (S b)). destruct (Async.reap fin (S b) l). simpl in *. lia.
Qed.

Lemma reap_Forall (P : Async.command H -> Prop) (fin : nat -> bool)
    (l : list (Async.command H)) :
  forall budget, Forall P l ->
    Forall P (Async.reap fin budget l).1 /\ Forall P (Async.reap fin budget l).2.
Proof.
  induction l as [|x l IH]; intros budget Hl; simpl; [auto|].
  apply Forall_cons in Hl as [Hx Hl].
  destruct budget as [|b]; [simpl; auto|].
  destruct (fin (Async.c_seq x)).
  - destruct (IH b Hl) as [H1 H2]. destruct (Async.reap fin b l). simpl in *. auto.
  - destruct (IH (S b) Hl) as [H1 H2]. destruct (Async.reap fin (S b) l). simpl in *. auto.
Qed.

(** A poke with a positive limit hands at most that many completions to the
    callbacks, each of a command that was in flight, and leaves in flight
    only commands that were. *)
Lemma poke_within (d : Async.device) (P : Async.command H -> Prop)
    (c : Async.ctx H) (m : Z) :
  0 < m -> Forall P (Async.inflight c) ->
  let a := Async.poke d c m in
  Z.of_nat (length a.2) <= m /\
  (exists done, a.2 = map (Async.completion d) done /\ Forall P done) /\
  Forall P (Async.inflight a.1.1).
Proof.
  intros Hm HP. unfold Async.poke.
  destruct (Async.dv_poke_err d (Async.pokes c) <? 0); simpl.
  - split; [lia|]. split; [exists []; auto | exact HP].
  - destruct (Z.eqb_spec m 0); [lia|].
    pose proof (reap_length (Async.dv_finished d (Async.pokes c)) (Async.inflight c)
                  (Z.to_nat m)) as Hlen.
    destruct (reap_Forall P (Async.dv_finished d (Async.pokes c)) (Async.inflight c)
                (Z.to_nat m) HP) as [Hd Hr].
    destruct (Async.reap (Async.dv_finished d (Async.pokes c)) (Z.to_nat m)
                (Async.inflight c)) as [done rest].
    simpl in *. rewrite length_map. split; [lia|]. split; [|exact Hr].
    exists done. auto.
Qed.

End AsyncReap.

Section GetEventsCollect.
Import Fioe.
Variable max : Z.
Variable len : nat.
Hypothesis max_range : 0 < max < 2 ^ 32.
Hypothesis iocq_room : max <= Z.of_nat len.

Lemma pool_insert_head_armed (r : xnvme_req) (xd : xnvme_fioe_data) :
  Forall armed (files xd) -> Forall armed (files (pool_insert_head r xd)).
Proof.
  intros Hf. unfold pool_insert_head. simpl.
  apply Forall_alter; [exact Hf|]. intros f _ Hfa. exact Hfa.
Qed.

Lemma cb_pool_collecting (xd : xnvme_fioe_data) (req : xnvme_req) (status : Z) :
  req_cb_arg req <> None ->
  collecting max len xd -> completed xd < max ->
  collecting max len (cb_pool xd (req, status)) /\
  completed (cb_pool xd (req, status)) = completed xd + 1.
Proof.
  intros Harg (Hc & Hl & Ha & Hf) Hlt. unfold cb_pool.
  destruct (req_cb_arg req) as [u|]; [|contradiction].
  assert (Hw : wrap64 (completed xd + 1) = completed xd + 1)
    by (unfold wrap64; apply Z.mod_small; lia).
  split; [|simpl; exact Hw].
  unfold collecting. cbn [pool_insert_head set_files completed iocq files].
  rewrite Hw, length_insert. split; [lia|]. split; [exact Hl|]. split.
  - apply Forall_alter; [exact Ha|]. intros f _ Hfa. exact Hfa.
  - intros i Hi. unfold filled in Hf. cbn [pool_insert_head set_files completed iocq].
    cbn [pool_insert_head set_files completed] in Hi. rewrite ?Hw in Hi.
    destruct (decide (i = Z.to_nat (completed xd))) as [->|Hne].
    + eexists. apply list_lookup_insert_eq. lia.
    + destruct (Hf i ltac:(lia)) as [u0 Hu0]. exists u0.
      rewrite list_lookup_insert_ne by congruence. exact Hu0.
Qed.

Lemma fold_cb_pool_collecting (cpls : list (xnvme_req * Z)) :
  forall xd,
    Forall (fun cpl => req_cb_arg cpl.1 <> None) cpls ->
    collecting max len xd -> completed xd + Z.of_nat (length cpls) <= max ->
    collecting max len (fold_left cb_pool cpls xd) /\
    completed (fold_left cb_pool cpls xd) = completed xd + Z.of_nat (length cpls).
Proof.
  induction cpls as [|[req status] cpls IH]; intros xd Harg Hc Hsum.
  - simpl. split; [exact Hc | lia].
  - apply Forall_cons in Harg as [Hr Harg]. cbn [length] in Hsum.
    destruct (cb_pool_collecting xd req status Hr Hc ltac:(lia)) as [Hc1 Hn1].
    cbn [fold_left]. destruct (IH _ Harg Hc1 ltac:(lia)) as [Hc2 Hn2].
    split; [exact Hc2|]. rewrite Hn2, Hn1. cbn [length]. lia.
Qed.

(** What a poke of the inner loop leaves, as long as fewer than [max]
    completions have been collected. *)
Lemma poke_collecting (xd : xnvme_fioe_data) (idx : Z) (xd1 : xnvme_fioe_data) (e : Z) :
  collecting max len xd -> completed xd < max ->
  xnvme_async_poke xd idx (wrap32 (max - completed xd)) = Some (xd1, e) ->
  collecting max len xd1 /\ completed xd <= completed xd1.
Proof.
  intros Hc Hlt. pose proof Hc as (Hcr & Hl & Ha & Hf).
  assert (Hm : wrap32 (max - completed xd) = max - completed xd)
    by (unfold wrap32; apply Z.mod_small; lia).
  rewrite Hm. unfold xnvme_async_poke.
  destruct (idx <? 0); [discriminate|].
  destruct (files xd !! Z.to_nat idx) as [f|] eqn:Hfile; [|discriminate].
  assert (Hfa : armed f) by (eapply Forall_lookup_1; eassumption).
  destruct (poke_within (fw_dev f) _ (fw_ctx f) (max - completed xd) ltac:(lia) Hfa)
    as (Hn & (done & Hdone & Hda) & Hrest).
  cbv zeta in *.
  destruct (Async.poke (fw_dev f) (fw_ctx f) (max - completed xd)) as [[c ret] cpls].
  cbn [fst snd] in *. intros [= <- _].
  destruct (fold_cb_pool_collecting cpls
              (set_files (<[Z.to_nat idx := set_ctx c f]> (files xd)) xd)) as [H1 H2].
  - subst cpls. apply Forall_fmap. eapply Forall_impl; [exact Hda|].
    intros x Hx. exact Hx.
  - unfold collecting. cbn [set_files completed iocq files].
    repeat split; try assumption; try lia.
    apply Forall_insert; [exact Ha | exact Hrest].
  - cbn [set_files completed]. lia.
  - split; [exact H1|]. rewrite H2. cbn [set_files completed]. lia.
Qed.

End GetEventsCollect.

Section GetEventsCollectRun.
Import Fioe.
Variable ndebug : bool.
Variables min max : Z.
Variable len : nat.
Hypothesis max_range : 0 < max < 2 ^ 32.
Hypothesis min_max : min <= max.
Hypothesis iocq_room : max <= Z.of_nat len.

Lemma collecting_set_cur (k : Z) (xd : xnvme_fioe_data) :
  collecting max len xd -> collecting max len (set_cur k xd).
Proof. intros H. exact H. Qed.

Lemma collecting_set_prev (p : Z) (xd : xnvme_fioe_data) :
  collecting max len xd -> collecting max len (set_prev p xd).
Proof. intros H. exact H. Qed.

Lemma collect_inv_step (cfg : gconfig) :
  collect_inv min max len cfg ->
  collect_inv min max len (getevents_step ndebug min max cfg).
Proof.
  destruct cfg as [s|s|n s|s|s|s]; simpl; try (intros; assumption).
  - intros [Hc Hlt].
    destruct ((if g_fwrap s is None then true else false) ||
              (cur (g_xd s) =? nfiles (g_xd s))); simpl; auto.
  - intros [Hc Hlt].
    destruct (g_fwrap s) as [idx|]; [|simpl; auto].
    destruct ((cur (g_xd s) <? nfiles (g_xd s)) && (0 <=? g_err s)); [|simpl; auto].
    destruct (xnvme_async_poke (g_xd s) idx (wrap32 (max - completed (g_xd s))))
      as [[xd1 err]|] eqn:Hpoke; [|exact I].
    destruct (poke_collecting max len max_range iocq_room (g_xd s) idx xd1 err Hc Hlt Hpoke)
      as [Hc1 Hmono].
    destruct ((err <? 0) && negb (is_busy err)) eqn:Hhard.
    { destruct ndebug; [|exact I]. cbn [collect_inv g_xd g_err].
      apply andb_true_iff in Hhard as [Hneg Hbusy].
      apply Z.ltb_lt in Hneg. apply negb_true_iff in Hbusy.
      split; [exact Hc1|]. split; [exact Hneg | exact Hbusy]. }
    destruct (Z.leb_spec min (completed xd1)) as [Hmin|Hmin]; simpl.
    + split; [exact Hc1|]. split; [reflexivity | exact Hmin].
    + split; [exact Hc1 | lia].
Qed.

Lemma hard_inv_step (cfg : gconfig) :
  hard_inv ndebug cfg -> hard_inv ndebug (getevents_step ndebug min max cfg).
Proof.
  destruct cfg as [s|s|n s|s|s|s]; cbn [getevents_step]; intros H; try exact H.
  - destruct ((if g_fwrap s is None then true else false) ||
              (cur (g_xd s) =? nfiles (g_xd s))); exact I.
  - destruct (g_fwrap s) as [idx|]; [|exact I].
    destruct ((cur (g_xd s) <? nfiles (g_xd s)) && (0 <=? g_err s)); [|exact I].
    destruct (xnvme_async_poke (g_xd s) idx (wrap32 (max - completed (g_xd s))))
      as [[xd1 err]|]; [|exact I].
    destruct ((err <? 0) && negb (is_busy err)).
    + destruct ndebug; [reflexivity | exact I].
    + destruct (min <=? completed xd1); exact I.
Qed.

Lemma hard_inv_run (fuel : nat) (xd : xnvme_fioe_data) (polled : list Z) :
  hard_inv ndebug (getevents_run ndebug min max fuel (getevents_entry xd polled)).
Proof.
  induction fuel as [|fuel IH]; [exact I|]. simpl. apply hard_inv_step, IH.
Qed.

Lemma collect_inv_run (fuel : nat) (cfg : gconfig) :
  collect_inv min max len cfg ->
  collect_inv min max len (getevents_run ndebug min max fuel cfg).
Proof.
  intros H. induction fuel as [|fuel IH]; [exact H|]. simpl. apply collect_inv_step, IH.
Qed.

Lemma collect_inv_entry (xd : xnvme_fioe_data) (polled : list Z) :
  length (iocq xd) = len -> Forall armed (files xd) ->
  collect_inv min max len (getevents_entry xd polled).
Proof.
  intros Hl Ha. unfold getevents_entry, collect_inv, collecting, filled.
  cbn [g_xd set_completed completed iocq files].
  assert (Hq : forall y, iocq y = iocq xd -> files y = files xd ->
            (0 <= 0 <= max /\ length (iocq y) = len /\ Forall armed (files y) /\
             (forall i, (i < Z.to_nat 0)%nat -> exists u, iocq y !! i = Some (Some u)))
            /\ 0 < max).
  { intros y -> ->. repeat split; try assumption; try lia. }
  destruct (prev xd =? -1); cbn [negb andb]; [apply Hq; reflexivity|].
  destruct (prev (set_prev (prev xd + 1) xd) <? nfiles (set_prev (prev xd + 1) xd));
    apply Hq; reflexivity.
Qed.

End GetEventsCollectRun.

Section GetEventsMore.
Import Fioe.

(** X15.  [err] is assigned by the poke only, and the inner [while] is
    entered only with [err >= 0]: once a poke has answered [-EBUSY] or
    [-EAGAIN] while fewer than [min] completions are collected, the call
    goes round [for (;;)] for ever; it never returns and never pokes a
    device again, whatever completes in the meantime. *)
Theorem getevents_busy_poke_hangs (ndebug : bool) (min max : Z) (s : gstate)
    (idx : Z) (xd1 : xnvme_fioe_data) (err : Z) (fuel : nat) :
  g_fwrap s = Some idx -> cur (g_xd s) < nfiles (g_xd s) -> 0 <= g_err s ->
  xnvme_async_poke (g_xd s) idx (wrap32 (max - completed (g_xd s))) = Some (xd1, err) ->
  is_busy err = true -> completed xd1 < min ->
  result_of (getevents_run ndebug min max fuel (GInner s)) = None /\
  spinning (g_polled s ++ [idx]) (getevents_run ndebug min max (S fuel) (GInner s)).
Proof.
  intros Hf Hcur Herr Hpoke Hbusy Hmin.
  split.
  - destruct fuel as [|fuel]; [reflexivity|].
    eapply busy_poke_spins; eassumption.
  - eapply busy_poke_spins; eassumption.
Qed.

Lemma getevents_busy_poke_hangs_witness :
  let s := {| g_xd := xnvme_fioe_init [stalled] 4; g_fwrap := Some 0; g_err := 0;
              g_polled := [] |} in
  result_of (getevents_run true 1 4 7 (GInner s)) = None /\
  spinning (g_polled s ++ [0]) (getevents_run true 1 4 8 (GInner s)).
Proof.
  intros s.
  eapply (getevents_busy_poke_hangs true 1 4 s 0 _ (- EBUSY) 7).
  - reflexivity.
  - simpl. lia.
  - simpl. lia.
  - reflexivity.
  - reflexivity.
  - simpl. lia.
Defined.

End GetEventsMore.
Section AsyncSubmit.
Context {H : Type}.
Variable d : Async.device.

Lemma submit_inflight (c : Async.ctx H) (r : H) :
  let a := Async.submit d c r in
  Async.depth a.1 = Async.depth c /\
  (a.2 = 0 ->
   Async.outstanding c < Async.depth c /\
   Async.inflight a.1 =
     Async.inflight c ++ [{| Async.c_seq := Async.accepted c; Async.c_req := r |}]) /\
  (a.2 <> 0 -> Async.inflight a.1 = Async.inflight c).
Proof.
  unfold Async.submit.
  destruct (Z.ltb_spec (Async.outstanding c) (Async.depth c)) as [Hroom|Hfull].
  - destruct (Z.eqb_spec (Async.dv_verdict d (Async.attempts c)) 0) as [Hv|Hv]; simpl.
    + split; [reflexivity|]. split; [auto|]. intros Hn. contradiction.
    + split; [reflexivity|]. split; [|reflexivity]. intros Hz. contradiction.
  - change (- EBUSY =? 0) with false. simpl.
    split; [reflexivity|]. split; [|reflexivity]. intros Hz. discriminate.
Qed.

End AsyncSubmit.

Section EngineFiles.
Import Fioe.
Variable iodepth : Z.
Hypothesis iodepth_range : 0 <= iodepth < 2 ^ 32 - 1.

Lemma engine_inv_init (devs : list Async.device) :
  engine_inv iodepth (xnvme_fioe_init devs iodepth).
Proof.
  intros k f Hf. simpl in Hf. rewrite list_lookup_imap in Hf.
  destruct (devs !! k) as [d|]; [|discriminate]. injection Hf as <-.
  assert (Hw : wrap32 (iodepth + 1) = iodepth + 1)
    by (unfold wrap32; apply Z.mod_small; lia).
  unfold file_ok, file_handles, fwrap_init. simpl. rewrite Hw.
  split; [reflexivity|]. split; [lia|]. split.
  - rewrite app_nil_r, map_map. simpl. rewrite map_id. reflexivity.
  - split; [|constructor].
    apply Forall_forall. intros r Hr. apply list_elem_of_fmap in Hr as [i [-> _]].
    reflexivity.
Qed.

(** Replacing one file by a file that is in order keeps the engine in
    order. *)
Lemma engine_inv_insert (xd xd' : xnvme_fioe_data) (k : nat) (f' : xnvme_fioe_fwrap) :
  engine_inv iodepth xd -> file_ok iodepth k f' ->
  files xd' = <[k := f']> (files xd) ->
  engine_inv iodepth xd'.
Proof.
  intros Hinv Hok Hfs j f Hj. rewrite Hfs in Hj.
  destruct (decide (j = k)) as [->|Hne].
  - apply list_lookup_insert_Some in Hj as [(_ & <- & _)|[Hne _]]; [exact Hok|congruence].
  - rewrite list_lookup_insert_ne in Hj by congruence. apply Hinv, Hj.
Qed.

(** The file after an accepted submission with the handle at the head of
    its free list. *)
Lemma file_ok_accepted (k : nat) (f : xnvme_fioe_fwrap) (r : xnvme_req)
    (rest : list xnvme_req) (u : io_u) (c : Async.ctx xnvme_req) :
  file_ok iodepth k f -> fw_reqs f = r :: rest ->
  Async.depth c = Async.depth (fw_ctx f) ->
  Async.outstanding (fw_ctx f) < Async.depth (fw_ctx f) ->
  Async.inflight c =
    Async.inflight (fw_ctx f) ++
    [{| Async.c_seq := Async.accepted (fw_ctx f); Async.c_req := set_cb_arg u r |}] ->
  file_ok iodepth k (set_ctx c (set_reqs rest f)).
Proof.
  intros (Hd & Hlen & Hperm & Hfree & Hfly) Hr Hdc Hroom Hin.
  unfold file_handles in Hperm. rewrite Hr in Hperm, Hfree.
  apply Forall_cons in Hfree as [Hrk Hfree].
  unfold Async.outstanding in Hroom.
  unfold file_ok, file_handles. simpl. rewrite Hin, length_app, map_app. simpl.
  split; [congruence|]. split; [lia|]. split; [|split; [exact Hfree|]].
  - rewrite <- Hperm. simpl. rewrite app_assoc. symmetry. apply Permutation_cons_append.
  - apply Forall_app. split; [exact Hfly|]. apply Forall_singleton. simpl.
    split; [exact Hrk | discriminate].
Qed.

(** The file after the handle was put back. *)
Lemma file_ok_returned (k : nat) (f : xnvme_fioe_fwrap) (r : xnvme_req)
    (rest : list xnvme_req) (u : io_u) (c : Async.ctx xnvme_req) :
  file_ok iodepth k f -> fw_reqs f = r :: rest ->
  Async.depth c = Async.depth (fw_ctx f) ->
  Async.inflight c = Async.inflight (fw_ctx f) ->
  file_ok iodepth k (set_reqs (set_cb_arg u r :: rest) (set_ctx c (set_reqs rest f))).
Proof.
  intros (Hd & Hlen & Hperm & Hfree & Hfly) Hr Hdc Hin.
  unfold file_handles in Hperm. rewrite Hr in Hperm, Hfree.
  apply Forall_cons in Hfree as [Hrk Hfree].
  unfold file_ok, file_handles. simpl. rewrite Hin.
  split; [congruence|]. split; [exact Hlen|]. split; [exact Hperm|].
  split; [|exact Hfly]. apply Forall_cons. split; [exact Hrk | exact Hfree].
Qed.

Lemma pool_insert_head_files (req : xnvme_req) (xd2 : xnvme_fioe_data) (k : nat)
    (g : xnvme_fioe_fwrap) (fs : list xnvme_fioe_fwrap) :
  files xd2 = <[k := g]> fs -> req_pool req = k -> (k < length fs)%nat ->
  files (pool_insert_head req xd2) = <[k := set_reqs (req :: fw_reqs g) g]> fs.
Proof.
  intros Hfs Hk Hlen. unfold pool_insert_head. simpl. rewrite Hfs, Hk.
  apply list_eq. intros j. destruct (decide (j = k)) as [->|Hne].
  - rewrite list_lookup_alter_eq, !list_lookup_insert_eq by assumption. reflexivity.
  - rewrite list_lookup_alter_ne, !list_lookup_insert_ne by congruence. reflexivity.
Qed.

(** [queue] on a file that is in order: a handle is free, and the file is
    in order afterwards. *)
Lemma queue_file (ndebug : bool) (xd : xnvme_fioe_data) (u : io_u)
    (f : xnvme_fioe_fwrap) :
  engine_inv iodepth xd -> files xd !! io_fileno u = Some f ->
  match xnvme_fioe_queue ndebug false xd u with
  | QReturn _ _ xd' =>
      exists f', file_ok iodepth (io_fileno u) f' /\
        files xd' = <[io_fileno u := f']> (files xd)
  | QAbort _ _ => True
  | QFault => False
  end.
Proof.
  intros Hinv Hf.
  pose proof (Hinv _ _ Hf) as Hok. pose proof Hok as (Hd & Hlen & Hperm & Hfree & Hfly).
  assert (Hn : (io_fileno u < length (files xd))%nat) by (eapply lookup_lt_Some; exact Hf).
  unfold xnvme_fioe_queue, pool_remove_head. rewrite Hf.
  destruct (fw_reqs f) as [|r rest] eqn:Hr.
  { exfalso. apply Permutation_length in Hperm.
    unfold file_handles in Hperm. rewrite Hr in Hperm.
    rewrite length_app, !length_map in Hperm. simpl in Hperm.
    unfold Async.xnvme_req_pool_alloc in Hperm. rewrite length_seq in Hperm. lia. }
  assert (Hrk : req_pool (set_cb_arg u r) = io_fileno u).
  { apply Forall_cons in Hfree as [Hrk _]. exact Hrk. }
  destruct (io_ddir u).
  1,2: unfold xnvme_cmd; cbn [set_files files option_map];
       rewrite list_lookup_insert_eq by exact Hn;
       destruct (submit_inflight (fw_dev f) (fw_ctx f) (set_cb_arg u r))
         as (Hd1 & Hacc & Hrej);
       cbv zeta in *; cbn [set_reqs fw_dev fw_ctx];
       destruct (Async.submit (fw_dev f) (fw_ctx f) (set_cb_arg u r)) as [c err];
       cbn [fst snd option_map] in *; rewrite list_insert_insert_eq;
       (destruct (Z.eqb_spec err 0) as [Hz|Hnz];
        [ destruct (Hacc Hz) as [Hroom Hin];
          exists (set_ctx c (set_reqs rest f)); split; [|reflexivity];
          apply file_ok_accepted with (r := r) (u := u); assumption
        | assert (Hback :
              exists f', file_ok iodepth (io_fileno u) f' /\
                files (pool_insert_head (set_cb_arg u r)
                         (set_files (<[io_fileno u := set_ctx c (set_reqs rest f)]> (files xd))
                            (set_files (<[io_fileno u := set_reqs rest f]> (files xd)) xd)))
                = <[io_fileno u := f']> (files xd));
          [ eexists; split;
            [ apply (file_ok_returned (io_fileno u) f r rest u c Hok Hr Hd1 (Hrej Hnz))
            | apply pool_insert_head_files; [reflexivity | exact Hrk | exact Hn] ]
          | destruct (is_busy err); [exact Hback|]; destruct ndebug; [exact Hback | exact I] ] ]).
  destruct ndebug; cbn [option_map].
  - change (-1 =? 0) with false. change (is_busy (-1)) with false. cbv iota.
    exists (set_reqs (set_cb_arg u r :: rest) (set_ctx (fw_ctx f) (set_reqs rest f))).
    split.
    + apply file_ok_returned; [exact Hok | exact Hr | reflexivity | reflexivity].
    + apply (pool_insert_head_files _ _ _ (set_reqs rest f)); [|exact Hrk | exact Hn].
      reflexivity.
  - exact I.
Qed.

End EngineFiles.

Section EnginePoke.
Import Fioe.
Variable iodepth : Z.

Lemma poke_split {H : Type} (d : Async.device) (c : Async.ctx H) (m : Z) :
  exists done,
    (Async.poke d c m).2 = map (Async.completion d) done /\
    done ++ Async.inflight (Async.poke d c m).1.1 ≡ₚ Async.inflight c /\
    Async.depth (Async.poke d c m).1.1 = Async.depth c.
Proof.
  unfold Async.poke.
  destruct (Async.dv_poke_err d (Async.pokes c) <? 0); simpl.
  - exists []. auto.
  - pose proof (reap_perm (Async.dv_finished d (Async.pokes c)) (Async.inflight c)
                  (if m =? 0 then length (Async.inflight c) else Z.to_nat m)) as Hp.
    destruct (Async.reap (Async.dv_finished d (Async.pokes c))
                (if m =? 0 then length (Async.inflight c) else Z.to_nat m)
                (Async.inflight c)) as [done rest].
    simpl in *. exists done. auto.
Qed.

Lemma cb_pool_files (xd : xnvme_fioe_data) (req : xnvme_req) (status : Z) :
  files (cb_pool xd (req, status)) =
    alter (fun f => set_reqs (req :: fw_reqs f) f) (req_pool req) (files xd) /\
  length (iocq (cb_pool xd (req, status))) = length (iocq xd).
Proof.
  unfold cb_pool, pool_insert_head.
  destruct (req_cb_arg req); simpl; rewrite ?length_insert; auto.
Qed.

(** The callbacks of the completions of one file put the handles back on
    the free list of that file, the last one in front. *)
Lemma fold_cb_pool_files (k : nat) (cpls : list (xnvme_req * Z)) :
  forall xd,
    Forall (fun cpl => req_pool cpl.1 = k) cpls ->
    files (fold_left cb_pool cpls xd) =
      alter (fun f => set_reqs (rev (map fst cpls) ++ fw_reqs f) f) k (files xd) /\
    length (iocq (fold_left cb_pool cpls xd)) = length (iocq xd).
Proof.
  induction cpls as [|[req status] cpls IH]; intros xd Hk.
  - simpl. split; [|reflexivity]. symmetry. apply list_alter_id. intros [] ; reflexivity.
  - apply Forall_cons in Hk as [Hr Hk]. simpl in Hr.
    cbn [fold_left]. destruct (IH (cb_pool xd (req, status)) Hk) as [Hf Hl].
    destruct (cb_pool_files xd req status) as [Hf1 Hl1].
    rewrite Hf, Hl, Hf1, Hl1, Hr. split; [|reflexivity].
    rewrite list_alter_alter_eq. apply list_alter_ext; [|reflexivity].
    intros f _. simpl. rewrite <- app_assoc. reflexivity.
Qed.

Lemma poke_engine (xd : xnvme_fioe_data) (idx m : Z) (xd1 : xnvme_fioe_data) (e : Z) :
  engine_inv iodepth xd ->
  xnvme_async_poke xd idx m = Some (xd1, e) ->
  engine_inv iodepth xd1 /\ length (iocq xd1) = length (iocq xd).
Proof.
  intros Hinv. unfold xnvme_async_poke.
  destruct (idx <? 0); [discriminate|].
  destruct (files xd !! Z.to_nat idx) as [f|] eqn:Hf; [|discriminate].
  pose proof (Hinv _ _ Hf) as (Hd & Hlen & Hperm & Hfree & Hfly).
  assert (Hn : (Z.to_nat idx < length (files xd))%nat) by (eapply lookup_lt_Some; exact Hf).
  destruct (poke_split (fw_dev f) (fw_ctx f) m) as (done & Hcpls & Hsplit & Hdc).
  destruct (Async.poke (fw_dev f) (fw_ctx f) m) as [[c ret] cpls].
  cbn [fst snd] in *. intros [= <- _].
  assert (Hboth : Forall (fun c => req_pool (Async.c_req c) = Z.to_nat idx /\
                                   req_cb_arg (Async.c_req c) <> None)
                         (done ++ Async.inflight c)) by (rewrite Hsplit; exact Hfly).
  apply Forall_app in Hboth as [Hdone Hrest].
  destruct (fold_cb_pool_files (Z.to_nat idx) cpls
              (set_files (<[Z.to_nat idx := set_ctx c f]> (files xd)) xd)) as [Hfs Hl].
  { subst cpls. apply Forall_fmap. eapply Forall_impl; [exact Hdone|].
    intros x [Hx _]. exact Hx. }
  split; [|rewrite Hl; reflexivity].
  eapply (engine_inv_insert iodepth xd _ (Z.to_nat idx)); [exact Hinv | |].
  2:{ rewrite Hfs. cbn [set_files files].
      apply list_eq. intros j. destruct (decide (j = Z.to_nat idx)) as [->|Hne].
      - rewrite list_lookup_alter_eq, !list_lookup_insert_eq by assumption. reflexivity.
      - rewrite list_lookup_alter_ne, !list_lookup_insert_ne by congruence. reflexivity. }
  unfold file_ok, file_handles. simpl.
  split; [congruence|]. split.
  { apply Permutation_length in Hsplit. rewrite length_app in Hsplit. lia. }
  split.
  - rewrite <- Hperm. unfold file_handles. rewrite <- Hsplit.
    subst cpls. rewrite !map_app, map_rev, !map_map. simpl.
    rewrite <- Permutation_rev. solve_Permutation.
  - split; [|exact Hrest].
    apply Forall_app. split; [|exact Hfree].
    subst cpls. apply Forall_rev. rewrite map_map. simpl.
    apply Forall_fmap. eapply Forall_impl; [exact Hdone|]. intros x [Hx _]. exact Hx.
Qed.

End EnginePoke.

Section EngineReach.
Import Fioe.
Variable iodepth : Z.
Hypothesis iodepth_range : 0 <= iodepth < 2 ^ 32 - 1.

Lemma getevents_step_engine (ndebug : bool) (min max : Z) (len : nat) (cfg : gconfig) :
  engine_inv iodepth (gdata cfg) /\ length (iocq (gdata cfg)) = len ->
  engine_inv iodepth (gdata (getevents_step ndebug min max cfg)) /\
  length (iocq (gdata (getevents_step ndebug min max cfg))) = len.
Proof.
  destruct cfg as [s|s|n s|s|s|s]; simpl; try (intros; assumption); intros [Hinv Hl].
  - destruct ((if g_fwrap s is None then true else false) ||
              (cur (g_xd s) =? nfiles (g_xd s))); simpl; auto.
  - destruct (g_fwrap s) as [idx|]; [|simpl; auto].
    destruct ((cur (g_xd s) <? nfiles (g_xd s)) && (0 <=? g_err s)); [|simpl; auto].
    destruct (xnvme_async_poke (g_xd s) idx (wrap32 (max - completed (g_xd s))))
      as [[xd1 err]|] eqn:Hpoke; [|simpl; auto].
    destruct (poke_engine iodepth (g_xd s) idx _ xd1 err Hinv Hpoke) as [Hinv1 Hl1].
    rewrite Hl in Hl1.
    destruct ((err <? 0) && negb (is_busy err)); [destruct ndebug; simpl; auto|].
    destruct (min <=? completed xd1); simpl; auto.
Qed.

Lemma getevents_engine (ndebug : bool) (min max : Z) (fuel : nat)
    (xd : xnvme_fioe_data) (n : Z) (xd' : xnvme_fioe_data) :
  engine_inv iodepth xd ->
  xnvme_fioe_getevents ndebug min max fuel xd = Some (n, xd') ->
  engine_inv iodepth xd' /\ length (iocq xd') = length (iocq xd).
Proof.
  intros Hinv. unfold xnvme_fioe_getevents.
  assert (Hrun : engine_inv iodepth
                   (gdata (getevents_run ndebug min max fuel (getevents_entry xd []))) /\
                 length (iocq (gdata (getevents_run ndebug min max fuel
                                        (getevents_entry xd [])))) = length (iocq xd)).
  { induction fuel as [|fuel IH].
    - unfold getevents_entry. cbn [getevents_run Nat.iter gdata g_xd].
      destruct (prev xd =? -1); cbn [negb andb]; [split; [exact Hinv | reflexivity]|].
      destruct (prev (set_prev (prev xd + 1) xd) <? nfiles (set_prev (prev xd + 1) xd));
        (split; [exact Hinv | reflexivity]).
    - apply getevents_step_engine, IH. }
  destruct (getevents_run ndebug min max fuel (getevents_entry xd []))
    as [s|s|m s|s|s|s]; simpl; try discriminate; intros [= _ <-]; exact Hrun.
Qed.

Lemma queue_engine (ndebug : bool) (xd : xnvme_fioe_data) (u : io_u)
    (q : fio_q_status) (u' : io_u) (xd' : xnvme_fioe_data) :
  engine_inv iodepth xd ->
  xnvme_fioe_queue ndebug false xd u = QReturn q u' xd' ->
  engine_inv iodepth xd' /\ iocq xd' = iocq xd.
Proof.
  intros Hinv Hq.
  destruct (files xd !! io_fileno u) as [f|] eqn:Hf.
  - pose proof (queue_file iodepth iodepth_range ndebug xd u f Hinv Hf) as Hfile.
    split.
    + rewrite Hq in Hfile. destruct Hfile as (f' & Hok & Hfs).
      eapply engine_inv_insert; eassumption.
    + clear Hfile. unfold xnvme_fioe_queue, pool_remove_head in Hq. rewrite Hf in Hq.
      destruct (fw_reqs f) as [|r rest]; [discriminate|].
      destruct (io_ddir u).
      1,2: unfold xnvme_cmd in Hq; simpl in Hq;
           destruct (<[io_fileno u:=set_reqs rest f]> (files xd) !! io_fileno u);
           [|discriminate]; simpl in Hq;
           match type of Hq with context [Async.submit ?a ?b ?c] =>
             destruct (Async.submit a b c) as [c0 err] end; simpl in Hq;
           destruct (err =? 0); [injection Hq as _ _ <-; reflexivity|];
           destruct (is_busy err); [injection Hq as _ _ <-; reflexivity|];
           destruct ndebug; [injection Hq as _ _ <-; reflexivity | discriminate].
      destruct ndebug; simpl in Hq; [injection Hq as _ _ <-; reflexivity | discriminate].
  - unfold xnvme_fioe_queue, pool_remove_head in Hq. rewrite Hf in Hq. discriminate.
Qed.

Lemma reachable_engine (devs : list Async.device) (xd : xnvme_fioe_data) :
  reachable devs iodepth xd ->
  engine_inv iodepth xd /\ length (iocq xd) = Z.to_nat iodepth.
Proof.
  induction 1 as [|xd ndebug u q u' xd' _ [IH IHl] Hq
                  |xd ndebug min max fuel n xd' _ [IH IHl] Hmax Hmin Hg].
  - split; [apply engine_inv_init; assumption|]. simpl. apply length_replicate.
  - destruct (queue_engine ndebug xd u q u' xd' IH Hq) as [Hinv Hl].
    split; [exact Hinv | congruence].
  - destruct (getevents_engine ndebug min max fuel xd n xd' IH Hg) as [Hinv Hl].
    split; [exact Hinv | congruence].
Qed.

End EngineReach.

Section EngineClaims.
Import Fioe.

(** X17.  In every state that [queue] and [getevents] lead to after
    [init], [queue] finds a handle on the free list of the file: [SLIST_FIRST] is never [NULL], since at most [iodepth] of the
    [iodepth + 1] handles are in flight. *)
Theorem queue_never_faults (devs : list Async.device) (iodepth : Z)
    (xd : xnvme_fioe_data) (ndebug : bool) (u : io_u) :
  0 <= iodepth < 2 ^ 32 - 1 ->
  reachable devs iodepth xd ->
  (io_fileno u < length (files xd))%nat ->
  xnvme_fioe_queue ndebug false xd u <> QFault /\
  exists f r rest, files xd !! io_fileno u = Some f /\ fw_reqs f = r :: rest.
Proof.
  intros Hd Hr Hn. destruct (reachable_engine iodepth Hd devs xd Hr) as [Hinv _].
  destruct (lookup_lt_is_Some_2 (files xd) (io_fileno u) Hn) as [f Hf].
  pose proof (queue_file iodepth Hd ndebug xd u f Hinv Hf) as Hq.
  split.
  - intros Hfault. rewrite Hfault in Hq. exact Hq.
  - exists f. destruct (fw_reqs f) as [|r rest] eqn:Hreqs; [|eauto].
    exfalso. unfold xnvme_fioe_queue, pool_remove_head in Hq.
    rewrite Hf, Hreqs in Hq. exact Hq.
Qed.

(** X18.  In every such state, a call of [getevents] for at most [iodepth]
    events that returns [n] has left in one of two ways.  Either it returned
    [xd->completed], and then [min <= n <= max]; or a poke failed with an
    error other than [-EBUSY] and [-EAGAIN], [assert] is compiled out, and it
    returned 0, whatever [min] is and however many completions were
    collected before.  In both cases [event(i)] yields an I/O unit, not
    [NULL], for every [i] below [n]: the callbacks wrote [iocq[0 .. n - 1]],
    within the array, and no assertion of [event] fails. *)
Theorem reachable_events_are_valid (devs : list Async.device) (iodepth : Z)
    (xd : xnvme_fioe_data) (ndebug : bool) (min max : Z) (fuel : nat)
    (n : Z) (xd' : xnvme_fioe_data) :
  0 <= iodepth < 2 ^ 32 - 1 ->
  reachable devs iodepth xd ->
  0 < max <= iodepth -> min <= max ->
  xnvme_fioe_getevents ndebug min max fuel xd = Some (n, xd') ->
  ((exists s, getevents_run ndebug min max fuel (getevents_entry xd []) = GDone n s) /\
   min <= n <= max /\ n = completed xd'
   \/
   (exists s, getevents_run ndebug min max fuel (getevents_entry xd []) = GHard s /\
              g_err s < 0 /\ is_busy (g_err s) = false) /\
   ndebug = true /\ n = 0 /\ 0 <= completed xd' <= max) /\
  (forall i, 0 <= i < n ->
     exists u, xnvme_fioe_event ndebug xd' i = EventUnit (Some u)).
Proof.
  intros Hd Hr Hmax Hmin Hget.
  destruct (reachable_engine iodepth Hd devs xd Hr) as [Hinv Hl].
  assert (Harmed : Forall armed (files xd)).
  { apply Forall_lookup. intros k f Hf.
    destruct (Hinv k f Hf) as (_ & _ & _ & _ & Hfly).
    unfold armed. eapply Forall_impl; [exact Hfly|]. intros c [_ Hc]. exact Hc. }
  assert (Hinvc : collect_inv min max (length (iocq xd))
                    (getevents_run ndebug min max fuel (getevents_entry xd []))).
  { apply collect_inv_run; try assumption; try lia.
    apply collect_inv_entry; [lia | reflexivity | assumption]. }
  pose proof (hard_inv_run ndebug min max fuel xd []) as Hhard.
  unfold xnvme_fioe_getevents in Hget.
  destruct (getevents_run ndebug min max fuel (getevents_entry xd []))
    as [s|s|m s|s|s|s]; cbn [result_of] in Hget; try discriminate;
    injection Hget as <- <-.
  - destruct Hinvc as ((Hc & _ & _ & Hf) & Hn & Hmin').
    split.
    + left. split; [eexists; reflexivity|]. split; [lia | exact Hn].
    + intros i Hi. unfold xnvme_fioe_event.
      destruct (Z.ltb_spec i 0); [lia|].
      assert (Hw : wrap32 i = i) by (unfold wrap32; apply Z.mod_small; lia).
      rewrite Hw. destruct (Z.ltb_spec i (completed (g_xd s))); [|lia].
      rewrite andb_false_r.
      destruct (Hf (Z.to_nat i) ltac:(lia)) as [u Hu]. rewrite Hu. eauto.
  - destruct Hinvc as ((Hc & _) & Hneg & Hbusy).
    split.
    + right. split; [eexists; split; [reflexivity | split; assumption]|].
      split; [exact Hhard|]. split; [reflexivity | exact Hc].
    + intros i Hi. lia.
Qed.

Lemma three_devices_reachable :
  reachable (replicate 3 (Async.eager (fun _ => 0))) 4 three_devices.
Proof.
  set (d := replicate 3 (Async.eager (fun _ => 0))).
  set (u0 := io_unit 0 1 DDIR_READ 0). set (u1 := io_unit 1 2 DDIR_WRITE 4096).
  apply (reach_queue d 4 (queued (xnvme_fioe_init d 4) u0) true u1 FIO_Q_QUEUED u1).
  - apply (reach_queue d 4 (xnvme_fioe_init d 4) true u0 FIO_Q_QUEUED u0).
    + apply reach_init.
    + reflexivity.
  - reflexivity.
Qed.

Lemma queue_never_faults_witness :
  let u := io_unit 2 1 DDIR_READ 4096 in
  xnvme_fioe_queue true false three_devices u <> QFault /\
  exists f r rest, files three_devices !! io_fileno u = Some f /\ fw_reqs f = r :: rest.
Proof.
  intros u.
  apply (queue_never_faults (replicate 3 (Async.eager (fun _ => 0))) 4 three_devices
           true u); [lia | apply three_devices_reachable | simpl; lia].
Defined.

Lemma reachable_events_are_valid_witness :
  match xnvme_fioe_getevents true 1 4 5 three_devices with
  | Some (n, xd') =>
      ((exists s, getevents_run true 1 4 5 (getevents_entry three_devices []) = GDone n s) /\
       1 <= n <= 4 /\ n = completed xd'
       \/
       (exists s, getevents_run true 1 4 5 (getevents_entry three_devices []) = GHard s /\
                  g_err s < 0 /\ is_busy (g_err s) = false) /\
       true = true /\ n = 0 /\ 0 <= completed xd' <= 4) /\
      (forall i, 0 <= i < n ->
         exists u, xnvme_fioe_event true xd' i = EventUnit (Some u))
  | None => False
  end.
Proof.
  pose proof (reachable_events_are_valid (replicate 3 (Async.eager (fun _ => 0))) 4
                three_devices true 1 4 5) as T.
  destruct (xnvme_fioe_getevents true 1 4 5 three_devices) as [[n xd']|] eqn:E;
    [| vm_compute in E; discriminate].
  apply T; [lia | apply three_devices_reachable | lia | lia | reflexivity].
Defined.

End EngineClaims.

Section EngineLog.
Import Fioe.
Variable iodepth : Z.
Hypothesis iodepth_range : 0 <= iodepth < 2 ^ 32 - 1.

Lemma reachable_log_reachable (devs : list Async.device) (xd : xnvme_fioe_data)
    (log : queue_log) :
  reachable_log devs iodepth xd log -> reachable devs iodepth xd.
Proof.
  induction 1 as [|xd log ndebug u q u' xd' _ IH Hq
                  |xd log ndebug min max fuel n xd' _ IH Hmax Hmin Hg].
  - apply reach_init.
  - eapply reach_queue; eassumption.
  - eapply reach_getevents; eassumption.
Qed.

Lemma shrunk_refl (xd xd' : xnvme_fioe_data) :
  files xd' = files xd -> shrunk xd xd'.
Proof. intros Hf k f' Hk. rewrite Hf in Hk. exists f'. auto. Qed.

Lemma shrunk_trans (xd1 xd2 xd3 : xnvme_fioe_data) :
  shrunk xd1 xd2 -> shrunk xd2 xd3 -> shrunk xd1 xd3.
Proof.
  intros H12 H23 k f3 Hk.
  destruct (H23 k f3 Hk) as (f2 & Hk2 & Hsub2).
  destruct (H12 k f2 Hk2) as (f1 & Hk1 & Hsub1).
  exists f1. split; [exact Hk1|]. intros c Hc. apply Hsub1, Hsub2, Hc.
Qed.

Lemma cb_pool_shrunk (xd : xnvme_fioe_data) (cpl : xnvme_req * Z) :
  shrunk xd (cb_pool xd cpl).
Proof.
  destruct cpl as [req status]. intros k f' Hk.
  destruct (cb_pool_files xd req status) as [Hfs _]. rewrite Hfs in Hk.
  destruct (decide (k = req_pool req)) as [->|Hne].
  - rewrite list_lookup_alter_eq in Hk.
    destruct (files xd !! req_pool req) as [f|]; [|discriminate].
    injection Hk as <-. exists f. split; [reflexivity|]. intros c Hc. exact Hc.
  - rewrite list_lookup_alter_ne in Hk by congruence.
    exists f'. split; [exact Hk|]. intros c Hc. exact Hc.
Qed.

Lemma fold_cb_pool_shrunk (cpls : list (xnvme_req * Z)) :
  forall xd, shrunk xd (fold_left cb_pool cpls xd).
Proof.
  induction cpls as [|cpl cpls IH]; intros xd.
  - apply shrunk_refl. reflexivity.
  - cbn [fold_left]. eapply shrunk_trans; [apply cb_pool_shrunk | apply IH].
Qed.

Lemma poke_shrunk (xd : xnvme_fioe_data) (idx m : Z) (xd1 : xnvme_fioe_data) (e : Z) :
  xnvme_async_poke xd idx m = Some (xd1, e) -> shrunk xd xd1.
Proof.
  unfold xnvme_async_poke.
  destruct (idx <? 0); [discriminate|].
  destruct (files xd !! Z.to_nat idx) as [f|] eqn:Hf; [|discriminate].
  destruct (poke_split (fw_dev f) (fw_ctx f) m) as (done & _ & Hsplit & _).
  destruct (Async.poke (fw_dev f) (fw_ctx f) m) as [[c ret] cpls].
  cbn [fst snd] in *. intros [= <- _].
  eapply shrunk_trans; [|apply fold_cb_pool_shrunk].
  intros k f' Hk. cbn [set_files files] in Hk.
  destruct (decide (k = Z.to_nat idx)) as [->|Hne].
  - apply list_lookup_insert_Some in Hk as [(_ & <- & _)|[Hne _]]; [|congruence].
    exists f. split; [exact Hf|]. intros x Hx. cbn [set_ctx fw_ctx] in Hx.
    rewrite <- Hsplit. apply elem_of_app. right. exact Hx.
  - rewrite list_lookup_insert_ne in Hk by congruence.
    exists f'. split; [exact Hk|]. intros x Hx. exact Hx.
Qed.

Lemma getevents_step_shrunk (ndebug : bool) (min max : Z) (cfg : gconfig) :
  shrunk (gdata cfg) (gdata (getevents_step ndebug min max cfg)).
Proof.
  destruct cfg as [s|s|n s|s|s|s]; cbn [getevents_step gdata];
    try (apply shrunk_refl; reflexivity).
  - destruct ((if g_fwrap s is None then true else false) ||
              (cur (g_xd s) =? nfiles (g_xd s))); apply shrunk_refl; reflexivity.
  - destruct (g_fwrap s) as [idx|]; [|apply shrunk_refl; reflexivity].
    destruct ((cur (g_xd s) <? nfiles (g_xd s)) && (0 <=? g_err s));
      [|apply shrunk_refl; reflexivity].
    destruct (xnvme_async_poke (g_xd s) idx (wrap32 (max - completed (g_xd s))))
      as [[xd1 err]|] eqn:Hpoke; [|apply shrunk_refl; reflexivity].
    pose proof (poke_shrunk _ _ _ _ _ Hpoke) as Hs.
    destruct ((err <? 0) && negb (is_busy err)); [destruct ndebug; exact Hs|].
    destruct (min <=? completed xd1); exact Hs.
Qed.

Lemma getevents_shrunk (ndebug : bool) (min max : Z) (fuel : nat)
    (xd : xnvme_fioe_data) (n : Z) (xd' : xnvme_fioe_data) :
  xnvme_fioe_getevents ndebug min max fuel xd = Some (n, xd') -> shrunk xd xd'.
Proof.
  unfold xnvme_fioe_getevents.
  assert (Hrun : shrunk xd (gdata (getevents_run ndebug min max fuel
                                     (getevents_entry xd [])))).
  { induction fuel as [|fuel IH].
    - apply shrunk_refl. unfold getevents_entry. cbn [getevents_run Nat.iter gdata g_xd].
      destruct (prev xd =? -1); cbn [negb andb]; [reflexivity|].
      destruct (prev (set_prev (prev xd + 1) xd) <? nfiles (set_prev (prev xd + 1) xd));
        reflexivity.
    - eapply shrunk_trans; [exact IH|]. apply getevents_step_shrunk. }
  destruct (getevents_run ndebug min max fuel (getevents_entry xd []))
    as [s|s|m s|s|s|s]; simpl; try discriminate; intros [= _ <-]; exact Hrun.
Qed.

Lemma log_inv_shrunk (log : queue_log) (xd xd' : xnvme_fioe_data) :
  log_inv log xd -> shrunk xd xd' -> log_inv log xd'.
Proof.
  intros Hinv Hs k f' Hk. destruct (Hs k f' Hk) as (f & Hf & Hsub).
  apply Forall_forall. intros c Hc.
  pose proof (Hinv k f Hf) as Hall. rewrite Forall_forall in Hall.
  apply Hall, Hsub, Hc.
Qed.

End EngineLog.

Section EngineLogQueue.
Import Fioe.
Variable iodepth : Z.
Hypothesis iodepth_range : 0 <= iodepth < 2 ^ 32 - 1.

(** What [queue] does to the commands in flight: where it returns
    [FIO_Q_QUEUED], the file of the I/O unit has one more, with the handle
    that was at the head of the free list and the I/O unit as its callback
    argument; otherwise none changes. *)
Lemma queue_inflight (ndebug : bool) (xd : xnvme_fioe_data) (u : io_u)
    (f : xnvme_fioe_fwrap) (q : fio_q_status) (u' : io_u) (xd' : xnvme_fioe_data) :
  engine_inv iodepth xd -> files xd !! io_fileno u = Some f ->
  xnvme_fioe_queue ndebug false xd u = QReturn q u' xd' ->
  exists f', files xd' = <[io_fileno u := f']> (files xd) /\
    (q = FIO_Q_QUEUED /\
     (exists r rest, fw_reqs f = r :: rest /\
        Async.inflight (fw_ctx f') =
          Async.inflight (fw_ctx f) ++
          [{| Async.c_seq := Async.accepted (fw_ctx f);
              Async.c_req := set_cb_arg u r |}])
     \/ q <> FIO_Q_QUEUED /\ Async.inflight (fw_ctx f') = Async.inflight (fw_ctx f)).
Proof.
  intros Hinv Hf Hq.
  pose proof (Hinv _ _ Hf) as (Hd & Hlen & Hperm & Hfree & Hfly).
  assert (Hn : (io_fileno u < length (files xd))%nat) by (eapply lookup_lt_Some; exact Hf).
  unfold xnvme_fioe_queue, pool_remove_head in Hq. rewrite Hf in Hq.
  destruct (fw_reqs f) as [|r rest] eqn:Hr; [discriminate|].
  assert (Hrk : req_pool (set_cb_arg u r) = io_fileno u).
  { apply Forall_cons in Hfree as [Hrk _]. exact Hrk. }
  assert (Hback : forall c g,
            g = set_ctx c (set_reqs rest f) ->
            Async.inflight c = Async.inflight (fw_ctx f) ->
            exists f',
              files (pool_insert_head (set_cb_arg u r)
                       (set_files (<[io_fileno u := g]> (files xd))
                          (set_files (<[io_fileno u := set_reqs rest f]> (files xd)) xd)))
              = <[io_fileno u := f']> (files xd) /\
              Async.inflight (fw_ctx f') = Async.inflight (fw_ctx f)).
  { intros c g -> Hin. eexists. split.
    - apply pool_insert_head_files; [reflexivity | exact Hrk | exact Hn].
    - cbn [set_reqs set_ctx fw_ctx]. exact Hin. }
  destruct (io_ddir u).
  1,2: unfold xnvme_cmd in Hq; cbn [set_files files option_map] in Hq;
       rewrite list_lookup_insert_eq in Hq by exact Hn;
       destruct (submit_inflight (fw_dev f) (fw_ctx f) (set_cb_arg u r))
         as (Hd1 & Hacc & Hrej);
       cbv zeta in *; cbn [set_reqs fw_dev fw_ctx] in Hq;
       destruct (Async.submit (fw_dev f) (fw_ctx f) (set_cb_arg u r)) as [c err];
       cbn [fst snd option_map] in *; rewrite list_insert_insert_eq in Hq;
       (destruct (Z.eqb_spec err 0) as [Hz|Hnz];
        [ injection Hq as <- _ <-; destruct (Hacc Hz) as [_ Hin];
          exists (set_ctx c (set_reqs rest f)); split; [reflexivity|];
          left; split; [reflexivity|]; exists r, rest; split; [reflexivity | exact Hin]
        | destruct (Hback c _ eq_refl (Hrej Hnz)) as (f' & Hfs & Hin);
          exists f';
          destruct (is_busy err);
          [ injection Hq as <- _ <-; split; [exact Hfs|]; right; split;
            [discriminate | exact Hin]
          | destruct ndebug; [|discriminate];
            injection Hq as <- _ <-; split; [exact Hfs|]; right; split;
            [discriminate | exact Hin] ] ]).
  destruct ndebug; cbn [option_map] in Hq; [|discriminate].
  change (-1 =? 0) with false in Hq. change (is_busy (-1)) with false in Hq.
  cbv iota in Hq. injection Hq as <- _ <-.
  eexists. split.
  - apply (pool_insert_head_files _ _ _ (set_reqs rest f)); [|exact Hrk | exact Hn].
    reflexivity.
  - right. split; [discriminate | reflexivity].
Qed.

Lemma last_queued_other_file (k k' id id' : nat) (u : io_u) (log : queue_log) :
  k <> k' -> last_queued k id ((k', id', u) :: log) = last_queued k id log.
Proof.
  intros Hne. cbn [last_queued].
  destruct (Nat.eqb_spec k k'); [contradiction | reflexivity].
Qed.

Lemma last_queued_other_handle (k k' id id' : nat) (u : io_u) (log : queue_log) :
  id <> id' -> last_queued k id ((k', id', u) :: log) = last_queued k id log.
Proof.
  intros Hne. cbn [last_queued].
  destruct (Nat.eqb_spec id id'); [contradiction|]. rewrite andb_false_r. reflexivity.
Qed.

Lemma last_queued_head (k id : nat) (u : io_u) (log : queue_log) :
  last_queued k id ((k, id, u) :: log) = Some u.
Proof. cbn [last_queued]. rewrite !Nat.eqb_refl. reflexivity. Qed.

(** The handles of a file that is in order are pairwise distinct. *)
Lemma file_handles_NoDup (k : nat) (f : xnvme_fioe_fwrap) :
  file_ok iodepth k f -> NoDup (file_handles f).
Proof.
  intros (_ & _ & Hperm & _). rewrite Hperm.
  unfold Async.xnvme_req_pool_alloc. apply NoDup_seq.
Qed.

Lemma log_inv_queue (ndebug : bool) (xd : xnvme_fioe_data) (log : queue_log)
    (u : io_u) (q : fio_q_status) (u' : io_u) (xd' : xnvme_fioe_data) :
  engine_inv iodepth xd -> log_inv log xd ->
  xnvme_fioe_queue ndebug false xd u = QReturn q u' xd' ->
  log_inv (log_queue xd u q log) xd'.
Proof.
  intros Hinv Hlog Hq.
  destruct (files xd !! io_fileno u) as [f|] eqn:Hf.
  2:{ unfold xnvme_fioe_queue, pool_remove_head in Hq. rewrite Hf in Hq. discriminate. }
  destruct (queue_inflight ndebug xd u f q u' xd' Hinv Hf Hq) as (f' & Hfs & Hcase).
  pose proof (Hlog _ _ Hf) as Hold.
  destruct Hcase as [[-> (r & rest & Hr & Hin)] | [Hnq Hin]].
  - unfold log_queue, free_handles. rewrite Hf, Hr. cbn [map head].
    intros k g Hk. rewrite Hfs in Hk.
    destruct (decide (k = io_fileno u)) as [->|Hne].
    + apply list_lookup_insert_Some in Hk as [(_ & <- & _)|[Hne _]]; [|congruence].
      rewrite Hin. apply Forall_app. split.
      * pose proof (file_handles_NoDup _ _ (Hinv _ _ Hf)) as Hnd.
        unfold file_handles in Hnd. rewrite Hr in Hnd. cbn [map] in Hnd.
        apply NoDup_app in Hnd as (_ & Hdisj & _).
        apply Forall_forall. intros c Hc.
        rewrite Forall_forall in Hold. destruct (Hold c Hc) as (v & Hv & Hlast).
        exists v. split; [exact Hv|].
        rewrite last_queued_other_handle; [exact Hlast|].
        intros Heq. apply (Hdisj (req_id r)); [left|].
        rewrite <- Heq.
        apply (list_elem_of_fmap_2 (fun c => req_id (Async.c_req c))). exact Hc.
      * apply Forall_singleton. exists u. split; [reflexivity|].
        cbn [Async.c_req set_cb_arg req_id]. apply last_queued_head.
    + rewrite list_lookup_insert_ne in Hk by congruence.
      eapply Forall_impl; [exact (Hlog _ _ Hk)|].
      intros c (v & Hv & Hlast). exists v. split; [exact Hv|].
      rewrite last_queued_other_file by exact Hne. exact Hlast.
  - assert (Hsame : log_queue xd u q log = log).
    { unfold log_queue. destruct q; try reflexivity. contradiction. }
    rewrite Hsame. intros k g Hk. rewrite Hfs in Hk.
    destruct (decide (k = io_fileno u)) as [->|Hne].
    + apply list_lookup_insert_Some in Hk as [(_ & <- & _)|[Hne _]]; [|congruence].
      rewrite Hin. exact Hold.
    + rewrite list_lookup_insert_ne in Hk by congruence. exact (Hlog _ _ Hk).
Qed.

Lemma reachable_log_inv (devs : list Async.device) (xd : xnvme_fioe_data)
    (log : queue_log) :
  reachable_log devs iodepth xd log -> log_inv log xd.
Proof.
  induction 1 as [|xd log ndebug u q u' xd' Hreach IH Hq
                  |xd log ndebug min max fuel n xd' Hreach IH Hmax Hmin Hg].
  - intros k f Hk. cbn [xnvme_fioe_init files] in Hk. rewrite list_lookup_imap in Hk.
    destruct (devs !! k) as [d|]; [|discriminate]. injection Hk as <-. constructor.
  - eapply log_inv_queue; [|exact IH | exact Hq].
    apply (reachable_engine iodepth iodepth_range devs).
    eapply reachable_log_reachable; exact Hreach.
  - eapply log_inv_shrunk; [exact IH|]. eapply getevents_shrunk; exact Hg.
Qed.

End EngineLogQueue.

Section EngineLogClaims.
Import Fioe.

(** X16.  In every state that [queue] and [getevents] lead to after
    [init], the completion queue has [iodepth] entries and, for every file:
    the context has the depth given at [_dev_open] and at most that many
    commands in flight; the handles on the free list and those in flight are
    together the [iodepth + 1] handles allocated for the file; each of them
    returns to the free list of this file; and each command in flight
    carries, as its callback argument, the I/O unit of the latest call of
    [queue] that returned [FIO_Q_QUEUED] with the handle of that command. *)
Theorem engine_handles_accounted (devs : list Async.device) (iodepth : Z)
    (xd : xnvme_fioe_data) (log : queue_log) :
  0 <= iodepth < 2 ^ 32 - 1 ->
  reachable_log devs iodepth xd log ->
  length (iocq xd) = Z.to_nat iodepth /\
  forall k f, files xd !! k = Some f ->
    Async.depth (fw_ctx f) = iodepth /\
    Z.of_nat (length (Async.inflight (fw_ctx f))) <= iodepth /\
    file_handles f ≡ₚ Async.xnvme_req_pool_alloc (iodepth + 1) /\
    Forall (fun r => req_pool r = k) (fw_reqs f) /\
    Forall (fun c => req_pool (Async.c_req c) = k /\
              exists u, req_cb_arg (Async.c_req c) = Some u /\
                        last_queued k (req_id (Async.c_req c)) log = Some u)
           (Async.inflight (fw_ctx f)).
Proof.
  intros Hd Hr.
  destruct (reachable_engine iodepth Hd devs xd (reachable_log_reachable _ _ _ _ Hr))
    as [Hinv Hl].
  pose proof (reachable_log_inv iodepth Hd devs xd log Hr) as Hlog.
  split; [exact Hl|]. intros k f Hf.
  destruct (Hinv k f Hf) as (H1 & H2 & H3 & H4 & H5).
  split; [exact H1|]. split; [exact H2|]. split; [exact H3|]. split; [exact H4|].
  pose proof (Hlog k f Hf) as Hc.
  rewrite Forall_forall in H5, Hc. apply Forall_forall. intros c Hin.
  destruct (H5 c Hin) as [Hp _]. split; [exact Hp | exact (Hc c Hin)].
Qed.

Lemma three_devices_logged :
  reachable_log (replicate 3 (Async.eager (fun _ => 0))) 4 three_devices
    three_devices_log.
Proof.
  set (d := replicate 3 (Async.eager (fun _ => 0))).
  set (u0 := io_unit 0 1 DDIR_READ 0). set (u1 := io_unit 1 2 DDIR_WRITE 4096).
  change three_devices_log
    with (log_queue (queued (xnvme_fioe_init d 4) u0) u1 FIO_Q_QUEUED
            (log_queue (xnvme_fioe_init d 4) u0 FIO_Q_QUEUED [])).
  apply (rlog_queue d 4 (queued (xnvme_fioe_init d 4) u0) _ true u1 FIO_Q_QUEUED u1).
  - apply (rlog_queue d 4 (xnvme_fioe_init d 4) [] true u0 FIO_Q_QUEUED u0).
    + apply rlog_init.
    + reflexivity.
  - reflexivity.
Qed.

Lemma engine_handles_accounted_witness :
  length (iocq three_devices) = Z.to_nat 4 /\
  forall k f, files three_devices !! k = Some f ->
    Async.depth (fw_ctx f) = 4 /\
    Z.of_nat (length (Async.inflight (fw_ctx f))) <= 4 /\
    file_handles f ≡ₚ Async.xnvme_req_pool_alloc (4 + 1) /\
    Forall (fun r => req_pool r = k) (fw_reqs f) /\
    Forall (fun c => req_pool (Async.c_req c) = k /\
              exists u, req_cb_arg (Async.c_req c) = Some u /\
                        last_queued k (req_id (Async.c_req c)) three_devices_log = Some u)
           (Async.inflight (fw_ctx f)).
Proof.
  apply (engine_handles_accounted (replicate 3 (Async.eager (fun _ => 0))) 4
           three_devices three_devices_log);
    [lia | apply three_devices_logged].
Defined.

End EngineLogClaims.

Section QueueCommand.
Import Fioe.

(** X19.  The command that [queue] builds for an I/O unit: the start LBA is
    the sector that holds the byte at [offset]; for a buffer of at least one
    block and at most [2 ^ 16] blocks the zero-based block count covers the
    whole blocks that fit into the buffer and no more; for a buffer shorter
    than one block the subtraction wraps, and the count stands for
    [2 ^ 16] blocks. *)
Theorem queue_command_extent (f : xnvme_fioe_fwrap) (u : io_u) :
  0 <= fw_ssw f -> 0 < fw_lba_nbytes f ->
  0 <= io_offset u < 2 ^ 64 -> 0 <= io_xfer_buflen u < 2 ^ 64 ->
  (queue_slba f u * 2 ^ fw_ssw f <= io_offset u < (queue_slba f u + 1) * 2 ^ fw_ssw f) /\
  (fw_lba_nbytes f <= io_xfer_buflen u < (2 ^ 16 + 1) * fw_lba_nbytes f ->
   (queue_nlb f u + 1) * fw_lba_nbytes f <= io_xfer_buflen u
     < (queue_nlb f u + 2) * fw_lba_nbytes f) /\
  (io_xfer_buflen u < fw_lba_nbytes f -> queue_nlb f u = 2 ^ 16 - 1).
Proof.
  intros Hs Hl Ho Hb. unfold queue_slba, queue_nlb, shr64.
  rewrite Z.shiftr_div_pow2 by exact Hs.
  assert (Hp : 0 < 2 ^ fw_ssw f) by (apply Z.pow_pos_nonneg; lia).
  split; [|split].
  - pose proof (Z.div_mod (io_offset u) (2 ^ fw_ssw f) ltac:(lia)) as Hdm.
    pose proof (Z.mod_pos_bound (io_offset u) (2 ^ fw_ssw f) Hp). nia.
  - intros [Hlo Hhi].
    set (q := io_xfer_buflen u / fw_lba_nbytes f).
    assert (Hq : q * fw_lba_nbytes f <= io_xfer_buflen u < (q + 1) * fw_lba_nbytes f).
    { pose proof (Z.div_mod (io_xfer_buflen u) (fw_lba_nbytes f) ltac:(lia)) as Hdm.
      pose proof (Z.mod_pos_bound (io_xfer_buflen u) (fw_lba_nbytes f) Hl).
      fold q in Hdm. nia. }
    assert (Hq1 : 1 <= q <= 2 ^ 16) by nia.
    assert (Hw : wrap64 (q - 1) = q - 1) by (unfold wrap64; apply Z.mod_small; lia).
    rewrite Hw, Z.mod_small by lia. lia.
  - intros Hlt. rewrite Z.div_small by lia.
    unfold wrap64. reflexivity.
Qed.

Lemma queue_command_extent_witness :
  let f := fwrap_init 4 0 (Async.eager (fun _ => 0)) in
  let u := io_unit 0 0 DDIR_READ 8192 in
  (queue_slba f u * 2 ^ fw_ssw f <= io_offset u < (queue_slba f u + 1) * 2 ^ fw_ssw f) /\
  (fw_lba_nbytes f <= io_xfer_buflen u < (2 ^ 16 + 1) * fw_lba_nbytes f ->
   (queue_nlb f u + 1) * fw_lba_nbytes f <= io_xfer_buflen u
     < (queue_nlb f u + 2) * fw_lba_nbytes f) /\
  (io_xfer_buflen u < fw_lba_nbytes f -> queue_nlb f u = 2 ^ 16 - 1).
Proof.
  intros f u. apply (queue_command_extent f u); simpl; lia.
Defined.

End QueueCommand.

(** ** Device identifiers *)

Section UriFacts.
Import Uri.

(** X20.  With [--be] given, [_dev_open] always puts the back end in front
    of the file name, also when the name has a scheme of its own:
    [matches] is the value of a comparison, 0 or 1, so that
    [fn_has_scheme = matches == 2] is 0 for every file name. *)
Theorem backend_prefix_ignores_scheme (URI_LEN : nat) (be file_name : cstring) :
  (2 <= URI_LEN)%nat ->
  fn_has_scheme file_name = 0 /\
  dev_uri URI_LEN (Some be) file_name =
    take (URI_LEN - 3) (be ++ [colon]) ++
    take (URI_LEN - length (take (URI_LEN - 3) (be ++ [colon]))) file_name.
Proof.
  intros _.
  assert (H : fn_has_scheme file_name = 0).
  { unfold fn_has_scheme, matches.
    destruct (fields (sscanf_scheme file_name) =? 2); reflexivity. }
  split; [exact H|].
  unfold dev_uri, uri_prefix, strncat, snprintf_be. rewrite H. cbn [Z.eqb].
  replace (URI_LEN - 2 - 1)%nat with (URI_LEN - 3)%nat by lia. reflexivity.
Qed.

(** X21.  The [strncat] of [_dev_open] can write one byte past [dev_uri].
    The bytes written to the array, the terminating NUL included, are at
    most [XNVME_IDENT_URI_LEN + 1], and they are that many exactly when the
    file name is at least [XNVME_IDENT_URI_LEN - strlen(dev_uri)] characters
    long. *)
Theorem dev_uri_terminator_past_end (URI_LEN : nat) (be : option cstring)
    (file_name : cstring) :
  (2 < URI_LEN)%nat ->
  (uri_bytes URI_LEN be file_name <= S URI_LEN)%nat /\
  (uri_bytes URI_LEN be file_name = S URI_LEN <->
   (URI_LEN - length (uri_prefix URI_LEN be file_name) <= length file_name)%nat).
Proof.
  intros Hlen. unfold uri_bytes, dev_uri, strncat.
  assert (Hp : (length (uri_prefix URI_LEN be file_name) <= URI_LEN - 3)%nat).
  { unfold uri_prefix, snprintf_be. destruct be as [b|]; [|simpl; lia].
    destruct (fn_has_scheme file_name =? 0); [|simpl; lia].
    rewrite length_take. lia. }
  rewrite length_app, length_take. split; lia.
Qed.

(** X22.  For a file name that starts with one to four lower-case letters
    and a colon, the [sscanf] of [_dev_open] assigns both fields, and the
    conversion [%1[:]] stores two bytes, the colon and a NUL, through [sep],
    an array of one byte. *)
Theorem scheme_scan_overflows_sep (schm rest : cstring) :
  schm <> [] -> (length schm <= 4)%nat -> Forall (fun c => is_lower c = true) schm ->
  let r := sscanf_scheme (schm ++ colon :: rest) in
  fields r = 2 /\ sep_bytes r = 2%nat /\ (sep_size < sep_bytes r)%nat /\
  schm_bytes r = S (length schm).
Proof.
  intros Hne Hlen Hlow r. subst r. unfold sscanf_scheme.
  assert (Hspan : forall n s, (length s <= n)%nat ->
            Forall (fun c => is_lower c = true) s ->
            span n (s ++ colon :: rest) = (s, colon :: rest)).
  { induction n as [|n IH]; intros s Hs Hl.
    - destruct s; [reflexivity | simpl in Hs; lia].
    - destruct s as [|c s]; [reflexivity|].
      apply Forall_cons in Hl as [Hc Hl]. simpl. rewrite Hc.
      rewrite IH by (simpl in Hs; lia || assumption). reflexivity. }
  rewrite (Hspan 4%nat schm Hlen Hlow).
  destruct schm as [|c schm]; [contradiction|].
  change (colon =? colon) with true. cbv iota. cbn [fields sep_bytes schm_bytes].
  unfold sep_size. repeat split; lia.
Qed.

(** With [--be=pci] and the file name [pci:0] the device is opened as
    [pci:pci:0]. *)
Lemma backend_prefix_ignores_scheme_witness :
  fn_has_scheme pci_0 = 0 /\
  dev_uri 16 (Some pci) pci_0 = pci ++ [colon] ++ pci_0.
Proof.
  apply (backend_prefix_ignores_scheme 16 pci pci_0). lia.
Defined.

(** An array of eight bytes and a file name of eight characters. *)
Lemma dev_uri_terminator_past_end_witness :
  (uri_bytes 8 None (pci_0 ++ pci) <= 9)%nat /\
  (uri_bytes 8 None (pci_0 ++ pci) = 9%nat <->
   (8 - length (uri_prefix 8 None (pci_0 ++ pci)) <= length (pci_0 ++ pci))%nat).
Proof.
  apply (dev_uri_terminator_past_end 8 None (pci_0 ++ pci)). lia.
Defined.

(** The file name [pci:0]. *)
Lemma scheme_scan_overflows_sep_witness :
  fields (sscanf_scheme pci_0) = 2 /\ sep_bytes (sscanf_scheme pci_0) = 2%nat /\
  (sep_size < sep_bytes (sscanf_scheme pci_0))%nat /\
  schm_bytes (sscanf_scheme pci_0) = 4%nat.
Proof.
  apply (scheme_scan_overflows_sep pci [48]).
  - discriminate.
  - simpl. lia.
  - repeat constructor.
Defined.

End UriFacts.

(** ** Setting up and tearing down *)

Section LifecycleFacts.
Import Lifecycle.

Lemma to_int_small (n : Z) : 0 <= n < 2 ^ 31 -> to_int n = n.
Proof.
  intros Hn. unfold to_int, wrap32.
  rewrite Z.mod_small by lia.
  destruct (n <? 2 ^ 31) eqn:E; [reflexivity | apply Z.ltb_ge in E; lia].
Qed.

Lemma wrap64_small (n : Z) : 0 <= n < 2 ^ 64 -> wrap64 n = n.
Proof. intros Hn. unfold wrap64. apply Z.mod_small. lia. Qed.

(** A successful [_dev_open] of the next file. *)
Lemma dev_open_good (xd : data) (k : nat) (tr : list call) :
  nallocated xd = Z.of_nat k -> Z.of_nat k < 2 ^ 31 ->
  files xd !! k = Some zeroed ->
  _dev_open false xd (good_file k) tr
  = Some (0, set_file k (wrapped k) xd, tr ++ setup_calls k).
Proof.
  intros Hn Hk Hw. unfold _dev_open. cbn [good_file fileno open_ok async_init_err
    pool_alloc_err pool_init_err].
  rewrite Hn, to_int_small by lia.
  rewrite Z.gtb_ltb, Z.ltb_irrefl.
  replace (Z.of_nat k <? 0) with false by (symmetry; apply Z.ltb_ge; lia).
  rewrite Nat2Z.id, Hw. cbn.
  unfold wrapped, setup_calls. rewrite <- !app_assoc. reflexivity.
Qed.

(** A [_dev_open] that fails after the device was opened. *)
Lemma dev_open_half (xd : data) (j : nat) (f : fio_file_t) (w : fwrap)
    (tr : list call) :
  nallocated xd = Z.of_nat j -> Z.of_nat j < 2 ^ 31 ->
  files xd !! j = Some w -> fileno f = Z.of_nat j -> half_open f ->
  exists w' more,
    _dev_open false xd f tr = Some (1, set_file j w' xd, tr ++ DevOpen j :: more)
    /\ dev w' = Some j
    /\ (more = [] \/ more = [AsyncInit j] \/ more = [AsyncInit j; PoolAlloc j]).
Proof.
  intros Hn Hj Hw Hf [Ho Herr]. unfold _dev_open.
  rewrite Hf, Hn, to_int_small by lia.
  rewrite Z.gtb_ltb, Z.ltb_irrefl.
  replace (Z.of_nat j <? 0) with false by (symmetry; apply Z.ltb_ge; lia).
  rewrite Nat2Z.id, Hw, Ho. cbn [negb].
  destruct (async_init_err f =? 0) eqn:E1; cbn [negb].
  - destruct (pool_alloc_err f =? 0) eqn:E2; cbn [negb].
    + destruct (pool_init_err f =? 0) eqn:E3; cbn [negb].
      * apply Z.eqb_eq in E1, E2, E3. lia.
      * eexists _, [AsyncInit j; PoolAlloc j]. rewrite <- !app_assoc.
        split; [reflexivity | split; [reflexivity | auto]].
    + eexists _, [AsyncInit j]. rewrite <- !app_assoc.
      split; [reflexivity | split; [reflexivity | auto]].
  - eexists _, []. split; [reflexivity | split; [reflexivity | auto]].
Qed.

Lemma partial_files_next (k r : nat) :
  <[k := wrapped k]> (partial_files k (S r)) = partial_files (S k) r.
Proof.
  unfold partial_files.
  rewrite insert_app_r_alt by (rewrite length_map, length_seq; lia).
  rewrite length_map, length_seq, Nat.sub_diag. cbn [replicate].
  rewrite seq_S, map_app, <- app_assoc. reflexivity.
Qed.

Lemma partial_files_lookup (k r : nat) :
  partial_files k (S r) !! k = Some zeroed.
Proof.
  unfold partial_files.
  rewrite lookup_app_r by (rewrite length_map, length_seq; lia).
  rewrite length_map, length_seq, Nat.sub_diag. reflexivity.
Qed.

(** The loop of [init] over files that are set up without a failure. *)
Lemma init_loop_good (m : nat) : forall (k r : nat) (p o : Z) (rest : list fio_file_t)
    (tr : list call),
  Z.of_nat (k + m) < 2 ^ 31 ->
  init_loop false (map good_file (seq k m) ++ rest)
    {| prev := p; nopen := o; nallocated := Z.of_nat k;
       files := partial_files k (m + r) |} tr
  = init_loop false rest
      {| prev := p; nopen := o; nallocated := Z.of_nat (k + m);
         files := partial_files (k + m) r |} (tr ++ flat_map setup_calls (seq k m)).
Proof.
  induction m as [|m IH]; intros k r p o rest tr Hk.
  - cbn [seq map app flat_map]. rewrite Nat.add_0_r, app_nil_r. reflexivity.
  - change (S m + r)%nat with (S (m + r)).
    cbn [seq map app flat_map init_loop].
    rewrite dev_open_good; cbn [nallocated files]; try lia;
      [| apply partial_files_lookup].
    cbn [negb Z.eqb set_file prev nopen nallocated files].
    rewrite partial_files_next, wrap64_small by lia.
    replace (Z.of_nat k + 1) with (Z.of_nat (S k)) by lia.
    rewrite IH by lia.
    replace (S k + m)%nat with (k + S m)%nat by lia.
    rewrite <- app_assoc. reflexivity.
Qed.

(** The loop of [cleanup] over files that were set up. *)
Lemma cleanup_loop_good (m : nat) : forall (k : nat) (tail : list fwrap)
    (tr : list call),
  cleanup_loop m k (replicate k zeroed ++ map wrapped (seq k m) ++ tail) tr
  = Some (replicate (k + m) zeroed ++ tail, tr ++ flat_map teardown_calls (seq k m)).
Proof.
  induction m as [|m IH]; intros k tail tr.
  - cbn [seq map app flat_map cleanup_loop]. rewrite Nat.add_0_r, app_nil_r. reflexivity.
  - cbn [seq map app flat_map cleanup_loop].
    rewrite lookup_app_r by (rewrite length_replicate; lia).
    rewrite length_replicate, Nat.sub_diag. cbn [lookup list_lookup].
    unfold _dev_close. cbn [wrapped dev ctx reqs].
    rewrite insert_app_r_alt by (rewrite length_replicate; lia).
    rewrite length_replicate, Nat.sub_diag. cbn [insert list_insert].
    replace (replicate k zeroed ++ zeroed :: map wrapped (seq (S k) m) ++ tail)
      with (replicate (S k) zeroed ++ map wrapped (seq (S k) m) ++ tail).
    2:{ rewrite replicate_S_end, <- app_assoc. reflexivity. }
    rewrite IH. replace (S k + m)%nat with (k + S m)%nat by lia.
    rewrite <- !app_assoc. reflexivity.
Qed.

End LifecycleFacts.

Section Tracking.
Import Lifecycle.

Variables acquired released : call -> option nat.


Hypothesis Hsetup : forall k acc,
  fold_left (track_step acquired released) (setup_calls k) acc = acc ++ [k].
Hypothesis Hteardown : forall k acc,
  fold_left (track_step acquired released) (teardown_calls k) acc
  = List.filter (fun j => negb (j =? k)%nat) acc.

Lemma track_app (a b : list call) :
  track acquired released (a ++ b)
  = fold_left (track_step acquired released) b (track acquired released a).
Proof. unfold track. apply fold_left_app. Qed.

Lemma fold_setup (m : nat) : forall (k : nat) (acc : list nat),
  fold_left (track_step acquired released) (flat_map setup_calls (seq k m)) acc
  = acc ++ seq k m.
Proof.
  induction m as [|m IH]; intros k acc.
  - cbn. rewrite app_nil_r. reflexivity.
  - cbn [seq flat_map]. rewrite fold_left_app, Hsetup, IH, <- app_assoc.
    reflexivity.
Qed.

Lemma filter_twice (P Q : nat -> bool) (l : list nat) :
  List.filter P (List.filter Q l) = List.filter (fun x => Q x && P x) l.
Proof.
  induction l as [|x l IH]; [reflexivity |].
  cbn [List.filter]. destruct (Q x); cbn [List.filter andb]; rewrite IH; reflexivity.
Qed.

Lemma filter_all (P : nat -> bool) (l : list nat) :
  (forall x, In x l -> P x = true) -> List.filter P l = l.
Proof.
  induction l as [|x l IH]; intros H; [reflexivity |].
  cbn [List.filter]. rewrite (H x) by (left; reflexivity).
  f_equal. apply IH. intros y Hy. apply H. right. exact Hy.
Qed.

Lemma fold_teardown (m : nat) : forall (k : nat) (acc : list nat),
  fold_left (track_step acquired released) (flat_map teardown_calls (seq k m)) acc
  = List.filter (fun j => (j <? k)%nat || (k + m <=? j)%nat) acc.
Proof.
  induction m as [|m IH]; intros k acc.
  - cbn [seq flat_map fold_left]. symmetry. apply filter_all.
    intros j _. apply orb_true_iff.
    destruct (Nat.ltb_spec j k); [left; reflexivity |].
    right. apply Nat.leb_le. lia.
  - cbn [seq flat_map]. rewrite fold_left_app, Hteardown, IH, filter_twice.
    apply filter_ext. intros j.
    destruct (Nat.eqb_spec j k), (Nat.ltb_spec j k), (Nat.ltb_spec j (S k)),
      (Nat.leb_spec (S k + m) j), (Nat.leb_spec (k + S m) j); cbn; lia || reflexivity.
Qed.

Lemma filter_none (P : nat -> bool) (l : list nat) :
  (forall x, In x l -> P x = false) -> List.filter P l = [].
Proof.
  induction l as [|x l IH]; intros H; [reflexivity |].
  cbn [List.filter]. rewrite (H x) by (left; reflexivity).
  apply IH. intros y Hy. apply H. right. exact Hy.
Qed.

(** Tearing down the files that were set up leaves nothing of them. *)
Lemma track_balanced (n : nat) (extra : list nat) :
  (forall x, In x extra -> (n <= x)%nat) ->
  fold_left (track_step acquired released) (flat_map teardown_calls (seq 0 n))
    (seq 0 n ++ extra)
  = extra.
Proof.
  intros He. rewrite fold_teardown, List.filter_app, filter_none, filter_all.
  - reflexivity.
  - intros x Hx. apply orb_true_iff. right. apply Nat.leb_le.
    specialize (He x Hx). lia.
  - intros x Hx. apply in_seq in Hx. apply orb_false_iff. split.
    + apply Nat.ltb_ge. lia.
    + apply Nat.leb_gt. lia.
Qed.

End Tracking.

Section LifecycleTracks.
Import Lifecycle.

Lemma open_devs_setup (tr : list call) (n : nat) :
  open_devs (tr ++ flat_map setup_calls (seq 0 n)) = open_devs tr ++ seq 0 n.
Proof.
  unfold open_devs. rewrite track_app. apply fold_setup. reflexivity.
Qed.

Lemma live_ctxs_setup (tr : list call) (n : nat) :
  live_ctxs (tr ++ flat_map setup_calls (seq 0 n)) = live_ctxs tr ++ seq 0 n.
Proof.
  unfold live_ctxs. rewrite track_app. apply fold_setup. reflexivity.
Qed.

Lemma live_pools_setup (tr : list call) (n : nat) :
  live_pools (tr ++ flat_map setup_calls (seq 0 n)) = live_pools tr ++ seq 0 n.
Proof.
  unfold live_pools. rewrite track_app. apply fold_setup. reflexivity.
Qed.

Lemma open_devs_teardown (tr : list call) (n : nat) (extra : list nat) :
  open_devs tr = seq 0 n ++ extra -> (forall x, In x extra -> (n <= x)%nat) ->
  open_devs (tr ++ flat_map teardown_calls (seq 0 n)) = extra.
Proof.
  unfold open_devs. intros H He. rewrite track_app, H.
  apply track_balanced; [reflexivity | exact He].
Qed.

Lemma live_ctxs_teardown (tr : list call) (n : nat) (extra : list nat) :
  live_ctxs tr = seq 0 n ++ extra -> (forall x, In x extra -> (n <= x)%nat) ->
  live_ctxs (tr ++ flat_map teardown_calls (seq 0 n)) = extra.
Proof.
  unfold live_ctxs. intros H He. rewrite track_app, H.
  apply track_balanced; [reflexivity | exact He].
Qed.

Lemma live_pools_teardown (tr : list call) (n : nat) (extra : list nat) :
  live_pools tr = seq 0 n ++ extra -> (forall x, In x extra -> (n <= x)%nat) ->
  live_pools (tr ++ flat_map teardown_calls (seq 0 n)) = extra.
Proof.
  unfold live_pools. intros H He. rewrite track_app, H.
  apply track_balanced; [reflexivity | exact He].
Qed.

End LifecycleTracks.

Section LifecycleClaims.
Import Lifecycle.

(** X23.  [xnvme_fioe_init] followed by [xnvme_fioe_cleanup] releases what it
    acquired.  For a job of [n] files numbered in the order of the loop,
    whose devices are all set up without a failure, [init] returns 0 with
    [nallocated = n] and every wrapper filled, having opened the devices
    [0 .. n-1]; [cleanup] then zeroes every wrapper, and after it no device
    is left open, no context live and no request pool allocated. *)
Theorem init_then_cleanup_releases_all (td : thread) (n : nat) :
  use_thread td = true -> io_ops_set td = true -> malloc_ok td = true ->
  be_too_long td = false ->
  nr_files td = Z.of_nat n -> Z.of_nat n < 2 ^ 31 ->
  exists xd tr tr',
    xnvme_fioe_init td (good_files n) = Some (0, Some xd, tr)
    /\ nallocated xd = Z.of_nat n
    /\ files xd = map wrapped (seq 0 n)
    /\ open_devs tr = seq 0 n
    /\ xnvme_fioe_cleanup xd tr = Some (replicate n zeroed, tr')
    /\ open_devs tr' = [] /\ live_ctxs tr' = [] /\ live_pools tr' = [].
Proof.
  intros Hu Hio Hm Hbe Hnf Hn.
  unfold xnvme_fioe_init. rewrite Hu, Hio, Hm, Hbe, Hnf, Nat2Z.id. cbn [negb].
  unfold good_files.
  pose proof (init_loop_good n 0 0 (-1) 0 [] [] ltac:(simpl; lia)) as HL.
  rewrite app_nil_r, Nat.add_0_r in HL. cbn [Nat.add app] in HL.
  unfold partial_files in HL at 1. cbn [seq map app] in HL.
  change (Z.of_nat 0) with 0 in HL. rewrite HL. cbn [init_loop Z.eqb negb nallocated].
  rewrite Z.eqb_refl. cbn [negb].
  eexists _, _, _. split; [reflexivity |].
  cbn [nallocated files]. unfold partial_files. cbn [replicate]. rewrite app_nil_r.
  split; [reflexivity |]. split; [reflexivity |].
  split; [apply (open_devs_setup [] n) |].
  unfold xnvme_fioe_cleanup. cbn [nallocated files]. rewrite Nat2Z.id.
  pose proof (cleanup_loop_good n 0 [] (flat_map setup_calls (seq 0 n))) as HC.
  cbn [replicate app Nat.add] in HC. rewrite !app_nil_r in HC.
  split; [exact HC |].
  split; [| split].
  - apply open_devs_teardown with (extra := []).
    + rewrite app_nil_r. apply (open_devs_setup [] n).
    + intros x [].
  - apply live_ctxs_teardown with (extra := []).
    + rewrite app_nil_r. apply (live_ctxs_setup [] n).
    + intros x [].
  - apply live_pools_teardown with (extra := []).
    + rewrite app_nil_r. apply (live_pools_setup [] n).
    + intros x [].
Qed.

(** X24.  A device whose setup fails after it was opened is never closed.
    When the files [0 .. j-1] are set up and for file [j] [xnvme_dev_open]
    succeeds but a later step of [_dev_open] fails, [init] returns 1 with
    [nallocated = j] and the handle of device [j] stored in its wrapper.
    [cleanup] closes the devices [0 .. j-1] only: after it, device [j] is
    still open and its handle is still in the wrapper that is freed. *)
Theorem failed_setup_leaks_device (td : thread) (j N : nat) (f : fio_file_t)
    (rest : list fio_file_t) :
  use_thread td = true -> io_ops_set td = true -> malloc_ok td = true ->
  be_too_long td = false ->
  nr_files td = Z.of_nat N -> (j < N)%nat -> Z.of_nat N < 2 ^ 31 ->
  fileno f = Z.of_nat j -> half_open f ->
  exists xd tr ws tr' w,
    xnvme_fioe_init td (good_files j ++ f :: rest) = Some (1, Some xd, tr)
    /\ nallocated xd = Z.of_nat j
    /\ open_devs tr = seq 0 j ++ [j]
    /\ xnvme_fioe_cleanup xd tr = Some (ws, tr')
    /\ open_devs tr' = [j]
    /\ ws !! j = Some w /\ dev w = Some j.
Proof.
  intros Hu Hio Hm Hbe Hnf HjN HN Hf Hhalf.
  unfold xnvme_fioe_init. rewrite Hu, Hio, Hm, Hbe, Hnf, Nat2Z.id. cbn [negb].
  unfold good_files.
  set (r := (N - j - 1)%nat).
  replace (replicate N zeroed) with (replicate (j + S r) zeroed)
    by (f_equal; unfold r; lia).
  pose proof (init_loop_good j 0 (S r) (-1) 0 (f :: rest) [] ltac:(simpl; lia)) as HL.
  cbn [Nat.add app] in HL.
  unfold partial_files in HL at 1. cbn [seq map app] in HL.
  change (Z.of_nat 0) with 0 in HL. rewrite HL. clear HL.
  cbn [init_loop].
  destruct (dev_open_half
              {| prev := -1; nopen := 0; nallocated := Z.of_nat j;
                 files := partial_files j (S r) |} j f zeroed
              (flat_map setup_calls (seq 0 j)))
    as (w' & more & Hopen & Hdev & Hmore);
    [reflexivity | lia | apply partial_files_lookup | exact Hf | exact Hhalf |].
  rewrite Hopen. cbn [Z.eqb negb].
  assert (Hdevs : open_devs (flat_map setup_calls (seq 0 j) ++ DevOpen j :: more)
                  = seq 0 j ++ [j]).
  { unfold open_devs. rewrite track_app.
    pose proof (open_devs_setup [] j) as Hs. cbn [app] in Hs.
    unfold open_devs in Hs. rewrite Hs.
    destruct Hmore as [-> | [-> | ->]]; reflexivity. }
  assert (Hfiles : <[j := w']> (partial_files j (S r))
                   = map wrapped (seq 0 j) ++ w' :: replicate r zeroed).
  { unfold partial_files.
    rewrite insert_app_r_alt by (rewrite length_map, length_seq; lia).
    rewrite length_map, length_seq, Nat.sub_diag. reflexivity. }
  eexists _, _, _, _, w'. split; [reflexivity |].
  cbn [set_file nallocated files]. split; [reflexivity |].
  split; [exact Hdevs |].
  unfold xnvme_fioe_cleanup. cbn [set_file nallocated files].
  rewrite Nat2Z.id, Hfiles.
  pose proof (cleanup_loop_good j 0 (w' :: replicate r zeroed)
                (flat_map setup_calls (seq 0 j) ++ DevOpen j :: more)) as HC.
  cbn [replicate app Nat.add] in HC.
  split; [exact HC |].
  split; [| split].
  - apply open_devs_teardown; [exact Hdevs |].
    intros x [<- | []]. lia.
  - rewrite lookup_app_r by (rewrite length_replicate; lia).
    rewrite length_replicate, Nat.sub_diag. reflexivity.
  - exact Hdev.
Qed.

End LifecycleClaims.

Section OpenClose.
Import Lifecycle.

Lemma lookup_map_seq {A : Type} (g : nat -> A) (n : nat) : forall (s i : nat),
  map g (seq s n) !! i = if (i <? n)%nat then Some (g (s + i)%nat) else None.
Proof.
  induction n as [|n IH]; intros s i; [destruct i; reflexivity |].
  destruct i as [|i]; cbn [seq map].
  - rewrite Nat.add_0_r. reflexivity.
  - change ((g s :: map g (seq (S s) n)) !! S i) with (map g (seq (S s) n) !! i).
    rewrite IH. change (S i <? S n)%nat with (i <? n)%nat.
    replace (S s + i)%nat with (s + S i)%nat by lia. reflexivity.
Qed.

(** X25.  [xnvme_fioe_open] and [xnvme_fioe_close] after a successful
    [init] of [n] files.  Opening file [k < n] under its own number returns
    0 and counts it in [nopen], and [close] then restores the engine data.
    The guard [f->fileno > (int)xd->nallocated] lets the number [n] itself
    through: for it, [xd->files[f->fileno]] is read outside the array. *)
Theorem open_counts_and_guard_is_off_by_one (xd : data) (n k : nat) :
  files xd = map wrapped (seq 0 n) -> nallocated xd = Z.of_nat n ->
  Z.of_nat n < 2 ^ 31 -> 0 <= nopen xd < 2 ^ 64 - 1 -> (k < n)%nat ->
  (exists xd',
     xnvme_fioe_open xd k (Z.of_nat k) = Some (0, xd')
     /\ nopen xd' = nopen xd + 1
     /\ xnvme_fioe_close xd' = (0, xd))
  /\ xnvme_fioe_open xd k (Z.of_nat n) = None
  /\ forall fileno, Z.of_nat n < fileno < 2 ^ 31 ->
       xnvme_fioe_open xd k fileno = Some (1, xd).
Proof.
  intros Hfiles Hn Hlt Hopen Hk.
  assert (Hint : to_int (nallocated xd) = Z.of_nat n)
    by (rewrite Hn; apply to_int_small; lia).
  split; [| split].
  - unfold xnvme_fioe_open. rewrite Hint.
    replace (Z.of_nat k >? Z.of_nat n) with false
      by (symmetry; rewrite Z.gtb_ltb; apply Z.ltb_ge; lia).
    replace (Z.of_nat k <? 0) with false by (symmetry; apply Z.ltb_ge; lia).
    rewrite Nat2Z.id, Hfiles.
    rewrite lookup_map_seq.
    replace (k <? n)%nat with true by (symmetry; apply Nat.ltb_lt; exact Hk).
    cbn [wrapped fio_file Nat.add].
    destruct (decide (Some k = Some k)) as [_ | Hne]; [| congruence].
    eexists. split; [reflexivity |]. cbn [nopen].
    rewrite wrap64_small by lia. split; [reflexivity |].
    unfold xnvme_fioe_close. cbn [prev nopen nallocated files].
    replace (nopen xd + 1 - 1) with (nopen xd) by lia.
    rewrite wrap64_small, <- Hfiles by lia. destruct xd; reflexivity.
  - unfold xnvme_fioe_open. rewrite Hint, Z.gtb_ltb, Z.ltb_irrefl.
    replace (Z.of_nat n <? 0) with false by (symmetry; apply Z.ltb_ge; lia).
    rewrite Nat2Z.id, Hfiles.
    rewrite lookup_map_seq, Nat.ltb_irrefl. reflexivity.
  - intros fileno Hf. unfold xnvme_fioe_open. rewrite Hint.
    replace (fileno >? Z.of_nat n) with true
      by (symmetry; rewrite Z.gtb_ltb; apply Z.ltb_lt; lia).
    reflexivity.
Qed.

Lemma open_close_nothing (k : nat) : open_devs [DevOpen k; DevClose (Some k)] = [].
Proof.
  unfold open_devs, track. cbn. rewrite Nat.eqb_refl. reflexivity.
Qed.

(** X26.  [xnvme_fioe_get_zoned_model] returns 0, 1 or [-EINVAL].  When it
    returns 0, the device it opened is closed again.  When it returns 1, the
    device could not be opened and [*model] is left as it was.  It returns
    [-EINVAL] exactly when it leaves the device open: the geometry type is
    none of the three it knows, [*model] is [ZBD_NONE], and the handle is not
    closed. *)
Theorem zoned_model_error_leaves_device_open (c : enums) (k : nat)
    (filetype : Z) (geo_type : option Z) (model : zbd_zoned_model) :
  let '(ret, m, tr) := xnvme_fioe_get_zoned_model c k filetype geo_type model in
  (ret = 0 \/ ret = 1 \/ ret = - EINVAL)
  /\ (ret = 0 -> open_devs tr = [])
  /\ (ret = 1 -> geo_type = None /\ m = model /\ tr = [])
  /\ (ret = - EINVAL <-> open_devs tr = [k])
  /\ (ret = - EINVAL -> m = ZBD_NONE).
Proof.
  unfold xnvme_fioe_get_zoned_model.
  destruct (negb (filetype =? FIO_TYPE_BLOCK c) && negb (filetype =? FIO_TYPE_CHAR c));
    [| destruct geo_type as [t |];
       [destruct (t =? XNVME_GEO_UNKNOWN c);
        [| destruct (t =? XNVME_GEO_CONVENTIONAL c);
           [| destruct (t =? XNVME_GEO_ZONED c)]] |]];
    repeat split; intros; rewrite ?open_close_nothing in *;
    try reflexivity; auto;
    match goal with H : _ = _ |- _ => vm_compute in H; discriminate H end.
Qed.

End OpenClose.

Section LifecycleWitnesses.
Import Lifecycle.

(** A job of three files, all set up and torn down. *)
Lemma init_then_cleanup_releases_all_witness :
  exists xd tr tr',
    xnvme_fioe_init (thread_ok 3) (good_files 3) = Some (0, Some xd, tr)
    /\ nallocated xd = 3
    /\ files xd = map wrapped (seq 0 3)
    /\ open_devs tr = seq 0 3
    /\ xnvme_fioe_cleanup xd tr = Some (replicate 3 zeroed, tr')
    /\ open_devs tr' = [] /\ live_ctxs tr' = [] /\ live_pools tr' = [].
Proof.
  apply (init_then_cleanup_releases_all (thread_ok 3) 3); reflexivity.
Defined.

(** A job of two files where the request pool of the second cannot be
    allocated (the library answers [-12]). *)
Lemma failed_setup_leaks_device_witness :
  exists xd tr ws tr' w,
    xnvme_fioe_init (thread_ok 2)
      (good_files 1 ++ [{| fileno := 1; open_ok := true; async_init_err := 0;
                           pool_alloc_err := -12; pool_init_err := 0 |}])
    = Some (1, Some xd, tr)
    /\ nallocated xd = 1
    /\ open_devs tr = seq 0 1 ++ [1%nat]
    /\ xnvme_fioe_cleanup xd tr = Some (ws, tr')
    /\ open_devs tr' = [1%nat]
    /\ ws !! 1%nat = Some w /\ dev w = Some 1%nat.
Proof.
  apply (failed_setup_leaks_device (thread_ok 2) 1 2
           {| fileno := 1; open_ok := true; async_init_err := 0;
              pool_alloc_err := -12; pool_init_err := 0 |} []);
    try reflexivity; [lia |].
  split; [reflexivity |]. right. left. discriminate.
Defined.

(** Two files set up, none open yet: the second is opened and closed. *)
Lemma open_counts_and_guard_is_off_by_one_witness :
  (exists xd',
     xnvme_fioe_open two_files 1 1 = Some (0, xd')
     /\ nopen xd' = 1
     /\ xnvme_fioe_close xd' = (0, two_files))
  /\ xnvme_fioe_open two_files 1 2 = None
  /\ forall fileno, 2 < fileno < 2 ^ 31 ->
       xnvme_fioe_open two_files 1 fileno = Some (1, two_files).
Proof.
  apply (open_counts_and_guard_is_off_by_one two_files 2 1);
    try reflexivity; simpl; lia.
Defined.

End LifecycleWitnesses.
